(** * Nexusnext landing page: adaptive quality, scroll progress, scene
      lifecycle and the waitlist endpoint

    Shallow embedding of
    - [src/App.js] and [frontend/src/App.js]: the hooks
      [usePerformanceMonitor] and [useScrollProgress], and the effect
      bodies of [SphereGridScene] and [DnaSceneComponent];
    - [backend/index.js]: [isEmail] and the [POST /api/waitlist] handler.

    JavaScript numbers are IEEE binary64 in [Scroll] (through the
    Standard Library's [SpecFloat]); the per-frame formulas of the scenes
    are modelled over exact rationals. *)

From Stdlib Require Import ZArith QArith Qminmax Qabs Bool List String Ascii.
From Stdlib Require Import Lia Lqa.
From Stdlib Require Import Floats.SpecFloat.
From stdpp Require Import base option list.
Import ListNotations.

Set Default Proof Using "Type".
Set Warnings "-register-all".
Local Open Scope Z_scope.

(* ===================================================================== *)
(** * Adaptive quality selector ([usePerformanceMonitor])                  *)
(* ===================================================================== *)

Module Quality.

(** The three strings the hook returns. *)
Inductive QualityTier := low | medium | high.

(** [navigator.connection], when the browser has it. [effectiveType] may
    itself be undefined. *)
Record Connection := { effectiveType : option string }.

(** The device signals the hook reads. [None] stands for [undefined]. *)
Record Signals := {
  innerWidth : Z;
  hardwareConcurrency : option Z;
  connection : option Connection
}.

(** [x < n] where [x] may be [undefined]: [undefined] converts to [NaN]
    and every comparison with [NaN] is false. *)
Definition js_lt (x : option Z) (n : Z) : bool :=
  match x with
  | Some v => v <? n
  | None => false
  end.

(** [navigator.connection?.effectiveType] *)
Definition connection_effectiveType (s : Signals) : option string :=
  match connection s with
  | Some c => effectiveType c
  | None => None
  end.

(** [x === lit] for a string literal [lit]. *)
Definition strict_eq (x : option string) (lit : string) : bool :=
  match x with
  | Some v => String.eqb v lit
  | None => false
  end.

(** The body shared by the [useState] initialiser and the timeout
    callback. *)
Definition classify (s : Signals) : QualityTier :=
  let mobile := innerWidth s <? 768 in
  let lowEnd := js_lt (hardwareConcurrency s) 4 in
  let slowConnection :=
    strict_eq (connection_effectiveType s) "slow-2g"
    || strict_eq (connection_effectiveType s) "2g" in
  if mobile || lowEnd || slowConnection then low
  else if innerWidth s <? 1024 then medium
  else high.

(** State of one mounted hook: the React state [quality] and the closure
    variable [timeoutId] (the delay left on the pending timer, in ms). *)
Record Hook := {
  quality : QualityTier;
  timeoutId : option nat
}.

(** [useState(() => ...)] on mount. *)
Definition usePerformanceMonitor (s : Signals) : Hook :=
  {| quality := classify s; timeoutId := None |}.

(** The resize listener [update]: [clearTimeout] then [setTimeout(.., 100)]. *)
Definition update (h : Hook) : Hook :=
  {| quality := quality h; timeoutId := Some 100%nat |}.

(** The timeout callback, run by the browser with the signals current at
    that moment. *)
Definition on_timeout (s : Signals) (h : Hook) : Hook :=
  {| quality := classify s; timeoutId := None |}.

Inductive Event :=
| Resize                      (* a resize event is dispatched *)
| Elapse (ms : nat)           (* time passes *)
| SignalsChange (s : Signals) (* the device signals change *).

(** One browser step: the signals in force and the hook. *)
Definition step (st : Signals * Hook) (e : Event) : Signals * Hook :=
  let (s, h) := st in
  match e with
  | Resize => (s, update h)
  | SignalsChange s' => (s', h)
  | Elapse ms =>
      match timeoutId h with
      | Some remaining =>
          if (remaining <=? ms)%nat then (s, on_timeout s h)
          else (s, {| quality := quality h;
                      timeoutId := Some (remaining - ms)%nat |})
      | None => (s, h)
      end
  end.

Definition run (s0 : Signals) (evs : list Event) : Signals * Hook :=
  fold_left step evs (s0, usePerformanceMonitor s0).

(** The classification as the specification words it. *)
Definition low_condition (s : Signals) : Prop :=
  innerWidth s < 768
  \/ (exists n, hardwareConcurrency s = Some n /\ n < 4)
  \/ connection_effectiveType s = Some "2g"%string
  \/ connection_effectiveType s = Some "slow-2g"%string.

Definition tier_spec (s : Signals) (q : QualityTier) : Prop :=
  (low_condition s /\ q = low)
  \/ (~ low_condition s /\ 768 <= innerWidth s < 1024 /\ q = medium)
  \/ (~ low_condition s /\ ~ (768 <= innerWidth s < 1024) /\ q = high).

End Quality.

(* ===================================================================== *)
(** * Scroll progress tracker ([useScrollProgress])                        *)
(* ===================================================================== *)

Module Scroll.

(** JavaScript numbers: IEEE 754 binary64. *)
Definition prec : Z := 53.
Definition emax : Z := 1024.
Abbreviation number := spec_float.

Definition of_Z (n : Z) : number := binary_normalize prec emax n 0 false.
Definition num_0 : number := S754_zero false.
Definition num_1 : number := Eval cbv in of_Z 1.
Definition num_800 : number := Eval cbv in of_Z 800.

Definition div (x y : number) : number := SFdiv prec emax x y.
Definition leb (x y : number) : bool := SFleb x y.

(** [Math.max(a, b)]: [NaN] if either argument is [NaN]; [+0] is larger
    than [-0]. *)
Definition Math_max (a b : number) : number :=
  match SFcompare a b with
  | None => S754_nan
  | Some Gt => a
  | Some Lt => b
  | Some Eq =>
      match a, b with
      | S754_zero true, S754_zero false => b
      | _, _ => a
      end
  end.

(** [Math.min(a, b)]: [NaN] if either argument is [NaN]; [-0] is smaller
    than [+0]. *)
Definition Math_min (a b : number) : number :=
  match SFcompare a b with
  | None => S754_nan
  | Some Lt => a
  | Some Gt => b
  | Some Eq =>
      match a, b with
      | S754_zero false, S754_zero true => b
      | _, _ => a
      end
  end.

(** [Math.min(Math.max(window.scrollY / 800, 0), 1)] *)
Definition progress (scrollY : number) : number :=
  Math_min (Math_max (div scrollY num_800) num_0) num_1.

(** The hook: the React state [scrollProgress] and the ref [rafId]
    ([None] for [undefined]/[null]; handles are positive integers). *)
Record Hook := {
  scrollProgress : number;
  rafId : option positive;
  nextHandle : positive      (* the browser's handle counter *)
}.

(** [if (rafId.current) return;
    rafId.current = requestAnimationFrame(...)] *)
Definition updateScroll (h : Hook) : Hook :=
  match rafId h with
  | Some _ => h
  | None =>
      {| scrollProgress := scrollProgress h;
         rafId := Some (nextHandle h);
         nextHandle := Pos.succ (nextHandle h) |}
  end.

(** [useState(0)], [useRef()], then the effect calls [updateScroll()]. *)
Definition useScrollProgress : Hook :=
  updateScroll {| scrollProgress := num_0; rafId := None; nextHandle := 1 |}.

(** The callback given to [requestAnimationFrame], run with the value of
    [window.scrollY] at that moment. *)
Definition on_frame (scrollY : number) (h : Hook) : Hook :=
  {| scrollProgress := progress scrollY;
     rafId := None;
     nextHandle := nextHandle h |}.

Inductive Event :=
| ScrollEvent                    (* a scroll event calls [updateScroll] *)
| AnimationFrame (scrollY : number)  (* the display refreshes *).

(** One browser step of a hook whose effect ran at mount and was not
    cleaned up since: the ref then holds a handle exactly when the browser
    holds the frame callback, so a display refresh runs the callback when
    the ref is set. The hook with its effect's cleanup, which cancels the
    callback and leaves the handle in the ref, is [HookEffects.Scrolling]
    below. *)
Definition step (h : Hook) (e : Event) : Hook :=
  match e with
  | ScrollEvent => updateScroll h
  | AnimationFrame y =>
      match rafId h with
      | Some _ => on_frame y h
      | None => h
      end
  end.

Definition run (evs : list Event) : Hook :=
  fold_left step evs useScrollProgress.

(** [window.scrollY] is never negative and never [NaN]. *)
Definition event_ok (e : Event) : Prop :=
  match e with
  | ScrollEvent => True
  | AnimationFrame y => leb num_0 y = true
  end.

Definition in_unit_interval (x : number) : Prop :=
  leb num_0 x = true /\ leb x num_1 = true.

End Scroll.

(* ===================================================================== *)
(** * Waitlist endpoint ([backend/index.js])                               *)
(* ===================================================================== *)

Module Waitlist.

(** JavaScript strings are sequences of UTF-16 code units. *)
Definition jsstring := list N.

Definition lit (s : string) : jsstring :=
  map N_of_ascii (list_ascii_of_string s).

(** ** Regular expressions

    The pattern language the validator needs. A pattern written
    [/^ ... $/] without flags is matched against the whole string. *)
Inductive regex :=
| Void
| Eps
| Sym (f : N -> bool)        (* one code unit of a character class *)
| Cat (r1 r2 : regex)
| Alt (r1 r2 : regex)
| Star (r : regex).

(** [r+] *)
Definition Plus (r : regex) : regex := Cat r (Star r).

Fixpoint nullable (r : regex) : bool :=
  match r with
  | Void => false
  | Eps => true
  | Sym _ => false
  | Cat r1 r2 => nullable r1 && nullable r2
  | Alt r1 r2 => nullable r1 || nullable r2
  | Star _ => true
  end.

Fixpoint deriv (c : N) (r : regex) : regex :=
  match r with
  | Void => Void
  | Eps => Void
  | Sym f => if f c then Eps else Void
  | Cat r1 r2 =>
      if nullable r1 then Alt (Cat (deriv c r1) r2) (deriv c r2)
      else Cat (deriv c r1) r2
  | Alt r1 r2 => Alt (deriv c r1) (deriv c r2)
  | Star r1 => Cat (deriv c r1) (Star r1)
  end.

(** [/^r$/.test(s)] *)
Definition regex_test (r : regex) (s : jsstring) : bool :=
  nullable (fold_left (fun r c => deriv c r) s r).

(** The language of a pattern. *)
Inductive matches : regex -> jsstring -> Prop :=
| MEps : matches Eps []
| MSym f c : f c = true -> matches (Sym f) [c]
| MCat r1 r2 s1 s2 :
    matches r1 s1 -> matches r2 s2 -> matches (Cat r1 r2) (s1 ++ s2)
| MAltL r1 r2 s : matches r1 s -> matches (Alt r1 r2) s
| MAltR r1 r2 s : matches r2 s -> matches (Alt r1 r2) s
| MStar0 r : matches (Star r) []
| MStarS r s1 s2 :
    matches r s1 -> matches (Star r) s2 -> matches (Star r) (s1 ++ s2).

(** [\s]: the code units of WhiteSpace and LineTerminator. *)
Definition is_space (c : N) : bool :=
  ((9 <=? c) && (c <=? 13) || (c =? 32) || (c =? 160) || (c =? 5760)
   || (8192 <=? c) && (c <=? 8202) || (c =? 8232) || (c =? 8233)
   || (c =? 8239) || (c =? 8287) || (c =? 12288) || (c =? 65279))%N.

Definition char_at : N := 64.   (* @ *)
Definition char_dot : N := 46.  (* . *)

(** [[^\s@]] *)
Definition not_space_at (c : N) : bool :=
  negb (is_space c || (c =? char_at)%N).

(** [/^[^\s@]+@[^\s@]+\.[^\s@]+$/] *)
Definition email_regex : regex :=
  Cat (Plus (Sym not_space_at))
   (Cat (Sym (N.eqb char_at))
     (Cat (Plus (Sym not_space_at))
       (Cat (Sym (N.eqb char_dot))
         (Plus (Sym not_space_at))))).

(** ** Values of a parsed JSON body *)
Inductive value :=
| VUndefined
| VNull
| VBool (b : bool)
| VNumber (n : spec_float)
| VString (s : jsstring)
| VObject (props : list (jsstring * value))
| VArray (elems : list value).

Inductive Err := TypeError | Other (tag : nat).

Inductive Completion (A : Type) :=
| Returns (a : A)
| Throws (e : Err).
Arguments Returns {A} a.
Arguments Throws {A} e.

Definition jsstring_eqb (a b : jsstring) : bool :=
  bool_decide (a = b).

Fixpoint own_property (props : list (jsstring * value)) (key : jsstring)
  : value :=
  match props with
  | [] => VUndefined
  | (k, v) :: rest => if jsstring_eqb k key then v else own_property rest key
  end.

(** [const { email } = body]: destructuring [undefined] or [null] throws
    a TypeError; an object yields its property or [undefined]; arrays and
    primitives have no property of that name. *)
Definition destructure_email (body : value) : Completion value :=
  match body with
  | VUndefined | VNull => Throws TypeError
  | VObject props => Returns (own_property props (lit "email"))
  | _ => Returns VUndefined
  end.

(** [typeof email === 'string' && /^[^\s@]+@[^\s@]+\.[^\s@]+$/.test(email)] *)
Definition isEmail (email : value) : bool :=
  match email with
  | VString s => regex_test email_regex s
  | _ => false
  end.

(** [s.includes(t)] *)
Fixpoint starts_with (s t : jsstring) : bool :=
  match t, s with
  | [], _ => true
  | _ :: _, [] => false
  | b :: t', a :: s' => (a =? b)%N && starts_with s' t'
  end.

Fixpoint includes (s t : jsstring) : bool :=
  starts_with s t ||
  match s with
  | [] => false
  | _ :: s' => includes s' t
  end.

(** The [error] member of a Supabase response. *)
Record PostgrestError := { message : jsstring }.

(** What awaiting [supabase.from('waitlist').insert(...)] gives. *)
Inductive InsertResult :=
| Resolved (error : option PostgrestError)
| Rejected (e : Err).

Record Response := { status : nat; json : string * string }.

Inductive Effect :=
| Insert (row : value)      (* the insert request sent to the table *)
| ConsoleError.

Inductive Handled :=
| Responded (r : Response)
| Uncaught (e : Err).

Section Handler.

(** The collaborators of the route: [String.prototype.toLowerCase] and
    the hosted table. *)
Variable toLowerCase : jsstring -> jsstring.
Variable insert : value -> InsertResult.

(** [error && !error.message.toLowerCase().includes('duplicate')] *)
Definition must_throw (error : option PostgrestError) : bool :=
  match error with
  | None => false
  | Some err => negb (includes (toLowerCase (message err)) (lit "duplicate"))
  end.

Definition res_400 : Response :=
  {| status := 400; json := ("error", "Invalid email address")%string |}.
Definition res_200 : Response :=
  {| status := 200; json := ("message", "Successfully added to waitlist.")%string |}.
Definition res_500 : Response :=
  {| status := 500; json := ("error", "Failed to add to waitlist.")%string |}.

(** [app.post('/api/waitlist', async (req, res) => ...)] on [req.body]. *)
Definition post_waitlist (body : value) : Handled * list Effect :=
  match destructure_email body with
  | Throws e => (Uncaught e, [])
  | Returns email =>
      if negb (isEmail email) then (Responded res_400, [])
      else
        match insert email with
        | Rejected _ => (Responded res_500, [Insert email; ConsoleError])
        | Resolved error =>
            if must_throw error
            then (Responded res_500, [Insert email; ConsoleError])
            else (Responded res_200, [Insert email])
        end
  end.

(** The insert succeeded, or failed only with a duplicate-key error. *)
Definition inserted_or_duplicate (r : InsertResult) : Prop :=
  r = Resolved None
  \/ exists err, r = Resolved (Some err)
       /\ includes (toLowerCase (message err)) (lit "duplicate") = true.

End Handler.

(** The pattern in words: a non-empty local part, [@], a non-empty domain
    label, [.], a non-empty suffix, none of them containing white space
    or [@]. *)
Definition part_ok (p : jsstring) : Prop :=
  p <> [] /\ Forall (fun c => not_space_at c = true) p.

Definition email_shape (s : jsstring) : Prop :=
  exists a b c, s = a ++ [char_at] ++ b ++ [char_dot] ++ c
    /\ part_ok a /\ part_ok b /\ part_ok c.

Definition is_email_string (v : value) : Prop :=
  exists s, v = VString s /\ email_shape s.

Definition no_insert (effs : list Effect) : Prop :=
  forall row, ~ In (Insert row) effs.

(** [t] occurs somewhere in [s]. *)
Definition contains (s t : jsstring) : Prop := exists a b, s = a ++ t ++ b.

(** A lower-case ASCII letter or a space. *)
Definition lower_or_space (c : N) : bool :=
  ((c =? 32) || (97 <=? c) && (c <=? 122))%N.

(** What is used of [String.prototype.toLowerCase]: a leading run of
    lower-case ASCII letters and spaces stays as it is. *)
Definition keeps_lower_case (toLowerCase : jsstring -> jsstring) : Prop :=
  forall p s, forallb lower_or_space p = true ->
    exists s', toLowerCase (p ++ s) = p ++ s'.

(** The message of PostgreSQL's unique-violation error (SQLSTATE 23505),
    which the hosted table passes on: the words below, then the name of
    the constraint in double quotes. *)
Definition duplicate_key_message (name : jsstring) : jsstring :=
  lit "duplicate key value violates unique constraint "
  ++ [34%N] ++ name ++ [34%N].

Definition duplicate_key_error (err : PostgrestError) : Prop :=
  exists name, message err = duplicate_key_message name.

(** ASCII lower-casing, for running the handler on examples. *)
Definition ascii_lower (s : jsstring) : jsstring :=
  map (fun c => if (65 <=? c) && (c <=? 90) then c + 32 else c)%N s.

(** A table that accepts "a@b.co", reports a duplicate for "d@b.co" and
    fails otherwise. *)
Definition sample_insert (row : value) : InsertResult :=
  match row with
  | VString s =>
      if jsstring_eqb s (lit "a@b.co") then Resolved None
      else if jsstring_eqb s (lit "d@b.co")
      then Resolved (Some {| message :=
             lit "Duplicate key value violates unique constraint" |})
      else Resolved (Some {| message := lit "connection refused" |})
  | _ => Rejected (Other 0)
  end.

Definition body_of (email : value) : value := VObject [(lit "email", email)].

(** A table in which every address is already present. *)
Definition full_insert (row : value) : InsertResult :=
  Resolved (Some {| message := duplicate_key_message (lit "waitlist_email_key") |}).

End Waitlist.

(* ===================================================================== *)
(** * Scene lifecycle ([SphereGridScene], [DnaSceneComponent])             *)
(* ===================================================================== *)

Module Scene.
Import Quality.
Local Open Scope Q_scope.

(** Values thrown by the graphics library or by the dynamic import. *)
Inductive Err := ImportFailed | LibraryError (code : nat).

(** The calls into the graphics library and the DOM made while a scene
    is constructed, one name per call in the source. *)
Inductive Site :=
| new_Scene | new_PerspectiveCamera | new_WebGLRenderer
| renderer_setSize | renderer_setClearColor | renderer_setPixelRatio
| mount_appendChild
| new_SphereGeometry | new_MeshPhysicalMaterial | new_Mesh | scene_add_sphere
| new_EdgesGeometry | new_LineBasicMaterial | new_LineSegments
| sphere_add_wireframe
| new_BufferGeometry | particles_setAttribute | new_PointsMaterial
| new_Points | scene_add_particles | scene_add_AmbientLight
| window_addEventListener
| new_Group | new_CatmullRomCurve3_1 | new_CatmullRomCurve3_2
| new_TubeGeometry_1 | new_TubeGeometry_2
| new_MeshBasicMaterial_1 | new_MeshBasicMaterial_2
| new_Mesh_strand1 | new_Mesh_strand2 | helixGroup_add_strands
| new_CylinderGeometry (i : nat) | new_MeshBasicMaterial_rung (i : nat)
| new_Mesh_rung (i : nat) | helixGroup_add_rung (i : nat)
| scene_add_helixGroup.

(** Objects that hold GPU memory until [dispose()] is called on them. *)
Inductive Kind := Geometry | Material | Renderer.

Record Resource := {
  kind : Kind;
  disposals : nat        (* how many times [dispose()] was called *)
}.

Inductive Outcome (A : Type) :=
| Normal (a : A)
| Thrown (e : Err).
Arguments Normal {A} a.
Arguments Thrown {A} e.

(** State of the promise returned by the async construction function:
    pending, or fulfilled with a cleanup function or with [undefined]. *)
Inductive Promise := Pending | Fulfilled (returns_cleanup : bool).

Section World.

(** [Data]: the objects of a constructed scene; [Locals]: the [let]
    variables of the animation loop. *)
Context {Data Locals : Type}.

(** The variables one run of the effect closes over. *)
Record Closure := {
  mounted : bool;                  (* [mounted] / [isMounted] *)
  animationFrame : option nat;     (* [animationFrame] / [animationId] *)
  quality : QualityTier;           (* prop *)
  scrollProgress : Q;              (* prop *)
  locals : Locals;
  consts : option Data;            (* the [const]s of the construction *)
  promise : Promise;               (* what the async function returned *)
  reactions : nat                  (* [then] callbacks waiting on it *)
}.

(** One mounted component and the part of the browser it touches. *)
Record World := {
  heap : list Resource;            (* a resource's id is its index *)
  children : list nat;             (* canvases under the mount container,
                                      named by their renderer *)
  mountRef : bool;                 (* [mountRef.current] is set *)
  isLoaded : bool;                 (* React state *)
  console : list Err;              (* [console.error] calls *)
  renderCalls : list nat;          (* [renderer.render] calls, by renderer *)
  frameRequests : list (nat * nat);(* pending animation-frame callbacks:
                                      handle and closure *)
  nextHandle : nat;
  resizeListeners : list nat;      (* closures with a resize listener *)
  closures : list Closure;
  current : option nat;            (* the effect run React will clean up *)
  sceneDataRef : option Data;      (* [sceneDataRef.current] *)
  microtasks : list nat            (* promise reaction jobs, by closure *)
}.

Definition initial_world : World :=
  {| heap := []; children := []; mountRef := true; isLoaded := false;
     console := []; renderCalls := []; frameRequests := []; nextHandle := 1;
     resizeListeners := []; closures := []; current := None;
     sceneDataRef := None; microtasks := [] |}.

(** *** Field updates *)

Definition with_heap (h : list Resource) (w : World) : World :=
  {| heap := h; children := children w; mountRef := mountRef w;
     isLoaded := isLoaded w; console := console w;
     renderCalls := renderCalls w; frameRequests := frameRequests w;
     nextHandle := nextHandle w; resizeListeners := resizeListeners w;
     closures := closures w; current := current w;
     sceneDataRef := sceneDataRef w; microtasks := microtasks w |}.

Definition with_children (c : list nat) (w : World) : World :=
  {| heap := heap w; children := c; mountRef := mountRef w;
     isLoaded := isLoaded w; console := console w;
     renderCalls := renderCalls w; frameRequests := frameRequests w;
     nextHandle := nextHandle w; resizeListeners := resizeListeners w;
     closures := closures w; current := current w;
     sceneDataRef := sceneDataRef w; microtasks := microtasks w |}.

Definition with_mountRef (b : bool) (w : World) : World :=
  {| heap := heap w; children := children w; mountRef := b;
     isLoaded := isLoaded w; console := console w;
     renderCalls := renderCalls w; frameRequests := frameRequests w;
     nextHandle := nextHandle w; resizeListeners := resizeListeners w;
     closures := closures w; current := current w;
     sceneDataRef := sceneDataRef w; microtasks := microtasks w |}.

Definition with_isLoaded (b : bool) (w : World) : World :=
  {| heap := heap w; children := children w; mountRef := mountRef w;
     isLoaded := b; console := console w;
     renderCalls := renderCalls w; frameRequests := frameRequests w;
     nextHandle := nextHandle w; resizeListeners := resizeListeners w;
     closures := closures w; current := current w;
     sceneDataRef := sceneDataRef w; microtasks := microtasks w |}.

Definition with_console (l : list Err) (w : World) : World :=
  {| heap := heap w; children := children w; mountRef := mountRef w;
     isLoaded := isLoaded w; console := l;
     renderCalls := renderCalls w; frameRequests := frameRequests w;
     nextHandle := nextHandle w; resizeListeners := resizeListeners w;
     closures := closures w; current := current w;
     sceneDataRef := sceneDataRef w; microtasks := microtasks w |}.

Definition with_renderCalls (l : list nat) (w : World) : World :=
  {| heap := heap w; children := children w; mountRef := mountRef w;
     isLoaded := isLoaded w; console := console w;
     renderCalls := l; frameRequests := frameRequests w;
     nextHandle := nextHandle w; resizeListeners := resizeListeners w;
     closures := closures w; current := current w;
     sceneDataRef := sceneDataRef w; microtasks := microtasks w |}.

Definition with_frameRequests (l : list (nat * nat)) (n : nat) (w : World)
  : World :=
  {| heap := heap w; children := children w; mountRef := mountRef w;
     isLoaded := isLoaded w; console := console w;
     renderCalls := renderCalls w; frameRequests := l;
     nextHandle := n; resizeListeners := resizeListeners w;
     closures := closures w; current := current w;
     sceneDataRef := sceneDataRef w; microtasks := microtasks w |}.

Definition with_resizeListeners (l : list nat) (w : World) : World :=
  {| heap := heap w; children := children w; mountRef := mountRef w;
     isLoaded := isLoaded w; console := console w;
     renderCalls := renderCalls w; frameRequests := frameRequests w;
     nextHandle := nextHandle w; resizeListeners := l;
     closures := closures w; current := current w;
     sceneDataRef := sceneDataRef w; microtasks := microtasks w |}.

Definition with_closures (l : list Closure) (w : World) : World :=
  {| heap := heap w; children := children w; mountRef := mountRef w;
     isLoaded := isLoaded w; console := console w;
     renderCalls := renderCalls w; frameRequests := frameRequests w;
     nextHandle := nextHandle w; resizeListeners := resizeListeners w;
     closures := l; current := current w;
     sceneDataRef := sceneDataRef w; microtasks := microtasks w |}.

Definition with_current (c : option nat) (w : World) : World :=
  {| heap := heap w; children := children w; mountRef := mountRef w;
     isLoaded := isLoaded w; console := console w;
     renderCalls := renderCalls w; frameRequests := frameRequests w;
     nextHandle := nextHandle w; resizeListeners := resizeListeners w;
     closures := closures w; current := c;
     sceneDataRef := sceneDataRef w; microtasks := microtasks w |}.

Definition with_sceneDataRef (d : option Data) (w : World) : World :=
  {| heap := heap w; children := children w; mountRef := mountRef w;
     isLoaded := isLoaded w; console := console w;
     renderCalls := renderCalls w; frameRequests := frameRequests w;
     nextHandle := nextHandle w; resizeListeners := resizeListeners w;
     closures := closures w; current := current w;
     sceneDataRef := d; microtasks := microtasks w |}.

Definition with_microtasks (l : list nat) (w : World) : World :=
  {| heap := heap w; children := children w; mountRef := mountRef w;
     isLoaded := isLoaded w; console := console w;
     renderCalls := renderCalls w; frameRequests := frameRequests w;
     nextHandle := nextHandle w; resizeListeners := resizeListeners w;
     closures := closures w; current := current w;
     sceneDataRef := sceneDataRef w; microtasks := l |}.

Definition with_mounted (b : bool) (c : Closure) : Closure :=
  {| mounted := b; animationFrame := animationFrame c; quality := quality c;
     scrollProgress := scrollProgress c; locals := locals c;
     consts := consts c; promise := promise c; reactions := reactions c |}.

Definition with_animationFrame (h : option nat) (c : Closure) : Closure :=
  {| mounted := mounted c; animationFrame := h; quality := quality c;
     scrollProgress := scrollProgress c; locals := locals c;
     consts := consts c; promise := promise c; reactions := reactions c |}.

Definition with_locals (l : Locals) (c : Closure) : Closure :=
  {| mounted := mounted c; animationFrame := animationFrame c;
     quality := quality c; scrollProgress := scrollProgress c; locals := l;
     consts := consts c; promise := promise c; reactions := reactions c |}.

Definition with_consts (d : option Data) (c : Closure) : Closure :=
  {| mounted := mounted c; animationFrame := animationFrame c;
     quality := quality c; scrollProgress := scrollProgress c;
     locals := locals c; consts := d; promise := promise c;
     reactions := reactions c |}.

Definition with_promise (p : Promise) (n : nat) (c : Closure) : Closure :=
  {| mounted := mounted c; animationFrame := animationFrame c;
     quality := quality c; scrollProgress := scrollProgress c;
     locals := locals c; consts := consts c; promise := p; reactions := n |}.

(** *** Computations on the world that may throw *)

Definition M (A : Type) : Type := World -> Outcome A * World.

Definition ret {A} (a : A) : M A := fun w => (Normal a, w).

Definition bind {A B} (m : M A) (k : A -> M B) : M B :=
  fun w =>
    match m w with
    | (Normal a, w') => k a w'
    | (Thrown e, w') => (Thrown e, w')
    end.

Definition throw {A} (e : Err) : M A := fun w => (Thrown e, w).

(** [try { m } catch (e) { handler(e) }] *)
Definition try_catch {A} (m : M A) (handler : Err -> M A) : M A :=
  fun w =>
    match m w with
    | (Normal a, w') => (Normal a, w')
    | (Thrown e, w') => handler e w'
    end.

Definition gets {A} (f : World -> A) : M A := fun w => (Normal (f w), w).
Definition modify (f : World -> World) : M unit := fun w => (Normal tt, f w).

End World.

Arguments Closure : clear implicits.
Arguments World : clear implicits.
Arguments M : clear implicits.

Declare Scope js_scope.
Delimit Scope js_scope with js.
Notation "x <- m ;; k" := (bind m (fun x => k))
  (at level 100, m at next level, right associativity) : js_scope.
Notation "m ;; k" := (bind m (fun _ => k))
  (at level 100, right associativity) : js_scope.
Local Open Scope js_scope.

(** ** The browser and library calls the scenes make *)

Definition Qltb (x y : Q) : bool := negb (Qle_bool y x).

Section Primitives.

Context {Data Locals : Type}.

(** Which library calls fail, and with what. *)
Variable throws : Site -> option Err.

Definition call (s : Site) : M Data Locals unit :=
  fun w =>
    match throws s with
    | Some e => (Thrown e, w)
    | None => (Normal tt, w)
    end.

(** A constructor whose object holds GPU memory: the new object's id. *)
Definition new_resource (s : Site) (k : Kind) : M Data Locals nat :=
  call s ;;
  id <- gets (fun w => length (heap w)) ;;
  modify (fun w =>
    with_heap (heap w ++ [{| kind := k; disposals := 0 |}]) w) ;;
  ret id.

Definition disposed_once_more (r : Resource) : Resource :=
  {| kind := kind r; disposals := S (disposals r) |}.

(** [x.dispose()] *)
Definition dispose (id : nat) : M Data Locals unit :=
  modify (fun w => with_heap (alter disposed_once_more id (heap w)) w).

(** [mount.appendChild(renderer.domElement)] *)
Definition appendChild (canvas : nat) : M Data Locals unit :=
  call mount_appendChild ;;
  modify (fun w => with_children (children w ++ [canvas]) w).

(** [mount.contains(renderer.domElement)] *)
Definition contains (canvas : nat) : M Data Locals bool :=
  gets (fun w => bool_decide (canvas ∈ children w)).

(** [mount.removeChild(renderer.domElement)]: throws when the node is
    not a child. *)
Definition removeChild (canvas : nat) : M Data Locals unit :=
  fun w =>
    if bool_decide (canvas ∈ children w)
    then (Normal tt,
          with_children (filter (fun c => c ≠ canvas) (children w)) w)
    else (Thrown (LibraryError 8), w).

(** [renderer.render(scene, camera)] *)
Definition render (r : nat) : M Data Locals unit :=
  modify (fun w => with_renderCalls (renderCalls w ++ [r]) w).

(** [requestAnimationFrame(animate)] from closure [i]. *)
Definition requestAnimationFrame (i : nat) : M Data Locals nat :=
  h <- gets nextHandle ;;
  modify (fun w => with_frameRequests (frameRequests w ++ [(h, i)]) (S h) w) ;;
  ret h.

(** [cancelAnimationFrame(h)]; [None] is [undefined] or [null]. *)
Definition cancelAnimationFrame (h : option nat) : M Data Locals unit :=
  match h with
  | Some h =>
      modify (fun w =>
        with_frameRequests
          (filter (fun r => fst r ≠ h) (frameRequests w)) (nextHandle w) w)
  | None => ret tt
  end.

Definition console_error (e : Err) : M Data Locals unit :=
  modify (fun w => with_console (console w ++ [e]) w).

Definition setIsLoaded (b : bool) : M Data Locals unit :=
  modify (with_isLoaded b).

(** [window.addEventListener("resize", onResize)] of closure [i]. *)
Definition addResizeListener (i : nat) : M Data Locals unit :=
  call window_addEventListener ;;
  modify (fun w => with_resizeListeners (resizeListeners w ++ [i]) w).

Definition removeResizeListener (i : nat) : M Data Locals unit :=
  modify (fun w =>
    with_resizeListeners (filter (fun j => j ≠ i) (resizeListeners w)) w).

(** Run [k] on closure [i]; nothing runs for a closure that was never
    created. *)
Definition in_closure {A} (i : nat) (dflt : A)
    (k : Closure Data Locals -> M Data Locals A) : M Data Locals A :=
  fun w =>
    match closures w !! i with
    | Some c => k c w
    | None => (Normal dflt, w)
    end.

Definition update_closure (i : nat)
    (f : Closure Data Locals -> Closure Data Locals) : M Data Locals unit :=
  modify (fun w => with_closures (alter f i (closures w)) w).

(** The effect body starts: [let mounted = true; let animationId = null]
    and the async function is called. *)
Definition new_closure (q : QualityTier) (s : Q) (l : Locals)
  : M Data Locals nat :=
  i <- gets (fun w => length (closures w)) ;;
  modify (fun w =>
    with_closures
      (closures w ++
         [{| mounted := true; animationFrame := None; quality := q;
             scrollProgress := s; locals := l; consts := None;
             promise := Pending; reactions := 0 |}]) w) ;;
  ret i.

(** The async function of closure [i] returns: its promise is fulfilled
    and the waiting [then] callbacks are queued. *)
Definition fulfil (i : nat) (returns_cleanup : bool) : M Data Locals unit :=
  in_closure i tt (fun c =>
    modify (fun w =>
      with_microtasks (microtasks w ++ repeat i (reactions c)) w) ;;
    update_closure i (with_promise (Fulfilled returns_cleanup) 0)).

(** [promise.then(f)] on the promise of closure [i]. *)
Definition promise_then (i : nat) : M Data Locals unit :=
  in_closure i tt (fun c =>
    match promise c with
    | Fulfilled _ => modify (fun w => with_microtasks (microtasks w ++ [i]) w)
    | Pending => update_closure i (with_promise Pending (S (reactions c)))
    end).

End Primitives.

(** A component as React and the browser drive it. *)
Record Component {Data Locals : Type} := {
  (* the effect body, for the props of this render *)
  effect : QualityTier -> Q -> M Data Locals nat;
  (* the function the effect returned *)
  effect_cleanup : nat -> M Data Locals unit;
  (* the async function resumes after [await import('three')] *)
  resume : nat -> Outcome unit -> Q -> M Data Locals unit;
  (* the callback given to [requestAnimationFrame] *)
  frame_callback : nat -> Q -> M Data Locals unit;
  (* the reaction [cleanupFn => cleanupFn && cleanupFn()] *)
  reaction : nat -> M Data Locals unit
}.
Arguments Component : clear implicits.

Section Driver.

Context {Data Locals : Type}.
Variable C : Component Data Locals.

(** What an uncaught exception of a callback leaves: the world as it
    was when thrown. *)
Definition run_callback (m : M Data Locals unit) (w : World Data Locals)
  : World Data Locals := snd (m w).

(** The microtask checkpoint: the queued reactions run in order. *)
Definition drain (w : World Data Locals) : World Data Locals :=
  fold_left (fun w i => run_callback (reaction C i) w)
            (microtasks w) (with_microtasks [] w).

(** React commits a render with (new) props: the previous effect is
    cleaned up, then the effect runs. *)
Definition commit (q : QualityTier) (s : Q) (w : World Data Locals)
  : World Data Locals :=
  let w1 :=
    match current w with
    | Some i => run_callback (effect_cleanup C i) w
    | None => w
    end in
  let '(r, w2) := effect C q s w1 in
  let w3 := match r with
            | Normal i => with_current (Some i) w2
            | Thrown _ => w2
            end in
  drain w3.

(** React unmounts the component: the ref is cleared and the effect is
    cleaned up. *)
Definition unmount (w : World Data Locals) : World Data Locals :=
  let w1 := with_mountRef false w in
  let w2 :=
    match current w1 with
    | Some i => run_callback (effect_cleanup C i) w1
    | None => w1
    end in
  drain (with_current None w2).

(** The dynamic import of closure [i] settles at time [now]. *)
Definition import_settled (i : nat) (imported : Outcome unit) (now : Q)
    (w : World Data Locals) : World Data Locals :=
  drain (run_callback (resume C i imported now) w).

(** The display refreshes at time [t]: the callbacks requested so far
    run, each once. *)
Definition animation_frame (t : Q) (w : World Data Locals)
  : World Data Locals :=
  fold_left (fun w r => run_callback (frame_callback C (snd r) t) w)
            (frameRequests w)
            (with_frameRequests [] (nextHandle w) w).

Inductive Event :=
| Commit (q : QualityTier) (s : Q)
| Unmount
| ImportSettled (i : nat) (imported : Outcome unit) (now : Q)
| AnimationFrame (t : Q).

Definition step (w : World Data Locals) (e : Event) : World Data Locals :=
  match e with
  | Commit q s => commit q s w
  | Unmount => unmount w
  | ImportSettled i imported now => import_settled i imported now w
  | AnimationFrame t => animation_frame t w
  end.

Definition run (evs : list Event) : World Data Locals :=
  fold_left step evs initial_world.

End Driver.

(** The GPU objects on which [dispose()] was never called. *)
Definition live {Data Locals} (w : World Data Locals) : list nat :=
  filter (fun id => bool_decide (disposals <$> heap w !! id = Some 0%nat))
         (seq 0 (length (heap w))).

(** ** The effect of a scene component

    [SphereGridScene] and [DnaSceneComponent] wrap their construction in
    the same effect; the two files differ in what the effect's cleanup
    does. The wrappers are written once, over the parts that differ:
    the constructor calls, the variables of the animation loop, the loop
    itself and the cleanup function the async function returns. *)

Section Lifecycle.

Context {Data Locals : Type}.
Variable throws : Site -> option Err.

(* from [new THREE.Scene()] to the ambient light *)
Variable build : Closure Data Locals -> M Data Locals Data.
(* [let time = 0, ...] before [animate] is defined *)
Variable loop_locals : Closure Data Locals -> Q -> Locals.
Variable animate : nat -> Q -> M Data Locals unit.
Variable cleanupFn : nat -> M Data Locals unit.

(** [const THREE = await import('three')]: a rejected import throws at
    the [await]. *)
Definition await_import (imported : Outcome unit) : M Data Locals unit :=
  match imported with
  | Normal _ => ret tt
  | Thrown e => throw e
  end.

(** [catch (error) { console.error(.., error); setIsLoaded(true); }] *)
Definition on_error (error : Err) : M Data Locals bool :=
  console_error error ;; setIsLoaded true ;; ret false.

(** *** [src/App.js]: [loadScene], [loadDnaScene] *)

(** The [try] block from the [await] on; the result says whether a
    cleanup function is returned. *)
Definition loadScene_try (i : nat) (imported : Outcome unit)
  : M Data Locals bool :=
  await_import imported ;;
  in_closure i false (fun c =>
    if negb (mounted c) then ret false else
    localMount <- gets mountRef ;;
    if negb localMount then ret false else
    d <- build c ;;
    update_closure i (with_consts (Some d)) ;;
    update_closure i (with_locals (loop_locals c 0)) ;;
    addResizeListener throws i ;;
    animate i 0 ;;
    setIsLoaded true ;;
    ret true).

Definition loadScene_resume (i : nat) (imported : Outcome unit) (now : Q)
  : M Data Locals unit :=
  in_closure i tt (fun c =>
    match promise c with
    | Fulfilled _ => ret tt        (* an [await] resumes once *)
    | Pending =>
        returned <- try_catch (loadScene_try i imported) on_error ;;
        fulfil i returned
    end).

(** The effect body: [let mounted = true; ...; loadScene();] up to the
    [await]. *)
Definition root_effect (q : QualityTier) (s : Q) (l0 : Locals)
  : M Data Locals nat :=
  new_closure q s l0.

(** [return () => { mounted = false; };] *)
Definition root_effect_cleanup (i : nat) : M Data Locals unit :=
  update_closure i (with_mounted false).

Definition RootComponent (l0 : Locals) : Component Data Locals :=
  {| effect := fun q s => root_effect q s l0;
     effect_cleanup := root_effect_cleanup;
     resume := loadScene_resume;
     frame_callback := animate;
     reaction := fun _ => ret tt |}.

(** *** [frontend/src/App.js]: [initScene] *)

Definition initScene_try (i : nat) (imported : Outcome unit) (now : Q)
  : M Data Locals bool :=
  await_import imported ;;
  in_closure i false (fun c =>
    ref <- gets mountRef ;;
    if negb (mounted c) || negb ref then ret false else
    d <- build c ;;
    modify (with_sceneDataRef (Some d)) ;;
    update_closure i (with_locals (loop_locals c now)) ;;
    addResizeListener throws i ;;
    h <- requestAnimationFrame i ;;
    update_closure i (with_animationFrame (Some h)) ;;
    setIsLoaded true ;;
    ret true).

Definition initScene_resume (i : nat) (imported : Outcome unit) (now : Q)
  : M Data Locals unit :=
  in_closure i tt (fun c =>
    match promise c with
    | Fulfilled _ => ret tt        (* returned before the [await] *)
    | Pending =>
        returned <- try_catch (initScene_try i imported now) on_error ;;
        fulfil i returned
    end).

(** The effect body: [let isMounted = true; let animationId = null; ...;
    const cleanup = initScene();] up to the [await]; [initScene] starts
    with [if (!mountRef.current) return;]. *)
Definition frontend_effect (q : QualityTier) (s : Q) (l0 : Locals)
  : M Data Locals nat :=
  i <- new_closure q s l0 ;;
  ref <- gets mountRef ;;
  (if negb ref then fulfil i false else ret tt) ;;
  ret i.

(** [return () => { isMounted = false;
      if (cleanup && typeof cleanup.then === 'function')
        cleanup.then(cleanupFn => cleanupFn && cleanupFn()); };] *)
Definition frontend_effect_cleanup (i : nat) : M Data Locals unit :=
  update_closure i (with_mounted false) ;;
  promise_then i.

(** [cleanupFn => cleanupFn && cleanupFn()] *)
Definition frontend_reaction (i : nat) : M Data Locals unit :=
  in_closure i tt (fun c =>
    match promise c with
    | Fulfilled true => cleanupFn i
    | _ => ret tt
    end).

Definition FrontendComponent (l0 : Locals) : Component Data Locals :=
  {| effect := fun q s => frontend_effect q s l0;
     effect_cleanup := frontend_effect_cleanup;
     resume := initScene_resume;
     frame_callback := animate;
     reaction := frontend_reaction |}.

End Lifecycle.

(** ** The sphere scene *)

Module Sphere.

(** The fields the animation loop writes: rotations and scale of the
    meshes, opacities of the materials. *)
Record SphereObjects := {
  sphere_rotation_x : Q;
  sphere_rotation_y : Q;
  particles_rotation_x : Q;
  particles_rotation_y : Q;
  sphere_scale : Q;
  material_opacity : Q;
  edgesMaterial_opacity : Q;
  particlesMaterial_opacity : Q
}.

Record SphereData := {
  renderer : nat;
  geometry : nat;
  material : nat;
  edgesGeometry : nat;
  edgesMaterial : nat;
  particlesGeometry : nat;
  particlesMaterial : nat;
  objects : SphereObjects
}.

Definition with_objects (o : SphereObjects) (d : SphereData) : SphereData :=
  {| renderer := renderer d; geometry := geometry d; material := material d;
     edgesGeometry := edgesGeometry d; edgesMaterial := edgesMaterial d;
     particlesGeometry := particlesGeometry d;
     particlesMaterial := particlesMaterial d; objects := o |}.

(** [let time = 0, lastTime = ...] *)
Record SphereLocals := { time : Q; lastTime : Q }.

(** The values the constructors are given. *)
Definition sphere_objects_0 : SphereObjects :=
  {| sphere_rotation_x := 0; sphere_rotation_y := 0;
     particles_rotation_x := 0; particles_rotation_y := 0;
     sphere_scale := 1;
     material_opacity := 0.7; edgesMaterial_opacity := 0.38;
     particlesMaterial_opacity := 0.45 |}.

Definition sphere_locals_0 : SphereLocals := {| time := 0; lastTime := 0 |}.

Section Sphere.

Variable Math_sin : Q -> Q.
Variable throws : Site -> option Err.

Abbreviation SM := (M SphereData SphereLocals).

(** [const sOpacity = Math.max(0.2, 1 - scrollProgress * 0.8)] *)
Definition sOpacity (s : Q) : Q := Qmax 0.2 (1 - s * 0.8).

(** The writes of one processed frame, the same in both files; [t] is
    [time] after [time += 0.009]. *)
Definition frame (s t : Q) (o : SphereObjects) : SphereObjects :=
  {| sphere_rotation_y := sphere_rotation_y o + (0.004 + s * 0.01);
     sphere_rotation_x := sphere_rotation_x o + (0.002 + s * 0.003);
     particles_rotation_y := particles_rotation_y o - (0.001 + s * 0.003);
     particles_rotation_x :=
       particles_rotation_x o + Math_sin (t * 0.5) * 0.0008;
     material_opacity := sOpacity s;
     edgesMaterial_opacity := sOpacity s * 0.6;
     particlesMaterial_opacity := sOpacity s * 0.45;
     sphere_scale := 1 + Math_sin (t * 2) * 0.05 * (1 - s * 0.5) |}.

(** The constructor calls, the same in both files. The typed arrays of
    the particle positions and colours are plain memory, filled from
    [Math.random]; nothing later depends on their contents. *)
Definition build (c : Closure SphereData SphereLocals) : SM SphereData :=
  call throws new_Scene ;;
  call throws new_PerspectiveCamera ;;
  renderer <- new_resource throws new_WebGLRenderer Renderer ;;
  call throws renderer_setSize ;;
  call throws renderer_setClearColor ;;
  call throws renderer_setPixelRatio ;;
  appendChild throws renderer ;;
  geometry <- new_resource throws new_SphereGeometry Geometry ;;
  material <- new_resource throws new_MeshPhysicalMaterial Material ;;
  call throws new_Mesh ;;
  call throws scene_add_sphere ;;
  edgesGeometry <- new_resource throws new_EdgesGeometry Geometry ;;
  edgesMaterial <- new_resource throws new_LineBasicMaterial Material ;;
  call throws new_LineSegments ;;
  call throws sphere_add_wireframe ;;
  particlesGeometry <- new_resource throws new_BufferGeometry Geometry ;;
  call throws particles_setAttribute ;;
  particlesMaterial <- new_resource throws new_PointsMaterial Material ;;
  call throws new_Points ;;
  call throws scene_add_particles ;;
  call throws scene_add_AmbientLight ;;
  ret {| renderer := renderer; geometry := geometry; material := material;
         edgesGeometry := edgesGeometry; edgesMaterial := edgesMaterial;
         particlesGeometry := particlesGeometry;
         particlesMaterial := particlesMaterial;
         objects := sphere_objects_0 |}.

(** *** [src/App.js] *)

(** [let time = 0, lastTime = 0;] *)
Definition root_locals (c : Closure SphereData SphereLocals) (now : Q)
  : SphereLocals := {| time := 0; lastTime := 0 |}.

Definition root_animate (i : nat) (currentTime : Q) : SM unit :=
  in_closure i tt (fun c =>
    if negb (mounted c) then ret tt else
    h <- requestAnimationFrame i ;;
    update_closure i (with_animationFrame (Some h)) ;;
    let deltaTime := currentTime - lastTime (locals c) in
    if Qltb deltaTime 16 then ret tt else
    match consts c with
    | None => ret tt
    | Some d =>
        let t := time (locals c) + 0.009 in
        update_closure i (with_locals {| time := t; lastTime := currentTime |}) ;;
        update_closure i
          (with_consts
             (Some (with_objects (frame (scrollProgress c) t (objects d)) d))) ;;
        render (renderer d)
    end).

(** The function [loadScene] returns on success. Nothing calls it. *)
Definition root_returned_cleanup (i : nat) : SM unit :=
  in_closure i tt (fun c =>
    update_closure i (with_mounted false) ;;
    removeResizeListener i ;;
    cancelAnimationFrame (animationFrame c) ;;
    match consts c with
    | None => ret tt
    | Some d =>
        dispose (geometry d) ;;
        dispose (material d) ;;
        dispose (edgesGeometry d) ;;
        dispose (edgesMaterial d) ;;
        dispose (particlesGeometry d) ;;
        dispose (particlesMaterial d) ;;
        dispose (renderer d) ;;
        inside <- contains (renderer d) ;;
        if inside then removeChild (renderer d) else ret tt
    end).

Definition Root : Component SphereData SphereLocals :=
  RootComponent throws build root_locals root_animate sphere_locals_0.

(** *** [frontend/src/App.js] *)

(** [let time = 0; let lastTime = performance.now();] *)
Definition frontend_locals (c : Closure SphereData SphereLocals) (now : Q)
  : SphereLocals := {| time := 0; lastTime := now |}.

Definition frontend_animate (i : nat) (currentTime : Q) : SM unit :=
  in_closure i tt (fun c =>
    ref <- gets sceneDataRef ;;
    match mounted c, ref with
    | true, Some d =>
        h <- requestAnimationFrame i ;;
        update_closure i (with_animationFrame (Some h)) ;;
        let deltaTime := currentTime - lastTime (locals c) in
        if Qltb deltaTime 16 then ret tt else
        let t := time (locals c) + 0.009 in
        update_closure i (with_locals {| time := t; lastTime := currentTime |}) ;;
        modify (with_sceneDataRef
                  (Some (with_objects
                           (frame (scrollProgress c) t (objects d)) d))) ;;
        render (renderer d)
    | _, _ => ret tt
    end).

(** The cleanup function [initScene] returns on success. *)
Definition frontend_cleanupFn (i : nat) : SM unit :=
  in_closure i tt (fun c =>
    update_closure i (with_mounted false) ;;
    removeResizeListener i ;;
    cancelAnimationFrame (animationFrame c) ;;
    ref <- gets sceneDataRef ;;
    match ref with
    | None => ret tt
    | Some d =>
        dispose (geometry d) ;;
        dispose (edgesGeometry d) ;;
        dispose (particlesGeometry d) ;;
        dispose (material d) ;;
        dispose (edgesMaterial d) ;;
        dispose (particlesMaterial d) ;;
        dispose (renderer d) ;;
        inside <- contains (renderer d) ;;
        (if inside then removeChild (renderer d) else ret tt) ;;
        modify (with_sceneDataRef None)
    end).

Definition Frontend : Component SphereData SphereLocals :=
  FrontendComponent throws build frontend_locals frontend_animate
    frontend_cleanupFn sphere_locals_0.

End Sphere.
End Sphere.


(** ** The DNA helix scene *)

Module Helix.

Record HelixObjects := {
  helixGroup_rotation_x : Q;
  helixGroup_rotation_y : Q;
  helixGroup_scale : Q;
  particles_rotation_y : Q;
  mat1_opacity : Q;
  mat2_opacity : Q;
  rungMat_opacity : Q;
  particlesMaterial_opacity : Q
}.

Record HelixData := {
  renderer : nat;
  geo1 : nat;
  geo2 : nat;
  mat1 : nat;
  mat2 : nat;
  rungs : list (nat * nat);       (* geometry and material of each rung *)
  particlesGeometry : nat;
  particlesMaterial : nat;
  objects : HelixObjects
}.

Definition with_objects (o : HelixObjects) (d : HelixData) : HelixData :=
  {| renderer := renderer d; geo1 := geo1 d; geo2 := geo2 d;
     mat1 := mat1 d; mat2 := mat2 d; rungs := rungs d;
     particlesGeometry := particlesGeometry d;
     particlesMaterial := particlesMaterial d; objects := o |}.

(** [let time = 0;] and, in [frontend/src/App.js],
    [let lastScrollProgress = scrollProgress;] *)
Record HelixLocals := { time : Q; lastScrollProgress : Q }.

Definition helix_locals_0 : HelixLocals :=
  {| time := 0; lastScrollProgress := 0 |}.

Definition segments : nat := 120.

Section Helix.

Variable Math_sin : Q -> Q.
Variable throws : Site -> option Err.

Abbreviation HM := (M HelixData HelixLocals).

(** [for (let i = 0; i < segments; i += 20) { ... }] *)
Fixpoint rungs_loop (fuel i : nat) (acc : list (nat * nat))
  : HM (list (nat * nat)) :=
  match fuel with
  | O => ret acc
  | S fuel' =>
      if (i <? segments)%nat then
        rungGeo <- new_resource throws (new_CylinderGeometry i) Geometry ;;
        rungMat <- new_resource throws (new_MeshBasicMaterial_rung i) Material ;;
        call throws (new_Mesh_rung i) ;;
        call throws (helixGroup_add_rung i) ;;
        rungs_loop fuel' (i + 20)%nat (acc ++ [(rungGeo, rungMat)])
      else ret acc
  end.

(** The constructor calls; [o] holds the opacities the materials are
    created with. The strand points and the particle arrays are plain
    memory; nothing later depends on their contents. *)
Definition build (o : HelixObjects) : HM HelixData :=
  call throws new_Scene ;;
  call throws new_PerspectiveCamera ;;
  renderer <- new_resource throws new_WebGLRenderer Renderer ;;
  call throws renderer_setSize ;;
  call throws renderer_setClearColor ;;
  call throws renderer_setPixelRatio ;;
  appendChild throws renderer ;;
  call throws new_Group ;;
  call throws new_CatmullRomCurve3_1 ;;
  call throws new_CatmullRomCurve3_2 ;;
  geo1 <- new_resource throws new_TubeGeometry_1 Geometry ;;
  geo2 <- new_resource throws new_TubeGeometry_2 Geometry ;;
  mat1 <- new_resource throws new_MeshBasicMaterial_1 Material ;;
  mat2 <- new_resource throws new_MeshBasicMaterial_2 Material ;;
  call throws new_Mesh_strand1 ;;
  call throws new_Mesh_strand2 ;;
  call throws helixGroup_add_strands ;;
  rungs <- rungs_loop segments 0 [] ;;
  call throws scene_add_helixGroup ;;
  particlesGeometry <- new_resource throws new_BufferGeometry Geometry ;;
  call throws particles_setAttribute ;;
  particlesMaterial <- new_resource throws new_PointsMaterial Material ;;
  call throws new_Points ;;
  call throws scene_add_particles ;;
  call throws scene_add_AmbientLight ;;
  ret {| renderer := renderer; geo1 := geo1; geo2 := geo2;
         mat1 := mat1; mat2 := mat2; rungs := rungs;
         particlesGeometry := particlesGeometry;
         particlesMaterial := particlesMaterial; objects := o |}.

(** [list.forEach(f)] *)
Fixpoint forEach {A} (l : list A) (f : A -> HM unit) : HM unit :=
  match l with
  | [] => ret tt
  | x :: l' => f x ;; forEach l' f
  end.

(** *** [src/App.js] *)

Definition root_objects_0 (s : Q) : HelixObjects :=
  {| helixGroup_rotation_x := 0; helixGroup_rotation_y := 0;
     helixGroup_scale := 1; particles_rotation_y := 0;
     mat1_opacity := 0.7 + 0.2 * s;
     mat2_opacity := 0.65 + 0.2 * s;
     rungMat_opacity := 0.5 + 0.3 * s;
     particlesMaterial_opacity := 0.13 + 0.5 * s |}.

Definition root_build (c : Closure HelixData HelixLocals) : HM HelixData :=
  build (root_objects_0 (scrollProgress c)).

Definition root_locals (c : Closure HelixData HelixLocals) (now : Q)
  : HelixLocals := {| time := 0; lastScrollProgress := 0 |}.

(** The writes of one frame; [t] is [time] after [time += 0.011]. *)
Definition root_frame (s t : Q) (o : HelixObjects) : HelixObjects :=
  {| helixGroup_rotation_y := t * 0.35 + 0.033 * s;
     helixGroup_rotation_x := 0.32 * Math_sin (t * 0.32 + 0.15 * s);
     helixGroup_scale := 1.0 + 0.08 * Math_sin (t * 2.5);
     particles_rotation_y := particles_rotation_y o + 0.003;
     mat1_opacity := 0.65 + 0.31 * s;
     mat2_opacity := 0.62 + 0.33 * s;
     rungMat_opacity := rungMat_opacity o;
     particlesMaterial_opacity := particlesMaterial_opacity o |}.

(** [animate] takes no argument: the timestamp is not looked at. *)
Definition root_animate (i : nat) (currentTime : Q) : HM unit :=
  in_closure i tt (fun c =>
    if negb (mounted c) then ret tt else
    h <- requestAnimationFrame i ;;
    update_closure i (with_animationFrame (Some h)) ;;
    match consts c with
    | None => ret tt
    | Some d =>
        let t := time (locals c) + 0.011 in
        update_closure i
          (with_locals {| time := t;
                          lastScrollProgress := lastScrollProgress (locals c) |}) ;;
        update_closure i
          (with_consts
             (Some (with_objects
                      (root_frame (scrollProgress c) t (objects d)) d))) ;;
        render (renderer d)
    end).

(** The function [loadDnaScene] returns on success. Nothing calls it. *)
Definition root_returned_cleanup (i : nat) : HM unit :=
  in_closure i tt (fun c =>
    update_closure i (with_mounted false) ;;
    removeResizeListener i ;;
    cancelAnimationFrame (animationFrame c) ;;
    match consts c with
    | None => ret tt
    | Some d =>
        dispose (geo1 d) ;;
        dispose (geo2 d) ;;
        dispose (mat1 d) ;;
        dispose (mat2 d) ;;
        dispose (particlesGeometry d) ;;
        dispose (particlesMaterial d) ;;
        dispose (renderer d) ;;
        inside <- contains (renderer d) ;;
        if inside then removeChild (renderer d) else ret tt
    end).

Definition Root : Component HelixData HelixLocals :=
  RootComponent throws root_build root_locals root_animate helix_locals_0.

(** *** [frontend/src/App.js] *)

Definition frontend_objects_0 : HelixObjects :=
  {| helixGroup_rotation_x := 0; helixGroup_rotation_y := 0;
     helixGroup_scale := 1; particles_rotation_y := 0;
     mat1_opacity := 0.7;
     mat2_opacity := 0.65;
     rungMat_opacity := 0.5;
     particlesMaterial_opacity := 0.4 |}.

Definition frontend_build (c : Closure HelixData HelixLocals) : HM HelixData :=
  build frontend_objects_0.

(** [let time = 0; let lastScrollProgress = scrollProgress;] *)
Definition frontend_locals (c : Closure HelixData HelixLocals) (now : Q)
  : HelixLocals := {| time := 0; lastScrollProgress := scrollProgress c |}.

(** [Math.abs(lastScrollProgress - scrollProgress) > 0.01] *)
Definition scroll_changed (last s : Q) : bool := Qltb 0.01 (Qabs (last - s)).

Definition frontend_frame (changed : bool) (s t : Q) (o : HelixObjects)
  : HelixObjects :=
  {| helixGroup_rotation_y := t * 0.35;
     helixGroup_rotation_x := 0.32 * Math_sin (t * 0.32);
     helixGroup_scale := 1.0 + 0.08 * Math_sin (t * 2.5);
     particles_rotation_y := particles_rotation_y o + 0.003;
     mat1_opacity := if changed then 0.65 + 0.25 * s else mat1_opacity o;
     mat2_opacity := if changed then 0.62 + 0.28 * s else mat2_opacity o;
     rungMat_opacity := rungMat_opacity o;
     particlesMaterial_opacity :=
       if changed then 0.3 + 0.4 * s else particlesMaterial_opacity o |}.

Definition frontend_animate (i : nat) (currentTime : Q) : HM unit :=
  in_closure i tt (fun c =>
    ref <- gets sceneDataRef ;;
    match mounted c, ref with
    | true, Some d =>
        h <- requestAnimationFrame i ;;
        update_closure i (with_animationFrame (Some h)) ;;
        let t := time (locals c) + 0.011 in
        let changed :=
          scroll_changed (lastScrollProgress (locals c)) (scrollProgress c) in
        update_closure i
          (with_locals
             {| time := t;
                lastScrollProgress :=
                  if changed then scrollProgress c
                  else lastScrollProgress (locals c) |}) ;;
        modify (with_sceneDataRef
                  (Some (with_objects
                           (frontend_frame changed (scrollProgress c) t
                              (objects d)) d))) ;;
        render (renderer d)
    | _, _ => ret tt
    end).

(** The cleanup function [initScene] returns on success. *)
Definition frontend_cleanupFn (i : nat) : HM unit :=
  in_closure i tt (fun c =>
    update_closure i (with_mounted false) ;;
    removeResizeListener i ;;
    cancelAnimationFrame (animationFrame c) ;;
    ref <- gets sceneDataRef ;;
    match ref with
    | None => ret tt
    | Some d =>
        dispose (geo1 d) ;;
        dispose (geo2 d) ;;
        dispose (particlesGeometry d) ;;
        dispose (mat1 d) ;;
        dispose (mat2 d) ;;
        dispose (particlesMaterial d) ;;
        forEach (rungs d) (fun rung => dispose (fst rung) ;; dispose (snd rung)) ;;
        dispose (renderer d) ;;
        inside <- contains (renderer d) ;;
        (if inside then removeChild (renderer d) else ret tt) ;;
        modify (with_sceneDataRef None)
    end).

Definition Frontend : Component HelixData HelixLocals :=
  FrontendComponent throws frontend_build frontend_locals frontend_animate
    frontend_cleanupFn helix_locals_0.

End Helix.
End Helix.

(** ** Observations used in the properties *)

(** No library call fails. *)
Definition no_failure : Site -> option Err := fun _ => None.

(** A placeholder for [Math.sin] when a trace is evaluated. *)
Definition sin_0 (x : Q) : Q := 0.

(** [{!isLoaded && <SceneLoadingFallback />}] *)
Definition placeholder_visible {Data Locals} (w : World Data Locals) : bool :=
  negb (isLoaded w).

(** What closure [i] of a [src/App.js] component holds of its scene. *)
Definition closure_consts {Data Locals} (w : World Data Locals) (i : nat)
  : option Data :=
  match closures w !! i with
  | Some c => consts c
  | None => None
  end.

Definition closure_locals {Data Locals} (w : World Data Locals) (i : nat)
  : option Locals := locals <$> closures w !! i.

(** The helix of [src/App.js] mounted with scroll progress [s], built,
    then shown for the given frames. *)
Definition helix_root_frames (s : Q) (ts : list Q)
  : World Helix.HelixData Helix.HelixLocals :=
  run (Helix.Root sin_0 no_failure)
      ([Commit high s; ImportSettled 0 (Normal tt) 0] ++ map AnimationFrame ts).

Definition helix_root_mat1_opacity (s : Q) : Q :=
  match closure_consts (helix_root_frames s [16]) 0 with
  | Some d => Helix.mat1_opacity (Helix.objects d)
  | None => 0
  end.

(** A sphere mounted at [low], built, then re-rendered at [high] and
    built again: the scenario of a quality change. *)
Definition quality_change : list Event :=
  [Commit low 0; ImportSettled 0 (Normal tt) 0;
   Commit high 0; ImportSettled 1 (Normal tt) 0].

(** A sphere mounted, built, shown for one frame and unmounted; frames
    keep coming. *)
Definition mount_then_unmount : list Event :=
  [Commit high 0; ImportSettled 0 (Normal tt) 0; AnimationFrame 100;
   Unmount; AnimationFrame 200; AnimationFrame 300].

(** The graphics context cannot be created. *)
Definition webgl_unavailable (s : Site) : option Err :=
  match s with
  | new_WebGLRenderer => Some (LibraryError 1)
  | _ => None
  end.

(** A sphere of [src/App.js] mounted where no graphics context can be
    created, its import still pending. *)
Definition no_webgl_mounted
  : World Sphere.SphereData Sphere.SphereLocals :=
  run (Sphere.Root sin_0 webgl_unavailable) [Commit high 0].

(** What a construction step may add to: GPU objects, canvases, render
    calls, frame requests, the shared ref and listeners. *)
Definition same_resources {Data Locals} (w1 w2 : World Data Locals) : Prop :=
  heap w2 = heap w1
  /\ children w2 = children w1
  /\ renderCalls w2 = renderCalls w1
  /\ frameRequests w2 = frameRequests w1
  /\ sceneDataRef w2 = sceneDataRef w1
  /\ resizeListeners w2 = resizeListeners w1.

(** A sphere mounted, its import still pending. *)
Definition sphere_import_pending
  : World Sphere.SphereData Sphere.SphereLocals :=
  run (Sphere.Frontend sin_0 no_failure) [Commit high 0].

(** The two sphere components after the scenarios above. *)
Definition root_sphere_after (evs : list Event)
  : World Sphere.SphereData Sphere.SphereLocals :=
  run (Sphere.Root sin_0 no_failure) evs.

Definition frontend_sphere_after (evs : list Event)
  : World Sphere.SphereData Sphere.SphereLocals :=
  run (Sphere.Frontend sin_0 no_failure) evs.

Definition root_helix_after (evs : list Event)
  : World Helix.HelixData Helix.HelixLocals :=
  run (Helix.Root sin_0 no_failure) evs.

Definition frontend_helix_after (evs : list Event)
  : World Helix.HelixData Helix.HelixLocals :=
  run (Helix.Frontend sin_0 no_failure) evs.

(** Unmounted before the import settles. *)
Definition unmount_while_pending : list Event :=
  [Commit high 0; Unmount; ImportSettled 0 (Normal tt) 0].

(** ** One bundle at a time

    The state of [frontend/src/App.js]'s sphere between two events: the
    GPU objects a construction allocates, the bundle that names them, and
    what holds of the world when a bundle is live and when none is. *)

Definition sphere_resources : list Resource :=
  [{| kind := Renderer; disposals := 0 |};
   {| kind := Geometry; disposals := 0 |};
   {| kind := Material; disposals := 0 |};
   {| kind := Geometry; disposals := 0 |};
   {| kind := Material; disposals := 0 |};
   {| kind := Geometry; disposals := 0 |};
   {| kind := Material; disposals := 0 |}].

(** The GPU objects a bundle names. *)
Definition ids (d : Sphere.SphereData) : list nat :=
  [Sphere.renderer d; Sphere.geometry d; Sphere.material d;
   Sphere.edgesGeometry d; Sphere.edgesMaterial d;
   Sphere.particlesGeometry d; Sphere.particlesMaterial d].

(** The ids of a bundle allocated when the heap held [n] objects. *)
Definition allocated_at (n : nat) (d : Sphere.SphereData) : Prop :=
  ids d = seq n 7.

(** What the lifecycle looks at in a closure. *)
Definition flags {Data Locals} (c : Closure Data Locals)
  : bool * Promise * nat := (mounted c, promise c, reactions c).

(** Two worlds the lifecycle cannot tell apart: they differ at most in
    what the animation loop writes. *)
Definition same_lifecycle
    (w w' : World Sphere.SphereData Sphere.SphereLocals) : Prop :=
  microtasks w' = microtasks w
  /\ current w' = current w
  /\ heap w' = heap w
  /\ children w' = children w
  /\ (forall j, flags <$> closures w' !! j = flags <$> closures w !! j)
  /\ ids <$> sceneDataRef w' = ids <$> sceneDataRef w.

Definition released_once (h : list Resource) : Prop :=
  Forall (fun r => disposals r = 1%nat) h.

Record one_bundle (w : World Sphere.SphereData Sphere.SphereLocals) : Prop := {
  (* no reaction is left in the queue *)
  quiescent : microtasks w = [];
  (* the current effect run is mounted and nothing waits on its promise *)
  current_closure : forall i, current w = Some i ->
    exists c, closures w !! i = Some c
              /\ mounted c = true /\ reactions c = 0%nat;
  (* every other run has its flag cleared *)
  stale_closures : forall j c, closures w !! j = Some c ->
    current w <> Some j -> mounted c = false;
  (* either no bundle is live and nothing is attached or undisposed, or
     exactly the bundle of the current run is *)
  scene :
    match sceneDataRef w with
    | None => children w = [] /\ released_once (heap w)
    | Some d =>
        exists h, heap w = h ++ sphere_resources
          /\ released_once h
          /\ allocated_at (length h) d
          /\ children w = [length h]
          /\ exists i c, current w = Some i /\ closures w !! i = Some c
                         /\ promise c = Fulfilled true
    end
}.

(** The scene part of [one_bundle], for a run whose promise was fulfilled
    with a cleanup function ([b]) or without. *)
Definition scene_of (b : bool)
    (w : World Sphere.SphereData Sphere.SphereLocals) : Prop :=
  match sceneDataRef w with
  | None => children w = [] /\ released_once (heap w)
  | Some d =>
      b = true
      /\ exists h, heap w = h ++ sphere_resources
           /\ released_once h
           /\ allocated_at (length h) d
           /\ children w = [length h]
  end.


(** A sphere mounted, built and shown for one frame. *)
Definition mounted_and_shown : list Event :=
  [Commit high 0; ImportSettled 0 (Normal tt) 0; AnimationFrame 100].

End Scene.

(* ===================================================================== *)
(** * Quality settings ([getQualitySettings])                              *)
(* ===================================================================== *)

Module Settings.
Import Quality.

Record QualitySettings := {
  sphereSegments : Z;
  particleCount : Z;
  particleSize : Q;
  antialias : bool;
  powerPreference : string
}.

(** [quality === "high"] and [quality === "medium"] on the strings the
    hook returns. *)
Definition is_high (q : QualityTier) : bool :=
  match q with high => true | _ => false end.

Definition is_medium (q : QualityTier) : bool :=
  match q with medium => true | _ => false end.

Definition getQualitySettings (quality : QualityTier) : QualitySettings :=
  {| sphereSegments :=
       if is_high quality then 32 else if is_medium quality then 24 else 16;
     particleCount :=
       if is_high quality then 800 else if is_medium quality then 400 else 200;
     particleSize := if is_high quality then 0.12%Q else 0.08%Q;
     antialias := is_high quality;
     powerPreference :=
       if is_high quality then "high-performance"%string
       else "low-power"%string |}.

(** The tiers ordered by rendering cost. *)
Definition tier_rank (q : QualityTier) : Z :=
  match q with low => 0 | medium => 1 | high => 2 end.

(** A burst of resize events: before each one the device signals may
    change, after each one some time passes. *)
Definition burst (l : list (Signals * nat)) : list Event :=
  flat_map (fun p => [SignalsChange (fst p); Resize; Elapse (snd p)]) l.

(** Two devices, for running the hook on examples. *)
Definition phone : Signals :=
  {| innerWidth := 390; hardwareConcurrency := Some 8; connection := None |}.

Definition desktop : Signals :=
  {| innerWidth := 1920; hardwareConcurrency := Some 8; connection := None |}.

End Settings.

(* ===================================================================== *)
(** * Waitlist form ([CtaSection])                                         *)
(* ===================================================================== *)

Module Client.
Import Waitlist.

(** [\S] *)
Definition not_space (c : N) : bool := negb (is_space c).

(** [/\S+@\S+\.\S+/] *)
Definition client_email_regex : regex :=
  Cat (Plus (Sym not_space))
   (Cat (Sym (N.eqb char_at))
     (Cat (Plus (Sym not_space))
       (Cat (Sym (N.eqb char_dot))
         (Plus (Sym not_space))))).

Definition any_char (c : N) : bool := true.

(** [/r/.test(s)] for a pattern without anchors: the pattern may match
    anywhere in the string. *)
Definition regex_search (r : regex) (s : jsstring) : bool :=
  regex_test (Cat (Star (Sym any_char)) (Cat r (Star (Sym any_char)))) s.

(** [const isEmail = (email) => /\S+@\S+\.\S+/.test(email)] *)
Definition isEmail (email : jsstring) : bool :=
  regex_search client_email_regex email.

(** [\S+] in words: a non-empty run without white space. *)
Definition run_ok (p : jsstring) : Prop :=
  p <> [] /\ Forall (fun c => is_space c = false) p.

(** The three pieces of state of the form. [message] holds whatever
    [setMessage] was given. *)
Record Cta := {
  email : jsstring;
  message : value;
  isSubmitting : bool
}.

Definition setEmail (v : jsstring) (st : Cta) : Cta :=
  {| email := v; message := message st; isSubmitting := isSubmitting st |}.

Definition setMessage (v : value) (st : Cta) : Cta :=
  {| email := email st; message := v; isSubmitting := isSubmitting st |}.

Definition setIsSubmitting (b : bool) (st : Cta) : Cta :=
  {| email := email st; message := message st; isSubmitting := b |}.

(** [useState("")], [useState("")], [useState(false)] *)
Definition CtaSection : Cta :=
  {| email := []; message := VString []; isSubmitting := false |}.

(** [!email] on a string *)
Definition is_empty (s : jsstring) : bool :=
  match s with [] => true | _ => false end.

(** [onChange={(e) => setEmail(e.target.value)}]; the input is disabled
    while a request is in flight. *)
Definition onChange (v : jsstring) (st : Cta) : Cta :=
  if isSubmitting st then st else setEmail v st.

(** [disabled={isSubmitting || !email || !isEmail(email)}] *)
Definition button_disabled (st : Cta) : bool :=
  isSubmitting st || is_empty (email st) || negb (isEmail (email st)).

(** [handleSubmit] up to its first [await]: [None] when it returns at the
    guard; otherwise the state shown while the request is in flight and
    the parsed form of the JSON body that is sent. *)
Definition handleSubmit_begin (st : Cta) : option (Cta * value) :=
  if is_empty (email st) || negb (isEmail (email st)) || isSubmitting st
  then None
  else Some (setMessage (VString []) (setIsSubmitting true st),
             body_of (VString (email st))).

(** What the two awaits give: [fetch] rejects, or it resolves to a
    response whose [json()] resolves to a value or rejects. *)
Inductive FetchOutcome :=
| FetchRejected
| Fetched (ok : bool) (body : option value).

(** JavaScript truthiness. *)
Definition truthy (v : value) : bool :=
  match v with
  | VUndefined | VNull => false
  | VBool b => b
  | VNumber (S754_zero _) | VNumber S754_nan => false
  | VNumber _ => true
  | VString s => negb (is_empty s)
  | VObject _ | VArray _ => true
  end.

(** [data.error]: reading a property of [undefined] or [null] throws. *)
Definition get_error (data : value) : Completion value :=
  match data with
  | VUndefined | VNull => Throws TypeError
  | VObject props => Returns (own_property props (lit "error"))
  | _ => Returns VUndefined
  end.

Definition thanks : jsstring := lit "Thanks! You've joined the waitlist.".
Definition failed_to_submit : jsstring :=
  lit "Failed to submit. Please try again.".
Definition network_error : jsstring :=
  lit "Network error. Please try again later.".

(** The [try] block after the request was sent. *)
Definition handleSubmit_try (o : FetchOutcome) (st : Cta) : Completion Cta :=
  match o with
  | FetchRejected => Throws (Other 0)
  | Fetched _ None => Throws (Other 1)
  | Fetched ok (Some data) =>
      if ok then Returns (setEmail [] (setMessage (VString thanks) st))
      else
        match get_error data with
        | Throws e => Throws e
        | Returns e =>
            Returns (setMessage
                       (if truthy e then e else VString failed_to_submit) st)
        end
  end.

(** [try { ... } catch { setMessage("Network error...") }
    finally { setIsSubmitting(false) }] *)
Definition handleSubmit_end (o : FetchOutcome) (st : Cta) : Cta :=
  setIsSubmitting false
    (match handleSubmit_try o st with
     | Returns st' => st'
     | Throws _ => setMessage (VString network_error) st
     end).

(** The truthy [data.error] of a response that is not ok, when there is
    one: it is what [setMessage] is then given, whatever its type. *)
Definition server_error (o : FetchOutcome) : option value :=
  match o with
  | Fetched false (Some data) =>
      match get_error data with
      | Returns e => if truthy e then Some e else None
      | Throws _ => None
      end
  | _ => None
  end.

(** The paragraph under the form:
    [message && <p className={message.includes('Thanks') ? green : red}>]. *)
Inductive MessageView := NoMessage | Green | Red.

Definition is_Thanks (v : value) : bool :=
  match v with
  | VString s => jsstring_eqb s (lit "Thanks")
  | _ => false
  end.

Definition render_message (m : value) : Completion MessageView :=
  if truthy m then
    match m with
    | VString s => Returns (if includes s (lit "Thanks") then Green else Red)
    | VArray elems => Returns (if existsb is_Thanks elems then Green else Red)
    | _ => Throws TypeError
    end
  else Returns NoMessage.

(** What [fetch] makes of a response of the endpoint: [response.ok] is a
    status in 200..299, [response.json()] the object that was sent. *)
Definition response_ok (r : Response) : bool :=
  ((200 <=? status r) && (status r <=? 299))%nat.

Definition response_json (r : Response) : value :=
  VObject [(lit (fst (json r)), VString (lit (snd (json r))))].

Definition fetch_result (r : Response) : FetchOutcome :=
  Fetched (response_ok r) (Some (response_json r)).

End Client.

(* ===================================================================== *)
(** * Small components ([AnimatedText], [FeatureCards], [ErrorBoundary])   *)
(* ===================================================================== *)

Module AnimatedText.

(** The React state [isVisible], whether the observer still observes the
    element, and the delays left (in ms) on the timers the observer
    callback has set. *)
Record State := {
  isVisible : bool;
  observing : bool;
  timers : list nat
}.

(** [useState(false)], then the effect: [observer.observe(element)]. *)
Definition mount : State :=
  {| isVisible := false; observing := true; timers := [] |}.

(** The observer callback on [[entry]], called for observed elements
    only; [delay_ms] is [delay * 1000]. *)
Definition on_entry (delay_ms : nat) (isIntersecting : bool) (st : State)
  : State :=
  if observing st && isIntersecting
  then {| isVisible := isVisible st;
          observing := false;
          timers := timers st ++ [delay_ms] |}
  else st.

(** Time passes: the timers that are due run [setVisible(true)]. *)
Definition elapse (ms : nat) (st : State) : State :=
  {| isVisible := isVisible st || existsb (fun r => r <=? ms)%nat (timers st);
     observing := observing st;
     timers := map (fun r => r - ms)%nat
                 (List.filter (fun r => ms <? r)%nat (timers st)) |}.

(** The effect's cleanup: [observer.disconnect()]. The timer is left. *)
Definition cleanup (st : State) : State :=
  {| isVisible := isVisible st; observing := false; timers := timers st |}.

Inductive Event :=
| Entry (isIntersecting : bool)
| Elapse (ms : nat)
| Cleanup.

Definition step (delay_ms : nat) (st : State) (e : Event) : State :=
  match e with
  | Entry b => on_entry delay_ms b st
  | Elapse ms => elapse ms st
  | Cleanup => cleanup st
  end.

Definition run (delay_ms : nat) (evs : list Event) : State :=
  fold_left (step delay_ms) evs mount.

(** The time that passes during a list of events. *)
Definition elapsed (evs : list Event) : nat :=
  list_sum (map (fun e => match e with Elapse ms => ms | _ => 0%nat end) evs).

Definition is_intersecting (e : Event) : bool :=
  match e with Entry true => true | _ => false end.

Definition is_cleanup (e : Event) : bool :=
  match e with Cleanup => true | _ => false end.

End AnimatedText.

Module FeatureCards.

(** The React state [shiningIdx] ([None] for [null]) and the delays left
    (in ms) on the timers set by [doShine]. *)
Record State := {
  shiningIdx : option nat;
  timers : list nat
}.

(** [useState(null)] *)
Definition mount : State := {| shiningIdx := None; timers := [] |}.

(** [setShiningIdx(index); setTimeout(() => setShiningIdx(null), 550)] *)
Definition doShine (index : nat) (st : State) : State :=
  {| shiningIdx := Some index; timers := timers st ++ [550%nat] |}.

(** Time passes: every timer that is due runs [setShiningIdx(null)]. *)
Definition elapse (ms : nat) (st : State) : State :=
  {| shiningIdx :=
       if existsb (fun r => r <=? ms)%nat (timers st) then None
       else shiningIdx st;
     timers := map (fun r => r - ms)%nat
                 (List.filter (fun r => ms <? r)%nat (timers st)) |}.

(** [shiningIdx === i] selects the card that shows the shine. *)
Definition shines (i : nat) (st : State) : bool :=
  match shiningIdx st with
  | Some j => (j =? i)%nat
  | None => false
  end.

Inductive Event :=
| Hover (index : nat)       (* [onMouseEnter] or [onClick] of card [index] *)
| Elapse (ms : nat).

Definition step (st : State) (e : Event) : State :=
  match e with
  | Hover i => doShine i st
  | Elapse ms => elapse ms st
  end.

Definition run (evs : list Event) : State := fold_left step evs mount.

End FeatureCards.

Module ErrorBoundary.

Section ErrorBoundary.

(** The thrown values and React's [errorInfo] objects. *)
Variable Error : Type.
Variable ErrorInfo : Type.

(** [this.state]; [None] for [null]. *)
Record State := {
  hasError : bool;
  error : option Error;
  errorInfo : option ErrorInfo
}.

(** The constructor. *)
Definition initial : State :=
  {| hasError := false; error := None; errorInfo := None |}.

(** [static getDerivedStateFromError(error)]: React merges the returned
    object [{ hasError: true }] into the state. *)
Definition getDerivedStateFromError (e : Error) (st : State) : State :=
  {| hasError := true; error := error st; errorInfo := errorInfo st |}.

(** [componentDidCatch(error, errorInfo)]: [this.setState({ error,
    errorInfo })], and one [console.error]. *)
Definition componentDidCatch (e : Error) (i : ErrorInfo)
  (st : State * nat) : State * nat :=
  ({| hasError := hasError (fst st); error := Some e; errorInfo := Some i |},
   S (snd st)).

(** What [render] returns. *)
Inductive View :=
| Children
| Fallback (error : option Error) (errorInfo : option ErrorInfo).

Definition render (st : State) : View :=
  if hasError st then Fallback (error st) (errorInfo st) else Children.

(** A descendant throws while rendering: React calls
    [getDerivedStateFromError], then [componentDidCatch]. *)
Definition catch (st : State * nat) (thrown : Error * ErrorInfo)
  : State * nat :=
  componentDidCatch (fst thrown) (snd thrown)
    (getDerivedStateFromError (fst thrown) (fst st), snd st).

Definition run (thrown : list (Error * ErrorInfo)) : State * nat :=
  fold_left catch thrown (initial, 0%nat).

End ErrorBoundary.

End ErrorBoundary.

(* ===================================================================== *)
(** * Frames in a row, and what a step leaves alone                        *)
(* ===================================================================== *)

Module Frames.
Import Quality Scene.
Local Open Scope Q_scope.

(** The callback [animate] of closure [i] run at the times [ts], one
    display refresh after the other. *)
Definition frames {Data Locals} (animate : nat -> Q -> M Data Locals unit)
    (i : nat) (ts : list Q) (w : World Data Locals) : World Data Locals :=
  fold_left (fun w t => run_callback (animate i t) w) ts w.

(** A valid opacity. *)
Definition in_unit (x : Q) : Prop := 0 <= x <= 1.

(** The number of [render] calls made between two worlds. *)
Definition renders {Data Locals} (w w' : World Data Locals) : nat :=
  (length (renderCalls w') - length (renderCalls w))%nat.

(** What is on the GPU, under the mount node and on the screen is the
    same in two worlds, and so are the refs. *)
Definition inert {Data Locals} (w w' : World Data Locals) : Prop :=
  mountRef w' = mountRef w
  /\ sceneDataRef w' = sceneDataRef w
  /\ heap w' = heap w
  /\ children w' = children w
  /\ renderCalls w' = renderCalls w.

(** The component was unmounted: the ref to the mount node is cleared
    and no bundle is in the shared ref. *)
Definition torn_down {Data Locals} (w : World Data Locals) : Prop :=
  mountRef w = false /\ sceneDataRef w = None.

(** A closure whose loop cannot render: its flag is cleared or it has
    no scene. *)
Definition idle {Data Locals} (c : Closure Data Locals) : Prop :=
  mounted c = false \/ consts c = None.

(** [src/App.js] after the unmount: the ref to the mount node is cleared
    and every closure is idle. *)
Definition stopped {Data Locals} (w : World Data Locals) : Prop :=
  mountRef w = false /\ Forall idle (closures w).

(** [src/App.js] between two events: only the closure of the current
    effect run is flagged as mounted. *)
Definition one_mounted {Data Locals} (w : World Data Locals) : Prop :=
  forall j c, closures w !! j = Some c -> current w <> Some j ->
    mounted c = false.

(** Two worlds with the same closures, current run and mount node. *)
Definition same_closures {Data Locals} (w w' : World Data Locals) : Prop :=
  closures w' = closures w
  /\ current w' = current w
  /\ mountRef w' = mountRef w.

(** Two worlds whose closures carry the same flags. *)
Definition same_mounted {Data Locals} (w w' : World Data Locals) : Prop :=
  current w' = current w
  /\ mountRef w' = mountRef w
  /\ forall j, mounted <$> closures w' !! j = mounted <$> closures w !! j.

(** A display whose graphics context can be created and then fails at
    the first call made on the renderer. *)
Definition setSize_fails (s : Site) : option Err :=
  match s with
  | renderer_setSize => Some (LibraryError 2)
  | _ => None
  end.

(** A sphere that has been built, for running the loop on examples. *)
Definition sample_data : Sphere.SphereData :=
  {| Sphere.renderer := 0; Sphere.geometry := 1; Sphere.material := 2;
     Sphere.edgesGeometry := 3; Sphere.edgesMaterial := 4;
     Sphere.particlesGeometry := 5; Sphere.particlesMaterial := 6;
     Sphere.objects := Sphere.sphere_objects_0 |}.

Definition sample_closure : Closure Sphere.SphereData Sphere.SphereLocals :=
  {| mounted := true; animationFrame := None; quality := high;
     scrollProgress := 0; locals := Sphere.sphere_locals_0;
     consts := Some sample_data; promise := Fulfilled true; reactions := 0 |}.

Definition sample_world : World Sphere.SphereData Sphere.SphereLocals :=
  with_closures [sample_closure]
    (with_sceneDataRef (Some sample_data) initial_world).

End Frames.

(* ===================================================================== *)
(** * One bundle at a time, for a scene of [frontend/src/App.js]          *)
(* ===================================================================== *)

Module Bundle.
Import Quality Scene.

Section Bundle.

Context {Data Locals : Type}.

(** The GPU objects a bundle names, in the order of their construction,
    and the objects one construction allocates. *)
Variable ids : Data -> list nat.
Variable fresh : list Resource.

(** Two worlds the lifecycle cannot tell apart. *)
Definition lifecycle_eq (w w' : World Data Locals) : Prop :=
  microtasks w' = microtasks w
  /\ current w' = current w
  /\ heap w' = heap w
  /\ children w' = children w
  /\ (forall j, flags <$> closures w' !! j = flags <$> closures w !! j)
  /\ ids <$> sceneDataRef w' = ids <$> sceneDataRef w.

(** The state of the component between two events. *)
Record bundle_inv (w : World Data Locals) : Prop := {
  (* no reaction is left in the queue *)
  b_quiescent : microtasks w = [];
  (* the current effect run is mounted and nothing waits on its promise *)
  b_current : forall i, current w = Some i ->
    exists c, closures w !! i = Some c
              /\ mounted c = true /\ reactions c = 0%nat;
  (* every other run has its flag cleared *)
  b_stale : forall j c, closures w !! j = Some c ->
    current w <> Some j -> mounted c = false;
  (* either no bundle is live and nothing is attached or undisposed, or
     exactly the bundle of the current run is *)
  b_scene :
    match sceneDataRef w with
    | None => children w = [] /\ released_once (heap w)
    | Some d =>
        exists h, heap w = h ++ fresh
          /\ released_once h
          /\ ids d = seq (length h) (length fresh)
          /\ children w = [length h]
          /\ exists i c, current w = Some i /\ closures w !! i = Some c
                         /\ promise c = Fulfilled true
    end
}.

(** The scene part of [bundle_inv], for a run whose promise was
    fulfilled with a cleanup function ([b]) or without. *)
Definition bundle_scene (b : bool) (w : World Data Locals) : Prop :=
  match sceneDataRef w with
  | None => children w = [] /\ released_once (heap w)
  | Some d =>
      b = true
      /\ exists h, heap w = h ++ fresh
           /\ released_once h
           /\ ids d = seq (length h) (length fresh)
           /\ children w = [length h]
  end.

End Bundle.

(** The helix: the renderer, the two tubes and their materials, six
    rungs (a cylinder and a material each) and the particles. *)
Definition helix_resources : list Resource :=
  [{| kind := Renderer; disposals := 0 |};
   {| kind := Geometry; disposals := 0 |};
   {| kind := Geometry; disposals := 0 |};
   {| kind := Material; disposals := 0 |};
   {| kind := Material; disposals := 0 |}]
  ++ flat_map (fun _ : nat => [{| kind := Geometry; disposals := 0 |};
                               {| kind := Material; disposals := 0 |}])
       (seq 0 6)
  ++ [{| kind := Geometry; disposals := 0 |};
      {| kind := Material; disposals := 0 |}].

Definition helix_ids (d : Helix.HelixData) : list nat :=
  [Helix.renderer d; Helix.geo1 d; Helix.geo2 d; Helix.mat1 d; Helix.mat2 d]
  ++ flat_map (fun rung => [fst rung; snd rung]) (Helix.rungs d)
  ++ [Helix.particlesGeometry d; Helix.particlesMaterial d].

(** What an observer of the heap and of the mount node sees of a
    component that holds one bundle at a time: at most one canvas,
    nothing disposed twice, and undisposed exactly the objects of the
    bundle in the shared ref ([canvas d] is its canvas). *)
Definition one_bundle_at_a_time {Data Locals} (ids : Data -> list nat)
    (fresh : list Resource) (canvas : Data -> nat) (w : World Data Locals)
  : Prop :=
  (length (children w) <= 1)%nat
  /\ Forall (fun r => (disposals r <= 1)%nat) (heap w)
  /\ match sceneDataRef w with
     | None => children w = [] /\ released_once (heap w)
     | Some d =>
         exists h, heap w = h ++ fresh
           /\ released_once h
           /\ Forall (fun r => disposals r = 0%nat) fresh
           /\ ids d = seq (length h) (length fresh)
           /\ children w = [canvas d]
     end.

(** An effect run and the settling of its import, seen from outside:
    in [w1], right after the effect ran again, nothing is attached and
    everything created so far has been disposed; in [w2], once the import
    has settled, a whole new set of objects has been created and its
    canvas attached. *)
Definition rebuilt {Data Locals} (ids : Data -> list nat)
    (fresh : list Resource) (w1 w2 : World Data Locals) : Prop :=
  (sceneDataRef w1 = None /\ children w1 = [] /\ released_once (heap w1))
  /\ exists d, sceneDataRef w2 = Some d
       /\ ids d = seq (length (heap w1)) (length fresh)
       /\ heap w2 = heap w1 ++ fresh
       /\ children w2 = [length (heap w1)].

End Bundle.


(* ===================================================================== *)
(** * The two hooks with their effects                                     *)
(* ===================================================================== *)

(** React may run an effect's cleanup and later run the effect again on
    the same component; its state and its refs outlive the run, the
    [let] variables of the effect body do not. *)
Module HookEffects.

(** ** [usePerformanceMonitor] *)

Record Monitor := {
  m_signals : Quality.Signals;
  m_hook : Quality.Hook;       (* the state, and [timeoutId] of the run *)
  m_listening : bool           (* [update] is registered for [resize] *)
}.

Inductive MonitorEvent :=
| MBrowser (e : Quality.Event)
| MEffect                      (* React runs the effect *)
| MCleanup                     (* React runs the effect's cleanup *).

Definition monitor_browser (st : Monitor) (e : Quality.Event) : Monitor :=
  let (s, h) := Quality.step (m_signals st, m_hook st) e in
  {| m_signals := s; m_hook := h; m_listening := m_listening st |}.

Definition monitor_step (st : Monitor) (e : MonitorEvent) : Monitor :=
  match e with
  | MBrowser Quality.Resize =>
      (* the event reaches [update] only while it is registered *)
      if m_listening st then monitor_browser st Quality.Resize else st
  | MBrowser e => monitor_browser st e
  | MEffect =>
      (* [let timeoutId; ...; window.addEventListener("resize", update)] *)
      {| m_signals := m_signals st; m_hook := m_hook st; m_listening := true |}
  | MCleanup =>
      (* [window.removeEventListener("resize", update);
          clearTimeout(timeoutId);] *)
      {| m_signals := m_signals st;
         m_hook := {| Quality.quality := Quality.quality (m_hook st);
                      Quality.timeoutId := None |};
         m_listening := false |}
  end.

(** The first render and the first run of the effect. *)
Definition monitor_mount (s : Quality.Signals) : Monitor :=
  {| m_signals := s; m_hook := Quality.usePerformanceMonitor s;
     m_listening := true |}.

Definition monitor_run (s : Quality.Signals) (evs : list MonitorEvent)
  : Monitor :=
  fold_left monitor_step evs (monitor_mount s).

Definition is_MEffect (e : MonitorEvent) : bool :=
  match e with MEffect => true | _ => false end.

(** ** [useScrollProgress] *)

Record Scrolling := {
  s_hook : Scroll.Hook;        (* the state and the ref [rafId] *)
  s_listening : bool;          (* [updateScroll] is registered for [scroll] *)
  s_pending : list positive    (* frame callbacks the browser holds *)
}.

Inductive ScrollingEvent :=
| SBrowser (e : Scroll.Event)
| SEffect
| SCleanup.

(** [updateScroll], with the browser's side of
    [requestAnimationFrame]: the callback is queued under the handle. *)
Definition scrolling_updateScroll (st : Scrolling) : Scrolling :=
  match Scroll.rafId (s_hook st) with
  | Some _ => st
  | None =>
      {| s_hook := Scroll.updateScroll (s_hook st);
         s_listening := s_listening st;
         s_pending := s_pending st ++ [Scroll.nextHandle (s_hook st)] |}
  end.

(** [window.addEventListener("scroll", updateScroll); updateScroll();] *)
Definition scrolling_effect (st : Scrolling) : Scrolling :=
  scrolling_updateScroll
    {| s_hook := s_hook st; s_listening := true; s_pending := s_pending st |}.

(** [window.removeEventListener("scroll", updateScroll);
    if (rafId.current) cancelAnimationFrame(rafId.current);]
    The ref keeps the handle. *)
Definition scrolling_cleanup (st : Scrolling) : Scrolling :=
  {| s_hook := s_hook st;
     s_listening := false;
     s_pending :=
       match Scroll.rafId (s_hook st) with
       | Some k => filter (fun j => negb (Pos.eqb j k)) (s_pending st)
       | None => s_pending st
       end |}.

Definition scrolling_step (st : Scrolling) (e : ScrollingEvent) : Scrolling :=
  match e with
  | SBrowser Scroll.ScrollEvent =>
      if s_listening st then scrolling_updateScroll st else st
  | SBrowser (Scroll.AnimationFrame y) =>
      (* the browser runs the callbacks it holds *)
      {| s_hook := fold_left (fun h _ => Scroll.on_frame y h)
                     (s_pending st) (s_hook st);
         s_listening := s_listening st;
         s_pending := [] |}
  | SEffect => scrolling_effect st
  | SCleanup => scrolling_cleanup st
  end.

(** The first render and the first run of the effect. *)
Definition scrolling_mount : Scrolling :=
  scrolling_effect
    {| s_hook := {| Scroll.scrollProgress := Scroll.num_0;
                    Scroll.rafId := None; Scroll.nextHandle := 1 |};
       s_listening := false; s_pending := [] |}.

Definition scrolling_run (evs : list ScrollingEvent) : Scrolling :=
  fold_left scrolling_step evs scrolling_mount.

Definition is_SEffect (e : ScrollingEvent) : bool :=
  match e with SEffect => true | _ => false end.

(** Between two events the browser holds the callback of the handle in
    the ref, or nothing. *)
Definition scrolling_inv (st : Scrolling) : Prop :=
  match Scroll.rafId (s_hook st) with
  | Some k => s_pending st = [k] \/ s_pending st = []
  | None => s_pending st = []
  end.

(** The ref holds a handle whose callback the browser no longer has. *)
Definition frozen (st : Scrolling) : Prop :=
  Scroll.rafId (s_hook st) <> None /\ s_pending st = [].

End HookEffects.


(* ===================================================================== *)
(** * The helix of [frontend/src/App.js] and the scroll progress          *)
(* ===================================================================== *)

Module HelixOpacity.
Import Quality Scene.
Local Open Scope Q_scope.

Abbreviation HC := (Closure Helix.HelixData Helix.HelixLocals).
Abbreviation HW := (World Helix.HelixData Helix.HelixLocals).

(** The loop's copy of the prop is the prop: what
    [let lastScrollProgress = scrollProgress;] leaves. *)
Definition synced (c : HC) : Prop :=
  Helix.lastScrollProgress (locals c) = scrollProgress c.

Definition synced_at (l : list HC) (i : nat) : Prop :=
  exists c, l !! i = Some c /\ synced c.

(** The opacities the materials are created with. *)
Definition as_constructed (o : Helix.HelixObjects) : Prop :=
  Helix.mat1_opacity o = 0.7
  /\ Helix.mat2_opacity o = 0.65
  /\ Helix.rungMat_opacity o = 0.5
  /\ Helix.particlesMaterial_opacity o = 0.4.

(** Between two steps: the bundle in the shared ref has the opacities it
    was created with, and every loop with a frame requested ([served]
    holds the requests the browser is serving) has its copy in step. *)
Definition loops_synced (served : list (nat * nat)) (w : HW) : Prop :=
  (forall d, sceneDataRef w = Some d -> as_constructed (Helix.objects d))
  /\ (forall r, r ∈ served ++ frameRequests w ->
        synced_at (closures w) (snd r)).

Definition keeps (served : list (nat * nat)) {A}
    (m : M Helix.HelixData Helix.HelixLocals A) : Prop :=
  forall w, loops_synced served w -> loops_synced served (snd (m w)).

(** Every value [m] returns has the property [P]. *)
Definition yields {Data Locals A} (P : A -> Prop) (m : M Data Locals A)
  : Prop :=
  forall w a w', m w = (Normal a, w') -> P a.

(** The helix is mounted with scroll progress 1/4 and shown, then the
    scroll progress becomes 3/4 and the helix is shown again. *)
Definition helix_scrolled : list Event :=
  [Commit high (1 # 4); ImportSettled 0 (Normal tt) 0; AnimationFrame 16;
   Commit high (3 # 4); ImportSettled 1 (Normal tt) 20; AnimationFrame 40;
   AnimationFrame 56].

End HelixOpacity.


(* ===================================================================== *)
(** * Properties                                                           *)
(* ===================================================================== *)

Module QualityFacts.
Import Quality.

Lemma js_lt_true x n : js_lt x n = true <-> exists v, x = Some v /\ v < n.
Proof.
  destruct x as [v|]; simpl.
  - rewrite Z.ltb_lt. split; [eauto | intros (? & [= <-] & ?); done].
  - split; [done | intros (? & ? & ?); done].
Qed.

Lemma strict_eq_true x lit : strict_eq x lit = true <-> x = Some lit.
Proof.
  destruct x as [v|]; simpl; [|split; done].
  rewrite String.eqb_eq. split; congruence.
Qed.

Lemma low_condition_reflect s :
  low_condition s <->
  (innerWidth s <? 768) || js_lt (hardwareConcurrency s) 4
  || (strict_eq (connection_effectiveType s) "slow-2g"
      || strict_eq (connection_effectiveType s) "2g") = true.
Proof.
  unfold low_condition.
  rewrite !orb_true_iff, Z.ltb_lt, js_lt_true, !strict_eq_true. tauto.
Qed.

Lemma classify_spec s : tier_spec s (classify s).
Proof.
  unfold tier_spec, classify.
  pose proof (low_condition_reflect s) as Hlow.
  destruct ((innerWidth s <? 768) || js_lt (hardwareConcurrency s) 4
            || (strict_eq (connection_effectiveType s) "slow-2g"
                || strict_eq (connection_effectiveType s) "2g")) eqn:Hc.
  - left. split; [apply Hlow|]; done.
  - assert (~ low_condition s) as Hn by (rewrite Hlow; done).
    assert (768 <= innerWidth s) as Hw.
    { apply orb_false_iff in Hc as [Hc _]. apply orb_false_iff in Hc as [Hc _].
      apply Z.ltb_ge in Hc. done. }
    right. destruct (innerWidth s <? 1024) eqn:Hm.
    + left. apply Z.ltb_lt in Hm. repeat split; done.
    + right. apply Z.ltb_ge in Hm. repeat split; [done | lia].
Qed.

(** Whenever the debounce timer runs out during a step, the tier is
    re-evaluated from the signals in force. *)
Lemma step_fires s h ms remaining :
  timeoutId h = Some remaining -> (remaining <= ms)%nat ->
  step (s, h) (Elapse ms) = (s, on_timeout s h).
Proof.
  intros Ht Hle. simpl. rewrite Ht.
  destruct (remaining <=? ms)%nat eqn:E; [done|].
  apply Nat.leb_gt in E. lia.
Qed.

(** C2. For every combination of device signals the selector returns
    [low] when the viewport is narrower than 768, or fewer than 4 logical
    processors are reported, or the network type is 2g or slow-2g;
    [medium] when none of these hold and the width is in [768, 1024);
    [high] otherwise. This holds for the initial state and for the state
    left by the debounced timeout callback. *)
Theorem quality_selector_tiers (s : Signals) (h : Hook) :
  tier_spec s (quality (usePerformanceMonitor s))
  /\ tier_spec s (quality (on_timeout s h))
  /\ step (s, update h) (Elapse 100) = (s, on_timeout s (update h)).
Proof.
  split; [apply classify_spec|]. split; [apply classify_spec|].
  apply (step_fires _ _ _ 100%nat); [done | lia].
Qed.

Example classify_undefined_signals :
  classify {| innerWidth := 1200; hardwareConcurrency := None;
              connection := None |} = high.
Proof. reflexivity. Qed.

Example classify_tablet :
  classify {| innerWidth := 800; hardwareConcurrency := Some 8;
              connection := Some {| effectiveType := Some "4g"%string |} |}
  = medium.
Proof. reflexivity. Qed.

Example classify_two_cores :
  classify {| innerWidth := 1920; hardwareConcurrency := Some 2;
              connection := None |} = low.
Proof. reflexivity. Qed.

Example classify_slow_network :
  classify {| innerWidth := 1920; hardwareConcurrency := Some 8;
              connection := Some {| effectiveType := Some "2g"%string |} |}
  = low.
Proof. reflexivity. Qed.

(** Resize events closer than 100 ms re-arm the one timer: the tier is
    re-evaluated once, 100 ms after the last of them. *)
Example debounce_collapses s0 s1 :
  snd (run s0 [Resize; Elapse 60; SignalsChange s1; Resize; Elapse 60])
  = {| quality := classify s0; timeoutId := Some 40%nat |}
  /\ snd (run s0 [Resize; Elapse 60; SignalsChange s1; Resize; Elapse 60;
                  Elapse 40])
     = {| quality := classify s1; timeoutId := None |}.
Proof. split; reflexivity. Qed.

End QualityFacts.

Module ScrollFacts.
Import Scroll.

(** ** Rounding keeps a non-negative mantissa non-negative *)

Lemma shr_1_nonneg mrs : 0 <= shr_m mrs -> 0 <= shr_m (shr_1 mrs).
Proof.
  destruct mrs as [m r s]; simpl.
  destruct m as [|p|p]; simpl; [lia| |lia].
  destruct p; simpl; lia.
Qed.

Lemma iter_pos_shr_1_nonneg p : forall mrs,
  0 <= shr_m mrs -> 0 <= shr_m (SpecFloat.iter_pos shr_1 p mrs).
Proof.
  induction p as [p IH|p IH|]; intros mrs H; simpl.
  - apply IH, IH, shr_1_nonneg, H.
  - apply IH, IH, H.
  - apply shr_1_nonneg, H.
Qed.

Lemma shr_record_of_loc_m m l : shr_m (shr_record_of_loc m l) = m.
Proof. destruct l as [|[]]; reflexivity. Qed.

Lemma shr_fexp_nonneg m e l :
  0 <= m -> 0 <= shr_m (fst (shr_fexp prec emax m e l)).
Proof.
  intros H. unfold shr_fexp, shr.
  destruct (fexp prec emax (Zdigits2 m + e) - e) as [|p|p]; simpl;
    rewrite ?shr_record_of_loc_m; try done.
  apply iter_pos_shr_1_nonneg. rewrite shr_record_of_loc_m. done.
Qed.

Lemma round_nearest_even_nonneg m l : 0 <= m -> 0 <= round_nearest_even m l.
Proof.
  intros H. unfold round_nearest_even.
  destruct l as [|[]]; try lia. destruct (Z.even m); lia.
Qed.

Lemma binary_round_aux_not_nan s m e l :
  0 <= m -> binary_round_aux prec emax s m e l <> S754_nan.
Proof.
  intros H. unfold binary_round_aux.
  pose proof (shr_fexp_nonneg m e l H) as H1.
  destruct (shr_fexp prec emax m e l) as [mrs' e'] eqn:E1. simpl in H1.
  pose proof (shr_fexp_nonneg
                (round_nearest_even (shr_m mrs') (loc_of_shr_record mrs'))
                e' loc_Exact (round_nearest_even_nonneg _ _ H1)) as H2.
  destruct (shr_fexp prec emax _ e' loc_Exact) as [mrs'' e''] eqn:E2.
  simpl in H2.
  destruct (shr_m mrs'') as [|p|p]; [done| |lia].
  destruct (e'' <=? emax - prec); done.
Qed.

Lemma div_core_nonneg m1 e1 m2 e2 :
  0 <= fst (fst (SFdiv_core_binary prec emax (Zpos m1) e1 (Zpos m2) e2)).
Proof.
  unfold SFdiv_core_binary.
  set (s := e1 - e2 - _).
  set (m' := match s with Z0 => _ | Zpos _ => _ | Zneg _ => _ end).
  assert (0 <= m') as Hm'.
  { subst m'. destruct s; [lia| |lia]. apply Z.shiftl_nonneg. lia. }
  pose proof (Z_div_mod m' (Zpos m2) ltac:(lia)) as Hd.
  destruct (Z.div_eucl m' (Zpos m2)) as [q r]. simpl.
  destruct Hd as [Hq Hr]. nia.
Qed.

(** A scroll offset that is not negative (so not [NaN] either) divides
    to a number, never to [NaN]. *)
Lemma div_800_not_nan y : leb num_0 y = true -> div y num_800 <> S754_nan.
Proof.
  unfold leb, SFleb, div, num_0, num_800.
  destruct y as [s|s| |s m e]; simpl; try congruence.
  destruct s; [congruence|]. intros _.
    pose proof (div_core_nonneg m e 7036874417766400 (-43)) as H.
    destruct (SFdiv_core_binary prec emax (Z.pos m) e _ _) as [[mz ez] lz].
    simpl in H. apply binary_round_aux_not_nan, H.
Qed.

(** ** Clamping *)

Lemma SFcompare_one_not_nan x :
  x <> S754_nan -> exists c, SFcompare x num_1 = Some c.
Proof.
  destruct x as [s|s| |s m e]; intros Hx;
    [eexists; reflexivity | eexists; reflexivity | congruence
    | eexists; reflexivity].
Qed.

Lemma Math_max_zero_ge x :
  x <> S754_nan ->
  Math_max x num_0 <> S754_nan /\ leb num_0 (Math_max x num_0) = true.
Proof.
  intros Hx.
  destruct x as [s|s| |s m e]; [| |congruence|];
    destruct s; vm_compute; split; congruence.
Qed.

Lemma Math_min_one_cases x c :
  SFcompare x num_1 = Some c ->
  Math_min x num_1 = match c with Gt => num_1 | _ => x end.
Proof.
  unfold Math_min. intros ->.
  destruct c; try reflexivity.
  destruct x as [[]| | |]; reflexivity.
Qed.

Lemma Math_min_one_range x :
  x <> S754_nan -> leb num_0 x = true ->
  in_unit_interval (Math_min x num_1).
Proof.
  intros Hx H0.
  destruct (SFcompare_one_not_nan x Hx) as [c Hc].
  rewrite (Math_min_one_cases x c Hc). unfold in_unit_interval.
  destruct c.
  - split; [exact H0|]. unfold leb, SFleb. rewrite Hc. reflexivity.
  - split; [exact H0|]. unfold leb, SFleb. rewrite Hc. reflexivity.
  - split; reflexivity.
Qed.

Lemma progress_range y : leb num_0 y = true -> in_unit_interval (progress y).
Proof.
  intros Hy. unfold progress.
  pose proof (div_800_not_nan y Hy) as Hd.
  destruct (Math_max_zero_ge _ Hd) as [Hn Hge].
  apply Math_min_one_range; done.
Qed.

Lemma step_range h e :
  in_unit_interval (scrollProgress h) -> event_ok e ->
  in_unit_interval (scrollProgress (step h e)).
Proof.
  intros Hh He. destruct e as [|y]; simpl.
  - unfold updateScroll. destruct (rafId h); done.
  - destruct (rafId h); [|done]. simpl. apply progress_range, He.
Qed.

Lemma fold_step_range evs : forall h,
  in_unit_interval (scrollProgress h) -> Forall event_ok evs ->
  in_unit_interval (scrollProgress (fold_left step evs h)).
Proof.
  induction evs as [|e evs IH]; intros h Hh Hall; simpl; [done|].
  inversion Hall; subst. apply IH; [apply step_range|]; done.
Qed.

(** C3. For every scroll offset [scrollY >= 0] the value the frame
    callback publishes is [min(max(scrollY / 800, 0), 1)], and it lies in
    the closed interval [0, 1]. *)
Theorem scroll_progress_clamped (scrollY : number) (h : Hook) :
  leb num_0 scrollY = true ->
  scrollProgress (on_frame scrollY h)
    = Math_min (Math_max (div scrollY num_800) num_0) num_1
  /\ in_unit_interval (scrollProgress (on_frame scrollY h)).
Proof.
  intros Hy. split; [reflexivity|]. simpl. apply progress_range, Hy.
Qed.

Lemma scroll_progress_clamped_witness :
  leb num_0 (of_Z 400) = true
  /\ scrollProgress (on_frame (of_Z 400) useScrollProgress)
     = S754_finite false 4503599627370496 (-53)
  /\ in_unit_interval (scrollProgress (on_frame (of_Z 400) useScrollProgress)).
Proof.
  split; [reflexivity|]. split; [vm_compute; reflexivity|].
  apply (scroll_progress_clamped (of_Z 400) useScrollProgress). reflexivity.
Defined.

(** Scroll events that arrive while a frame is requested request no
    other. *)
Lemma updateScroll_coalesces h : updateScroll (updateScroll h) = updateScroll h.
Proof.
  unfold updateScroll. destruct (rafId h) eqn:E; [rewrite E|]; reflexivity.
Qed.

(** The published value stays in [0, 1] along every run of the hook,
    from the initial [0] on. *)
Lemma run_range evs :
  Forall event_ok evs -> in_unit_interval (scrollProgress (run evs)).
Proof. intros H. apply fold_step_range; [done | exact H]. Qed.

Example progress_1200 : progress (of_Z 1200) = num_1.
Proof. vm_compute. reflexivity. Qed.

Example progress_200 :
  progress (of_Z 200) = S754_finite false 4503599627370496 (-54).
Proof. vm_compute. reflexivity. Qed.

End ScrollFacts.

Module WaitlistFacts.
Import Waitlist.

(** ** The matcher decides the language of its pattern *)

Lemma matches_cat_inv r1 r2 s :
  matches (Cat r1 r2) s ->
  exists s1 s2, s = s1 ++ s2 /\ matches r1 s1 /\ matches r2 s2.
Proof. inversion 1; subst; eauto. Qed.

Lemma matches_alt_inv r1 r2 s :
  matches (Alt r1 r2) s -> matches r1 s \/ matches r2 s.
Proof. inversion 1; subst; eauto. Qed.

Lemma matches_sym_inv f s :
  matches (Sym f) s -> exists c, s = [c] /\ f c = true.
Proof. inversion 1; subst; eauto. Qed.

Lemma nullable_matches r : nullable r = true <-> matches r [].
Proof.
  induction r as [| |f|r1 IH1 r2 IH2|r1 IH1 r2 IH2|r IH]; simpl.
  - split; [discriminate | inversion 1].
  - split; [constructor | reflexivity].
  - split; [discriminate | inversion 1].
  - rewrite andb_true_iff, IH1, IH2. split.
    + intros [H1 H2]. apply (MCat _ _ [] [] H1 H2).
    + intros (s1 & s2 & Heq & H1 & H2)%matches_cat_inv.
      symmetry in Heq. apply app_eq_nil in Heq as [-> ->]. done.
  - rewrite orb_true_iff, IH1, IH2. split.
    + intros [H|H]; [apply MAltL | apply MAltR]; done.
    + apply matches_alt_inv.
  - split; [constructor | reflexivity].
Qed.

Lemma matches_star_cons r c s :
  matches (Star r) (c :: s) ->
  exists s1 s2, s = s1 ++ s2 /\ matches r (c :: s1) /\ matches (Star r) s2.
Proof.
  intros H. remember (Star r) as r' eqn:Hr. remember (c :: s) as s' eqn:Hs.
  revert s Hs.
  induction H as [| | | | | |r0 s1 s2 H1 _ H2 IH2]; try discriminate.
  injection Hr as ->. intros s Hs.
  destruct s1 as [|c1 s1]; simpl in Hs.
  - apply IH2; done.
  - injection Hs as -> <-. eauto.
Qed.

Lemma deriv_matches r : forall c s,
  matches (deriv c r) s <-> matches r (c :: s).
Proof.
  induction r as [| |f|r1 IH1 r2 IH2|r1 IH1 r2 IH2|r IH]; intros c s; simpl.
  - split; inversion 1.
  - split; inversion 1.
  - destruct (f c) eqn:Hf; split.
    + inversion 1; subst. constructor; done.
    + intros (c' & [= <- ->] & _)%matches_sym_inv. constructor.
    + inversion 1.
    + intros (c' & [= <- ->] & Hc)%matches_sym_inv. congruence.
  - assert (matches (Cat (deriv c r1) r2) s ->
            matches (Cat r1 r2) (c :: s)) as Hleft.
    { intros (s1 & s2 & -> & H1 & H2)%matches_cat_inv.
      apply IH1 in H1. apply (MCat _ _ (c :: s1) s2 H1 H2). }
    assert (matches (Cat r1 r2) (c :: s) ->
            (nullable r1 = true /\ matches r2 (c :: s))
            \/ matches (Cat (deriv c r1) r2) s) as Hsplit.
    { intros (s1 & s2 & Heq & H1 & H2)%matches_cat_inv.
      destruct s1 as [|c1 s1]; simpl in Heq.
      - left. subst s2. split; [apply nullable_matches|]; done.
      - injection Heq as <- ->. right.
        apply MCat; [apply IH1|]; done. }
    destruct (nullable r1) eqn:Hn; split.
    + intros [H|H]%matches_alt_inv; [apply Hleft, H|].
      apply IH2 in H. apply nullable_matches in Hn.
      apply (MCat _ _ [] (c :: s) Hn H).
    + intros [[_ H]|H]%Hsplit; [apply MAltR, IH2, H | apply MAltL, H].
    + apply Hleft.
    + intros [[? _]|H]%Hsplit; [discriminate | exact H].
  - split.
    + intros [H|H]%matches_alt_inv;
        [apply MAltL, IH1, H | apply MAltR, IH2, H].
    + intros [H|H]%matches_alt_inv;
        [apply MAltL, IH1, H | apply MAltR, IH2, H].
  - split.
    + intros (s1 & s2 & -> & H1 & H2)%matches_cat_inv.
      apply IH in H1. apply (MStarS _ (c :: s1) s2 H1 H2).
    + intros (s1 & s2 & -> & H1 & H2)%matches_star_cons.
      apply MCat; [apply IH|]; done.
Qed.

Lemma regex_test_matches s : forall r,
  regex_test r s = true <-> matches r s.
Proof.
  unfold regex_test.
  induction s as [|c s IH]; intros r; simpl.
  - apply nullable_matches.
  - rewrite IH. apply deriv_matches.
Qed.

(** ** The pattern of the validator, piece by piece *)

Lemma matches_star_sym f s :
  matches (Star (Sym f)) s <-> Forall (fun c => f c = true) s.
Proof.
  split.
  - intros H. remember (Star (Sym f)) as r eqn:Hr.
    induction H as [| | | | | |r0 s1 s2 H1 _ H2 IH2]; try discriminate.
    + constructor.
    + injection Hr as ->.
      apply matches_sym_inv in H1 as (c & -> & Hc).
      constructor; [exact Hc | apply IH2; reflexivity].
  - induction 1 as [|c s Hc _ IH]; [constructor|].
    apply (MStarS _ [c] s); [constructor; exact Hc | exact IH].
Qed.

Lemma matches_plus_sym s : matches (Plus (Sym not_space_at)) s <-> part_ok s.
Proof.
  unfold Plus, part_ok. split.
  - intros (s1 & s2 & -> & H1 & H2)%matches_cat_inv.
    apply matches_sym_inv in H1 as (c & -> & Hc).
    apply matches_star_sym in H2. split; [discriminate|].
    constructor; done.
  - intros [Hne Hall]. destruct s as [|c s]; [done|].
    inversion Hall; subst.
    apply (MCat _ _ [c] s); [constructor | apply matches_star_sym]; done.
Qed.

Lemma matches_char k s : matches (Sym (N.eqb k)) s <-> s = [k].
Proof.
  split.
  - intros (c & -> & Hc)%matches_sym_inv. apply N.eqb_eq in Hc. congruence.
  - intros ->. constructor. apply N.eqb_refl.
Qed.

Lemma email_regex_shape s : regex_test email_regex s = true <-> email_shape s.
Proof.
  rewrite regex_test_matches. unfold email_regex, email_shape. split.
  - intros (a & s1 & -> & Ha & H1)%matches_cat_inv.
    apply matches_cat_inv in H1 as (x & s2 & -> & Hx & H2).
    apply matches_cat_inv in H2 as (b & s3 & -> & Hb & H3).
    apply matches_cat_inv in H3 as (y & c & -> & Hy & Hc).
    apply matches_char in Hx as ->. apply matches_char in Hy as ->.
    exists a, b, c. rewrite !matches_plus_sym in *. done.
  - intros (a & b & c & -> & Ha & Hb & Hc).
    repeat apply MCat; rewrite ?matches_plus_sym, ?matches_char; done.
Qed.

Lemma isEmail_spec v : isEmail v = true <-> is_email_string v.
Proof.
  unfold is_email_string. destruct v; simpl;
    try (split; [discriminate | intros (? & [=] & _)]).
  rewrite email_regex_shape. split; [eauto|].
  intros (? & [= <-] & ?). done.
Qed.

Lemma isEmail_false_iff v : isEmail v = false <-> ~ is_email_string v.
Proof.
  rewrite <- isEmail_spec. destruct (isEmail v); split; congruence.
Qed.

Example isEmail_a_b_co : isEmail (VString (lit "a@b.co")) = true.
Proof. vm_compute. reflexivity. Qed.

Example isEmail_not_an_email : isEmail (VString (lit "not-an-email")) = false.
Proof. vm_compute. reflexivity. Qed.

Example isEmail_two_ats : isEmail (VString (lit "a@b@c.d")) = false.
Proof. vm_compute. reflexivity. Qed.

Example isEmail_dotted_domain : isEmail (VString (lit "x.y@mail.example.org")) = true.
Proof. vm_compute. reflexivity. Qed.

Example isEmail_inner_space : isEmail (VString (lit "a b@c.d")) = false.
Proof. vm_compute. reflexivity. Qed.

Section HandlerFacts.

Variable toLowerCase : jsstring -> jsstring.
Variable insert : value -> InsertResult.

Abbreviation handle := (post_waitlist toLowerCase insert).

Lemma starts_with_spec (t s : jsstring) :
  starts_with s t = true <-> exists b, s = t ++ b.
Proof.
  revert s. induction t as [|c t IH]; intros s.
  - split; [intros _; by exists s | intros _; by destruct s].
  - destruct s as [|a s]; simpl.
    + split; [done | intros [b [=]]].
    + rewrite andb_true_iff, N.eqb_eq, IH. split.
      * intros [-> [b ->]]. by exists b.
      * intros [b [= -> ->]]. split; [done | by exists b].
Qed.

(** [includes] is the substring test. *)
Lemma includes_contains (s t : jsstring) :
  includes s t = true <-> contains s t.
Proof.
  unfold contains. induction s as [|c s IH].
  - cbn [includes]. rewrite orb_false_r, starts_with_spec. split.
    + intros [b E]. exists [], b. exact E.
    + intros (a & b & E). destruct a as [|x a]; [|discriminate E].
      by exists b.
  - cbn [includes]. rewrite orb_true_iff, starts_with_spec, IH. split.
    + intros [[b E] | (a & b & E)].
      * exists [], b. exact E.
      * exists (c :: a), b. by rewrite E.
    + intros (a & b & E). destruct a as [|x a].
      * left. by exists b.
      * right. injection E as -> E. by exists a, b.
Qed.

Lemma duplicate_key_error_contains err :
  keeps_lower_case toLowerCase ->
  duplicate_key_error err ->
  contains (toLowerCase (message err)) (lit "duplicate").
Proof.
  intros Hlow [name ->]. unfold duplicate_key_message.
  destruct (Hlow (lit "duplicate key value violates unique constraint ")
              ([34%N] ++ name ++ [34%N]) eq_refl) as [s' ->].
  exists [], (lit " key value violates unique constraint " ++ s').
  reflexivity.
Qed.

Lemma must_throw_contains err :
  must_throw toLowerCase (Some err) = false
  <-> contains (toLowerCase (message err)) (lit "duplicate").
Proof.
  unfold must_throw. rewrite negb_false_iff. apply includes_contains.
Qed.

(** C9. [POST /api/waitlist]. A request without a body is not answered
    by the handler: reading [email] from [req.body] throws before the
    validation and outside the [try]. For every body that can be read:
    when the email is not a string of the server's pattern the response
    is 400 with error 'Invalid email address' and no insert is
    attempted; when the insert succeeds, or fails with PostgreSQL's
    duplicate-key error, the response is 200 with the success message;
    an insert error is answered with 200 exactly when its message, in
    lower case, contains 'duplicate', and with 500 and error 'Failed to
    add to waitlist.' exactly when it does not; a rejected insert gives
    500. *)
Theorem post_waitlist_responses :
  keeps_lower_case toLowerCase ->
  handle VUndefined = (Uncaught TypeError, [])
  /\ forall body email, destructure_email body = Returns email ->
     (~ is_email_string email ->
        fst (handle body) = Responded res_400
        /\ no_insert (snd (handle body)))
     /\ (is_email_string email ->
         (insert email = Resolved None ->
            fst (handle body) = Responded res_200)
         /\ (forall err, insert email = Resolved (Some err) ->
               (duplicate_key_error err ->
                  fst (handle body) = Responded res_200)
               /\ (fst (handle body) = Responded res_200
                   <-> contains (toLowerCase (message err)) (lit "duplicate"))
               /\ (fst (handle body) = Responded res_500
                   <-> ~ contains (toLowerCase (message err))
                           (lit "duplicate")))
         /\ (forall e, insert email = Rejected e ->
               fst (handle body) = Responded res_500)).
Proof.
  intros Hlow. split; [reflexivity|].
  intros body email Hd. unfold post_waitlist. rewrite Hd. split.
  - intros H. apply isEmail_false_iff in H. rewrite H. simpl.
    split; [reflexivity | intros row []].
  - intros He. apply isEmail_spec in He. rewrite He. simpl.
    split; [intros ->; reflexivity|]. split; [|intros e ->; reflexivity].
    intros err ->.
    pose proof (must_throw_contains err) as Hc.
    destruct (must_throw toLowerCase (Some err)) eqn:E; simpl.
    + assert (~ contains (toLowerCase (message err)) (lit "duplicate")) as Hn.
      { intros H. apply Hc in H. discriminate H. }
      split; [|split].
      * intros Hdup. destruct Hn.
        by apply duplicate_key_error_contains.
      * split; [discriminate | intros H; by destruct Hn].
      * split; [done | reflexivity].
    + assert (contains (toLowerCase (message err)) (lit "duplicate")) as Hy
        by (by apply Hc).
      split; [reflexivity|]. split.
      * split; [done | reflexivity].
      * split; [discriminate | intros H; by destruct H].
Qed.

(** C10. [POST /api/waitlist]. A request without a body makes the
    handler throw a TypeError: it sends no response and attempts no
    insert. For every body that can be read, when the email field is
    absent or is not a string the handler answers 400 'Invalid email
    address': it does not throw, does not answer 500 and attempts no
    insert. *)
Theorem post_waitlist_non_string :
  handle VUndefined = (Uncaught TypeError, [])
  /\ forall body email, destructure_email body = Returns email ->
       (forall s, email <> VString s) ->
       handle body = (Responded res_400, []).
Proof.
  split; [reflexivity|]. intros body email Hd Hns.
  unfold post_waitlist. rewrite Hd.
  destruct email; try reflexivity. exfalso. eapply Hns. reflexivity.
Qed.

End HandlerFacts.

(** Bodies delivered by the JSON body parser (objects and arrays) always
    destructure. *)
Lemma destructure_email_total body :
  body <> VUndefined -> body <> VNull ->
  exists email, destructure_email body = Returns email.
Proof. destruct body; simpl; eauto; congruence. Qed.

Lemma destructure_absent props :
  (forall k v, In (k, v) props -> k <> lit "email") ->
  destructure_email (VObject props) = Returns VUndefined.
Proof.
  intros H. simpl. f_equal. induction props as [|[k v] rest IH]; simpl; [done|].
  unfold jsstring_eqb. rewrite bool_decide_eq_false_2.
  - apply IH. intros k' v' Hin. apply (H k' v'). right. exact Hin.
  - apply (H k v). left. reflexivity.
Qed.

Lemma ascii_lower_keeps_lower : keeps_lower_case ascii_lower.
Proof.
  intros p s Hp. exists (ascii_lower s). unfold ascii_lower.
  rewrite map_app. f_equal.
  induction p as [|c p IH]; [reflexivity|].
  cbn [forallb] in Hp. apply andb_true_iff in Hp as [Hc Hp].
  cbn [map]. rewrite (IH Hp). f_equal.
  unfold lower_or_space in Hc.
  destruct ((65 <=? c) && (c <=? 90))%N eqn:E; [|reflexivity].
  exfalso. apply andb_true_iff in E as [E1 E2].
  apply N.leb_le in E1, E2.
  apply orb_true_iff in Hc as [Hc | Hc].
  - apply N.eqb_eq in Hc. lia.
  - apply andb_true_iff in Hc as [Hc _]. apply N.leb_le in Hc. lia.
Qed.

Lemma post_waitlist_responses_witness :
  fst (post_waitlist ascii_lower full_insert (body_of (VString (lit "a@b.co"))))
  = Responded res_200.
Proof.
  refine (proj1 (proj1 (proj2 (proj2
            (proj2 (post_waitlist_responses ascii_lower full_insert
                      ascii_lower_keeps_lower)
               (body_of (VString (lit "a@b.co"))) (VString (lit "a@b.co"))
               eq_refl) _))
            {| message := duplicate_key_message (lit "waitlist_email_key") |}
            eq_refl) _).
  - apply isEmail_spec. vm_compute. reflexivity.
  - exists (lit "waitlist_email_key"). reflexivity.
Defined.

Lemma post_waitlist_non_string_witness :
  post_waitlist ascii_lower sample_insert (body_of (VNumber (S754_zero false)))
  = (Responded res_400, []).
Proof.
  apply (proj2 (post_waitlist_non_string ascii_lower sample_insert)
           (body_of (VNumber (S754_zero false))) (VNumber (S754_zero false))).
  - reflexivity.
  - intros s. discriminate.
Defined.

Example post_duplicate :
  post_waitlist ascii_lower sample_insert (body_of (VString (lit "d@b.co")))
  = (Responded res_200, [Insert (VString (lit "d@b.co"))]).
Proof. vm_compute. reflexivity. Qed.

Example post_other_error :
  post_waitlist ascii_lower sample_insert (body_of (VString (lit "e@b.co")))
  = (Responded res_500, [Insert (VString (lit "e@b.co")); ConsoleError]).
Proof. vm_compute. reflexivity. Qed.

Example post_missing_field :
  post_waitlist ascii_lower sample_insert (VObject [])
  = (Responded res_400, []).
Proof. reflexivity. Qed.

Example post_array_body :
  post_waitlist ascii_lower sample_insert (VArray [VString (lit "a@b.co")])
  = (Responded res_400, []).
Proof. reflexivity. Qed.

Example post_null_email :
  post_waitlist ascii_lower sample_insert (body_of VNull)
  = (Responded res_400, []).
Proof. reflexivity. Qed.

End WaitlistFacts.

Module SceneFacts.
Import Quality Scene.
Local Open Scope Q_scope.
Local Open Scope js_scope.

Lemma Qltb_lt x y : Qltb x y = true <-> x < y.
Proof.
  unfold Qltb. rewrite negb_true_iff. split.
  - intros H. apply Qnot_le_lt. intros Hle.
    apply Qle_bool_iff in Hle. congruence.
  - intros H. destruct (Qle_bool y x) eqn:E; [|reflexivity].
    apply Qle_bool_iff in E. exfalso. apply (Qlt_not_le _ _ H E).
Qed.

Lemma Qltb_ge x y : Qltb x y = false <-> y <= x.
Proof.
  unfold Qltb. rewrite negb_false_iff. apply Qle_bool_iff.
Qed.

(** ** One frame of the sphere *)

Section SphereFrames.
Import Sphere.
Variable Math_sin : Q -> Q.

(** [src/App.js]: below 16 ms only the next frame is requested. *)
Lemma root_animate_skips w i c t :
  closures w !! i = Some c ->
  mounted c = true ->
  t - lastTime (locals c) < 16 ->
  root_animate Math_sin i t w
  = (Normal tt,
     with_closures
       (alter (with_animationFrame (Some (nextHandle w))) i (closures w))
       (with_frameRequests (frameRequests w ++ [(nextHandle w, i)])
          (S (nextHandle w)) w)).
Proof.
  intros Hc Hm Hlt%Qltb_lt. unfold root_animate, in_closure. rewrite Hc, Hm.
  simpl. unfold bind, requestAnimationFrame, gets, modify, ret, update_closure,
    bind. simpl. rewrite Hlt. reflexivity.
Qed.

Lemma root_animate_unmounted w i c t :
  closures w !! i = Some c -> mounted c = false ->
  root_animate Math_sin i t w = (Normal tt, w).
Proof.
  intros Hc Hm. unfold root_animate, in_closure. rewrite Hc, Hm. reflexivity.
Qed.

Lemma root_animate_skipped_frame w i c t :
  closures w !! i = Some c ->
  t - lastTime (locals c) < 16 ->
  let w' := snd (root_animate Math_sin i t w) in
  renderCalls w' = renderCalls w
  /\ closure_locals w' i = Some (locals c)
  /\ closure_consts w' i = consts c
  /\ heap w' = heap w.
Proof.
  intros Hc Hlt. destruct (mounted c) eqn:Hm.
  - rewrite (root_animate_skips w i c t Hc Hm Hlt). simpl.
    unfold closure_locals, closure_consts. simpl.
    rewrite list_lookup_alter_eq, Hc. done.
  - rewrite (root_animate_unmounted w i c t Hc Hm). simpl.
    unfold closure_locals, closure_consts. rewrite Hc. done.
Qed.

(** [src/App.js]: from 16 ms on the frame is processed. *)
Lemma root_animate_processed_frame w i c d t :
  closures w !! i = Some c ->
  mounted c = true ->
  consts c = Some d ->
  16 <= t - lastTime (locals c) ->
  let w' := snd (root_animate Math_sin i t w) in
  renderCalls w' = renderCalls w ++ [renderer d]
  /\ closure_locals w' i
     = Some {| time := time (locals c) + 0.009; lastTime := t |}
  /\ closure_consts w' i
     = Some (with_objects
               (frame Math_sin (scrollProgress c)
                  (time (locals c) + 0.009) (objects d)) d).
Proof.
  intros Hc Hm Hd Hge%Qltb_ge. unfold root_animate, in_closure.
  rewrite Hc, Hm. simpl.
  unfold bind, requestAnimationFrame, gets, modify, ret, update_closure,
    bind, render. simpl. rewrite Hge, Hd. simpl.
  unfold closure_locals, closure_consts. simpl.
  rewrite !list_lookup_alter_eq, Hc. done.
Qed.

(** [frontend/src/App.js] *)
Lemma frontend_animate_skipped_frame w i c t :
  closures w !! i = Some c ->
  t - lastTime (locals c) < 16 ->
  let w' := snd (frontend_animate Math_sin i t w) in
  renderCalls w' = renderCalls w
  /\ closure_locals w' i = Some (locals c)
  /\ sceneDataRef w' = sceneDataRef w
  /\ heap w' = heap w.
Proof.
  intros Hc Hlt%Qltb_lt. unfold frontend_animate, in_closure. rewrite Hc.
  unfold bind, gets. simpl. unfold closure_locals.
  destruct (mounted c), (sceneDataRef w) as [d|] eqn:Hd; simpl;
    rewrite ?Hc; try done.
  unfold bind, requestAnimationFrame, gets, modify, ret, update_closure,
    bind. simpl. rewrite Hlt. simpl.
  rewrite list_lookup_alter_eq, Hc. done.
Qed.

Lemma frontend_animate_processed_frame w i c d t :
  closures w !! i = Some c ->
  mounted c = true ->
  sceneDataRef w = Some d ->
  16 <= t - lastTime (locals c) ->
  let w' := snd (frontend_animate Math_sin i t w) in
  renderCalls w' = renderCalls w ++ [renderer d]
  /\ closure_locals w' i
     = Some {| time := time (locals c) + 0.009; lastTime := t |}
  /\ sceneDataRef w'
     = Some (with_objects
               (frame Math_sin (scrollProgress c)
                  (time (locals c) + 0.009) (objects d)) d).
Proof.
  intros Hc Hm Hd Hge%Qltb_ge. unfold frontend_animate, in_closure.
  rewrite Hc. unfold bind at 1. unfold gets at 1. rewrite Hm, Hd.
  unfold bind, requestAnimationFrame, gets, modify, ret, update_closure,
    bind, render. simpl. rewrite Hge. simpl. rewrite Hd. simpl.
  unfold closure_locals. simpl.
  rewrite !list_lookup_alter_eq, Hc. done.
Qed.

Lemma sOpacity_non_increasing s1 s2 :
  s1 <= s2 -> sOpacity s2 <= sOpacity s1.
Proof. intros H. unfold sOpacity. apply Q.max_le_compat_l. lra. Qed.

Lemma sOpacity_bounds s : 0.2 <= sOpacity s.
Proof. unfold sOpacity. apply Q.le_max_l. Qed.

End SphereFrames.

(** ** One frame of the helix *)

Section HelixFrames.
Import Helix.
Variable Math_sin : Q -> Q.

(** [src/App.js]: every frame of a mounted helix is processed. *)
Lemma helix_root_animate_frame w i c d t :
  closures w !! i = Some c ->
  mounted c = true ->
  consts c = Some d ->
  let w' := snd (root_animate Math_sin i t w) in
  renderCalls w' = renderCalls w ++ [renderer d]
  /\ closure_locals w' i
     = Some {| time := time (locals c) + 0.011;
               lastScrollProgress := lastScrollProgress (locals c) |}
  /\ closure_consts w' i
     = Some (with_objects
               (root_frame Math_sin (scrollProgress c)
                  (time (locals c) + 0.011) (objects d)) d).
Proof.
  intros Hc Hm Hd. unfold root_animate, in_closure. rewrite Hc, Hm. simpl.
  unfold bind, requestAnimationFrame, gets, modify, ret, update_closure,
    bind, render. simpl. rewrite Hd. simpl.
  unfold closure_locals, closure_consts. simpl.
  rewrite !list_lookup_alter_eq, Hc. done.
Qed.

(** [frontend/src/App.js]: likewise. *)
Lemma helix_frontend_animate_frame w i c d t :
  closures w !! i = Some c ->
  mounted c = true ->
  sceneDataRef w = Some d ->
  let w' := snd (frontend_animate Math_sin i t w) in
  renderCalls w' = renderCalls w ++ [renderer d]
  /\ (time <$> closure_locals w' i) = Some (time (locals c) + 0.011)
  /\ sceneDataRef w'
     = Some (with_objects
               (frontend_frame Math_sin
                  (scroll_changed (lastScrollProgress (locals c))
                     (scrollProgress c))
                  (scrollProgress c) (time (locals c) + 0.011) (objects d)) d).
Proof.
  intros Hc Hm Hd. unfold frontend_animate, in_closure.
  rewrite Hc. unfold bind at 1. unfold gets at 1. rewrite Hm, Hd.
  unfold bind, requestAnimationFrame, gets, modify, ret, update_closure,
    bind, render. simpl. rewrite Hd. simpl.
  unfold closure_locals. simpl.
  rewrite !list_lookup_alter_eq, Hc. done.
Qed.

(** The loop compares the prop with the copy it took of the same prop:
    the opacities are never rewritten. *)
Lemma scroll_changed_same s : scroll_changed s s = false.
Proof.
  unfold scroll_changed. apply Qltb_ge.
  assert (s - s == 0) as -> by ring. done.
Qed.

End HelixFrames.

(** C8, as the code has it. In the sphere scene of both files a frame that comes
    less than 16 ms after the last processed one is skipped: no render
    call, and time, rotations, opacities and scale keep their values; a
    frame from 16 ms on is processed and becomes the new reference time.
    The helix scene of both files has no such test: every frame of a
    mounted helix advances time and renders. *)
Theorem sphere_frames_throttled_helix_frames_not (Math_sin : Q -> Q) :
  (forall w i c t,
      closures w !! i = Some c ->
      t - Sphere.lastTime (locals c) < 16 ->
      let w' := snd (Sphere.root_animate Math_sin i t w) in
      renderCalls w' = renderCalls w
      /\ closure_locals w' i = Some (locals c)
      /\ closure_consts w' i = consts c
      /\ heap w' = heap w)
  /\ (forall w i c t,
      closures w !! i = Some c ->
      t - Sphere.lastTime (locals c) < 16 ->
      let w' := snd (Sphere.frontend_animate Math_sin i t w) in
      renderCalls w' = renderCalls w
      /\ closure_locals w' i = Some (locals c)
      /\ sceneDataRef w' = sceneDataRef w
      /\ heap w' = heap w)
  /\ (forall w i c d t,
      closures w !! i = Some c -> mounted c = true -> consts c = Some d ->
      16 <= t - Sphere.lastTime (locals c) ->
      let w' := snd (Sphere.root_animate Math_sin i t w) in
      renderCalls w' = renderCalls w ++ [Sphere.renderer d]
      /\ (Sphere.lastTime <$> closure_locals w' i) = Some t)
  /\ (forall w i c d t,
      closures w !! i = Some c -> mounted c = true -> sceneDataRef w = Some d ->
      16 <= t - Sphere.lastTime (locals c) ->
      let w' := snd (Sphere.frontend_animate Math_sin i t w) in
      renderCalls w' = renderCalls w ++ [Sphere.renderer d]
      /\ (Sphere.lastTime <$> closure_locals w' i) = Some t)
  /\ (forall w i c d t,
      closures w !! i = Some c -> mounted c = true -> consts c = Some d ->
      let w' := snd (Helix.root_animate Math_sin i t w) in
      renderCalls w' = renderCalls w ++ [Helix.renderer d]
      /\ (Helix.time <$> closure_locals w' i)
         = Some (Helix.time (locals c) + 0.011))
  /\ (forall w i c d t,
      closures w !! i = Some c -> mounted c = true -> sceneDataRef w = Some d ->
      let w' := snd (Helix.frontend_animate Math_sin i t w) in
      renderCalls w' = renderCalls w ++ [Helix.renderer d]
      /\ (Helix.time <$> closure_locals w' i)
         = Some (Helix.time (locals c) + 0.011)).
Proof.
  split; [|split; [|split; [|split; [|split]]]].
  - intros. apply (root_animate_skipped_frame Math_sin w i c t); done.
  - intros. apply (frontend_animate_skipped_frame Math_sin w i c t); done.
  - intros w i c d t Hc Hm Hd Hge.
    destruct (root_animate_processed_frame Math_sin w i c d t Hc Hm Hd Hge)
      as (Hr & Hl & _). simpl. rewrite Hl. done.
  - intros w i c d t Hc Hm Hd Hge.
    destruct (frontend_animate_processed_frame Math_sin w i c d t Hc Hm Hd Hge)
      as (Hr & Hl & _). simpl. rewrite Hl. done.
  - intros w i c d t Hc Hm Hd.
    destruct (helix_root_animate_frame Math_sin w i c d t Hc Hm Hd)
      as (Hr & Hl & _). simpl. rewrite Hl. done.
  - intros w i c d t Hc Hm Hd.
    destruct (helix_frontend_animate_frame Math_sin w i c d t Hc Hm Hd)
      as (Hr & Hl & _). done.
Qed.

Lemma sphere_frames_throttled_helix_frames_not_witness :
  renderCalls
    (snd (Sphere.root_animate sin_0 0 105
            (run (Sphere.Root sin_0 no_failure)
               [Commit high 0; ImportSettled 0 (Normal tt) 0;
                AnimationFrame 100])))
  = [0%nat]
  /\ renderCalls
       (snd (Helix.root_animate sin_0 0 101 (helix_root_frames 0 [100])))
     = [0; 0; 0]%nat.
Proof.
  pose proof (sphere_frames_throttled_helix_frames_not sin_0)
    as (Hskip & _ & _ & _ & Hhelix & _).
  split.
  - etransitivity; [refine (proj1 (Hskip _ 0%nat _ 105 _ _))|].
    + vm_compute. reflexivity.
    + vm_compute. reflexivity.
    + vm_compute. reflexivity.
  - etransitivity;
      [refine (proj1 (Hhelix (helix_root_frames 0 [100]) 0%nat _ _ 101 _ _ _))|].
    + vm_compute. reflexivity.
    + reflexivity.
    + reflexivity.
    + vm_compute. reflexivity.
Defined.

(** Against C8 on the helix: a frame 1 ms after the previous one
    is processed and rendered. *)
Lemma helix_frame_after_1ms_is_rendered :
  renderCalls (helix_root_frames 0 [100; 101])
  = renderCalls (helix_root_frames 0 [100]) ++ [0%nat]
  /\ (Helix.time <$> closure_locals (helix_root_frames 0 [100]) 0)
     <> (Helix.time <$> closure_locals (helix_root_frames 0 [100; 101]) 0).
Proof.
  split.
  - vm_compute. reflexivity.
  - vm_compute. discriminate.
Qed.

(** Against C4 on the helix: the strand opacity written in a
    frame is larger at scroll progress 1 than at 0. *)
Lemma helix_opacity_grows_with_scroll :
  helix_root_mat1_opacity 0 == 0.65
  /\ helix_root_mat1_opacity 1 == 0.96
  /\ ~ (helix_root_mat1_opacity 1 <= helix_root_mat1_opacity 0).
Proof.
  split; [vm_compute; reflexivity|]. split; [vm_compute; reflexivity|].
  apply Qlt_not_le. vm_compute. reflexivity.
Qed.

(** ** The effect wrappers *)

Section LifecycleFacts.

Context {Data Locals : Type}.
Variable throws : Site -> option Err.
Variable build : Closure Data Locals -> M Data Locals Data.
Variable loop_locals : Closure Data Locals -> Q -> Locals.
Variable animate : nat -> Q -> M Data Locals unit.
Variable cleanupFn : nat -> M Data Locals unit.
Variable l0 : Locals.

Lemma fulfil_normal i b (w : World Data Locals) : fst (fulfil i b w) = Normal tt.
Proof. unfold fulfil, in_closure. destruct (closures w !! i); reflexivity. Qed.

Lemma try_catch_on_error_normal (m : M Data Locals bool) w :
  exists b, fst (try_catch m on_error w) = Normal b.
Proof.
  unfold try_catch. destruct (m w) as [[b|e] w']; simpl; eauto.
Qed.

Lemma try_catch_on_error_thrown (m : M Data Locals bool) w e w' :
  m w = (Thrown e, w') ->
  try_catch m on_error w
  = (Normal false, with_isLoaded true (with_console (console w' ++ [e]) w')).
Proof. unfold try_catch. intros ->. reflexivity. Qed.

Lemma fulfil_keeps i b (w : World Data Locals) :
  let w' := snd (fulfil i b w) in
  isLoaded w' = isLoaded w /\ console w' = console w
  /\ heap w' = heap w /\ children w' = children w
  /\ renderCalls w' = renderCalls w /\ frameRequests w' = frameRequests w
  /\ sceneDataRef w' = sceneDataRef w
  /\ resizeListeners w' = resizeListeners w.
Proof.
  unfold fulfil, in_closure. destruct (closures w !! i); simpl; done.
Qed.

(** The async function never rejects: whatever happens inside the [try]
    block, its continuation completes normally. *)
Lemma loadScene_resume_normal i imported now w :
  fst (loadScene_resume throws build loop_locals animate i imported now w)
  = Normal tt.
Proof.
  unfold loadScene_resume, in_closure.
  destruct (closures w !! i) as [c|]; [|reflexivity].
  destruct (promise c); [|reflexivity].
  unfold bind.
  destruct (try_catch _ on_error w) as [[b|e] w'] eqn:E.
  - apply fulfil_normal.
  - destruct (try_catch_on_error_normal
                (loadScene_try throws build loop_locals animate i imported) w)
      as [b Hb]. rewrite E in Hb. discriminate.
Qed.

Lemma initScene_resume_normal i imported now w :
  fst (initScene_resume throws build loop_locals i imported now w)
  = Normal tt.
Proof.
  unfold initScene_resume, in_closure.
  destruct (closures w !! i) as [c|]; [|reflexivity].
  destruct (promise c); [|reflexivity].
  unfold bind.
  destruct (try_catch _ on_error w) as [[b|e] w'] eqn:E.
  - apply fulfil_normal.
  - destruct (try_catch_on_error_normal
                (initScene_try throws build loop_locals i imported now) w)
      as [b Hb]. rewrite E in Hb. discriminate.
Qed.

Lemma loadScene_resume_caught i c imported now w e w' :
  closures w !! i = Some c -> promise c = Pending ->
  loadScene_try throws build loop_locals animate i imported w = (Thrown e, w') ->
  let w2 :=
    snd (loadScene_resume throws build loop_locals animate i imported now w) in
  isLoaded w2 = true /\ console w2 = console w' ++ [e].
Proof.
  intros Hc Hp Htry. unfold loadScene_resume, in_closure. rewrite Hc, Hp.
  unfold bind. rewrite (try_catch_on_error_thrown _ w e w' Htry).
  destruct (fulfil_keeps i false
              (with_isLoaded true (with_console (console w' ++ [e]) w')))
    as (H1 & H2 & _). simpl in *. rewrite H1, H2. done.
Qed.

Lemma initScene_resume_caught i c imported now w e w' :
  closures w !! i = Some c -> promise c = Pending ->
  initScene_try throws build loop_locals i imported now w = (Thrown e, w') ->
  let w2 :=
    snd (initScene_resume throws build loop_locals i imported now w) in
  isLoaded w2 = true /\ console w2 = console w' ++ [e].
Proof.
  intros Hc Hp Htry. unfold initScene_resume, in_closure. rewrite Hc, Hp.
  unfold bind. rewrite (try_catch_on_error_thrown _ w e w' Htry).
  destruct (fulfil_keeps i false
              (with_isLoaded true (with_console (console w' ++ [e]) w')))
    as (H1 & H2 & _). simpl in *. rewrite H1, H2. done.
Qed.

(** A rejected import throws at the [await], before anything is built. *)
Lemma loadScene_try_import_failed i e w :
  loadScene_try throws build loop_locals animate i (Thrown e) w = (Thrown e, w).
Proof. reflexivity. Qed.

Lemma initScene_try_import_failed i e now w :
  initScene_try throws build loop_locals i (Thrown e) now w = (Thrown e, w).
Proof. reflexivity. Qed.

(** C7. Every error thrown while a scene is constructed, a failed import
    included, is caught: it is logged, the scene is marked loaded (so the
    placeholder is hidden and the gradient background shows), and the
    async function still completes normally, so nothing reaches the
    page. Both files, both scenes. *)
Theorem construction_errors_are_caught
    (i : nat) (c : Closure Data Locals) (imported : Outcome unit) (now : Q)
    (w w' : World Data Locals) (e : Err) :
  closures w !! i = Some c ->
  promise c = Pending ->
  (loadScene_try throws build loop_locals animate i imported w = (Thrown e, w')
   -> let r := loadScene_resume throws build loop_locals animate
                 i imported now w in
      fst r = Normal tt
      /\ console (snd r) = console w' ++ [e]
      /\ isLoaded (snd r) = true
      /\ placeholder_visible (snd r) = false)
  /\ (initScene_try throws build loop_locals i imported now w = (Thrown e, w')
      -> let r := initScene_resume throws build loop_locals
                    i imported now w in
         fst r = Normal tt
         /\ console (snd r) = console w' ++ [e]
         /\ isLoaded (snd r) = true
         /\ placeholder_visible (snd r) = false)
  /\ fst (loadScene_resume throws build loop_locals animate i (Thrown e) now w)
     = Normal tt
  /\ isLoaded
       (snd (loadScene_resume throws build loop_locals animate
               i (Thrown e) now w)) = true
  /\ fst (initScene_resume throws build loop_locals i (Thrown e) now w)
     = Normal tt
  /\ isLoaded
       (snd (initScene_resume throws build loop_locals i (Thrown e) now w))
     = true.
Proof.
  intros Hc Hp. split; [|split; [|split; [|split; [|split]]]].
  - intros Htry. simpl.
    destruct (loadScene_resume_caught i c imported now w e w' Hc Hp Htry)
      as [H1 H2].
    unfold placeholder_visible. rewrite H1, H2.
    split; [apply loadScene_resume_normal | done].
  - intros Htry. simpl.
    destruct (initScene_resume_caught i c imported now w e w' Hc Hp Htry)
      as [H1 H2].
    unfold placeholder_visible. rewrite H1, H2.
    split; [apply initScene_resume_normal | done].
  - apply loadScene_resume_normal.
  - apply (loadScene_resume_caught i c (Thrown e) now w e w Hc Hp).
    apply loadScene_try_import_failed.
  - apply initScene_resume_normal.
  - apply (initScene_resume_caught i c (Thrown e) now w e w Hc Hp).
    apply initScene_try_import_failed.
Qed.

End LifecycleFacts.

Lemma construction_errors_are_caught_witness :
  fst (loadScene_resume webgl_unavailable
         (Sphere.build webgl_unavailable) Sphere.root_locals
         (Sphere.root_animate sin_0) 0 (Normal tt) 0 no_webgl_mounted)
  = Normal tt
  /\ console
       (snd (loadScene_resume webgl_unavailable
               (Sphere.build webgl_unavailable) Sphere.root_locals
               (Sphere.root_animate sin_0) 0 (Normal tt) 0 no_webgl_mounted))
     = console no_webgl_mounted ++ [LibraryError 1]
  /\ isLoaded
       (snd (loadScene_resume webgl_unavailable
               (Sphere.build webgl_unavailable) Sphere.root_locals
               (Sphere.root_animate sin_0) 0 (Normal tt) 0 no_webgl_mounted))
     = true
  /\ placeholder_visible
       (snd (loadScene_resume webgl_unavailable
               (Sphere.build webgl_unavailable) Sphere.root_locals
               (Sphere.root_animate sin_0) 0 (Normal tt) 0 no_webgl_mounted))
     = false.
Proof.
  refine (proj1 (construction_errors_are_caught webgl_unavailable
            (Sphere.build webgl_unavailable) Sphere.root_locals
            (Sphere.root_animate sin_0) 0%nat _ (Normal tt) 0
            no_webgl_mounted no_webgl_mounted (LibraryError 1) _ _) _).
  - vm_compute. reflexivity.
  - reflexivity.
  - vm_compute. reflexivity.
Defined.

(** ** A late import after the unmount *)

Section LateImport.

Context {Data Locals : Type}.
Variable throws : Site -> option Err.
Variable build : Closure Data Locals -> M Data Locals Data.
Variable loop_locals : Closure Data Locals -> Q -> Locals.
Variable animate : nat -> Q -> M Data Locals unit.
Variable cleanupFn : nat -> M Data Locals unit.
Variable l0 : Locals.

Abbreviation RootC := (RootComponent throws build loop_locals animate l0).
Abbreviation FrontendC :=
  (FrontendComponent throws build loop_locals animate cleanupFn l0).

Lemma same_resources_refl (w : World Data Locals) : same_resources w w.
Proof. unfold same_resources. done. Qed.

Lemma same_resources_trans (w1 w2 w3 : World Data Locals) :
  same_resources w1 w2 -> same_resources w2 w3 -> same_resources w1 w3.
Proof.
  unfold same_resources.
  intros (?&?&?&?&?&?) (?&?&?&?&?&?). repeat split; congruence.
Qed.

(** Reactions of a component whose reactions do nothing. *)
Lemma drain_root (w : World Data Locals) :
  drain RootC w = with_microtasks [] w.
Proof.
  unfold drain. generalize (with_microtasks [] w).
  induction (microtasks w) as [|j l IH]; intros w0; simpl; [done|].
  apply IH.
Qed.

(** [src/App.js]: the continuation of an unmounted closure. *)
Lemma root_resume_unmounted i c imported now w :
  closures w !! i = Some c -> mounted c = false ->
  same_resources w
    (snd (loadScene_resume throws build loop_locals animate i imported now w)).
Proof.
  intros Hc Hm. unfold loadScene_resume, in_closure. rewrite Hc.
  destruct (promise c); [|apply same_resources_refl].
  unfold bind, try_catch, loadScene_try, bind, await_import.
  destruct imported as [[]|e]; simpl.
  - unfold in_closure. rewrite Hc, Hm. simpl.
    unfold fulfil, in_closure. rewrite Hc. simpl. unfold same_resources. done.
  - unfold fulfil, in_closure. simpl. rewrite Hc. simpl.
    unfold same_resources. done.
Qed.

(** [frontend/src/App.js]: likewise, and the promise is fulfilled with
    [undefined]. *)
Lemma frontend_resume_unmounted i c imported now w :
  closures w !! i = Some c -> mounted c = false -> promise c = Pending ->
  let w' :=
    snd (initScene_resume throws build loop_locals i imported now w) in
  same_resources w w'
  /\ microtasks w' = microtasks w ++ repeat i (reactions c)
  /\ closures w' = alter (with_promise (Fulfilled false) 0) i (closures w).
Proof.
  intros Hc Hm Hp. unfold initScene_resume, in_closure. rewrite Hc, Hp.
  unfold bind, try_catch, initScene_try, bind, await_import.
  destruct imported as [[]|e]; simpl.
  - unfold in_closure. rewrite Hc. unfold gets, bind. rewrite Hm. simpl.
    unfold fulfil, in_closure. rewrite Hc. simpl.
    unfold same_resources. done.
  - unfold fulfil, in_closure. simpl. rewrite Hc. simpl.
    unfold same_resources. done.
Qed.

(** A reaction on a promise fulfilled with [undefined] calls nothing. *)
Lemma frontend_reaction_undefined i c (w : World Data Locals) :
  closures w !! i = Some c -> promise c = Fulfilled false ->
  frontend_reaction cleanupFn i w = (Normal tt, w).
Proof.
  intros Hc Hp. unfold frontend_reaction, in_closure. rewrite Hc, Hp.
  reflexivity.
Qed.

Lemma fold_reactions_undefined i c n : forall w : World Data Locals,
  closures w !! i = Some c -> promise c = Fulfilled false ->
  fold_left (fun w j => run_callback (frontend_reaction cleanupFn j) w)
            (repeat i n) w = w.
Proof.
  induction n as [|n IH]; intros w Hc Hp; simpl; [done|].
  unfold run_callback at 2.
  rewrite (frontend_reaction_undefined i c w Hc Hp). simpl.
  apply IH; done.
Qed.

Lemma root_unmount_flag i c (w : World Data Locals) :
  closures w !! i = Some c -> current w = Some i ->
  closures (unmount RootC w) !! i = Some (with_mounted false c).
Proof.
  intros Hc Hcur. unfold unmount. rewrite drain_root. simpl. rewrite Hcur.
  simpl. rewrite list_lookup_alter_eq, Hc. done.
Qed.

Lemma frontend_unmount_flag i c (w : World Data Locals) :
  closures w !! i = Some c -> current w = Some i ->
  promise c = Pending -> microtasks w = [] ->
  closures (unmount FrontendC w) !! i
  = Some (with_promise Pending (S (reactions c)) (with_mounted false c))
  /\ microtasks (unmount FrontendC w) = [].
Proof.
  intros Hc Hcur Hp Hq. unfold unmount, drain. simpl. rewrite Hcur. simpl.
  unfold run_callback, frontend_effect_cleanup, bind, update_closure, modify,
    promise_then, in_closure. simpl.
  rewrite list_lookup_alter_eq, Hc. simpl. rewrite Hp. simpl.
  rewrite Hq. simpl.
  rewrite list_lookup_alter_eq, list_lookup_alter_eq, Hc. done.
Qed.

(** C6. When the component unmounts while the import is pending, the
    construction finds the flag cleared as it resumes and creates
    nothing: no GPU object, no renderer, no canvas under the mount node,
    no render call, no frame request, no listener. Both files, both
    scenes, whether the import succeeds or fails. *)
Theorem late_import_creates_nothing
    (i : nat) (c : Closure Data Locals) (imported : Outcome unit) (now : Q)
    (w : World Data Locals) :
  closures w !! i = Some c ->
  current w = Some i ->
  promise c = Pending ->
  microtasks w = [] ->
  same_resources (unmount RootC w)
    (import_settled RootC i imported now (unmount RootC w))
  /\ same_resources (unmount FrontendC w)
       (import_settled FrontendC i imported now (unmount FrontendC w)).
Proof.
  intros Hc Hcur Hp Hq. split.
  - unfold import_settled. rewrite drain_root.
    pose proof (root_unmount_flag i c w Hc Hcur) as Hflag.
    pose proof (root_resume_unmounted i _ imported now _ Hflag eq_refl) as H.
    unfold run_callback. simpl.
    eapply same_resources_trans; [exact H|].
    unfold same_resources. done.
  - destruct (frontend_unmount_flag i c w Hc Hcur Hp Hq) as [Hflag Hempty].
    destruct (frontend_resume_unmounted i _ imported now _ Hflag eq_refl eq_refl)
      as (Hsame & Hmicro & Hclos).
    unfold import_settled, drain.
    simpl in Hmicro. rewrite Hempty in Hmicro. simpl in Hmicro.
    set (w1 := unmount FrontendC w) in *.
    set (w2 := snd (initScene_resume throws build loop_locals
                      i imported now w1)) in *.
    change (run_callback (resume FrontendC i imported now) w1) with w2.
    rewrite Hmicro.
    change (i :: repeat i (reactions c)) with (repeat i (S (reactions c))).
    assert (closures (with_microtasks [] w2) !! i
            = Some (with_promise (Fulfilled false) 0
                      (with_promise Pending (S (reactions c))
                         (with_mounted false c)))) as Hc2.
    { simpl. rewrite Hclos, list_lookup_alter_eq, Hflag. done. }
    change (reaction FrontendC) with (frontend_reaction cleanupFn).
    rewrite (fold_reactions_undefined i _ _ _ Hc2 eq_refl).
    eapply same_resources_trans; [exact Hsame|].
    unfold same_resources. done.
Qed.

End LateImport.

Lemma late_import_creates_nothing_witness :
  same_resources
    (unmount (Sphere.Root sin_0 no_failure) sphere_import_pending)
    (import_settled (Sphere.Root sin_0 no_failure) 0 (Normal tt) 0
       (unmount (Sphere.Root sin_0 no_failure) sphere_import_pending))
  /\ same_resources
       (unmount (Sphere.Frontend sin_0 no_failure) sphere_import_pending)
       (import_settled (Sphere.Frontend sin_0 no_failure) 0 (Normal tt) 0
          (unmount (Sphere.Frontend sin_0 no_failure) sphere_import_pending)).
Proof.
  split.
  - refine (proj1 (late_import_creates_nothing no_failure
              (Sphere.build no_failure) Sphere.root_locals
              (Sphere.root_animate sin_0) (Sphere.frontend_cleanupFn)
              Sphere.sphere_locals_0 0%nat _ (Normal tt) 0
              sphere_import_pending _ _ _ _)).
    + vm_compute. reflexivity.
    + reflexivity.
    + reflexivity.
    + reflexivity.
  - refine (proj2 (late_import_creates_nothing no_failure
              (Sphere.build no_failure) Sphere.frontend_locals
              (Sphere.frontend_animate sin_0) (Sphere.frontend_cleanupFn)
              Sphere.sphere_locals_0 0%nat _ (Normal tt) 0
              sphere_import_pending _ _ _ _)).
    + vm_compute. reflexivity.
    + reflexivity.
    + reflexivity.
    + reflexivity.
Defined.

(** ** The scenarios on the two files *)

(** C1 on [src/App.js]: after a quality change the canvas and the seven
    GPU objects of the first construction are still there next to those
    of the second. The function that would release them is returned by
    [loadScene] and dropped. *)
Theorem root_sphere_quality_change_keeps_both_bundles :
  children (root_sphere_after quality_change) = [0; 7]%nat
  /\ live (root_sphere_after quality_change) = seq 0 14
  /\ map disposals (heap (root_sphere_after quality_change)) = repeat 0%nat 14.
Proof. vm_compute. done. Qed.

(** The same scenario on [frontend/src/App.js]: one canvas, the first
    bundle released exactly once. *)
Lemma frontend_sphere_quality_change_hands_over :
  children (frontend_sphere_after quality_change) = [7]%nat
  /\ live (frontend_sphere_after quality_change) = seq 7 7
  /\ map disposals (heap (frontend_sphere_after quality_change))
     = repeat 1%nat 7 ++ repeat 0%nat 7.
Proof. vm_compute. done. Qed.

Lemma frontend_helix_quality_change_hands_over :
  children (frontend_helix_after quality_change) = [19]%nat
  /\ live (frontend_helix_after quality_change) = seq 19 19
  /\ map disposals (heap (frontend_helix_after quality_change))
     = repeat 1%nat 19 ++ repeat 0%nat 19.
Proof. vm_compute. done. Qed.

Lemma root_helix_quality_change_keeps_both_bundles :
  children (root_helix_after quality_change) = [0; 19]%nat
  /\ live (root_helix_after quality_change) = seq 0 38.
Proof. vm_compute. done. Qed.

(** C5 on [src/App.js]: after the unmount no frame renders any more, but
    no geometry, material or renderer was released and the canvas is
    still under the mount node. *)
Theorem root_sphere_unmount_releases_nothing :
  renderCalls (root_sphere_after mount_then_unmount) = [0]%nat
  /\ map disposals (heap (root_sphere_after mount_then_unmount))
     = repeat 0%nat 7
  /\ children (root_sphere_after mount_then_unmount) = [0]%nat.
Proof. vm_compute. done. Qed.

(** What [src/App.js] would do if the function [loadScene] returns were
    called: it releases the whole bundle and does not throw. *)
Lemma root_returned_cleanup_would_release :
  fst (Sphere.root_returned_cleanup 0 (root_sphere_after mounted_and_shown))
  = Normal tt
  /\ map disposals
       (heap (snd (Sphere.root_returned_cleanup 0
                     (root_sphere_after mounted_and_shown))))
     = repeat 1%nat 7
  /\ children (snd (Sphere.root_returned_cleanup 0
                      (root_sphere_after mounted_and_shown))) = [].
Proof. vm_compute. done. Qed.

(** The same scenario on [frontend/src/App.js]: everything is released
    exactly once, and running the teardown again changes nothing and
    does not throw. *)
Lemma frontend_sphere_unmount_releases_once :
  renderCalls (frontend_sphere_after mount_then_unmount) = [0]%nat
  /\ map disposals (heap (frontend_sphere_after mount_then_unmount))
     = repeat 1%nat 7
  /\ children (frontend_sphere_after mount_then_unmount) = []
  /\ fst (Sphere.frontend_cleanupFn 0
            (frontend_sphere_after mount_then_unmount)) = Normal tt
  /\ map disposals
       (heap (snd (Sphere.frontend_cleanupFn 0
                     (frontend_sphere_after mount_then_unmount))))
     = repeat 1%nat 7.
Proof. vm_compute. done. Qed.

(** Teardown when construction never completed. *)
Lemma frontend_sphere_teardown_without_scene :
  heap (frontend_sphere_after unmount_while_pending) = []
  /\ children (frontend_sphere_after unmount_while_pending) = []
  /\ fst (Sphere.frontend_cleanupFn 0
            (frontend_sphere_after unmount_while_pending)) = Normal tt
  /\ fst (frontend_effect_cleanup 0
            (frontend_sphere_after unmount_while_pending)) = Normal tt.
Proof. vm_compute. done. Qed.

(** The cleanup function of [frontend/src/App.js] never throws:
    [removeChild] is only reached under [contains]. *)
Lemma frontend_sphere_cleanupFn_never_throws i w :
  fst (Sphere.frontend_cleanupFn i w) = Normal tt.
Proof.
  unfold Sphere.frontend_cleanupFn, in_closure.
  destruct (closures w !! i) as [c|]; [|reflexivity].
  unfold bind, update_closure, removeResizeListener, modify, gets.
  simpl. destruct (animationFrame c); simpl;
    (destruct (sceneDataRef w) as [d|]; [|reflexivity]);
    unfold dispose, contains, removeChild, modify, gets; simpl;
    destruct (bool_decide _) eqn:E; simpl; rewrite ?E; reflexivity.
Qed.

(** And a second run of it finds the ref cleared and releases nothing
    again. *)
Lemma frontend_sphere_cleanupFn_twice i w :
  let w1 := snd (Sphere.frontend_cleanupFn i w) in
  heap (snd (Sphere.frontend_cleanupFn i w1)) = heap w1
  /\ children (snd (Sphere.frontend_cleanupFn i w1)) = children w1.
Proof.
  unfold Sphere.frontend_cleanupFn, in_closure.
  destruct (closures w !! i) as [c|] eqn:Hc; simpl; [|rewrite Hc; done].
  unfold bind, update_closure, removeResizeListener, modify, gets.
  simpl. destruct (animationFrame c); simpl;
    (destruct (sceneDataRef w) as [d|] eqn:Hd; simpl;
     [unfold dispose, contains, removeChild, modify, gets; simpl;
      destruct (bool_decide _) eqn:E; simpl; rewrite ?E; simpl
     |]);
    rewrite ?list_lookup_alter_eq, ?Hc; simpl;
    destruct (animationFrame c); simpl; rewrite ?Hd; done.
Qed.

(** ** [frontend/src/App.js]: one bundle at a time, on every run *)

Section OneBundle.
Import Sphere.
Variable Math_sin : Q -> Q.

Abbreviation SW := (World SphereData SphereLocals).
Abbreviation FS := (Sphere.Frontend Math_sin no_failure).

Lemma build_no_failure c (w : SW) :
  exists d, allocated_at (length (heap w)) d
    /\ build no_failure c w
       = (Normal d,
          with_children (children w ++ [length (heap w)])
            (with_heap (heap w ++ sphere_resources) w)).
Proof.
  eexists. split; cycle 1.
  - unfold build, bind, call, new_resource, appendChild, bind, call, gets,
      modify, ret, no_failure. simpl.
    rewrite !length_app. simpl. rewrite <- !app_assoc. simpl. reflexivity.
  - unfold allocated_at, ids. simpl. repeat f_equal; lia.
Qed.

Lemma same_lifecycle_refl (w : SW) : same_lifecycle w w.
Proof. unfold same_lifecycle. done. Qed.

Lemma same_lifecycle_trans (w1 w2 w3 : SW) :
  same_lifecycle w1 w2 -> same_lifecycle w2 w3 -> same_lifecycle w1 w3.
Proof.
  unfold same_lifecycle.
  intros (?&?&?&?&H5&?) (?&?&?&?&H5'&?).
  repeat split; congruence.
Qed.

Lemma flags_lookup (w : SW) j c :
  closures w !! j = Some c -> flags <$> closures w !! j = Some (flags c).
Proof. intros ->. reflexivity. Qed.

Lemma flags_lookup_inv (w : SW) j f :
  flags <$> closures w !! j = Some f ->
  exists c, closures w !! j = Some c /\ flags c = f.
Proof.
  destruct (closures w !! j) as [c|]; simpl; [|discriminate].
  intros [= <-]. eauto.
Qed.

(** The invariant only reads what [same_lifecycle] keeps. *)
Lemma one_bundle_transfer (w w' : SW) :
  same_lifecycle w w' -> one_bundle w -> one_bundle w'.
Proof.
  intros (Hm & Hcur & Hh & Hch & Hfl & Hids) [Hq Hc Hs Hsc].
  assert (forall j c', closures w' !! j = Some c' ->
            exists c, closures w !! j = Some c /\ flags c = flags c') as Hback.
  { intros j c' Hc'. apply flags_lookup_inv. rewrite <- Hfl.
    apply flags_lookup, Hc'. }
  assert (forall j c, closures w !! j = Some c ->
            exists c', closures w' !! j = Some c' /\ flags c' = flags c) as Hfwd.
  { intros j c Hcj. apply flags_lookup_inv. rewrite Hfl.
    apply flags_lookup, Hcj. }
  split.
  - congruence.
  - intros i Hi. rewrite Hcur in Hi. destruct (Hc i Hi) as (c & Hci & Hmc & Hrc).
    destruct (Hfwd i c Hci) as (c' & Hc' & [= E1 E2 E3]).
    exists c'. repeat split; congruence.
  - intros j c' Hc' Hne. rewrite Hcur in Hne.
    destruct (Hback j c' Hc') as (c & Hcj & [= E1 E2 E3]).
    rewrite <- E1. apply (Hs j c Hcj Hne).
  - destruct (sceneDataRef w) as [d|], (sceneDataRef w') as [d'|];
      simpl in Hids; try discriminate.
    + assert (ids d' = ids d) as Hids' by congruence.
      destruct Hsc as (h & Hheap & Hrel & Hal & Hchild & i & c & Hi & Hci & Hp).
      destruct (Hfwd i c Hci) as (c' & Hc' & [= E1 E2 E3]).
      unfold allocated_at in *.
      refine (ex_intro _ h _). rewrite Hh, Hch.
      repeat split; try congruence.
      refine (ex_intro _ i (ex_intro _ c' _)). repeat split; congruence.
    + rewrite Hh, Hch. exact Hsc.
Qed.

Lemma flags_alter (f : Closure SphereData SphereLocals -> _)
    (l : list (Closure SphereData SphereLocals)) (j k : nat) :
  (forall c, flags (f c) = flags c) ->
  flags <$> alter f j l !! k = flags <$> l !! k.
Proof.
  intros Hf. destruct (decide (j = k)) as [->|Hne].
  - rewrite list_lookup_alter_eq. destruct (l !! k); simpl; [|done].
    rewrite Hf. done.
  - rewrite list_lookup_alter_ne; done.
Qed.

(** A frame callback writes nothing the lifecycle looks at. *)
Lemma frontend_animate_same_lifecycle j t (w : SW) :
  same_lifecycle w (snd (frontend_animate Math_sin j t w)).
Proof.
  unfold frontend_animate, in_closure.
  destruct (closures w !! j) as [c|] eqn:Hc; [|apply same_lifecycle_refl].
  unfold bind at 1. unfold gets at 1.
  destruct (mounted c), (sceneDataRef w) as [d|] eqn:Hd;
    try apply same_lifecycle_refl.
  unfold bind, requestAnimationFrame, gets, modify, ret, update_closure,
    bind, render. simpl.
  destruct (Qltb _ 16); simpl; rewrite ?Hd; simpl;
    unfold same_lifecycle; simpl; rewrite ?Hd; repeat split; try done;
    intros k; rewrite ?flags_alter; done.
Qed.

Lemma frames_same_lifecycle t (l : list (nat * nat)) : forall w : SW,
  same_lifecycle w
    (fold_left (fun w r => run_callback (frontend_animate Math_sin (snd r) t) w)
       l w).
Proof.
  induction l as [|r l IH]; intros w; simpl; [apply same_lifecycle_refl|].
  eapply same_lifecycle_trans; [|apply IH].
  apply frontend_animate_same_lifecycle.
Qed.

Lemma animation_frame_keeps t (w : SW) :
  one_bundle w -> one_bundle (animation_frame FS t w).
Proof.
  apply one_bundle_transfer. unfold animation_frame.
  eapply same_lifecycle_trans; [|apply frames_same_lifecycle].
  unfold same_lifecycle. done.
Qed.

(** With an empty queue the checkpoint does nothing. *)
Lemma drain_quiescent (w : SW) :
  microtasks w = [] -> same_lifecycle w (drain FS w).
Proof.
  intros Hq. unfold drain. rewrite Hq. simpl.
  unfold same_lifecycle. simpl. rewrite Hq. done.
Qed.

Lemma initial_one_bundle : one_bundle (@initial_world SphereData SphereLocals).
Proof.
  split; simpl; try done.
  split; [done | constructor].
Qed.

Lemma alter_app_at {A} (f : A -> A) (h l : list A) (n k : nat) :
  n = (length h + k)%nat -> alter f n (h ++ l) = h ++ alter f k l.
Proof.
  intros ->. revert k. induction h as [|x h IH]; intros k; simpl; [done|].
  f_equal. apply IH.
Qed.

Lemma allocated_at_ids n d :
  allocated_at n d ->
  renderer d = n /\ geometry d = (n + 1)%nat /\ material d = (n + 2)%nat
  /\ edgesGeometry d = (n + 3)%nat /\ edgesMaterial d = (n + 4)%nat
  /\ particlesGeometry d = (n + 5)%nat /\ particlesMaterial d = (n + 6)%nat.
Proof.
  unfold allocated_at, ids. simpl. intros [= -> -> -> -> -> -> ->].
  repeat split; lia.
Qed.

(** The cleanup function on the live bundle: everything of it is
    disposed once and the canvas is detached. *)
Lemma cleanupFn_releases i c d h (w : SW) :
  closures w !! i = Some c ->
  sceneDataRef w = Some d ->
  heap w = h ++ sphere_resources ->
  allocated_at (length h) d ->
  children w = [length h] ->
  let w' := snd (frontend_cleanupFn i w) in
  heap w' = h ++ map disposed_once_more sphere_resources
  /\ children w' = []
  /\ sceneDataRef w' = None
  /\ closures w' = alter (with_mounted false) i (closures w)
  /\ microtasks w' = microtasks w
  /\ current w' = current w.
Proof.
  intros Hc Hd Hheap Hal Hchild.
  destruct (allocated_at_ids _ _ Hal) as (E0 & E1 & E2 & E3 & E4 & E5 & E6).
  unfold frontend_cleanupFn, in_closure. rewrite Hc.
  unfold bind, update_closure, removeResizeListener, modify, gets, dispose,
    contains, removeChild, modify, gets.
  assert (bool_decide (length h ∈ [length h]) = true) as Hin
    by (apply bool_decide_eq_true_2; constructor).
  simpl. destruct (animationFrame c); simpl; rewrite Hd; simpl;
    rewrite E0, E1, E2, E3, E4, E5, E6, Hheap, Hchild, Hin; simpl;
    rewrite ?Hin; simpl;
    rewrite (alter_app_at _ h _ _ 1) by done;
    rewrite (alter_app_at _ h _ _ 3) by done;
    rewrite (alter_app_at _ h _ _ 5) by done;
    rewrite (alter_app_at _ h _ _ 2) by done;
    rewrite (alter_app_at _ h _ _ 4) by done;
    rewrite (alter_app_at _ h _ _ 6) by done;
    rewrite (alter_app_at _ h _ _ 0) by lia;
    repeat (progress (simpl; rewrite ?Hchild, ?Hin));
    rewrite filter_cons_False by (intros H; apply H; done);
    done.
Qed.

Lemma cleanupFn_without_scene i c (w : SW) :
  closures w !! i = Some c ->
  sceneDataRef w = None ->
  let w' := snd (frontend_cleanupFn i w) in
  heap w' = heap w
  /\ children w' = children w
  /\ sceneDataRef w' = None
  /\ closures w' = alter (with_mounted false) i (closures w)
  /\ microtasks w' = microtasks w
  /\ current w' = current w.
Proof.
  intros Hc Hd. unfold frontend_cleanupFn, in_closure. rewrite Hc.
  unfold bind, update_closure, removeResizeListener, modify, gets.
  simpl. destruct (animationFrame c); simpl; rewrite Hd; done.
Qed.

(** The effect body: one more closure, mounted, nothing waiting on it,
    its promise pending (or already fulfilled with [undefined]). *)
Lemma frontend_effect_spec q s (w : SW) :
  let r := frontend_effect q s sphere_locals_0 w in
  fst r = Normal (length (closures w))
  /\ (exists c', closures (snd r) = closures w ++ [c']
                 /\ mounted c' = true /\ reactions c' = 0%nat
                 /\ promise c' <> Fulfilled true)
  /\ microtasks (snd r) = microtasks w
  /\ heap (snd r) = heap w
  /\ children (snd r) = children w
  /\ sceneDataRef (snd r) = sceneDataRef w
  /\ current (snd r) = current w.
Proof.
  unfold frontend_effect, new_closure, bind, gets, modify, ret. simpl.
  destruct (mountRef w); simpl.
  - split; [done|]. split; [|done]. eexists. split; [reflexivity|]. done.
  - unfold fulfil, in_closure, bind, modify, update_closure, modify. simpl.
    rewrite list_lookup_middle by done. simpl.
    rewrite (alter_app_at _ _ _ _ 0) by lia. simpl.
    rewrite app_nil_r.
    split; [done|]. split; [|done]. eexists. split; [reflexivity|]. done.
Qed.

(** The effect's cleanup: the flag is cleared and the reaction is queued
    or left waiting on the promise. *)
Lemma frontend_effect_cleanup_spec i c (w : SW) :
  closures w !! i = Some c ->
  let w1 := snd (frontend_effect_cleanup i w) in
  heap w1 = heap w /\ children w1 = children w
  /\ sceneDataRef w1 = sceneDataRef w /\ current w1 = current w
  /\ match promise c with
     | Pending =>
         microtasks w1 = microtasks w
         /\ closures w1
            = alter (with_promise Pending (S (reactions c))) i
                (alter (with_mounted false) i (closures w))
     | Fulfilled _ =>
         microtasks w1 = microtasks w ++ [i]
         /\ closures w1 = alter (with_mounted false) i (closures w)
     end.
Proof.
  intros Hc. unfold frontend_effect_cleanup, bind, update_closure, modify,
    promise_then, in_closure. simpl.
  rewrite list_lookup_alter_eq, Hc. simpl.
  destruct (promise c); simpl; done.
Qed.

Lemma released_once_disposed h :
  released_once h ->
  released_once (h ++ map disposed_once_more sphere_resources).
Proof.
  intros H. apply Forall_app. split; [exact H|].
  simpl. repeat constructor.
Qed.

Lemma reaction_releases i c b (w : SW) :
  closures w !! i = Some c ->
  promise c = Fulfilled b ->
  scene_of b w ->
  let w' := run_callback (frontend_reaction (frontend_cleanupFn) i) w in
  sceneDataRef w' = None
  /\ children w' = []
  /\ released_once (heap w')
  /\ microtasks w' = microtasks w
  /\ current w' = current w
  /\ (closures w' = closures w
      \/ closures w' = alter (with_mounted false) i (closures w)).
Proof.
  intros Hc Hp Hsc. unfold run_callback, frontend_reaction, in_closure.
  rewrite Hc, Hp. unfold scene_of in Hsc.
  destruct b; simpl.
  - destruct (sceneDataRef w) as [d|] eqn:Hd.
    + destruct Hsc as (_ & h & Hheap & Hrel & Hal & Hch).
      destruct (cleanupFn_releases i c d h w Hc Hd Hheap Hal Hch)
        as (H1 & H2 & H3 & H4 & H5 & H6).
      simpl in *. rewrite H1, H2, H3, H4, H5, H6.
      repeat split; try done; [apply released_once_disposed, Hrel | by right].
    + destruct Hsc as [Hch Hrel].
      destruct (cleanupFn_without_scene i c w Hc Hd)
        as (H1 & H2 & H3 & H4 & H5 & H6).
      simpl in *. rewrite H1, H2, H3, H4, H5, H6.
      repeat split; try done. by right.
  - destruct (sceneDataRef w) as [d|] eqn:Hd.
    + destruct Hsc as [[=] _].
    + destruct Hsc as [Hch Hrel]. repeat split; try done. by left.
Qed.

(** The cleanup of the current run, on a world of the invariant. *)
Lemma cleanup_current i (w : SW) :
  one_bundle w -> current w = Some i ->
  let w1 := snd (frontend_effect_cleanup i w) in
  Forall (fun c => mounted c = false) (closures w1)
  /\ heap w1 = heap w /\ children w1 = children w
  /\ sceneDataRef w1 = sceneDataRef w /\ current w1 = current w
  /\ length (closures w1) = length (closures w)
  /\ ((microtasks w1 = [] /\ scene_of false w1)
      \/ (microtasks w1 = [i]
          /\ exists ci b, closures w1 !! i = Some ci
               /\ promise ci = Fulfilled b /\ scene_of b w1)).
Proof.
  intros [Hq Hcur Hstale Hsc] Hi.
  destruct (Hcur i Hi) as (c & Hc & Hm & Hr).
  destruct (frontend_effect_cleanup_spec i c w Hc) as (H1 & H2 & H3 & H4 & H5).
  simpl in *. rewrite H1, H2, H3, H4.
  assert (scene_of (match promise c with
                    | Fulfilled b => b | Pending => false end)
            (snd (frontend_effect_cleanup i w))) as Hscene.
  { unfold scene_of. rewrite H1, H2, H3.
    destruct (sceneDataRef w) as [d|]; [|exact Hsc].
    destruct Hsc as (h & Hheap & Hrel & Hal & Hch & i' & c' & Hi' & Hc' & Hp').
    assert (i' = i) as -> by congruence.
    assert (c' = c) as -> by congruence.
    rewrite Hp'. split; [done|]. eauto. }
  assert (Forall (fun c => mounted c = false)
            (alter (with_mounted false) i (closures w))) as Hall.
  { apply Forall_lookup. intros j cj Hj.
    destruct (decide (i = j)) as [<-|Hne].
    - rewrite list_lookup_alter_eq, Hc in Hj. injection Hj as <-. done.
    - rewrite list_lookup_alter_ne in Hj by done.
      apply (Hstale j cj Hj). congruence. }
  destruct (promise c) as [|b] eqn:Hp; destruct H5 as [H5 H6]; rewrite H5, H6.
  - repeat split; try done.
    + apply Forall_alter; [exact Hall|]. intros x _ Hx. exact Hx.
    + rewrite !length_alter. done.
    + left. rewrite Hq. done.
  - repeat split; try done.
    + rewrite length_alter. done.
    + right. rewrite Hq. split; [done|].
      exists (with_mounted false c), b.
      rewrite list_lookup_alter_eq, Hc. done.
Qed.

(** A world with a fresh current run and no live bundle. *)
Lemma one_bundle_fresh (w : SW) cl c' :
  microtasks w = [] ->
  current w = Some (length cl) ->
  closures w = cl ++ [c'] ->
  Forall (fun c => mounted c = false) cl ->
  mounted c' = true -> reactions c' = 0%nat ->
  sceneDataRef w = None -> children w = [] -> released_once (heap w) ->
  one_bundle w.
Proof.
  intros Hq Hcur Hcl Hall Hm Hr Hsd Hch Hrel. split.
  - exact Hq.
  - intros i Hi. rewrite Hcur in Hi. injection Hi as <-.
    exists c'. rewrite Hcl, list_lookup_middle by done. done.
  - intros j c Hj Hne. rewrite Hcur in Hne. rewrite Hcl in Hj.
    apply lookup_app_Some in Hj as [Hj | [Hge Hj]].
    + apply (proj1 (Forall_lookup _ _) Hall j c Hj).
    + destruct (j - length cl)%nat as [|k] eqn:E; simpl in Hj; [|done].
      exfalso. apply Hne. f_equal. lia.
  - rewrite Hsd. done.
Qed.

(** A world without a current run and without a live bundle. *)
Lemma one_bundle_idle (w : SW) :
  microtasks w = [] ->
  current w = None ->
  Forall (fun c => mounted c = false) (closures w) ->
  sceneDataRef w = None -> children w = [] -> released_once (heap w) ->
  one_bundle w.
Proof.
  intros Hq Hcur Hall Hsd Hch Hrel. split.
  - exact Hq.
  - intros i Hi. congruence.
  - intros j c Hj _. apply (proj1 (Forall_lookup _ _) Hall j c Hj).
  - rewrite Hsd. done.
Qed.

Lemma scene_of_false (w : SW) :
  scene_of false w ->
  sceneDataRef w = None /\ children w = [] /\ released_once (heap w).
Proof.
  unfold scene_of. destruct (sceneDataRef w); [intros [[=] _] | done].
Qed.

Lemma commit_keeps q s (w : SW) : one_bundle w -> one_bundle (commit FS q s w).
Proof.
  intros Hinv. unfold commit. destruct (current w) as [i|] eqn:Hi.
  - pose proof (cleanup_current i w Hinv Hi)
      as (Hall & Hh & Hch & Hsd & Hcu & Hlen & Hcase).
    change (run_callback (effect_cleanup FS i) w)
      with (snd (frontend_effect_cleanup i w)).
    set (w1 := snd (frontend_effect_cleanup i w)) in *.
    pose proof (frontend_effect_spec q s w1)
      as (Hr & (c' & Hcl & Hm' & Hr' & Hp') & Hmt & Hh2 & Hch2 & Hsd2 & Hcu2).
    change (effect FS q s w1) with (frontend_effect q s sphere_locals_0 w1).
    destruct (frontend_effect q s sphere_locals_0 w1) as [r w2].
    simpl in Hr, Hcl, Hmt, Hh2, Hch2, Hsd2, Hcu2. subst r.
    unfold drain. simpl.
    destruct Hcase as [[Hm1 Hsc1] | (Hm1 & ci & b & Hci & Hpi & Hsc1)].
    + rewrite Hmt, Hm1. simpl.
      apply scene_of_false in Hsc1 as (Hs1 & Hs2 & Hs3).
      apply (one_bundle_fresh _ (closures w1) c'); simpl; try done; congruence.
    + rewrite Hmt, Hm1. simpl.
      set (w3 := with_microtasks [] (with_current (Some (length (closures w1))) w2)).
      assert (closures w3 !! i = Some ci) as Hci3.
      { simpl. rewrite Hcl. apply lookup_app_l_Some, Hci. }
      assert (scene_of b w3) as Hsc3.
      { unfold scene_of in *. simpl. rewrite Hsd2, Hh2, Hch2. exact Hsc1. }
      destruct (reaction_releases i ci b w3 Hci3 Hpi Hsc3)
        as (R1 & R2 & R3 & R4 & R5 & R6).
      change (reaction FS i) with (frontend_reaction frontend_cleanupFn i).
      set (w4 := run_callback (frontend_reaction frontend_cleanupFn i) w3) in *.
      simpl in R4, R5, R6.
      destruct R6 as [R6 | R6].
      * apply (one_bundle_fresh _ (closures w1) c'); try done; congruence.
      * apply (one_bundle_fresh _ (alter (with_mounted false) i (closures w1)) c');
          try done.
        -- rewrite length_alter. done.
        -- rewrite R6, Hcl. apply alter_app_l.
           apply lookup_lt_Some in Hci. done.
        -- apply Forall_alter; [exact Hall|]. done.
  - pose proof (frontend_effect_spec q s w)
      as (Hr & (c' & Hcl & Hm' & Hr' & Hp') & Hmt & Hh2 & Hch2 & Hsd2 & Hcu2).
    change (effect FS q s w) with (frontend_effect q s sphere_locals_0 w).
    destruct (frontend_effect q s sphere_locals_0 w) as [r w2].
    simpl in Hr, Hcl, Hmt, Hh2, Hch2, Hsd2, Hcu2. subst r.
    destruct Hinv as [Hq Hcur Hstale Hsc].
    unfold drain. simpl. rewrite Hmt, Hq. simpl.
    assert (sceneDataRef w = None) as Hnone.
    { destruct (sceneDataRef w); [|done].
      destruct Hsc as (h & _ & _ & _ & _ & i' & c0 & Hi' & _). congruence. }
    rewrite Hnone in Hsc. destruct Hsc as [Hs2 Hs3].
    apply (one_bundle_fresh _ (closures w) c'); simpl; try done; try congruence.
    apply Forall_lookup. intros j c Hj. apply (Hstale j c Hj). congruence.
Qed.

Lemma unmount_keeps (w : SW) : one_bundle w -> one_bundle (unmount FS w).
Proof.
  intros Hinv. unfold unmount.
  assert (one_bundle (with_mountRef false w)) as Hinv0.
  { apply (one_bundle_transfer w); [unfold same_lifecycle; done | exact Hinv]. }
  set (w0 := with_mountRef false w) in *.
  destruct (current w0) as [i|] eqn:Hi.
  - pose proof (cleanup_current i w0 Hinv0 Hi)
      as (Hall & Hh & Hch & Hsd & Hcu & Hlen & Hcase).
    change (run_callback (effect_cleanup FS i) w0)
      with (snd (frontend_effect_cleanup i w0)).
    set (w1 := snd (frontend_effect_cleanup i w0)) in *.
    unfold drain. simpl.
    destruct Hcase as [[Hm1 Hsc1] | (Hm1 & ci & b & Hci & Hpi & Hsc1)].
    + rewrite Hm1. simpl.
      apply scene_of_false in Hsc1 as (Hs1 & Hs2 & Hs3).
      apply one_bundle_idle; done.
    + rewrite Hm1. simpl.
      set (w3 := with_microtasks [] (with_current None w1)).
      assert (closures w3 !! i = Some ci) as Hci3 by exact Hci.
      assert (scene_of b w3) as Hsc3 by exact Hsc1.
      destruct (reaction_releases i ci b w3 Hci3 Hpi Hsc3)
        as (R1 & R2 & R3 & R4 & R5 & R6).
      change (reaction FS i) with (frontend_reaction frontend_cleanupFn i).
      set (w4 := run_callback (frontend_reaction frontend_cleanupFn i) w3) in *.
      simpl in R4, R5, R6.
      apply one_bundle_idle; try done.
      destruct R6 as [-> | ->]; [exact Hall|].
      apply Forall_alter; [exact Hall|]. done.
  - apply (one_bundle_transfer w0); [|exact Hinv0].
    destruct Hinv0 as [Hq _ _ _]. simpl in Hq, Hi.
    unfold drain. simpl. rewrite Hq. simpl.
    unfold same_lifecycle. simpl. rewrite Hi, Hq. done.
Qed.

Lemma fulfil_spec i c b (w : SW) :
  closures w !! i = Some c ->
  fulfil i b w
  = (Normal tt,
     with_closures (alter (with_promise (Fulfilled b) 0) i (closures w))
       (with_microtasks (microtasks w ++ repeat i (reactions c)) w)).
Proof. intros Hc. unfold fulfil, in_closure. rewrite Hc. reflexivity. Qed.

(** A run whose construction did not take place: its promise is
    fulfilled with [undefined], nothing else changes. *)
Lemma one_bundle_settled_undefined i c (w w' : SW) :
  one_bundle w ->
  closures w !! i = Some c -> promise c = Pending ->
  microtasks w' = [] -> current w' = current w ->
  heap w' = heap w -> children w' = children w ->
  sceneDataRef w' = sceneDataRef w ->
  closures w' = alter (with_promise (Fulfilled false) 0) i (closures w) ->
  one_bundle w'.
Proof.
  intros [Hq Hcur Hstale Hsc] Hc Hp Hq' Hcu' Hh' Hch' Hsd' Hcl'. split.
  - exact Hq'.
  - intros k Hk. rewrite Hcu' in Hk. destruct (Hcur k Hk) as (ck & Hck & Hm & Hr).
    rewrite Hcl'. destruct (decide (i = k)) as [<-|Hne].
    + rewrite list_lookup_alter_eq, Hc. simpl. eexists. split; [reflexivity|].
      assert (ck = c) as -> by congruence. done.
    + rewrite list_lookup_alter_ne by done. eauto.
  - intros j cj Hj Hne. rewrite Hcu' in Hne. rewrite Hcl' in Hj.
    destruct (decide (i = j)) as [<-|Hij].
    + rewrite list_lookup_alter_eq, Hc in Hj. injection Hj as <-. simpl.
      apply (Hstale i c Hc Hne).
    + rewrite list_lookup_alter_ne in Hj by done. apply (Hstale j cj Hj Hne).
  - rewrite Hsd', Hh', Hch'. destruct (sceneDataRef w) as [d|]; [|exact Hsc].
    destruct Hsc as (h & Hheap & Hrel & Hal & Hchild & k & ck & Hk & Hck & Hpk).
    exists h. repeat split; try done.
    exists k, ck. rewrite Hcu', Hcl'. repeat split; try done.
    rewrite list_lookup_alter_ne; [done|]. intros <-. congruence.
Qed.

(** The [try] block when the run is mounted: the scene is built. *)
Lemma init_try_builds i c now (w : SW) :
  closures w !! i = Some c -> mounted c = true -> mountRef w = true ->
  exists d w',
    initScene_try no_failure (build no_failure) frontend_locals
      i (Normal tt) now w = (Normal true, w')
    /\ allocated_at (length (heap w)) d
    /\ sceneDataRef w' = Some d
    /\ heap w' = heap w ++ sphere_resources
    /\ children w' = children w ++ [length (heap w)]
    /\ microtasks w' = microtasks w
    /\ current w' = current w
    /\ closures w'
       = alter (with_animationFrame (Some (nextHandle w))) i
           (alter (with_locals (frontend_locals c now)) i (closures w)).
Proof.
  intros Hc Hm Hr.
  destruct (build_no_failure c w) as (d & Hal & Hb).
  exists d. eexists. split; [|split; [exact Hal|]].
  - unfold initScene_try, await_import, in_closure.
    unfold bind at 1. unfold ret at 1. rewrite Hc.
    unfold bind at 1. unfold gets at 1. rewrite Hm, Hr. simpl.
    unfold bind at 1. rewrite Hb.
    unfold bind, modify, update_closure, addResizeListener, bind, call,
      no_failure, requestAnimationFrame, gets, modify, setIsLoaded, modify,
      ret. simpl. reflexivity.
  - simpl. done.
Qed.

(** Either nothing is built and [false] comes back, or the run is
    mounted, the import succeeded and the mount node is there. *)
Lemma init_try_outcome i c imported now (w : SW) :
  closures w !! i = Some c ->
  (exists wx,
      try_catch (initScene_try no_failure (build no_failure)
                   frontend_locals i imported now) on_error w
      = (Normal false, wx)
      /\ closures wx = closures w /\ microtasks wx = microtasks w
      /\ current wx = current w /\ heap wx = heap w
      /\ children wx = children w /\ sceneDataRef wx = sceneDataRef w)
  \/ (mounted c = true /\ imported = Normal tt /\ mountRef w = true).
Proof.
  intros Hc. destruct imported as [[]|e].
  - destruct (mounted c) eqn:Hm, (mountRef w) eqn:Hr;
      try (right; done); left; exists w;
      (split; [|done]);
      unfold try_catch, initScene_try, await_import, in_closure;
      unfold bind at 1; unfold ret at 1; rewrite Hc;
      unfold bind at 1; unfold gets at 1; rewrite Hm, Hr; reflexivity.
  - left. eexists. split; [reflexivity|]. simpl. done.
Qed.

Lemma import_settled_keeps i imported now (w : SW) :
  one_bundle w -> one_bundle (import_settled FS i imported now w).
Proof.
  intros Hinv. unfold import_settled.
  change (resume FS i imported now)
    with (initScene_resume no_failure (build no_failure) frontend_locals
            i imported now).
  unfold run_callback, initScene_resume, in_closure.
  destruct (closures w !! i) as [c|] eqn:Hc; cycle 1.
  { apply (one_bundle_transfer w); [|exact Hinv].
    apply drain_quiescent, Hinv. }
  destruct (promise c) eqn:Hp; cycle 1.
  { apply (one_bundle_transfer w); [|exact Hinv].
    apply drain_quiescent, Hinv. }
  unfold bind at 1.
  destruct (init_try_outcome i c imported now w Hc)
    as [(wx & Htry & X1 & X2 & X3 & X4 & X5 & X6) | (Hm & -> & Hr)].
  - rewrite Htry.
    rewrite (fulfil_spec i c false wx) by (rewrite X1; exact Hc).
    unfold drain. simpl. rewrite X2, (quiescent w Hinv). simpl.
    change (reaction FS) with (frontend_reaction frontend_cleanupFn).
    rewrite (fold_reactions_undefined frontend_cleanupFn i
               (with_promise (Fulfilled false) 0 c));
      [| simpl; rewrite list_lookup_alter_eq, X1, Hc; done | done].
    apply (one_bundle_settled_undefined i c w); simpl; try done.
    rewrite X1. done.
  - destruct Hinv as [Hq Hcur Hstale Hsc].
    assert (current w = Some i) as Hi.
    { destruct (decide (current w = Some i)) as [|Hne]; [done|].
      rewrite (Hstale i c Hc Hne) in Hm. done. }
    assert (reactions c = 0%nat) as Hr0.
    { destruct (Hcur i Hi) as (c0 & Hc0 & _ & Hr0). congruence. }
    assert (sceneDataRef w = None) as Hnone.
    { destruct (sceneDataRef w); [|done].
      destruct Hsc as (h & _ & _ & _ & _ & k & ck & Hk & Hck & Hpk). congruence. }
    rewrite Hnone in Hsc. destruct Hsc as [Hch Hrel].
    destruct (init_try_builds i c now w Hc Hm Hr)
      as (d & w' & Htry & Hal & B1 & B2 & B3 & B4 & B5 & B6).
    unfold try_catch. rewrite Htry.
    assert (closures w' !! i
            = Some (with_animationFrame (Some (nextHandle w))
                      (with_locals (frontend_locals c now) c))) as Hc'.
    { rewrite B6, !list_lookup_alter_eq, Hc. done. }
    rewrite (fulfil_spec i _ true w' Hc').
    unfold drain. simpl. rewrite B4, Hq, Hr0. simpl.
    split; simpl.
    + done.
    + intros k Hk. rewrite B5, Hi in Hk. injection Hk as <-.
      rewrite list_lookup_alter_eq, Hc'. simpl. eexists. done.
    + intros j cj Hj Hne. rewrite B5, Hi in Hne.
      rewrite B6 in Hj.
      rewrite !list_lookup_alter_ne in Hj by (intros ->; done).
      apply (Hstale j cj Hj). congruence.
    + rewrite B1. exists (heap w). rewrite B2, B3, Hch, B5, Hi.
      repeat split; try done.
      eexists i, _. rewrite list_lookup_alter_eq, Hc'. done.
Qed.

Lemma step_keeps e (w : SW) : one_bundle w -> one_bundle (step FS w e).
Proof.
  destruct e; simpl.
  - apply commit_keeps.
  - apply unmount_keeps.
  - apply import_settled_keeps.
  - apply animation_frame_keeps.
Qed.

Lemma run_one_bundle evs : one_bundle (run FS evs).
Proof.
  unfold run. generalize initial_one_bundle.
  generalize (@initial_world SphereData SphereLocals).
  induction evs as [|e evs IH]; intros w Hw; simpl; [exact Hw|].
  apply IH, step_keeps, Hw.
Qed.

Lemma unmount_current (w : SW) :
  one_bundle w -> current (unmount FS w) = None.
Proof.
  intros Hinv. unfold unmount.
  assert (one_bundle (with_mountRef false w)) as Hinv0.
  { apply (one_bundle_transfer w); [unfold same_lifecycle; done | exact Hinv]. }
  set (w0 := with_mountRef false w) in *.
  destruct (current w0) as [i|] eqn:Hi.
  - pose proof (cleanup_current i w0 Hinv0 Hi)
      as (Hall & Hh & Hch & Hsd & Hcu & Hlen & Hcase).
    change (run_callback (effect_cleanup FS i) w0)
      with (snd (frontend_effect_cleanup i w0)).
    set (w1 := snd (frontend_effect_cleanup i w0)) in *.
    unfold drain. simpl.
    destruct Hcase as [[Hm1 Hsc1] | (Hm1 & ci & b & Hci & Hpi & Hsc1)];
      rewrite Hm1; simpl; [done|].
    set (w3 := with_microtasks [] (with_current None w1)).
    assert (closures w3 !! i = Some ci) as Hci3 by exact Hci.
    assert (scene_of b w3) as Hsc3 by exact Hsc1.
    destruct (reaction_releases i ci b w3 Hci3 Hpi Hsc3)
      as (R1 & R2 & R3 & R4 & R5 & R6).
    exact R5.
  - destruct Hinv0 as [Hq _ _ _]. simpl in Hq, Hi.
    unfold drain. simpl. rewrite Hq. done.
Qed.

(** With every flag cleared, a frame calls back into nothing. *)
Lemma frames_unmounted t (l : list (nat * nat)) (w : SW) :
  Forall (fun c => mounted c = false) (closures w) ->
  fold_left (fun w r => run_callback (frontend_animate Math_sin (snd r) t) w)
    l w = w.
Proof.
  intros Hall. induction l as [|r l IH]; simpl; [done|].
  assert (run_callback (frontend_animate Math_sin (snd r) t) w = w) as ->;
    [|exact IH].
  unfold run_callback, frontend_animate, in_closure.
  destruct (closures w !! snd r) as [c|] eqn:Hc; [|done].
  rewrite (proj1 (Forall_lookup _ _) Hall _ c Hc).
  unfold bind, gets. simpl. destruct (sceneDataRef w); done.
Qed.

(** On every run of [frontend/src/App.js]'s sphere in which no library
    call fails: at most one canvas is under the mount node, the GPU
    objects not yet disposed are exactly those of the bundle in use, and
    nothing is disposed twice. *)
Lemma frontend_sphere_one_bundle_at_a_time evs :
  (length (children (run FS evs)) <= 1)%nat
  /\ Forall (fun r => (disposals r <= 1)%nat) (heap (run FS evs))
  /\ (sceneDataRef (run FS evs) = None ->
      children (run FS evs) = [] /\ released_once (heap (run FS evs)))
  /\ (forall d, sceneDataRef (run FS evs) = Some d ->
      exists h, heap (run FS evs) = h ++ sphere_resources
                /\ released_once h /\ ids d = seq (length h) 7
                /\ children (run FS evs) = [renderer d]).
Proof.
  destruct (run_one_bundle evs) as [_ _ _ Hsc].
  destruct (sceneDataRef (run FS evs)) as [d|].
  - destruct Hsc as (h & Hheap & Hrel & Hal & Hch & _).
    rewrite Hch, Hheap. split; [simpl; lia|]. split; [|split; [done|]].
    + apply Forall_app. split.
      * eapply Forall_impl; [exact Hrel|]. simpl. intros r ->. lia.
      * repeat constructor.
    + intros d' [= <-]. exists h. repeat split; try done.
      destruct (allocated_at_ids _ _ Hal) as [-> _]. done.
  - destruct Hsc as [Hch Hrel]. rewrite Hch.
    split; [simpl; lia|]. split; [|split; [done|done]].
    eapply Forall_impl; [exact Hrel|]. simpl. intros r ->. lia.
Qed.

(** After the unmount, on every such run: the canvas is gone, every GPU
    object the component ever created has been disposed exactly once,
    and no later frame renders. *)
Lemma frontend_sphere_unmount_releases_everything evs t :
  children (run FS (evs ++ [Unmount])) = []
  /\ released_once (heap (run FS (evs ++ [Unmount])))
  /\ renderCalls (animation_frame FS t (run FS (evs ++ [Unmount])))
     = renderCalls (run FS (evs ++ [Unmount])).
Proof.
  pose proof (run_one_bundle (evs ++ [Unmount])) as Hinv.
  assert (current (run FS (evs ++ [Unmount])) = None) as Hcur.
  { unfold run. rewrite fold_left_app. simpl.
    apply unmount_current, run_one_bundle. }
  set (w := run FS (evs ++ [Unmount])) in *.
  destruct Hinv as [Hq Hc Hstale Hsc].
  assert (sceneDataRef w = None) as Hnone.
  { destruct (sceneDataRef w); [|done].
    destruct Hsc as (h & _ & _ & _ & _ & k & ck & Hk & _). congruence. }
  rewrite Hnone in Hsc. destruct Hsc as [Hch Hrel].
  repeat split; try done.
  unfold animation_frame.
  change (frame_callback FS) with (frontend_animate Math_sin).
  rewrite frames_unmounted; [done|].
  apply Forall_lookup. intros j c Hj. apply (Hstale j c Hj). congruence.
Qed.

End OneBundle.

End SceneFacts.

(* ===================================================================== *)
(** * Further properties: quality settings and debounce                    *)
(* ===================================================================== *)

Module SettingsFacts.
Import Quality Settings.

Lemma settings_monotone q1 q2 :
  tier_rank q1 <= tier_rank q2 ->
  sphereSegments (getQualitySettings q1) <= sphereSegments (getQualitySettings q2)
  /\ particleCount (getQualitySettings q1) <= particleCount (getQualitySettings q2)
  /\ (particleSize (getQualitySettings q1) <= particleSize (getQualitySettings q2))%Q.
Proof.
  destruct q1, q2; simpl; intros H; repeat split; try lia;
    unfold Qle; simpl; lia.
Qed.

Lemma classify_monotone s s' :
  hardwareConcurrency s = hardwareConcurrency s' ->
  connection s = connection s' ->
  innerWidth s <= innerWidth s' ->
  tier_rank (classify s) <= tier_rank (classify s').
Proof.
  intros Hh Hc Hw. unfold classify, connection_effectiveType.
  rewrite <- Hh, <- Hc.
  destruct (js_lt (hardwareConcurrency s) 4); [rewrite !orb_true_r; simpl; lia|].
  destruct (strict_eq _ "slow-2g" || strict_eq _ "2g");
    [rewrite !orb_true_r; simpl; lia|].
  rewrite !orb_false_r.
  destruct (Z.ltb_spec (innerWidth s) 768), (Z.ltb_spec (innerWidth s') 768),
    (Z.ltb_spec (innerWidth s) 1024), (Z.ltb_spec (innerWidth s') 1024);
    simpl; lia.
Qed.

(** X1. With the processor count and the network unchanged, a wider
    viewport never gives a lower tier, and so never fewer sphere
    segments, fewer particles or smaller particles. *)
Theorem wider_viewport_never_cheaper (s s' : Signals) :
  hardwareConcurrency s = hardwareConcurrency s' ->
  connection s = connection s' ->
  innerWidth s <= innerWidth s' ->
  tier_rank (classify s) <= tier_rank (classify s')
  /\ sphereSegments (getQualitySettings (classify s))
     <= sphereSegments (getQualitySettings (classify s'))
  /\ particleCount (getQualitySettings (classify s))
     <= particleCount (getQualitySettings (classify s'))
  /\ (particleSize (getQualitySettings (classify s))
      <= particleSize (getQualitySettings (classify s')))%Q.
Proof.
  intros Hh Hc Hw.
  pose proof (classify_monotone s s' Hh Hc Hw) as Hr.
  split; [done|]. by apply settings_monotone.
Qed.

Lemma wider_viewport_never_cheaper_witness :
  particleCount (getQualitySettings (classify
    {| innerWidth := 800; hardwareConcurrency := Some 8; connection := None |}))
  <= particleCount (getQualitySettings (classify
    {| innerWidth := 1280; hardwareConcurrency := Some 8; connection := None |})).
Proof.
  refine (proj1 (proj2 (proj2 (wider_viewport_never_cheaper
    {| innerWidth := 800; hardwareConcurrency := Some 8; connection := None |}
    {| innerWidth := 1280; hardwareConcurrency := Some 8; connection := None |}
    _ _ _)))); simpl; [reflexivity | reflexivity | lia].
Defined.

(** X2. Antialiasing and the high-performance GPU preference are asked
    for exactly when the device meets none of the low conditions and the
    viewport is at least 1024 wide; in every other case the renderer is
    created without antialiasing and with the low-power preference. *)
Theorem antialias_only_on_capable_wide_devices (s : Signals) :
  (antialias (getQualitySettings (classify s)) = true
   <-> ~ low_condition s /\ 1024 <= innerWidth s)
  /\ (powerPreference (getQualitySettings (classify s))
      = if antialias (getQualitySettings (classify s))
        then "high-performance"%string else "low-power"%string).
Proof.
  split.
  - destruct (QualityFacts.classify_spec s)
      as [[Hl ->]|[(Hn & Hw & ->)|(Hn & Hw & ->)]]; simpl.
    + split; [done | intros [? _]; done].
    + split; [done | intros [_ ?]; lia].
    + split; [|done]. intros _. split; [done|].
      destruct (Z.lt_ge_cases (innerWidth s) 1024) as [Hlt|]; [|done].
      destruct (Z.lt_ge_cases (innerWidth s) 768) as [Hm|Hm].
      * exfalso. apply Hn. left. done.
      * exfalso. apply Hw. lia.
  - destruct (classify s); reflexivity.
Qed.

Lemma burst_snoc l p :
  burst (l ++ [p]) = burst l ++ [SignalsChange (fst p); Resize; Elapse (snd p)].
Proof. unfold burst. rewrite flat_map_app. simpl. by rewrite ?app_nil_r. Qed.

Lemma burst_one st s d :
  (d < 100)%nat ->
  fold_left step [SignalsChange s; Resize; Elapse d] st
  = (s, {| quality := quality (snd st); timeoutId := Some (100 - d)%nat |}).
Proof.
  intros Hd. destruct st as [s0 h]. unfold fold_left, step.
  cbn [update timeoutId quality snd].
  destruct (Nat.leb_spec 100 d); [lia | done].
Qed.

Lemma burst_quality l st :
  Forall (fun p => (snd p < 100)%nat) l ->
  quality (snd (fold_left step (burst l) st)) = quality (snd st).
Proof.
  induction l as [|p l IH] using rev_ind; [done|].
  intros Hall. apply Forall_app in Hall as [Hl Hp].
  apply Forall_inv in Hp.
  rewrite burst_snoc, fold_left_app, burst_one by done.
  cbn [snd quality]. by apply IH.
Qed.

(** X3. Debounce. Take any burst of resize events, each followed by less
    than 100 ms before the next, with the device signals changing at
    will in between. During the burst the tier does not change; the one
    pending timer runs out 100 ms after the last resize; and when it
    does, the tier is computed once, from the signals then in force. *)
Theorem resize_burst_recomputes_once
  (st : Signals * Hook) (l : list (Signals * nat)) (s : Signals) (d ms : nat) :
  Forall (fun p => (snd p < 100)%nat) l ->
  (d < 100)%nat -> (100 - d <= ms)%nat ->
  fold_left step (burst (l ++ [(s, d)])) st
  = (s, {| quality := quality (snd st); timeoutId := Some (100 - d)%nat |})
  /\ fold_left step (burst (l ++ [(s, d)]) ++ [Elapse ms]) st
     = (s, {| quality := classify s; timeoutId := None |}).
Proof.
  intros Hl Hd Hms.
  assert (fold_left step (burst (l ++ [(s, d)])) st
    = (s, {| quality := quality (snd st); timeoutId := Some (100 - d)%nat |}))
    as Hb.
  { rewrite burst_snoc, fold_left_app. cbn [fst snd].
    rewrite burst_one by done. by rewrite burst_quality. }
  split; [done|].
  rewrite fold_left_app, Hb. unfold fold_left, step. cbn [timeoutId].
  destruct (Nat.leb_spec (100 - d) ms); [done | lia].
Qed.

Lemma resize_burst_recomputes_once_witness :
  fold_left step
    (burst ([(phone, 60%nat)] ++ [(desktop, 30%nat)]) ++ [Elapse 70])
    (phone, usePerformanceMonitor phone)
  = (desktop, {| quality := high; timeoutId := None |}).
Proof.
  refine (proj2 (resize_burst_recomputes_once (phone, usePerformanceMonitor phone)
    [(phone, 60%nat)] desktop 30 70 _ _ _)); [|lia|lia].
  constructor; [simpl; lia | constructor].
Defined.

End SettingsFacts.


(* ===================================================================== *)
(** * Further properties: the endpoint and the form                       *)
(* ===================================================================== *)

Module EndpointFacts.
Import Waitlist.

Lemma not_space_at_inv c :
  not_space_at c = true -> is_space c = false /\ c <> char_at.
Proof.
  unfold not_space_at. rewrite negb_true_iff, orb_false_iff, N.eqb_neq. done.
Qed.

Lemma part_ok_count p :
  part_ok p ->
  count_occ N.eq_dec p char_at = 0%nat
  /\ Forall (fun c => is_space c = false) p
  /\ (1 <= length p)%nat.
Proof.
  intros [Hne Hall]. split; [|split].
  - apply count_occ_not_In. intros Hin.
    rewrite List.Forall_forall in Hall.
    apply Hall, not_space_at_inv in Hin as [_ Hin]. done.
  - eapply Forall_impl; [exact Hall|].
    intros c Hc. by apply not_space_at_inv in Hc as [? _].
  - destruct p; [done | simpl; lia].
Qed.

(** X5. Every string the server's [isEmail] accepts contains exactly one
    [@], no white space, at least five code units, and neither starts
    nor ends with [@]. *)
Theorem accepted_email_structure (s : jsstring) :
  isEmail (VString s) = true ->
  count_occ N.eq_dec s char_at = 1%nat
  /\ Forall (fun c => is_space c = false) s
  /\ (5 <= length s)%nat
  /\ hd_error s <> Some char_at
  /\ last s <> Some char_at.
Proof.
  intros H. apply (proj1 (WaitlistFacts.isEmail_spec _)) in H
    as (s' & [= <-] & a & b & c & -> & Ha & Hb & Hc).
  pose proof (part_ok_count a Ha) as (Ha1 & Ha2 & Ha3).
  pose proof (part_ok_count b Hb) as (Hb1 & Hb2 & Hb3).
  pose proof (part_ok_count c Hc) as (Hc1 & Hc2 & Hc3).
  split; [|split; [|split; [|split]]].
  - rewrite !count_occ_app, Ha1, Hb1, Hc1. reflexivity.
  - repeat (apply Forall_app; split); try done; by repeat constructor.
  - rewrite !length_app. simpl. lia.
  - destruct Ha as [Hne Hall]. destruct a as [|x a]; [done|]. simpl.
    inversion Hall as [|? ? Hx _]; subst.
    apply not_space_at_inv in Hx as [_ Hx]. congruence.
  - destruct Hc as [Hne Hall].
    destruct (exists_last Hne) as (c' & x & ->).
    rewrite !app_assoc, last_snoc.
    apply Forall_app in Hall as [_ Hx]. apply Forall_inv in Hx.
    apply not_space_at_inv in Hx as [_ Hx]. congruence.
Qed.

Lemma accepted_email_structure_witness :
  count_occ N.eq_dec (lit "a@b.co") char_at = 1%nat.
Proof.
  refine (proj1 (accepted_email_structure (lit "a@b.co") _)).
  vm_compute. reflexivity.
Defined.

Section Effects.

Variable toLowerCase : jsstring -> jsstring.
Variable insert : value -> InsertResult.

(** X6. What the route does to its collaborators, for every request
    body: it sends at most one insert, only of the very value it read
    from the body and only when that is a string of the email pattern;
    it answers 200 only after such an insert; it writes to the console
    exactly when it answers 500; and a request it rejects or fails to
    read causes no effect at all. *)
Theorem post_waitlist_effects (body : value) :
  (snd (post_waitlist toLowerCase insert body) = []
   /\ (fst (post_waitlist toLowerCase insert body) = Responded res_400
       \/ exists e, fst (post_waitlist toLowerCase insert body) = Uncaught e))
  \/ (exists email,
        destructure_email body = Returns email
        /\ is_email_string email
        /\ ((post_waitlist toLowerCase insert body
             = (Responded res_200, [Insert email]))
            \/ (post_waitlist toLowerCase insert body
                = (Responded res_500, [Insert email; ConsoleError])))).
Proof.
  unfold post_waitlist.
  destruct (destructure_email body) as [email|e] eqn:Hd; [|left; eauto].
  destruct (isEmail email) eqn:He; simpl; [|left; eauto].
  right. exists email. split; [done|].
  split; [by apply WaitlistFacts.isEmail_spec|].
  destruct (insert email) as [error|]; [|by right].
  destruct (must_throw toLowerCase error); [by right | by left].
Qed.

End Effects.

End EndpointFacts.

Module ClientFacts.
Import Waitlist Client.

Lemma matches_plus_forall f s :
  matches (Plus (Sym f)) s <-> s <> [] /\ Forall (fun c => f c = true) s.
Proof.
  unfold Plus. split.
  - intros (s1 & s2 & -> & H1 & H2)%WaitlistFacts.matches_cat_inv.
    apply WaitlistFacts.matches_sym_inv in H1 as (c & -> & Hc).
    apply WaitlistFacts.matches_star_sym in H2. split; [discriminate|].
    constructor; done.
  - intros [Hne Hall]. destruct s as [|c s]; [done|].
    inversion Hall; subst.
    apply (MCat _ _ [c] s);
      [constructor | apply WaitlistFacts.matches_star_sym]; done.
Qed.

Lemma matches_any s : matches (Star (Sym any_char)) s.
Proof.
  apply WaitlistFacts.matches_star_sym.
  induction s; constructor; done.
Qed.

Lemma matches_not_space s : matches (Plus (Sym not_space)) s <-> run_ok s.
Proof.
  rewrite matches_plus_forall. unfold run_ok, not_space.
  split; intros [? H]; (split; [done|]);
    (eapply Forall_impl; [exact H|]); intros c; simpl;
    rewrite negb_true_iff; done.
Qed.

(** The client pattern in words: somewhere in the string there are three
    non-empty runs without white space, separated by [@] and [.]. *)
Lemma client_isEmail_spec s :
  isEmail s = true <->
  exists p a b c q,
    s = p ++ (a ++ [char_at] ++ b ++ [char_dot] ++ c) ++ q
    /\ run_ok a /\ run_ok b /\ run_ok c.
Proof.
  unfold isEmail, regex_search, client_email_regex.
  rewrite WaitlistFacts.regex_test_matches. split.
  - intros (p & s0 & -> & _ & H0)%WaitlistFacts.matches_cat_inv.
    apply WaitlistFacts.matches_cat_inv in H0 as (m & q & -> & Hm & _).
    apply WaitlistFacts.matches_cat_inv in Hm as (a & s1 & -> & Ha & H1).
    apply WaitlistFacts.matches_cat_inv in H1 as (x & s2 & -> & Hx & H2).
    apply WaitlistFacts.matches_cat_inv in H2 as (b & s3 & -> & Hb & H3).
    apply WaitlistFacts.matches_cat_inv in H3 as (y & c & -> & Hy & Hc).
    apply WaitlistFacts.matches_char in Hx as ->.
    apply WaitlistFacts.matches_char in Hy as ->.
    exists p, a, b, c, q. rewrite !matches_not_space in *. done.
  - intros (p & a & b & c & q & -> & Ha & Hb & Hc).
    apply MCat; [apply matches_any|].
    apply MCat; [|apply matches_any].
    repeat apply MCat;
      rewrite ?matches_not_space, ?WaitlistFacts.matches_char; done.
Qed.

Lemma part_ok_run_ok p : part_ok p -> run_ok p.
Proof.
  intros Hp. destruct (EndpointFacts.part_ok_count p Hp) as (_ & H & _).
  split; [apply Hp | exact H].
Qed.

(** X7. The form never blocks an address the server would take: every
    string accepted by the server's anchored pattern is accepted by the
    form's pattern. *)
Theorem server_accepted_is_client_accepted (s : jsstring) :
  Waitlist.isEmail (VString s) = true -> Client.isEmail s = true.
Proof.
  intros H. apply (proj1 (WaitlistFacts.isEmail_spec _)) in H
    as (s' & [= <-] & a & b & c & -> & Ha & Hb & Hc).
  apply client_isEmail_spec. exists [], a, b, c, [].
  rewrite app_nil_r. simpl. auto using part_ok_run_ok.
Qed.

Lemma server_accepted_is_client_accepted_witness :
  Client.isEmail (lit "a@b.co") = true.
Proof.
  apply (server_accepted_is_client_accepted (lit "a@b.co")).
  vm_compute. reflexivity.
Defined.

Lemma client_accepted_has_at s :
  Client.isEmail s = true -> (1 <= count_occ N.eq_dec s char_at)%nat.
Proof.
  intros (p & a & b & c & q & -> & _)%client_isEmail_spec.
  rewrite !count_occ_app. simpl. lia.
Qed.

(** X8. The form's pattern is not anchored: text put before or after an
    accepted string never makes the form reject it. When the added text
    contains white space or an [@], the server rejects the padded
    string, so the form sends a request that is answered with 400. *)
Theorem client_accepts_padded (s p q : jsstring) :
  Client.isEmail s = true ->
  Client.isEmail (p ++ s ++ q) = true
  /\ (Exists (fun c => is_space c = true \/ c = char_at) (p ++ q) ->
      Waitlist.isEmail (VString (p ++ s ++ q)) = false).
Proof.
  intros Hs. split.
  - apply client_isEmail_spec in Hs as (p' & a & b & c & q' & -> & Habc).
    apply client_isEmail_spec. exists (p ++ p'), a, b, c, (q' ++ q).
    split; [|done]. by rewrite <- !app_assoc.
  - intros Hex. destruct (Waitlist.isEmail (VString (p ++ s ++ q))) eqn:E;
      [exfalso | done].
    apply EndpointFacts.accepted_email_structure in E as (Hc & Hsp & _).
    apply client_accepted_has_at in Hs.
    rewrite !count_occ_app in Hc.
    apply Forall_app in Hsp as [Hp Hsq]. apply Forall_app in Hsq as [_ Hq].
    apply Exists_app in Hex as [Hex|Hex];
      apply List.Exists_exists in Hex as (c & Hin & [Hc'| ->]).
    + rewrite List.Forall_forall in Hp. apply Hp in Hin. congruence.
    + apply (count_occ_In N.eq_dec) in Hin. lia.
    + rewrite List.Forall_forall in Hq. apply Hq in Hin. congruence.
    + apply (count_occ_In N.eq_dec) in Hin. lia.
Qed.

Lemma client_accepts_padded_witness :
  Client.isEmail (lit "write to " ++ lit "a@b.co" ++ lit " today") = true
  /\ Waitlist.isEmail
       (VString (lit "write to " ++ lit "a@b.co" ++ lit " today")) = false.
Proof.
  destruct (client_accepts_padded (lit "a@b.co") (lit "write to ")
              (lit " today")) as [H1 H2]; [vm_compute; reflexivity|].
  split; [exact H1|]. apply H2.
  apply Exists_cons_tl, Exists_cons_tl, Exists_cons_tl, Exists_cons_tl,
    Exists_cons_tl, Exists_cons_hd. left. vm_compute. reflexivity.
Defined.

(** X9. A request is sent exactly when the submit button is enabled.
    While it is in flight the button is disabled, a further submit sends
    nothing, and the input cannot be changed. *)
Theorem submit_is_gated (st : Cta) :
  (handleSubmit_begin st = None <-> button_disabled st = true)
  /\ (forall st1 body,
        handleSubmit_begin st = Some (st1, body) ->
        body = body_of (VString (email st))
        /\ email st1 = email st
        /\ button_disabled st1 = true
        /\ handleSubmit_begin st1 = None
        /\ forall v, onChange v st1 = st1).
Proof.
  unfold handleSubmit_begin, button_disabled, onChange. split.
  - destruct (isSubmitting st), (is_empty (email st)), (isEmail (email st));
      simpl; split; congruence.
  - intros st1 body.
    destruct (is_empty (email st) || negb (isEmail (email st))
              || isSubmitting st); [done|].
    intros [= <- <-]. simpl. rewrite !orb_true_r. done.
Qed.

(** X10. Whatever the request comes to, when [handleSubmit] finishes the
    form has left the submitting state with a truthy message, and the
    input is emptied exactly when the response was ok and its body could
    be read. The message is one of the form's three texts (the thanks
    text is shown in green, the other two in red) unless the response was
    not ok and its body has a truthy [error]: then the message is that
    value. An [error] that is a string is shown, in green if it contains
    'Thanks' and in red otherwise; an [error] that is neither a string
    nor an array (true, a number, an object) makes [message.includes]
    throw a TypeError when the form renders, so nothing is shown. *)
Theorem submit_always_settles (o : FetchOutcome) (st : Cta) :
  isSubmitting (handleSubmit_end o st) = false
  /\ truthy (message (handleSubmit_end o st)) = true
  /\ email (handleSubmit_end o st)
     = match o with
       | Fetched true (Some _) => []
       | _ => email st
       end
  /\ match server_error o with
     | None =>
         exists s, message (handleSubmit_end o st) = VString s
           /\ (s = thanks \/ s = failed_to_submit \/ s = network_error)
           /\ render_message (VString s)
              = Returns (if jsstring_eqb s thanks then Green else Red)
     | Some e =>
         message (handleSubmit_end o st) = e
         /\ (forall s, e = VString s ->
               render_message e
               = Returns (if includes s (lit "Thanks") then Green else Red))
         /\ ((forall s, e <> VString s) -> (forall l, e <> VArray l) ->
               render_message e = Throws TypeError)
     end.
Proof.
  unfold handleSubmit_end, handleSubmit_try, server_error.
  destruct o as [|[|] [data|]]; cbn [isSubmitting setIsSubmitting message
    setMessage email setEmail];
    try (repeat split; try done;
         eexists; split; [reflexivity|]; split;
         [tauto | vm_compute; reflexivity]).
  destruct (get_error data) as [e|]; cbn [isSubmitting setIsSubmitting message
    setMessage email setEmail];
    [|repeat split; try done;
      eexists; split; [reflexivity|]; split;
      [tauto | vm_compute; reflexivity]].
  destruct (truthy e) eqn:E;
    [|repeat split; try done;
      eexists; split; [reflexivity|]; split;
      [tauto | vm_compute; reflexivity]].
  split; [done|]. split; [done|]. split; [done|]. split; [done|]. split.
  - intros s ->. unfold render_message. by rewrite E.
  - intros Hs Hl. unfold render_message. rewrite E.
    destruct e; try done; [by destruct (Hs s) | by destruct (Hl elems)].
Qed.

Section RoundTrip.

Variable toLowerCase : jsstring -> jsstring.
Variable insert : value -> InsertResult.

Lemma must_throw_false r :
  inserted_or_duplicate toLowerCase r <->
  exists error, r = Resolved error /\ must_throw toLowerCase error = false.
Proof.
  unfold inserted_or_duplicate, must_throw. split.
  - intros [->|(err & -> & H)]; [by exists None|].
    exists (Some err). by rewrite H.
  - intros ([err|] & -> & H); [right | by left].
    exists err. split; [done|]. by apply negb_false_iff.
Qed.

(** X11. The form and the endpoint together. When the user submits a
    string the form accepts, the endpoint answers, and: if the server's
    pattern rejects the string, the form shows 'Invalid email address'
    in red and keeps the input; if the insert succeeds or reports a
    duplicate, it shows the thanks message in green and empties the
    input; if the insert fails otherwise, it shows 'Failed to add to
    waitlist.' in red and keeps the input. In each case the form leaves
    the submitting state. *)
Theorem form_and_endpoint (st : Cta) :
  isSubmitting st = false ->
  Client.isEmail (email st) = true ->
  exists st1 r,
    handleSubmit_begin st = Some (st1, body_of (VString (email st)))
    /\ fst (post_waitlist toLowerCase insert (body_of (VString (email st))))
       = Responded r
    /\ isSubmitting (handleSubmit_end (fetch_result r) st1) = false
    /\ (Waitlist.isEmail (VString (email st)) = false ->
        handleSubmit_end (fetch_result r) st1
        = {| email := email st;
             message := VString (lit "Invalid email address");
             isSubmitting := false |}
        /\ render_message (VString (lit "Invalid email address"))
           = Returns Red)
    /\ (Waitlist.isEmail (VString (email st)) = true ->
        inserted_or_duplicate toLowerCase (insert (VString (email st))) ->
        handleSubmit_end (fetch_result r) st1
        = {| email := []; message := VString thanks; isSubmitting := false |}
        /\ render_message (VString thanks) = Returns Green)
    /\ (Waitlist.isEmail (VString (email st)) = true ->
        ~ inserted_or_duplicate toLowerCase (insert (VString (email st))) ->
        handleSubmit_end (fetch_result r) st1
        = {| email := email st;
             message := VString (lit "Failed to add to waitlist.");
             isSubmitting := false |}
        /\ render_message (VString (lit "Failed to add to waitlist."))
           = Returns Red).
Proof.
  intros Hsub Hcl.
  remember (Waitlist.isEmail (VString (email st))) as srv eqn:Hsrv.
  assert (is_empty (email st) = false) as Hne.
  { destruct (email st); [|done]. vm_compute in Hcl. done. }
  unfold handleSubmit_begin. rewrite Hsub, Hcl, Hne. simpl.
  exists (setMessage (VString []) (setIsSubmitting true st)).
  assert (Hrefl : own_property [(lit "email", VString (email st))] (lit "email")
          = VString (email st)) by (vm_compute; reflexivity).
  unfold post_waitlist, body_of, destructure_email. rewrite Hrefl, <- Hsrv.
  destruct srv; simpl.
  - destruct (insert (VString (email st))) as [error|e] eqn:Hins.
    + destruct (must_throw toLowerCase error) eqn:Hmt.
      * exists res_500. split; [reflexivity|]. split; [reflexivity|].
        split; [reflexivity|]. split; [done|]. split.
        { intros _ (error' & [= <-] & Hf)%must_throw_false. congruence. }
        intros _ _. split; vm_compute; reflexivity.
      * exists res_200. split; [reflexivity|]. split; [reflexivity|].
        split; [reflexivity|]. split; [done|]. split.
        { intros _ _. split; vm_compute; reflexivity. }
        intros _ Hn. exfalso. apply Hn, must_throw_false. eauto.
    + exists res_500. split; [reflexivity|]. split; [reflexivity|].
      split; [reflexivity|]. split; [done|]. split.
      { intros _ (error' & [=] & _)%must_throw_false. }
      intros _ _. split; vm_compute; reflexivity.
  - exists res_400. split; [reflexivity|]. split; [reflexivity|].
    split; [reflexivity|]. split; [|split; done].
    intros _. split; vm_compute; reflexivity.
Qed.

End RoundTrip.

Lemma form_and_endpoint_witness :
  exists st1 r,
    handleSubmit_begin (setEmail (lit "a@b.co") CtaSection)
    = Some (st1, body_of (VString (lit "a@b.co")))
    /\ fst (post_waitlist ascii_lower sample_insert
              (body_of (VString (lit "a@b.co")))) = Responded r
    /\ handleSubmit_end (fetch_result r) st1
       = {| email := []; message := VString thanks; isSubmitting := false |}.
Proof.
  destruct (form_and_endpoint ascii_lower sample_insert
              (setEmail (lit "a@b.co") CtaSection))
    as (st1 & r & H1 & H2 & _ & _ & H3 & _);
    [reflexivity | vm_compute; reflexivity |].
  exists st1, r. split; [exact H1|]. split; [exact H2|].
  apply H3; [vm_compute; reflexivity | left; vm_compute; reflexivity].
Defined.

End ClientFacts.

(* ===================================================================== *)
(** * Further properties: the small components                            *)
(* ===================================================================== *)

Module AnimatedTextFacts.
Import AnimatedText.

Section Facts.

Variable delay_ms : nat.

Lemma elapsed_app a b : elapsed (a ++ b) = (elapsed a + elapsed b)%nat.
Proof.
  unfold elapsed. rewrite map_app.
  induction (map _ a) as [|x l IH]; simpl; [done | lia].
Qed.

Lemma run_snoc evs e :
  run delay_ms (evs ++ [e]) = step delay_ms (run delay_ms evs) e.
Proof. unfold run. by rewrite fold_left_app. Qed.

Lemma step_keeps_visible st e :
  isVisible st = true -> isVisible (step delay_ms st e) = true.
Proof.
  intros H. destruct e as [b| |]; simpl; [|by rewrite H|done].
  unfold on_entry. destruct (observing st && b); done.
Qed.

Lemma fold_keeps_visible evs st :
  isVisible st = true -> isVisible (fold_left (step delay_ms) evs st) = true.
Proof.
  revert st. induction evs as [|e evs IH]; intros st H; [done|].
  simpl. by apply IH, step_keeps_visible.
Qed.

Lemma since_entry_extend evs e r :
  (exists evs1 evs2,
     evs = evs1 ++ Entry true :: evs2 /\ (delay_ms <= r + elapsed evs2)%nat) ->
  exists evs1 evs2,
    evs ++ [e] = evs1 ++ Entry true :: evs2
    /\ (delay_ms <= r + elapsed evs2)%nat.
Proof.
  intros (evs1 & evs2 & -> & H). exists evs1, (evs2 ++ [e]).
  split; [by rewrite <- app_assoc|]. rewrite elapsed_app. lia.
Qed.

Lemma run_invariant evs :
  (observing (run delay_ms evs) = true -> timers (run delay_ms evs) = [])
  /\ (length (timers (run delay_ms evs)) <= 1)%nat
  /\ (isVisible (run delay_ms evs) = true ->
      exists evs1 evs2,
        evs = evs1 ++ Entry true :: evs2
        /\ (delay_ms <= 0 + elapsed evs2)%nat)
  /\ (forall r, In r (timers (run delay_ms evs)) ->
      exists evs1 evs2,
        evs = evs1 ++ Entry true :: evs2
        /\ (delay_ms <= r + elapsed evs2)%nat).
Proof.
  induction evs as [|e evs (Hobs & Hlen & Hvis & Htim)] using rev_ind.
  { cbn. repeat split; try done. lia. }
  rewrite run_snoc. destruct e as [b|ms|]; simpl.
  - unfold on_entry. destruct (observing (run delay_ms evs) && b) eqn:Eo; simpl.
    + apply andb_true_iff in Eo as [Eo ->].
      rewrite (Hobs Eo). simpl. split; [done|]. split; [lia|]. split.
      * intros Hv. exact (since_entry_extend _ _ 0%nat (Hvis Hv)).
      * intros r [<-|[]]. exists evs, []. split; [done|]. simpl. lia.
    + split; [exact Hobs|]. split; [exact Hlen|]. split.
      * intros Hv. exact (since_entry_extend _ _ 0%nat (Hvis Hv)).
      * intros r Hr. by apply since_entry_extend, Htim.
  - split; [|split; [|split]].
    + intros Ho. by rewrite (Hobs Ho).
    + rewrite length_map.
      etransitivity; [apply List.filter_length_le | exact Hlen].
    + intros [Hv|Hex]%orb_true_iff.
      * destruct (Hvis Hv) as (evs1 & evs2 & -> & H).
        exists evs1, (evs2 ++ [Elapse ms]).
        split; [by rewrite <- app_assoc|]. rewrite elapsed_app. lia.
      * apply existsb_exists in Hex as (r & Hin & Hle).
        apply Nat.leb_le in Hle.
        destruct (Htim r Hin) as (evs1 & evs2 & -> & H).
        exists evs1, (evs2 ++ [Elapse ms]).
        split; [by rewrite <- app_assoc|]. rewrite elapsed_app.
        unfold elapsed at 2. simpl. lia.
    + intros r' (r & <- & Hin)%in_map_iff.
      apply List.filter_In in Hin as [Hin Hlt]. apply Nat.ltb_lt in Hlt.
      destruct (Htim r Hin) as (evs1 & evs2 & -> & H).
      exists evs1, (evs2 ++ [Elapse ms]).
      split; [by rewrite <- app_assoc|]. rewrite elapsed_app.
      unfold elapsed at 2. simpl. lia.
  - split; [done|]. split; [done|]. split.
    + intros Hv. exact (since_entry_extend _ _ 0%nat (Hvis Hv)).
    + intros r Hr. by apply since_entry_extend, Htim.
Qed.

(** X12. An animated text is never shown before the observer has
    reported it as intersecting and [delay] has passed since; the
    observer callback sets at most one timer; and once shown the text
    stays shown whatever happens next. *)
Theorem shown_only_after_delay (evs evs' : list Event) :
  (length (timers (run delay_ms evs)) <= 1)%nat
  /\ (isVisible (run delay_ms evs) = true ->
      (exists evs1 evs2,
         evs = evs1 ++ Entry true :: evs2 /\ (delay_ms <= elapsed evs2)%nat)
      /\ isVisible (run delay_ms (evs ++ evs')) = true).
Proof.
  destruct (run_invariant evs) as (_ & Hlen & Hvis & _).
  split; [done|]. intros Hv. split; [by apply Hvis|].
  unfold run. rewrite fold_left_app. by apply fold_keeps_visible.
Qed.

Lemma quiet_prefix evs :
  existsb is_intersecting evs = false ->
  existsb is_cleanup evs = false ->
  run delay_ms evs = mount.
Proof.
  induction evs as [|e evs IH] using rev_ind; [done|].
  rewrite !existsb_app, !orb_false_iff. simpl. rewrite !orb_false_r.
  intros [Hi He] [Hc He']. rewrite run_snoc, IH by done.
  destruct e as [[|]| |]; done.
Qed.

Lemma pending_timer evs :
  let st := fold_left (step delay_ms) evs
              {| isVisible := false; observing := false;
                 timers := [delay_ms] |} in
  observing st = false
  /\ (isVisible st = true
      \/ exists r, timers st = [r] /\ (r + elapsed evs = delay_ms)%nat).
Proof.
  induction evs as [|e evs [Hobs IH]] using rev_ind.
  { cbn. split; [done|]. right. exists delay_ms. split; [done | lia]. }
  cbn zeta in *. rewrite fold_left_app. simpl.
  set (st := fold_left (step delay_ms) evs _) in *.
  rewrite elapsed_app. destruct e as [b|ms|]; simpl.
  - unfold on_entry. rewrite Hobs. simpl. split; [done|].
    destruct IH as [?|(r & ? & ?)]; [by left | right].
    exists r. split; [done|]. unfold elapsed at 2. simpl. lia.
  - split; [done|]. destruct IH as [Hv|(r & -> & Hr)]; [left; by rewrite Hv|].
    simpl. unfold elapsed at 2. simpl.
    destruct (Nat.leb_spec r ms) as [Hle|Hlt].
    + left. by rewrite orb_true_r.
    + right. destruct (Nat.ltb_spec ms r); [|lia].
      exists (r - ms)%nat. split; [done | lia].
  - split; [done|].
    destruct IH as [?|(r & ? & ?)]; [by left | right].
    exists r. split; [done|]. unfold elapsed at 2. simpl. lia.
Qed.

(** X13. An animated text does get shown: after the first intersecting
    entry reported while the element is observed, the text is visible as
    soon as [delay] has passed, whatever else happens meanwhile, the
    effect's cleanup included (the timer is not cleared). *)
Theorem shown_after_delay (evs1 evs2 : list Event) (ms : nat) :
  existsb is_intersecting evs1 = false ->
  existsb is_cleanup evs1 = false ->
  (delay_ms <= elapsed evs2 + ms)%nat ->
  isVisible (run delay_ms (evs1 ++ Entry true :: evs2 ++ [Elapse ms])) = true.
Proof.
  intros Hi Hc Hd. unfold run. rewrite fold_left_app.
  fold (run delay_ms evs1). rewrite quiet_prefix by done.
  simpl fold_left at 1. unfold on_entry, mount. simpl.
  rewrite fold_left_app.
  destruct (pending_timer evs2) as [_ [Hv|(r & Ht & Hr)]]; simpl.
  - by rewrite Hv.
  - rewrite Ht. simpl. destruct (Nat.leb_spec r ms); [|lia].
    by rewrite orb_true_r.
Qed.

End Facts.

Lemma shown_after_delay_witness :
  isVisible (run 200 ([Entry false; Elapse 1000]
                      ++ Entry true :: [Elapse 150; Cleanup] ++ [Elapse 50]))
  = true.
Proof.
  apply (shown_after_delay 200 [Entry false; Elapse 1000]
           [Elapse 150; Cleanup] 50); [reflexivity | reflexivity |].
  vm_compute. lia.
Defined.

End AnimatedTextFacts.

Module FeatureCardsFacts.
Import FeatureCards.

Lemma existsb_elapse a b ts :
  existsb (fun r => r <=? a)%nat
    (map (fun r => r - b)%nat (List.filter (fun r => b <? r)%nat ts))
  || existsb (fun r => r <=? b)%nat ts
  = existsb (fun r => r <=? b + a)%nat ts.
Proof.
  induction ts as [|r ts IH]; [done|]. simpl.
  destruct (Nat.ltb_spec b r); simpl; rewrite <- IH;
    destruct (Nat.leb_spec (r - b) a), (Nat.leb_spec r b),
      (Nat.leb_spec r (b + a)); simpl; rewrite ?orb_true_r; try lia; try done.
Qed.

Lemma timers_elapse a b ts :
  map (fun r => r - a)%nat
    (List.filter (fun r => a <? r)%nat
       (map (fun r => r - b)%nat (List.filter (fun r => b <? r)%nat ts)))
  = map (fun r => r - (b + a))%nat (List.filter (fun r => b + a <? r)%nat ts).
Proof.
  induction ts as [|r ts IH]; [done|]. simpl.
  destruct (Nat.ltb_spec b r); simpl;
    destruct (Nat.ltb_spec a (r - b)), (Nat.ltb_spec (b + a) r);
    simpl; rewrite ?IH; try lia; try done.
  f_equal. lia.
Qed.

(** Letting [b] ms pass and then [a] ms is letting [b + a] ms pass. *)
Lemma elapse_add a b st : elapse a (elapse b st) = elapse (b + a) st.
Proof.
  unfold elapse. simpl. f_equal; [|apply timers_elapse].
  rewrite <- existsb_elapse.
  destruct (existsb _ (map _ _)), (existsb _ (timers st)); done.
Qed.

Lemma fold_elapse l st :
  l <> [] ->
  fold_left step (map Elapse l) st = elapse (list_sum l) st.
Proof.
  revert st. induction l as [|a l IH]; intros st Hne; [done|].
  simpl. destruct l as [|b l].
  - simpl. by rewrite Nat.add_0_r.
  - rewrite IH by done. apply elapse_add.
Qed.

Lemma run_timers evs :
  Forall (fun r => r <= 550)%nat (timers (run evs))
  /\ (timers (run evs) = [] -> shiningIdx (run evs) = None).
Proof.
  induction evs as [|e evs [Hall Hnone]] using rev_ind; [done|].
  unfold run in *. rewrite fold_left_app. simpl.
  set (st := fold_left step evs mount) in *.
  destruct e as [i|ms]; simpl.
  - split; [|intros [_ [=]]%app_eq_nil].
    apply Forall_app. split; [done|]. by repeat constructor.
  - split.
    + apply List.Forall_forall. intros r' (r & <- & Hin)%in_map_iff.
      apply List.filter_In in Hin as [Hin _].
      rewrite List.Forall_forall in Hall. specialize (Hall r Hin).
      simpl in Hall. lia.
    + intros Hnil. destruct (existsb _ (timers st)) eqn:Hex; [done|].
      apply Hnone. apply map_eq_nil in Hnil.
      destruct (timers st) as [|r ts]; [done|]. exfalso.
      simpl in Hex, Hnil. apply orb_false_iff in Hex as [Hr _].
      apply Nat.leb_gt in Hr.
      destruct (Nat.ltb_spec ms r); [done | lia].
Qed.

(** X14. The shine always ends: once 550 ms have passed without a
    card being entered or clicked, no card shines and no timer is left,
    whatever happened before. *)
Theorem shine_ends_after_550ms (evs : list Event) (l : list nat) :
  (550 <= list_sum l)%nat ->
  fold_left step (map Elapse l) (run evs) = mount.
Proof.
  intros Hsum.
  assert (l <> []) as Hne by (intros ->; simpl in Hsum; lia).
  rewrite fold_elapse by done.
  destruct (run_timers evs) as [Hall Hnone].
  assert (forall ts, Forall (fun r => r <= 550)%nat ts ->
            List.filter (fun r => list_sum l <? r)%nat ts = []) as Hf.
  { intros ts Hts. induction Hts as [|r ts Hr _ IH]; [done|]. simpl.
    destruct (Nat.ltb_spec (list_sum l) r); [lia | exact IH]. }
  unfold elapse, mount. rewrite (Hf _ Hall). simpl. f_equal.
  destruct (existsb _ _) eqn:Hex; [done|]. apply Hnone.
  destruct (timers (run evs)) as [|r ts]; [done|]. exfalso.
  apply Forall_inv in Hall. simpl in Hex.
  apply orb_false_iff in Hex as [Hr _]. apply Nat.leb_gt in Hr. lia.
Qed.

Lemma shine_ends_after_550ms_witness :
  fold_left step (map Elapse [300; 250]%nat)
    (run [Hover 0; Elapse 100; Hover 2]) = mount.
Proof.
  apply (shine_ends_after_550ms [Hover 0; Elapse 100; Hover 2] [300; 250]%nat).
  vm_compute. lia.
Defined.

(** X15. The timers of [doShine] are never cancelled, so a shine can be
    cut short: when card [j] is entered [d] ms after card [i], with
    [0 < d < 550], the timer of card [i] clears the shine of card [j]
    only [550 - d] ms after it began, while the timer of card [j] still
    has [d] ms to run. *)
Theorem earlier_timer_cuts_later_shine (st : State) (i j d : nat) :
  (0 < d < 550)%nat ->
  shines j (fold_left step [Hover i; Elapse d; Hover j] st) = true
  /\ shiningIdx (fold_left step [Hover i; Elapse d; Hover j; Elapse (550 - d)] st)
     = None
  /\ In d (timers (fold_left step
                     [Hover i; Elapse d; Hover j; Elapse (550 - d)] st)).
Proof.
  intros Hd. split; [simpl; unfold shines; simpl; by rewrite Nat.eqb_refl|].
  cbn [fold_left step doShine elapse timers shiningIdx].
  rewrite !List.filter_app, !map_app, !existsb_app.
  cbn [List.filter map existsb].
  destruct (Nat.ltb_spec d 550); [|lia].
  cbn [List.filter map existsb app].
  rewrite !List.filter_app, !map_app.
  cbn [List.filter map existsb app].
  destruct (Nat.leb_spec (550 - d) (550 - d)); [|lia].
  destruct (Nat.ltb_spec (550 - d) (550 - d)); [lia|].
  destruct (Nat.ltb_spec (550 - d) 550); [|lia].
  rewrite !orb_true_r. split; [done|].
  apply in_or_app. right. simpl. left. lia.
Qed.

Lemma earlier_timer_cuts_later_shine_witness :
  shiningIdx (fold_left step [Hover 0; Elapse 300; Hover 1; Elapse (550 - 300)]
                mount) = None.
Proof.
  refine (proj1 (proj2 (earlier_timer_cuts_later_shine mount 0 1 300 _))).
  lia.
Defined.

End FeatureCardsFacts.

Module ErrorBoundaryFacts.
Import ErrorBoundary.

(** X16. The error boundary renders its children as long as nothing was
    caught; after the first caught error it renders the fallback with
    the error and component stack caught last, and nothing brings the
    children back. Each caught error is logged once. *)
Theorem fallback_after_first_error {Error ErrorInfo : Type}
  (thrown : list (Error * ErrorInfo)) :
  render Error ErrorInfo (fst (run Error ErrorInfo thrown))
  = match last thrown with
    | None => Children Error ErrorInfo
    | Some t => Fallback Error ErrorInfo (Some (fst t)) (Some (snd t))
    end
  /\ snd (run Error ErrorInfo thrown) = length thrown
  /\ forall more,
       thrown <> [] ->
       hasError Error ErrorInfo (fst (run Error ErrorInfo (thrown ++ more)))
       = true.
Proof.
  split; [|split].
  - induction thrown as [|t l _] using rev_ind; [done|].
    unfold run. rewrite fold_left_app, last_snoc. done.
  - induction thrown as [|t l IH] using rev_ind; [done|].
    unfold run in *. rewrite fold_left_app, length_app. simpl.
    rewrite IH. lia.
  - intros more Hne.
    assert (thrown ++ more <> []) as Hne' by (by intros [? _]%app_eq_nil).
    destruct (exists_last Hne') as (l & t & ->).
    unfold run. rewrite fold_left_app. done.
Qed.

End ErrorBoundaryFacts.

(* ===================================================================== *)
(** * Further properties: the scenes                                      *)
(* ===================================================================== *)

Module SceneLoadFacts.
Import Quality Scene Frames.
Local Open Scope Q_scope.
Local Open Scope js_scope.

Section Loading.

Context {Data Locals : Type}.
Variable throws : Site -> option Err.
Variable build : Closure Data Locals -> M Data Locals Data.
Variable loop_locals : Closure Data Locals -> Q -> Locals.
Variable animate : nat -> Q -> M Data Locals unit.

(** The [try] block of a mounted closure either throws or ends with
    [setIsLoaded(true)]. *)
Lemma loadScene_try_mounted i c imported (w : World Data Locals) r w' :
  closures w !! i = Some c -> mounted c = true -> mountRef w = true ->
  loadScene_try throws build loop_locals animate i imported w = (r, w') ->
  (exists e, r = Thrown e) \/ (r = Normal true /\ isLoaded w' = true).
Proof.
  intros Hc Hm Hr.
  unfold loadScene_try, bind, await_import, in_closure, gets, update_closure,
    modify, addResizeListener, bind, call, modify, setIsLoaded, ret.
  destruct imported as [[]|e]; simpl; [|intros [= <- <-]; left; eauto].
  rewrite Hc, ?Hm. simpl. rewrite ?Hm, Hr. simpl.
  destruct (build c w) as [[d|e] w1]; simpl; [|intros [= <- <-]; left; eauto].
  destruct (throws window_addEventListener); simpl;
    [intros [= <- <-]; left; eauto|].
  destruct (animate i 0 _) as [[[]|e] w2]; simpl; intros [= <- <-];
    [right; done | left; eauto].
Qed.

Lemma initScene_try_mounted i c imported now (w : World Data Locals) r w' :
  closures w !! i = Some c -> mounted c = true -> mountRef w = true ->
  initScene_try throws build loop_locals i imported now w = (r, w') ->
  (exists e, r = Thrown e) \/ (r = Normal true /\ isLoaded w' = true).
Proof.
  intros Hc Hm Hr.
  unfold initScene_try, bind, await_import, in_closure, gets, update_closure,
    modify, addResizeListener, requestAnimationFrame, bind, call, gets, modify,
    setIsLoaded, ret.
  destruct imported as [[]|e]; simpl; [|intros [= <- <-]; left; eauto].
  rewrite Hc, ?Hm. simpl. rewrite ?Hm, Hr. simpl.
  destruct (build c w) as [[d|e] w1]; simpl; [|intros [= <- <-]; left; eauto].
  destruct (throws window_addEventListener); simpl; intros [= <- <-];
    [left; eauto | right; done].
Qed.

Lemma settled_isLoaded i (m : M Data Locals bool) (w : World Data Locals) :
  (forall r w', m w = (r, w') ->
     (exists e, r = Thrown e) \/ (r = Normal true /\ isLoaded w' = true)) ->
  isLoaded (snd ((returned <- try_catch m on_error ;; fulfil i returned) w))
  = true.
Proof.
  intros H. unfold bind, try_catch.
  destruct (m w) as [[b|e] w1]; simpl in *.
  - destruct (H _ _ eq_refl) as [[e [=]]|[_ Hl]].
    destruct (SceneFacts.fulfil_keeps i b w1) as [-> _]. done.
  - unfold on_error, bind, console_error, setIsLoaded, modify, ret. simpl.
    destruct (SceneFacts.fulfil_keeps i false
                (with_isLoaded true (with_console (console w1 ++ [e]) w1)))
      as [-> _]. done.
Qed.

(** X17. The loading placeholder never stays: when the import of a
    closure that is still mounted settles, the placeholder is hidden
    afterwards, whether the import failed, any constructor or DOM call
    threw, or the scene was built. Both files, both scenes. *)
Theorem placeholder_hidden_once_import_settles
    (i : nat) (c : Closure Data Locals) (imported : Outcome unit) (now : Q)
    (w : World Data Locals) :
  closures w !! i = Some c ->
  mounted c = true ->
  promise c = Pending ->
  mountRef w = true ->
  placeholder_visible
    (snd (loadScene_resume throws build loop_locals animate i imported now w))
  = false
  /\ placeholder_visible
       (snd (initScene_resume throws build loop_locals i imported now w))
     = false.
Proof.
  intros Hc Hm Hp Hr. unfold placeholder_visible.
  unfold loadScene_resume, initScene_resume, in_closure. rewrite Hc, Hp.
  rewrite !settled_isLoaded; [done | |].
  - intros r w'. by apply (initScene_try_mounted i c).
  - intros r w'. by apply (loadScene_try_mounted i c).
Qed.

End Loading.

Lemma placeholder_hidden_once_import_settles_witness :
  placeholder_visible
    (snd (initScene_resume setSize_fails (Sphere.build setSize_fails)
            Sphere.frontend_locals 0 (Normal tt) 0
            (run (Sphere.Frontend sin_0 setSize_fails) [Commit high 0])))
  = false.
Proof.
  refine (proj2 (placeholder_hidden_once_import_settles setSize_fails
    (Sphere.build setSize_fails) Sphere.frontend_locals
    (Sphere.root_animate sin_0) 0 _ (Normal tt) 0
    (run (Sphere.Frontend sin_0 setSize_fails) [Commit high 0]) _ _ _ _));
    reflexivity.
Defined.

(** The cleanup function of the helix, rung by rung: it cannot throw
    and touches nothing but the disposal counts. *)
Lemma forEach_dispose_rungs (l : list (nat * nat))
    (w : World Helix.HelixData Helix.HelixLocals) :
  exists h,
    Helix.forEach l (fun rung => dispose (fst rung) ;; dispose (snd rung)) w
    = (Normal tt, with_heap h w).
Proof.
  revert w. induction l as [|r l IH]; intros w.
  { exists (heap w). destruct w; reflexivity. }
  cbn [Helix.forEach]. unfold bind at 1.
  assert ((dispose (fst r) ;; dispose (snd r)) w
          = (Normal tt,
             with_heap (alter disposed_once_more (snd r)
                          (alter disposed_once_more (fst r) (heap w))) w))
    as -> by reflexivity.
  destruct (IH (with_heap
                  (alter disposed_once_more (snd r)
                     (alter disposed_once_more (fst r) (heap w))) w))
    as [h ->].
  exists h. reflexivity.
Qed.

(** What the cleanup function of the helix does with the bundle it
    finds in the shared ref. *)
Lemma helix_release_body (d : Helix.HelixData)
    (v0 : World Helix.HelixData Helix.HelixLocals) :
  exists h ch,
    (dispose (Helix.geo1 d) ;; dispose (Helix.geo2 d) ;;
     dispose (Helix.particlesGeometry d) ;;
     dispose (Helix.mat1 d) ;; dispose (Helix.mat2 d) ;;
     dispose (Helix.particlesMaterial d) ;;
     Helix.forEach (Helix.rungs d)
       (fun rung => dispose (fst rung) ;; dispose (snd rung)) ;;
     dispose (Helix.renderer d) ;;
     inside <- contains (Helix.renderer d) ;;
     (if inside then removeChild (Helix.renderer d) else ret tt) ;;
     modify (with_sceneDataRef None)) v0
    = (Normal tt, with_sceneDataRef None (with_children ch (with_heap h v0))).
Proof.
  match goal with |- context [Helix.forEach _ ?g] => set (f := g) end.
  unfold bind at 1 2 3 4 5 6, dispose at 1 2 3 4 5 6, modify. cbn beta iota.
  unfold bind at 1.
  match goal with |- context [Helix.forEach ?l f ?x] =>
    destruct (forEach_dispose_rungs l x) as [h Hh]; fold f in Hh;
    rewrite Hh
  end.
  unfold bind, dispose, contains, removeChild, modify, gets. simpl.
  exists (alter disposed_once_more (Helix.renderer d) h).
  destruct (bool_decide _) eqn:E; simpl; rewrite ?E; simpl.
  - exists (filter (fun c => c <> Helix.renderer d) (children v0)).
    reflexivity.
  - exists (children v0). reflexivity.
Qed.

Lemma helix_cleanupFn_spec i (v : World Helix.HelixData Helix.HelixLocals) :
  exists v1,
    Helix.frontend_cleanupFn i v = (Normal tt, v1)
    /\ (forall c, closures v !! i = Some c -> sceneDataRef v1 = None)
    /\ (sceneDataRef v = None -> inert v v1)
    /\ mountRef v1 = mountRef v
    /\ renderCalls v1 = renderCalls v.
Proof.
  unfold Helix.frontend_cleanupFn, in_closure.
  destruct (closures v !! i) as [c|] eqn:Hc;
    [|exists v; unfold inert; done].
  unfold bind at 1 2 3 4, update_closure, removeResizeListener, modify, gets.
  cbn beta iota.
  destruct (animationFrame c); unfold cancelAnimationFrame, modify, ret;
    cbn beta iota;
    cbn [sceneDataRef with_frameRequests with_resizeListeners with_closures];
    (destruct (sceneDataRef v) as [d|] eqn:Hd;
     [match goal with |- context [bind (dispose (Helix.geo1 d)) ?k ?x] =>
        destruct (helix_release_body d x) as (h & ch & Hb);
        unfold modify, ret in Hb; rewrite Hb
      end; eexists; split; [reflexivity|]; simpl;
      repeat split; try done; intros [=]
     |eexists; split; [reflexivity|]; unfold inert; simpl; rewrite ?Hd;
      repeat split; try done]).
Qed.

Lemma sphere_release_body (d : Sphere.SphereData)
    (v0 : World Sphere.SphereData Sphere.SphereLocals) :
  exists h ch,
    (dispose (Sphere.geometry d) ;; dispose (Sphere.edgesGeometry d) ;;
     dispose (Sphere.particlesGeometry d) ;;
     dispose (Sphere.material d) ;; dispose (Sphere.edgesMaterial d) ;;
     dispose (Sphere.particlesMaterial d) ;;
     dispose (Sphere.renderer d) ;;
     inside <- contains (Sphere.renderer d) ;;
     (if inside then removeChild (Sphere.renderer d) else ret tt) ;;
     modify (with_sceneDataRef None)) v0
    = (Normal tt, with_sceneDataRef None (with_children ch (with_heap h v0))).
Proof.
  unfold bind, dispose, contains, removeChild, modify, gets. simpl.
  eexists.
  destruct (bool_decide _) eqn:E; simpl; rewrite ?E; simpl.
  - exists (filter (fun c => c <> Sphere.renderer d) (children v0)).
    reflexivity.
  - exists (children v0). reflexivity.
Qed.

Lemma sphere_cleanupFn_spec i
    (v : World Sphere.SphereData Sphere.SphereLocals) :
  exists v1,
    Sphere.frontend_cleanupFn i v = (Normal tt, v1)
    /\ (forall c, closures v !! i = Some c -> sceneDataRef v1 = None)
    /\ (sceneDataRef v = None -> inert v v1)
    /\ mountRef v1 = mountRef v
    /\ renderCalls v1 = renderCalls v.
Proof.
  unfold Sphere.frontend_cleanupFn, in_closure.
  destruct (closures v !! i) as [c|] eqn:Hc;
    [|exists v; unfold inert; done].
  unfold bind at 1 2 3 4, update_closure, removeResizeListener, modify, gets.
  cbn beta iota.
  destruct (animationFrame c); unfold cancelAnimationFrame, modify, ret;
    cbn beta iota;
    cbn [sceneDataRef with_frameRequests with_resizeListeners with_closures];
    (destruct (sceneDataRef v) as [d|] eqn:Hd;
     [match goal with |- context [bind (dispose (Sphere.geometry d)) ?k ?x] =>
        destruct (sphere_release_body d x) as (h & ch & Hb);
        unfold modify, ret in Hb; rewrite Hb
      end; eexists; split; [reflexivity|]; simpl;
      repeat split; try done; intros [=]
     |eexists; split; [reflexivity|]; unfold inert; simpl; rewrite ?Hd;
      repeat split; try done]).
Qed.

(** X18. Teardown is safe to repeat. In [frontend/src/App.js] the
    cleanup function of either scene never throws, in whatever state it
    is called; and called a second time it finds the shared ref cleared
    and disposes, detaches and renders nothing. *)
Theorem teardown_is_idempotent (i : nat)
    (w : World Sphere.SphereData Sphere.SphereLocals)
    (v : World Helix.HelixData Helix.HelixLocals) :
  fst (Sphere.frontend_cleanupFn i w) = Normal tt
  /\ inert (snd (Sphere.frontend_cleanupFn i w))
       (snd (Sphere.frontend_cleanupFn i (snd (Sphere.frontend_cleanupFn i w))))
  /\ fst (Helix.frontend_cleanupFn i v) = Normal tt
  /\ inert (snd (Helix.frontend_cleanupFn i v))
       (snd (Helix.frontend_cleanupFn i (snd (Helix.frontend_cleanupFn i v)))).
Proof.
  split; [|split; [|split]].
  - destruct (sphere_cleanupFn_spec i w) as (w1 & -> & _). done.
  - destruct (sphere_cleanupFn_spec i w) as (w1 & E & Hnone & _).
    rewrite E. cbn [snd].
    destruct (sphere_cleanupFn_spec i w1) as (w2 & E2 & _ & Hin & _).
    rewrite E2. cbn [snd].
    destruct (closures w !! i) as [c|] eqn:Hc.
    + apply Hin, (Hnone c eq_refl).
    + unfold Sphere.frontend_cleanupFn, in_closure in E. rewrite Hc in E.
      injection E as <-.
      unfold Sphere.frontend_cleanupFn, in_closure in E2. rewrite Hc in E2.
      injection E2 as <-. unfold inert. done.
  - destruct (helix_cleanupFn_spec i v) as (v1 & -> & _). done.
  - destruct (helix_cleanupFn_spec i v) as (v1 & E & Hnone & _).
    rewrite E. cbn [snd].
    destruct (helix_cleanupFn_spec i v1) as (v2 & E2 & _ & Hin & _).
    rewrite E2. cbn [snd].
    destruct (closures v !! i) as [c|] eqn:Hc.
    + apply Hin, (Hnone c eq_refl).
    + unfold Helix.frontend_cleanupFn, in_closure in E. rewrite Hc in E.
      injection E as <-.
      unfold Helix.frontend_cleanupFn, in_closure in E2. rewrite Hc in E2.
      injection E2 as <-. unfold inert. done.
Qed.

Section Amplitudes.

Variable Math_sin : Q -> Q.

(** X19. Every opacity the scenes write is a valid opacity: with the
    scroll progress in [0, 1], the values given to the materials when
    they are created and in every frame lie in [0, 1] (the sphere's
    never below 0.09). *)
Theorem opacities_are_valid (s t : Q)
    (o : Sphere.SphereObjects) (h : Helix.HelixObjects) :
  0 <= s <= 1 ->
  (in_unit (Sphere.material_opacity (Sphere.frame Math_sin s t o))
   /\ in_unit (Sphere.edgesMaterial_opacity (Sphere.frame Math_sin s t o))
   /\ in_unit (Sphere.particlesMaterial_opacity (Sphere.frame Math_sin s t o))
   /\ 0.09 <= Sphere.particlesMaterial_opacity (Sphere.frame Math_sin s t o))
  /\ (in_unit (Helix.mat1_opacity (Helix.root_objects_0 s))
      /\ in_unit (Helix.mat2_opacity (Helix.root_objects_0 s))
      /\ in_unit (Helix.rungMat_opacity (Helix.root_objects_0 s))
      /\ in_unit (Helix.particlesMaterial_opacity (Helix.root_objects_0 s)))
  /\ (in_unit (Helix.mat1_opacity (Helix.root_frame Math_sin s t h))
      /\ in_unit (Helix.mat2_opacity (Helix.root_frame Math_sin s t h)))
  /\ (in_unit (Helix.mat1_opacity (Helix.frontend_frame Math_sin true s t h))
      /\ in_unit (Helix.mat2_opacity (Helix.frontend_frame Math_sin true s t h))
      /\ in_unit (Helix.particlesMaterial_opacity
                    (Helix.frontend_frame Math_sin true s t h))).
Proof.
  intros [Hs0 Hs1].
  assert (0.2 <= Sphere.sOpacity s <= 1) as [Hlo Hhi].
  { unfold Sphere.sOpacity. split; [apply Q.le_max_l|].
    apply Q.max_lub; lra. }
  unfold in_unit. simpl. repeat split; lra.
Qed.

End Amplitudes.

Lemma opacities_are_valid_witness :
  in_unit (Sphere.material_opacity
             (Sphere.frame sin_0 (1 # 2) 0.009 Sphere.sphere_objects_0)).
Proof.
  refine (proj1 (proj1 (opacities_are_valid sin_0 (1 # 2) 0.009
    Sphere.sphere_objects_0 (Helix.root_objects_0 0) _))).
  split; lra.
Defined.

End SceneLoadFacts.

Module SceneFrameFacts.
Import Quality Scene Frames.
Local Open Scope Q_scope.
Local Open Scope js_scope.

Section Pulse.

Variable Math_sin : Q -> Q.

(** X20. With [Math.sin] between -1 and 1 and the scroll progress in
    [0, 1]: the pulse never scales the sphere by more than 5 percent nor
    the helix by more than 8 percent, the helix never tilts by more than
    0.32 rad, the sphere's particle cloud tilts by at most 0.0008 rad
    per frame, and in every processed frame the sphere turns forwards
    about its axes while its particle cloud turns backwards. *)
Theorem pulse_is_bounded (s t : Q) (changed : bool)
    (o : Sphere.SphereObjects) (h : Helix.HelixObjects) :
  (forall x, -1 <= Math_sin x <= 1) ->
  0 <= s <= 1 ->
  (0.95 <= Sphere.sphere_scale (Sphere.frame Math_sin s t o) <= 1.05
   /\ Qabs (Sphere.particles_rotation_x (Sphere.frame Math_sin s t o)
            - Sphere.particles_rotation_x o) <= 0.0008
   /\ Sphere.sphere_rotation_y o
      < Sphere.sphere_rotation_y (Sphere.frame Math_sin s t o)
   /\ Sphere.sphere_rotation_x o
      < Sphere.sphere_rotation_x (Sphere.frame Math_sin s t o)
   /\ Sphere.particles_rotation_y (Sphere.frame Math_sin s t o)
      < Sphere.particles_rotation_y o)
  /\ (0.92 <= Helix.helixGroup_scale (Helix.root_frame Math_sin s t h) <= 1.08
      /\ Qabs (Helix.helixGroup_rotation_x (Helix.root_frame Math_sin s t h))
         <= 0.32)
  /\ (0.92 <= Helix.helixGroup_scale
                (Helix.frontend_frame Math_sin changed s t h) <= 1.08
      /\ Qabs (Helix.helixGroup_rotation_x
                 (Helix.frontend_frame Math_sin changed s t h)) <= 0.32).
Proof.
  intros Hsin [Hs0 Hs1].
  unfold Sphere.frame, Helix.root_frame, Helix.frontend_frame.
  cbn [Sphere.sphere_scale Sphere.particles_rotation_x Sphere.sphere_rotation_y
       Sphere.sphere_rotation_x Sphere.particles_rotation_y
       Helix.helixGroup_scale Helix.helixGroup_rotation_x].
  pose proof (Hsin (t * 2)) as [A1 A2].
  pose proof (Hsin (t * 0.5)) as [B1 B2].
  pose proof (Hsin (t * 2.5)) as [C1 C2].
  pose proof (Hsin (t * 0.32 + 0.15 * s)) as [D1 D2].
  pose proof (Hsin (t * 0.32)) as [E1 E2].
  repeat split; try lra; try (apply Qabs_Qle_condition; split; lra).
  - assert (-0.05 <= Math_sin (t * 2) * 0.05 ) by lra. nra.
  - assert (Math_sin (t * 2) * 0.05 <= 0.05) by lra. nra.
Qed.

End Pulse.

Lemma pulse_is_bounded_witness :
  0.95 <= Sphere.sphere_scale
            (Sphere.frame sin_0 (1 # 2) 0.009 Sphere.sphere_objects_0) <= 1.05.
Proof.
  refine (proj1 (proj1 (pulse_is_bounded sin_0 (1 # 2) 0.009 true
    Sphere.sphere_objects_0 (Helix.root_objects_0 0) _ _))).
  - intros x. unfold sin_0. split; lra.
  - split; lra.
Defined.

Section Throttle.
Import Sphere.

Variable Math_sin : Q -> Q.

Lemma root_frame_step i c t (w : World SphereData SphereLocals) :
  closures w !! i = Some c ->
  exists c' w',
    root_animate Math_sin i t w = (Normal tt, w')
    /\ closures w' !! i = Some c'
    /\ ((renderCalls w' = renderCalls w
         /\ lastTime (locals c') = lastTime (locals c))
        \/ (exists r,
              renderCalls w' = renderCalls w ++ [r]
              /\ lastTime (locals c') = t
              /\ 16 <= t - lastTime (locals c))).
Proof.
  intros Hc. unfold root_animate, in_closure. rewrite Hc.
  destruct (mounted c); simpl;
    [|exists c, w; split; [done|]; split; [done | by left]].
  unfold bind, requestAnimationFrame, gets, modify, ret, update_closure,
    bind, render. simpl.
  destruct (Qltb (t - lastTime (locals c)) 16) eqn:E; simpl.
  - eexists _, _. split; [reflexivity|]. simpl.
    rewrite list_lookup_alter_eq, Hc. split; [done | by left].
  - apply SceneFacts.Qltb_ge in E.
    destruct (consts c) as [d|]; simpl.
    + eexists _, _. split; [reflexivity|]. simpl.
      rewrite !list_lookup_alter_eq, Hc. split; [done|].
      right. exists (renderer d). done.
    + eexists _, _. split; [reflexivity|]. simpl.
      rewrite list_lookup_alter_eq, Hc. split; [done | by left].
Qed.

Lemma frontend_frame_step i c t (w : World SphereData SphereLocals) :
  closures w !! i = Some c ->
  exists c' w',
    frontend_animate Math_sin i t w = (Normal tt, w')
    /\ closures w' !! i = Some c'
    /\ ((renderCalls w' = renderCalls w
         /\ lastTime (locals c') = lastTime (locals c))
        \/ (exists r,
              renderCalls w' = renderCalls w ++ [r]
              /\ lastTime (locals c') = t
              /\ 16 <= t - lastTime (locals c))).
Proof.
  intros Hc. unfold frontend_animate, in_closure. rewrite Hc.
  unfold bind at 1. unfold gets at 1.
  destruct (mounted c), (sceneDataRef w) as [d|] eqn:Hd; cbn beta iota;
    try (exists c, w; split; [done|]; split; [done | by left]).
  unfold bind, requestAnimationFrame, gets, modify, ret, update_closure,
    bind, render. simpl.
  destruct (Qltb (t - lastTime (locals c)) 16) eqn:E; simpl.
  - eexists _, _. split; [reflexivity|]. simpl.
    rewrite list_lookup_alter_eq, Hc. split; [done | by left].
  - apply SceneFacts.Qltb_ge in E.
    eexists _, _. split; [reflexivity|]. simpl.
    rewrite !list_lookup_alter_eq, Hc. split; [done|].
    right. exists (renderer d). done.
Qed.

(** Frames in a row: each render moves [lastTime] on by 16 ms or more. *)
Lemma frames_cap (animate : nat -> Q -> M SphereData SphereLocals unit) i :
  (forall c t w, closures w !! i = Some c ->
     exists c' w',
       animate i t w = (Normal tt, w')
       /\ closures w' !! i = Some c'
       /\ ((renderCalls w' = renderCalls w
            /\ lastTime (locals c') = lastTime (locals c))
           \/ (exists r,
                 renderCalls w' = renderCalls w ++ [r]
                 /\ lastTime (locals c') = t
                 /\ 16 <= t - lastTime (locals c)))) ->
  forall ts c w, closures w !! i = Some c ->
  exists c' m,
    closures (frames animate i ts w) !! i = Some c'
    /\ length (renderCalls (frames animate i ts w))
       = (length (renderCalls w) + m)%nat
    /\ 16 * inject_Z (Z.of_nat m)
       <= lastTime (locals c') - lastTime (locals c)
    /\ (lastTime (locals c') = lastTime (locals c)
        \/ In (lastTime (locals c')) ts).
Proof.
  intros Hstep ts. induction ts as [|t ts IH]; intros c w Hc.
  { exists c, 0%nat. cbn [frames fold_left Z.of_nat]. rewrite Nat.add_0_r.
    change (inject_Z (Z.of_nat 0)) with 0.
    repeat split; try done; [lra | by left]. }
  destruct (Hstep c t w Hc) as (c1 & w1 & Hw1 & Hc1 & Hcase).
  destruct (IH c1 w1 Hc1) as (c' & m & Hc' & Hlen & Hbound & Hin).
  unfold frames in *. cbn [fold_left]. unfold run_callback at 2 4.
  rewrite Hw1. cbn [snd].
  destruct Hcase as [[Hr Hl]|(r & Hr & Hl & Hge)].
  - exists c', m. rewrite Hr, Hl in *. repeat split; try done.
    destruct Hin as [?|?]; [by left | right; by right].
  - exists c', (S m). rewrite Hr, Hl in *. split; [done|]. split.
    { rewrite Hlen, length_app. simpl. lia. }
    split.
    { rewrite Nat2Z.inj_succ. unfold Z.succ. rewrite inject_Z_plus.
      change (inject_Z 1) with 1. lra. }
    destruct Hin as [->|?]; right; [by left | by right].
Qed.

(** X21. One animation loop of the sphere, that is the [animate] of one
    run of the effect, in either file, renders at most once per 16 ms of
    its own reference time: whatever the times at which the display
    calls that [animate], if they all lie within [D] ms after the frame
    the loop processed last then at most [D / 16] of the calls render.
    The bound is per loop: each run of the effect has a [lastTime] of
    its own, so nothing is said across runs. *)
Theorem sphere_loop_render_rate_is_capped (i : nat)
    (c : Closure SphereData SphereLocals) (ts : list Q) (D : Q)
    (w : World SphereData SphereLocals) :
  closures w !! i = Some c ->
  0 <= D ->
  Forall (fun t => t <= lastTime (locals c) + D) ts ->
  16 * inject_Z (Z.of_nat
         (renders w (frames (root_animate Math_sin) i ts w))) <= D
  /\ 16 * inject_Z (Z.of_nat
            (renders w (frames (frontend_animate Math_sin) i ts w))) <= D.
Proof.
  intros Hc HD Hts.
  assert (forall (animate : nat -> Q -> M SphereData SphereLocals unit)
            (c' : Closure SphereData SphereLocals) m,
    length (renderCalls (frames animate i ts w))
      = (length (renderCalls w) + m)%nat ->
    16 * inject_Z (Z.of_nat m) <= lastTime (locals c') - lastTime (locals c) ->
    lastTime (locals c') = lastTime (locals c)
      \/ In (lastTime (locals c')) ts ->
    16 * inject_Z (Z.of_nat (renders w (frames animate i ts w))) <= D) as Hfin.
  { intros animate c' m Hlen Hbound Hin. unfold renders. rewrite Hlen.
    replace (length (renderCalls w) + m - length (renderCalls w))%nat
      with m by lia.
    destruct Hin as [E|Hin].
    - rewrite E in Hbound. lra.
    - rewrite List.Forall_forall in Hts. specialize (Hts _ Hin).
      simpl in Hts. lra. }
  split.
  - destruct (frames_cap (root_animate Math_sin) i
                (fun c t w => root_frame_step i c t w) ts c w Hc)
      as (c' & m & _ & Hlen & Hbound & Hin).
    by apply (Hfin _ c' m).
  - destruct (frames_cap (frontend_animate Math_sin) i
                (fun c t w => frontend_frame_step i c t w) ts c w Hc)
      as (c' & m & _ & Hlen & Hbound & Hin).
    by apply (Hfin _ c' m).
Qed.

End Throttle.

Lemma sphere_loop_render_rate_is_capped_witness :
  16 * inject_Z (Z.of_nat
         (renders sample_world
            (frames (Sphere.frontend_animate sin_0) 0 [5; 16; 20; 33; 40]
               sample_world)))
  <= 40.
Proof.
  refine (proj2 (sphere_loop_render_rate_is_capped sin_0 0 sample_closure
    [5; 16; 20; 33; 40] 40 sample_world _ _ _)).
  - reflexivity.
  - lra.
  - repeat constructor; vm_compute; discriminate.
Defined.

End SceneFrameFacts.

Module SceneUnmountFacts.
Import Quality Scene Frames.
Local Open Scope Q_scope.
Local Open Scope js_scope.

Lemma inert_refl {Data Locals} (w : World Data Locals) : inert w w.
Proof. unfold inert. done. Qed.

Lemma inert_trans {Data Locals} (w1 w2 w3 : World Data Locals) :
  inert w1 w2 -> inert w2 w3 -> inert w1 w3.
Proof.
  unfold inert. intros (?&?&?&?&?) (?&?&?&?&?). repeat split; congruence.
Qed.

Lemma torn_down_inert {Data Locals} (w w' : World Data Locals) :
  torn_down w -> inert w w' -> torn_down w'.
Proof. unfold torn_down, inert. intros [? ?] (?&?&_). split; congruence. Qed.

(** Callbacks in a row on a torn-down component. *)
Lemma fold_torn_down {Data Locals A} (f : A -> World Data Locals -> World Data Locals)
    (l : list A) :
  (forall a w, torn_down w -> inert w (f a w)) ->
  forall w, torn_down w -> inert w (fold_left (fun w a => f a w) l w).
Proof.
  intros Hf. induction l as [|a l IH]; intros w Hw; simpl; [apply inert_refl|].
  eapply inert_trans; [apply Hf, Hw|].
  apply IH. eapply torn_down_inert; [exact Hw | apply Hf, Hw].
Qed.

Section FrontendTornDown.

Context {Data Locals : Type}.
Variable throws : Site -> option Err.
Variable build : Closure Data Locals -> M Data Locals Data.
Variable loop_locals : Closure Data Locals -> Q -> Locals.
Variable animate : nat -> Q -> M Data Locals unit.
Variable cleanupFn : nat -> M Data Locals unit.
Variable l0 : Locals.

(** What the two scenes' own functions are asked for: without a bundle
    in the shared ref they touch nothing; and the cleanup function never
    sets the ref to the mount node. *)
Hypothesis animate_without_scene : forall i t (w : World Data Locals),
  sceneDataRef w = None -> inert w (snd (animate i t w)).
Hypothesis cleanupFn_without_scene : forall i (w : World Data Locals),
  sceneDataRef w = None -> inert w (snd (cleanupFn i w)).
Hypothesis cleanupFn_mountRef : forall i (w : World Data Locals),
  mountRef (snd (cleanupFn i w)) = mountRef w.

Abbreviation FC :=
  (FrontendComponent throws build loop_locals animate cleanupFn l0).

Lemma reaction_torn_down i (w : World Data Locals) :
  torn_down w -> inert w (run_callback (frontend_reaction cleanupFn i) w).
Proof using cleanupFn_without_scene.
  intros [_ Hs]. unfold run_callback, frontend_reaction, in_closure.
  destruct (closures w !! i) as [c|]; [|apply inert_refl].
  destruct (promise c) as [|[|]]; try apply inert_refl.
  by apply cleanupFn_without_scene.
Qed.

Lemma drain_torn_down (w : World Data Locals) :
  torn_down w -> inert w (drain FC w).
Proof using cleanupFn_without_scene.
  intros Hw. unfold drain.
  apply (inert_trans w (with_microtasks [] w)); [unfold inert; done|].
  apply (fold_torn_down (fun i w => run_callback (reaction FC i) w)).
  - intros i w0. apply reaction_torn_down.
  - exact Hw.
Qed.

Lemma effect_cleanup_inert i (w : World Data Locals) :
  inert w (run_callback (frontend_effect_cleanup i) w).
Proof.
  unfold run_callback, frontend_effect_cleanup, bind, update_closure, modify,
    promise_then, in_closure. simpl.
  destruct (alter (with_mounted false) i (closures w) !! i) as [c|];
    [|unfold inert; done].
  destruct (promise c); unfold inert; done.
Qed.

Lemma effect_inert q s (w : World Data Locals) :
  inert w (snd (frontend_effect q s l0 w)).
Proof.
  unfold frontend_effect, new_closure, bind, gets, modify, ret, fulfil,
    in_closure. simpl.
  destruct (mountRef w); simpl; [unfold inert; done|].
  destruct (_ !! _); unfold inert; done.
Qed.

Lemma commit_torn_down q s (w : World Data Locals) :
  torn_down w -> inert w (commit FC q s w).
Proof using cleanupFn_without_scene.
  intros Hw. unfold commit.
  set (w1 := match current w with
             | Some i => run_callback (effect_cleanup FC i) w
             | None => w
             end).
  assert (inert w w1) as H1.
  { subst w1. destruct (current w); [apply effect_cleanup_inert|].
    apply inert_refl. }
  pose proof (effect_inert q s w1) as H2.
  change (effect FC q s w1) with (frontend_effect q s l0 w1).
  destruct (frontend_effect q s l0 w1) as [r w2]. simpl in H2.
  set (w3 := match r with
             | Normal i => with_current (Some i) w2
             | Thrown _ => w2
             end).
  assert (inert w2 w3) as H3 by (subst w3; destruct r; unfold inert; done).
  assert (inert w w3) as H by eauto using inert_trans.
  eapply inert_trans; [exact H|].
  apply drain_torn_down. by eapply torn_down_inert.
Qed.

Lemma unmount_torn_down (w : World Data Locals) :
  torn_down w -> inert w (unmount FC w).
Proof using cleanupFn_without_scene.
  intros Hw. unfold unmount.
  set (w1 := with_mountRef false w).
  assert (inert w w1) as H1.
  { destruct Hw as [Hm _]. unfold inert. simpl. rewrite Hm. done. }
  set (w2 := match current w1 with
             | Some i => run_callback (effect_cleanup FC i) w1
             | None => w1
             end).
  assert (inert w1 w2) as H2.
  { subst w2. destruct (current w1); [apply effect_cleanup_inert|].
    apply inert_refl. }
  assert (inert w (with_current None w2)) as H.
  { eapply inert_trans; [exact H1|]. eapply inert_trans; [exact H2|].
    unfold inert. done. }
  eapply inert_trans; [exact H|].
  apply drain_torn_down. by eapply torn_down_inert.
Qed.

Lemma resume_torn_down i imported now (w : World Data Locals) :
  torn_down w ->
  inert w (run_callback (initScene_resume throws build loop_locals
                           i imported now) w).
Proof.
  intros [Hm Hs]. unfold run_callback, initScene_resume, in_closure.
  destruct (closures w !! i) as [c|] eqn:Hc; [|apply inert_refl].
  destruct (promise c); [|apply inert_refl].
  unfold bind, try_catch, initScene_try, bind, await_import.
  destruct imported as [[]|e]; simpl.
  - unfold in_closure. rewrite Hc. unfold gets, bind. rewrite Hm.
    rewrite orb_true_r. simpl.
    unfold fulfil, in_closure. rewrite Hc. simpl. unfold inert. done.
  - unfold fulfil, in_closure. simpl. rewrite Hc. simpl. unfold inert. done.
Qed.

Lemma import_settled_torn_down i imported now (w : World Data Locals) :
  torn_down w -> inert w (import_settled FC i imported now w).
Proof using cleanupFn_without_scene.
  intros Hw. unfold import_settled.
  pose proof (resume_torn_down i imported now w Hw) as H.
  eapply inert_trans; [exact H|].
  apply drain_torn_down. by eapply torn_down_inert.
Qed.

Lemma animation_frame_torn_down t (w : World Data Locals) :
  torn_down w -> inert w (animation_frame FC t w).
Proof using animate_without_scene.
  intros Hw. unfold animation_frame.
  apply (inert_trans w (with_frameRequests [] (nextHandle w) w));
    [unfold inert; done|].
  apply (fold_torn_down
           (fun r w => run_callback (frame_callback FC (snd r) t) w)).
  - intros r w0 [_ Hs]. by apply animate_without_scene.
  - exact Hw.
Qed.

Lemma step_torn_down e (w : World Data Locals) :
  torn_down w -> inert w (step FC w e).
Proof using animate_without_scene cleanupFn_without_scene.
  destruct e; simpl.
  - apply commit_torn_down.
  - apply unmount_torn_down.
  - apply import_settled_torn_down.
  - apply animation_frame_torn_down.
Qed.

(** Once torn down, always torn down: whatever events follow, nothing
    is created, disposed, attached, detached or rendered. *)
Lemma run_torn_down evs (w : World Data Locals) :
  torn_down w -> inert w (fold_left (step FC) evs w).
Proof using animate_without_scene cleanupFn_without_scene.
  revert w. induction evs as [|e evs IH]; intros w Hw; simpl;
    [apply inert_refl|].
  eapply inert_trans; [apply step_torn_down, Hw|].
  apply IH. eapply torn_down_inert; [exact Hw | apply step_torn_down, Hw].
Qed.

(** The unmount clears the ref to the mount node, and the cleanup does
    not set it again. *)
Lemma unmount_mountRef (w : World Data Locals) :
  mountRef (unmount FC w) = false.
Proof using cleanupFn_mountRef.
  unfold unmount, drain.
  set (w2 := match current (with_mountRef false w) with
             | Some i => run_callback (effect_cleanup FC i) (with_mountRef false w)
             | None => with_mountRef false w
             end).
  assert (mountRef w2 = false) as H2.
  { subst w2. destruct (current _) as [i|]; [|done].
    destruct (effect_cleanup_inert i (with_mountRef false w)) as [E _].
    exact E. }
  assert (forall l (w0 : World Data Locals),
            mountRef (fold_left (fun w i => run_callback (reaction FC i) w) l w0)
            = mountRef w0) as Hfold.
  { induction l as [|i l IH]; intros w0; simpl; [done|].
    rewrite IH. unfold run_callback, frontend_reaction, in_closure.
    destruct (closures w0 !! i) as [c|]; [|done].
    destruct (promise c) as [|[|]]; try done. }
  rewrite Hfold. exact H2.
Qed.

End FrontendTornDown.

Section SphereTornDown.

Variable Math_sin : Q -> Q.

Lemma sphere_animate_without_scene i t
    (w : World Sphere.SphereData Sphere.SphereLocals) :
  sceneDataRef w = None -> inert w (snd (Sphere.frontend_animate Math_sin i t w)).
Proof.
  intros Hs. unfold Sphere.frontend_animate, in_closure.
  destruct (closures w !! i) as [c|]; [|apply inert_refl].
  unfold bind, gets. simpl. rewrite Hs.
  destruct (mounted c); apply inert_refl.
Qed.

Lemma sphere_cleanupFn_without_scene i
    (w : World Sphere.SphereData Sphere.SphereLocals) :
  sceneDataRef w = None -> inert w (snd (Sphere.frontend_cleanupFn i w)).
Proof.
  intros Hs. destruct (SceneLoadFacts.sphere_cleanupFn_spec i w)
    as (w1 & -> & _ & H & _). by apply H.
Qed.

Lemma sphere_cleanupFn_mountRef i
    (w : World Sphere.SphereData Sphere.SphereLocals) :
  mountRef (snd (Sphere.frontend_cleanupFn i w)) = mountRef w.
Proof.
  destruct (SceneLoadFacts.sphere_cleanupFn_spec i w)
    as (w1 & -> & _ & _ & H & _). exact H.
Qed.

(** X22. [frontend/src/App.js], sphere, when no library call fails:
    after the unmount the canvas is gone and every GPU object the
    component ever created has been disposed exactly once, and this
    stays so whatever happens afterwards (late imports, animation
    frames, further commits): nothing is created, nothing is disposed a
    second time, nothing is rendered. *)
Theorem frontend_sphere_stays_released (evs evs' : list Event) :
  children (run (Sphere.Frontend Math_sin no_failure)
              (evs ++ [Unmount] ++ evs')) = []
  /\ released_once (heap (run (Sphere.Frontend Math_sin no_failure)
                            (evs ++ [Unmount] ++ evs')))
  /\ heap (run (Sphere.Frontend Math_sin no_failure) (evs ++ [Unmount] ++ evs'))
     = heap (run (Sphere.Frontend Math_sin no_failure) (evs ++ [Unmount]))
  /\ renderCalls (run (Sphere.Frontend Math_sin no_failure)
                    (evs ++ [Unmount] ++ evs'))
     = renderCalls (run (Sphere.Frontend Math_sin no_failure)
                      (evs ++ [Unmount]))
  /\ sceneDataRef (run (Sphere.Frontend Math_sin no_failure)
                     (evs ++ [Unmount] ++ evs')) = None.
Proof.
  set (FS := Sphere.Frontend Math_sin no_failure).
  set (w := run FS (evs ++ [Unmount])).
  assert (run FS (evs ++ [Unmount] ++ evs') = fold_left (step FS) evs' w) as ->.
  { subst w. unfold run. by rewrite app_assoc, fold_left_app. }
  assert (w = unmount FS (run FS evs)) as Hw.
  { subst w. unfold run. by rewrite fold_left_app. }
  pose proof (SceneFacts.run_one_bundle Math_sin (evs ++ [Unmount]))
    as [Hq Hc Hstale Hsc].
  fold FS in Hq, Hc, Hstale, Hsc. fold w in Hq, Hc, Hstale, Hsc.
  assert (current w = None) as Hcur.
  { rewrite Hw. apply SceneFacts.unmount_current, SceneFacts.run_one_bundle. }
  assert (sceneDataRef w = None) as Hnone.
  { destruct (sceneDataRef w); [|done].
    destruct Hsc as (h & _ & _ & _ & _ & k & ck & Hk & _). congruence. }
  rewrite Hnone in Hsc. destruct Hsc as [Hch Hrel].
  assert (torn_down w) as Htd.
  { split; [|exact Hnone]. rewrite Hw.
    apply (unmount_mountRef no_failure (Sphere.build no_failure)
             Sphere.frontend_locals (Sphere.frontend_animate Math_sin)
             Sphere.frontend_cleanupFn Sphere.sphere_locals_0).
    apply sphere_cleanupFn_mountRef. }
  destruct (run_torn_down no_failure (Sphere.build no_failure)
              Sphere.frontend_locals (Sphere.frontend_animate Math_sin)
              Sphere.frontend_cleanupFn Sphere.sphere_locals_0
              sphere_animate_without_scene sphere_cleanupFn_without_scene
              evs' w Htd) as (_ & E2 & E3 & E4 & E5).
  change (FrontendComponent no_failure (Sphere.build no_failure)
            Sphere.frontend_locals (Sphere.frontend_animate Math_sin)
            Sphere.frontend_cleanupFn Sphere.sphere_locals_0)
    with FS in E2, E3, E4, E5.
  rewrite E2, E3, E4, E5. done.
Qed.

End SphereTornDown.

End SceneUnmountFacts.

Module SceneRootFacts.
Import Quality Scene Frames.
Local Open Scope Q_scope.
Local Open Scope js_scope.

(** ** What the constructors leave alone *)

Section Keeps.

Context {Data Locals : Type}.
Variable throws : Site -> option Err.

Lemma same_closures_refl (w : World Data Locals) : same_closures w w.
Proof. unfold same_closures. done. Qed.

Lemma same_closures_trans (w1 w2 w3 : World Data Locals) :
  same_closures w1 w2 -> same_closures w2 w3 -> same_closures w1 w3.
Proof.
  unfold same_closures. intros (?&?&?) (?&?&?). repeat split; congruence.
Qed.

Lemma bind_same_closures {A B} (m : M Data Locals A) (k : A -> M Data Locals B) :
  (forall w, same_closures w (snd (m w))) ->
  (forall a w, same_closures w (snd (k a w))) ->
  forall w, same_closures w (snd ((x <- m ;; k x) w)).
Proof.
  intros Hm Hk w. unfold bind. pose proof (Hm w) as H.
  destruct (m w) as [[a|e] w1]; simpl in *; [|exact H].
  eapply same_closures_trans; [exact H | apply Hk].
Qed.

Lemma call_same_closures s (w : World Data Locals) :
  same_closures w (snd (call throws s w)).
Proof. unfold call. destruct (throws s); apply same_closures_refl. Qed.

Lemma new_resource_same_closures s k (w : World Data Locals) :
  same_closures w (snd (new_resource throws s k w)).
Proof.
  unfold new_resource, bind, call, gets, modify, ret.
  destruct (throws s); unfold same_closures; done.
Qed.

Lemma appendChild_same_closures r (w : World Data Locals) :
  same_closures w (snd (appendChild throws r w)).
Proof.
  unfold appendChild, bind, call, modify.
  destruct (throws mount_appendChild); unfold same_closures; done.
Qed.

Lemma ret_same_closures {A} (a : A) (w : World Data Locals) :
  same_closures w (snd (ret a w)).
Proof. apply same_closures_refl. Qed.

End Keeps.

Lemma sphere_build_same_closures throws c
    (w : World Sphere.SphereData Sphere.SphereLocals) :
  same_closures w (snd (Sphere.build throws c w)).
Proof.
  revert w. unfold Sphere.build.
  repeat (apply bind_same_closures;
          [intros w;
           first [apply call_same_closures | apply new_resource_same_closures
                 | apply appendChild_same_closures]
          |intros ?]).
  intros w. apply ret_same_closures.
Qed.

Lemma rungs_loop_same_closures throws fuel : forall i acc
    (w : World Helix.HelixData Helix.HelixLocals),
  same_closures w (snd (Helix.rungs_loop throws fuel i acc w)).
Proof.
  induction fuel as [|fuel IH]; intros i acc w; simpl;
    [apply same_closures_refl|].
  destruct (i <? Helix.segments)%nat; [|apply same_closures_refl].
  revert w.
  repeat (apply bind_same_closures;
          [intros w;
           first [apply call_same_closures | apply new_resource_same_closures]
          |intros ?]).
  intros w. apply IH.
Qed.

Lemma helix_build_same_closures throws o
    (w : World Helix.HelixData Helix.HelixLocals) :
  same_closures w (snd (Helix.build throws o w)).
Proof.
  revert w. unfold Helix.build.
  repeat (apply bind_same_closures;
          [intros w;
           first [apply call_same_closures | apply new_resource_same_closures
                 | apply appendChild_same_closures
                 | apply rungs_loop_same_closures]
          |intros ?]).
  intros w. apply ret_same_closures.
Qed.


(** ** [src/App.js]: one closure is mounted, and none after the unmount *)

Lemma same_mounted_refl {Data Locals} (w : World Data Locals) :
  same_mounted w w.
Proof. unfold same_mounted. done. Qed.

Lemma same_mounted_trans {Data Locals} (w1 w2 w3 : World Data Locals) :
  same_mounted w1 w2 -> same_mounted w2 w3 -> same_mounted w1 w3.
Proof.
  unfold same_mounted. intros (?&?&H1) (?&?&H2).
  repeat split; try congruence.
Qed.

Lemma same_closures_mounted {Data Locals} (w w' : World Data Locals) :
  same_closures w w' -> same_mounted w w'.
Proof.
  unfold same_closures, same_mounted. intros (E & ? & ?).
  repeat split; try done. intros j. by rewrite E.
Qed.

Lemma one_mounted_transfer {Data Locals} (w w' : World Data Locals) :
  same_mounted w w' -> one_mounted w -> one_mounted w'.
Proof.
  intros (Hc & _ & Hf) H j c' Hj Hne. specialize (Hf j).
  rewrite Hj in Hf. simpl in Hf.
  destruct (closures w !! j) as [c|] eqn:E; simpl in Hf; [|discriminate].
  injection Hf as Hf. rewrite Hf. apply (H j c E). congruence.
Qed.

Lemma alter_same_mounted {Data Locals}
    (f : Closure Data Locals -> Closure Data Locals) i
    (w : World Data Locals) :
  (forall c, mounted (f c) = mounted c) ->
  same_mounted w (with_closures (alter f i (closures w)) w).
Proof.
  intros Hf. unfold same_mounted. simpl. repeat split; try done.
  intros j. destruct (decide (i = j)) as [->|Hne].
  - rewrite list_lookup_alter_eq. destruct (closures w !! j); simpl; [|done].
    by rewrite Hf.
  - by rewrite list_lookup_alter_ne.
Qed.

Lemma alter_idle {Data Locals}
    (f : Closure Data Locals -> Closure Data Locals) i
    (l : list (Closure Data Locals)) :
  (forall c, idle c -> idle (f c)) ->
  Forall idle l -> Forall idle (alter f i l).
Proof.
  intros Hf Hall. apply Forall_alter; [exact Hall|].
  intros c _ Hc. by apply Hf.
Qed.

Lemma stopped_inert {Data Locals} (w w' : World Data Locals) :
  stopped w -> inert w w' -> Forall idle (closures w') -> stopped w'.
Proof. intros [Hm _] (E & _) Hall. split; [congruence | exact Hall]. Qed.

Section RootStops.

Context {Data Locals : Type}.
Variable throws : Site -> option Err.
Variable build : Closure Data Locals -> M Data Locals Data.
Variable loop_locals : Closure Data Locals -> Q -> Locals.
Variable animate : nat -> Q -> M Data Locals unit.
Variable l0 : Locals.

(** What the two scenes' own functions are asked for. *)
Hypothesis build_keeps : forall c (w : World Data Locals),
  same_closures w (snd (build c w)).
Hypothesis animate_keeps : forall i t (w : World Data Locals),
  same_mounted w (snd (animate i t w)).
Hypothesis animate_idle : forall i t (w : World Data Locals),
  Forall idle (closures w) ->
  inert w (snd (animate i t w)) /\ Forall idle (closures (snd (animate i t w))).

Abbreviation RC := (RootComponent throws build loop_locals animate l0).

Lemma fulfil_same_mounted i b (w : World Data Locals) :
  same_mounted w (snd (fulfil i b w)).
Proof.
  unfold fulfil, in_closure.
  destruct (closures w !! i) as [c|]; [|apply same_mounted_refl].
  unfold bind, modify, update_closure. simpl.
  apply (same_mounted_trans w
           (with_microtasks (microtasks w ++ repeat i (reactions c)) w));
    [unfold same_mounted; done|].
  apply (alter_same_mounted (with_promise (Fulfilled b) 0) i
           (with_microtasks (microtasks w ++ repeat i (reactions c)) w)).
  done.
Qed.

Lemma loadScene_try_same_mounted i imported (w : World Data Locals) :
  same_mounted w
    (snd (loadScene_try throws build loop_locals animate i imported w)).
Proof using build_keeps animate_keeps.
  unfold loadScene_try, bind at 1, await_import.
  destruct imported as [[]|e]; simpl; [|apply same_mounted_refl].
  unfold in_closure.
  destruct (closures w !! i) as [c|]; [|apply same_mounted_refl].
  destruct (mounted c); simpl; [|apply same_mounted_refl].
  unfold bind at 1. unfold gets at 1.
  destruct (mountRef w); simpl; [|apply same_mounted_refl].
  unfold bind at 1. pose proof (build_keeps c w) as Hb.
  destruct (build c w) as [[d|e] w1]; simpl in Hb;
    [|by apply same_closures_mounted].
  eapply same_mounted_trans; [by apply same_closures_mounted|].
  unfold bind, update_closure, modify, addResizeListener, bind, call, modify,
    setIsLoaded, modify, ret. simpl.
  set (w2 := with_closures _ (with_closures _ w1)).
  assert (same_mounted w1 w2) as H2.
  { subst w2. eapply same_mounted_trans;
      [apply (alter_same_mounted (with_consts (Some d)) i w1); done|].
    apply (alter_same_mounted (with_locals (loop_locals c 0)) i); done. }
  destruct (throws window_addEventListener); simpl; [exact H2|].
  set (w3 := with_resizeListeners _ w2).
  assert (same_mounted w1 w3) as H3.
  { eapply same_mounted_trans; [exact H2|]. unfold same_mounted. done. }
  pose proof (animate_keeps i 0 w3) as Ha.
  destruct (animate i 0 w3) as [[[]|e] w4]; simpl in *.
  - eapply same_mounted_trans; [exact H3|].
    eapply same_mounted_trans; [exact Ha|]. unfold same_mounted. done.
  - eapply same_mounted_trans; [exact H3 | exact Ha].
Qed.

Lemma resume_same_mounted i imported now (w : World Data Locals) :
  same_mounted w
    (run_callback (loadScene_resume throws build loop_locals animate
                     i imported now) w).
Proof using build_keeps animate_keeps.
  unfold run_callback, loadScene_resume, in_closure.
  destruct (closures w !! i) as [c|]; [|apply same_mounted_refl].
  destruct (promise c); [|apply same_mounted_refl].
  unfold bind, try_catch.
  pose proof (loadScene_try_same_mounted i imported w) as Ht.
  destruct (loadScene_try _ _ _ _ i imported w) as [[b|e] w1]; simpl in Ht.
  - eapply same_mounted_trans; [exact Ht | apply fulfil_same_mounted].
  - unfold on_error, bind, console_error, setIsLoaded, modify, ret. simpl.
    eapply same_mounted_trans; [exact Ht|].
    eapply same_mounted_trans; [|apply fulfil_same_mounted].
    unfold same_mounted. done.
Qed.

Lemma frames_same_mounted t (l : list (nat * nat)) :
  forall w : World Data Locals,
  same_mounted w
    (fold_left (fun w r => run_callback (animate (snd r) t) w) l w).
Proof using animate_keeps.
  induction l as [|r l IH]; intros w; simpl; [apply same_mounted_refl|].
  eapply same_mounted_trans; [apply animate_keeps | apply IH].
Qed.

(** The cleanup of the current run leaves no closure mounted. *)
Lemma cleanup_unmounts (w : World Data Locals) :
  one_mounted w ->
  Forall (fun c => mounted c = false)
    (closures (match current w with
               | Some i => run_callback (effect_cleanup RC i) w
               | None => w
               end)).
Proof.
  intros H. apply Forall_lookup. intros j c Hj.
  destruct (current w) as [i|] eqn:Hi.
  - unfold run_callback in Hj. simpl in Hj.
    destruct (decide (i = j)) as [->|Hne].
    + rewrite list_lookup_alter_eq in Hj.
      destruct (closures w !! j); simpl in Hj; [|done].
      injection Hj as <-. done.
    + rewrite list_lookup_alter_ne in Hj by done.
      apply (H j c Hj). congruence.
  - apply (H j c Hj). rewrite Hi. done.
Qed.

Lemma commit_one_mounted q s (w : World Data Locals) :
  one_mounted w -> one_mounted (commit RC q s w).
Proof.
  intros H. unfold commit. pose proof (cleanup_unmounts w H) as Hall.
  set (w1 := match current w with
             | Some i => run_callback (effect_cleanup RC i) w
             | None => w
             end) in *.
  simpl. rewrite SceneFacts.drain_root.
  intros j c Hj Hne. simpl in Hj, Hne.
  apply lookup_app_Some in Hj as [Hj|[Hge Hj]].
  - apply (proj1 (Forall_lookup _ _) Hall j c Hj).
  - exfalso. apply Hne. f_equal.
    destruct (j - length (closures w1))%nat eqn:E; simpl in Hj; [lia | done].
Qed.

Lemma unmount_stops (w : World Data Locals) :
  one_mounted w -> stopped (unmount RC w) /\ one_mounted (unmount RC w).
Proof.
  intros H. unfold unmount. rewrite SceneFacts.drain_root.
  assert (one_mounted (with_mountRef false w)) as H0 by exact H.
  pose proof (cleanup_unmounts _ H0) as Hall.
  set (w2 := match current (with_mountRef false w) with
             | Some i => run_callback (effect_cleanup RC i) (with_mountRef false w)
             | None => with_mountRef false w
             end) in *.
  assert (mountRef w2 = false) as Hm.
  { subst w2. destruct (current _); done. }
  split.
  - split; [exact Hm|]. simpl.
    eapply Forall_impl; [exact Hall|]. intros c Hc. by left.
  - intros j c Hj _. simpl in Hj.
    apply (proj1 (Forall_lookup _ _) Hall j c Hj).
Qed.

Lemma step_one_mounted e (w : World Data Locals) :
  one_mounted w -> one_mounted (step RC w e).
Proof using build_keeps animate_keeps.
  intros H. destruct e as [q s| |i imported now|t]; simpl.
  - by apply commit_one_mounted.
  - by apply unmount_stops.
  - unfold import_settled. rewrite SceneFacts.drain_root.
    eapply one_mounted_transfer; [|exact H].
    eapply same_mounted_trans; [apply resume_same_mounted|].
    unfold same_mounted. done.
  - unfold animation_frame.
    eapply one_mounted_transfer; [|exact H].
    eapply same_mounted_trans; [|apply frames_same_mounted].
    unfold same_mounted. done.
Qed.

Lemma run_one_mounted evs : one_mounted (run RC evs).
Proof using build_keeps animate_keeps.
  unfold run.
  assert (one_mounted (@initial_world Data Locals)) as H0.
  { intros j c Hj. done. }
  revert H0. generalize (@initial_world Data Locals).
  induction evs as [|e evs IH]; intros w Hw; simpl; [exact Hw|].
  apply IH, step_one_mounted, Hw.
Qed.

(** *** After the unmount *)

Lemma commit_stopped q s (w : World Data Locals) :
  stopped w -> stopped (commit RC q s w) /\ inert w (commit RC q s w).
Proof.
  intros [Hm Hall]. unfold commit.
  set (w1 := match current w with
             | Some i => run_callback (effect_cleanup RC i) w
             | None => w
             end).
  assert (mountRef w1 = false /\ Forall idle (closures w1) /\ inert w w1)
    as (Hm1 & Hall1 & Hin1).
  { subst w1. destruct (current w) as [i|]; [|unfold inert; done].
    unfold run_callback. simpl. split; [done|]. split; [|unfold inert; done].
    apply alter_idle; [|exact Hall]. intros c _. by left. }
  simpl. rewrite SceneFacts.drain_root. split.
  - split; [exact Hm1|]. simpl. apply Forall_app. split; [exact Hall1|].
    constructor; [|constructor]. by right.
  - destruct Hin1 as (?&?&?&?&?). unfold inert. simpl. done.
Qed.

Lemma unmount_stopped (w : World Data Locals) :
  stopped w -> stopped (unmount RC w) /\ inert w (unmount RC w).
Proof.
  intros [Hm Hall]. unfold unmount. rewrite SceneFacts.drain_root.
  destruct (current (with_mountRef false w)) as [i|]; simpl.
  - unfold run_callback. simpl. split.
    + split; [done|]. simpl. apply alter_idle; [|exact Hall].
      intros c _. by left.
    + unfold inert. simpl. rewrite Hm. done.
  - split; [split; done|]. unfold inert. simpl. rewrite Hm. done.
Qed.

Lemma import_settled_stopped i imported now (w : World Data Locals) :
  stopped w ->
  stopped (import_settled RC i imported now w)
  /\ inert w (import_settled RC i imported now w).
Proof.
  intros [Hm Hall]. unfold import_settled. rewrite SceneFacts.drain_root.
  unfold run_callback. simpl. unfold loadScene_resume, in_closure.
  destruct (closures w !! i) as [c|] eqn:Hc;
    [|split; [split; done | unfold inert; done]].
  destruct (promise c); [|split; [split; done | unfold inert; done]].
  unfold bind, try_catch, loadScene_try, bind, await_import.
  assert (forall w0 : World Data Locals,
            closures w0 = closures w -> mountRef w0 = false ->
            inert w w0 ->
            stopped (with_microtasks [] (snd (fulfil i false w0)))
            /\ inert w (with_microtasks [] (snd (fulfil i false w0)))) as Hf.
  { intros w0 Hcl Hm0 Hin. unfold fulfil, in_closure. rewrite Hcl, Hc.
    unfold bind, modify, update_closure. simpl. rewrite Hcl. split.
    - split; [exact Hm0|]. simpl. apply alter_idle; [|exact Hall].
      intros c0 Hc0. exact Hc0.
    - destruct Hin as (?&?&?&?&?). unfold inert. simpl. done. }
  destruct imported as [[]|e]; simpl.
  - unfold in_closure. rewrite Hc.
    destruct (mounted c); simpl.
    + unfold bind, gets. rewrite Hm. simpl.
      apply Hf; first [done | unfold inert; done].
    + apply Hf; first [done | unfold inert; done].
  - apply Hf; first [done | unfold inert; done].
Qed.

Lemma frames_stopped t (l : list (nat * nat)) :
  forall w : World Data Locals,
  stopped w ->
  stopped (fold_left (fun w r => run_callback (animate (snd r) t) w) l w)
  /\ inert w (fold_left (fun w r => run_callback (animate (snd r) t) w) l w).
Proof using animate_idle.
  induction l as [|r l IH]; intros w Hw; simpl;
    [split; [exact Hw | unfold inert; done]|].
  destruct (animate_idle (snd r) t w (proj2 Hw)) as [Hin Hall].
  assert (stopped (run_callback (animate (snd r) t) w)) as Hw1
    by (eapply stopped_inert; eauto).
  destruct (IH _ Hw1) as [Hs Hi]. split; [exact Hs|].
  eapply SceneUnmountFacts.inert_trans; [exact Hin | exact Hi].
Qed.

Lemma step_stopped e (w : World Data Locals) :
  stopped w -> stopped (step RC w e) /\ inert w (step RC w e).
Proof using animate_idle.
  intros H. destruct e as [q s| |i imported now|t]; simpl.
  - by apply commit_stopped.
  - by apply unmount_stopped.
  - by apply import_settled_stopped.
  - unfold animation_frame.
    assert (stopped (with_frameRequests [] (nextHandle w) w)) as H0 by exact H.
    destruct (frames_stopped t (frameRequests w) _ H0) as [Hs Hi].
    split; [exact Hs|].
    eapply SceneUnmountFacts.inert_trans; [|exact Hi]. unfold inert. done.
Qed.

Lemma run_stopped evs (w : World Data Locals) :
  stopped w -> inert w (fold_left (step RC) evs w).
Proof using animate_idle.
  revert w. induction evs as [|e evs IH]; intros w Hw; simpl;
    [unfold inert; done|].
  destruct (step_stopped e w Hw) as [Hs Hi].
  eapply SceneUnmountFacts.inert_trans; [exact Hi | apply IH, Hs].
Qed.

(** On every run, whatever fails: once the component is unmounted,
    nothing is rendered, created or attached any more. *)
Lemma root_stops_after_unmount evs evs' :
  inert (run RC (evs ++ [Unmount])) (run RC (evs ++ [Unmount] ++ evs')).
Proof using build_keeps animate_keeps animate_idle.
  assert (run RC (evs ++ [Unmount] ++ evs')
          = fold_left (step RC) evs' (run RC (evs ++ [Unmount]))) as ->.
  { unfold run. by rewrite app_assoc, fold_left_app. }
  apply run_stopped.
  unfold run. rewrite fold_left_app. simpl.
  apply unmount_stops, run_one_mounted.
Qed.

End RootStops.

Lemma mounted_alter {Data Locals}
    (f : Closure Data Locals -> Closure Data Locals)
    (l : list (Closure Data Locals)) (i j : nat) :
  (forall c, mounted (f c) = mounted c) ->
  mounted <$> alter f i l !! j = mounted <$> l !! j.
Proof.
  intros Hf. destruct (decide (i = j)) as [->|Hne].
  - rewrite list_lookup_alter_eq. destruct (l !! j); simpl; [|done].
    by rewrite Hf.
  - by rewrite list_lookup_alter_ne.
Qed.

Section RootScenes.

Variable Math_sin : Q -> Q.
Variable throws : Site -> option Err.

Lemma sphere_root_animate_keeps i t
    (w : World Sphere.SphereData Sphere.SphereLocals) :
  same_mounted w (snd (Sphere.root_animate Math_sin i t w)).
Proof.
  unfold Sphere.root_animate, in_closure.
  destruct (closures w !! i) as [c|]; [|apply same_mounted_refl].
  destruct (mounted c); simpl; [|apply same_mounted_refl].
  unfold bind, requestAnimationFrame, gets, modify, ret, update_closure,
    bind, render. simpl.
  destruct (Qltb _ 16); simpl;
    [|destruct (consts c); simpl];
    unfold same_mounted; simpl; (split; [done|]; split; [done|]); intros j;
    rewrite !mounted_alter; done.
Qed.

Lemma sphere_root_animate_idle i t
    (w : World Sphere.SphereData Sphere.SphereLocals) :
  Forall idle (closures w) ->
  inert w (snd (Sphere.root_animate Math_sin i t w))
  /\ Forall idle (closures (snd (Sphere.root_animate Math_sin i t w))).
Proof.
  intros Hall. unfold Sphere.root_animate, in_closure.
  destruct (closures w !! i) as [c|] eqn:Hc; [|unfold inert; done].
  destruct (mounted c) eqn:Hm; simpl; [|unfold inert; done].
  assert (consts c = None) as Hn.
  { destruct (proj1 (Forall_lookup _ _) Hall i c Hc); congruence. }
  unfold bind, requestAnimationFrame, gets, modify, ret, update_closure,
    bind, render. simpl.
  destruct (Qltb _ 16); simpl; rewrite ?Hn; simpl;
    (split; [unfold inert; done|]);
    (apply alter_idle; [intros c0 Hc0; exact Hc0 | exact Hall]).
Qed.

Lemma helix_root_animate_keeps i t
    (w : World Helix.HelixData Helix.HelixLocals) :
  same_mounted w (snd (Helix.root_animate Math_sin i t w)).
Proof.
  unfold Helix.root_animate, in_closure.
  destruct (closures w !! i) as [c|]; [|apply same_mounted_refl].
  destruct (mounted c); simpl; [|apply same_mounted_refl].
  unfold bind, requestAnimationFrame, gets, modify, ret, update_closure,
    bind, render. simpl.
  destruct (consts c); simpl;
    unfold same_mounted; simpl; (split; [done|]; split; [done|]); intros j;
    rewrite !mounted_alter; done.
Qed.

Lemma helix_root_animate_idle i t
    (w : World Helix.HelixData Helix.HelixLocals) :
  Forall idle (closures w) ->
  inert w (snd (Helix.root_animate Math_sin i t w))
  /\ Forall idle (closures (snd (Helix.root_animate Math_sin i t w))).
Proof.
  intros Hall. unfold Helix.root_animate, in_closure.
  destruct (closures w !! i) as [c|] eqn:Hc; [|unfold inert; done].
  destruct (mounted c) eqn:Hm; simpl; [|unfold inert; done].
  assert (consts c = None) as Hn.
  { destruct (proj1 (Forall_lookup _ _) Hall i c Hc); congruence. }
  unfold bind, requestAnimationFrame, gets, modify, ret, update_closure,
    bind, render. simpl. rewrite Hn. simpl.
  split; [unfold inert; done|].
  apply alter_idle; [intros c0 Hc0; exact Hc0 | exact Hall].
Qed.

(** X23. [src/App.js], both scenes, whatever library calls fail. At any
    time only the closure of the current effect run is flagged as
    mounted. And once the component is unmounted, whatever happens
    afterwards (late imports settle, animation frames come, further
    commits) nothing is rendered, no GPU object is created or disposed,
    and no canvas is attached or detached. *)
Theorem root_scenes_stop_after_unmount (evs evs' : list Event) :
  (one_mounted (run (Sphere.Root Math_sin throws) evs)
   /\ one_mounted (run (Helix.Root Math_sin throws) evs))
  /\ (renderCalls (run (Sphere.Root Math_sin throws) (evs ++ [Unmount] ++ evs'))
      = renderCalls (run (Sphere.Root Math_sin throws) (evs ++ [Unmount]))
      /\ heap (run (Sphere.Root Math_sin throws) (evs ++ [Unmount] ++ evs'))
         = heap (run (Sphere.Root Math_sin throws) (evs ++ [Unmount]))
      /\ children (run (Sphere.Root Math_sin throws) (evs ++ [Unmount] ++ evs'))
         = children (run (Sphere.Root Math_sin throws) (evs ++ [Unmount])))
  /\ (renderCalls (run (Helix.Root Math_sin throws) (evs ++ [Unmount] ++ evs'))
      = renderCalls (run (Helix.Root Math_sin throws) (evs ++ [Unmount]))
      /\ heap (run (Helix.Root Math_sin throws) (evs ++ [Unmount] ++ evs'))
         = heap (run (Helix.Root Math_sin throws) (evs ++ [Unmount]))
      /\ children (run (Helix.Root Math_sin throws) (evs ++ [Unmount] ++ evs'))
         = children (run (Helix.Root Math_sin throws) (evs ++ [Unmount]))).
Proof.
  split; [split|split].
  - apply (run_one_mounted throws (Sphere.build throws) Sphere.root_locals
             (Sphere.root_animate Math_sin) Sphere.sphere_locals_0).
    + apply sphere_build_same_closures.
    + apply sphere_root_animate_keeps.
  - apply (run_one_mounted throws (Helix.root_build throws) Helix.root_locals
             (Helix.root_animate Math_sin) Helix.helix_locals_0).
    + intros c w. apply helix_build_same_closures.
    + apply helix_root_animate_keeps.
  - destruct (root_stops_after_unmount throws (Sphere.build throws)
                Sphere.root_locals (Sphere.root_animate Math_sin)
                Sphere.sphere_locals_0 (sphere_build_same_closures throws)
                sphere_root_animate_keeps sphere_root_animate_idle evs evs')
      as (_ & _ & E1 & E2 & E3).
    done.
  - destruct (root_stops_after_unmount throws (Helix.root_build throws)
                Helix.root_locals (Helix.root_animate Math_sin)
                Helix.helix_locals_0
                (fun c w => helix_build_same_closures throws _ w)
                helix_root_animate_keeps helix_root_animate_idle evs evs')
      as (_ & _ & E1 & E2 & E3).
    done.
Qed.

End RootScenes.

End SceneRootFacts.

(* ===================================================================== *)
(** * Further properties: one bundle at a time, for any frontend scene    *)
(* ===================================================================== *)

Module BundleFacts.
Import Quality Scene Frames Bundle.
Local Open Scope Q_scope.
Local Open Scope js_scope.

Section AnyBundle.

Context {Data Locals : Type}.
Variable ids : Data -> list nat.
Variable fresh : list Resource.
Variable build : Closure Data Locals -> M Data Locals Data.
Variable loop_locals : Closure Data Locals -> Q -> Locals.
Variable animate : nat -> Q -> M Data Locals unit.
Variable cleanupFn : nat -> M Data Locals unit.
Variable l0 : Locals.

Abbreviation BW := (World Data Locals).
Abbreviation FC :=
  (FrontendComponent no_failure build loop_locals animate cleanupFn l0).
Abbreviation same := (lifecycle_eq ids).
Abbreviation inv := (bundle_inv ids fresh).
Abbreviation scene_when := (bundle_scene ids fresh).

(** What a scene's own functions are asked for. The construction
    allocates [fresh] at the end of the heap, names it in the bundle and
    attaches the canvas, the first of the new objects. *)
Hypothesis build_allocates : forall c (w : BW),
  exists d, ids d = seq (length (heap w)) (length fresh)
    /\ build c w
       = (Normal d,
          with_children (children w ++ [length (heap w)])
            (with_heap (heap w ++ fresh) w)).
Hypothesis fresh_undisposed : Forall (fun r => disposals r = 0%nat) fresh.

(** The cleanup function on the live bundle disposes each of its objects
    once and detaches the canvas; without a bundle it clears the flag. *)
Hypothesis cleanupFn_releases_bundle : forall i c d h (w : BW),
  closures w !! i = Some c ->
  sceneDataRef w = Some d ->
  heap w = h ++ fresh ->
  ids d = seq (length h) (length fresh) ->
  children w = [length h] ->
  let w' := snd (cleanupFn i w) in
  heap w' = h ++ map disposed_once_more fresh
  /\ children w' = []
  /\ sceneDataRef w' = None
  /\ closures w' = alter (with_mounted false) i (closures w)
  /\ microtasks w' = microtasks w
  /\ current w' = current w.
Hypothesis cleanupFn_no_bundle : forall i c (w : BW),
  closures w !! i = Some c ->
  sceneDataRef w = None ->
  let w' := snd (cleanupFn i w) in
  heap w' = heap w
  /\ children w' = children w
  /\ sceneDataRef w' = None
  /\ closures w' = alter (with_mounted false) i (closures w)
  /\ microtasks w' = microtasks w
  /\ current w' = current w.

(** A frame callback writes nothing the lifecycle looks at. *)
Hypothesis animate_lifecycle_eq : forall j t (w : BW),
  same w (snd (animate j t w)).

(** The cleanup function leaves the ref to the mount node alone. *)
Hypothesis cleanupFn_keeps_mountRef : forall i (w : BW),
  mountRef (snd (cleanupFn i w)) = mountRef w.

Lemma lifecycle_eq_refl (w : BW) : same w w.
Proof. unfold lifecycle_eq. done. Qed.

Lemma lifecycle_eq_trans (w1 w2 w3 : BW) :
  same w1 w2 -> same w2 w3 -> same w1 w3.
Proof.
  unfold lifecycle_eq.
  intros (?&?&?&?&H5&?) (?&?&?&?&H5'&?).
  repeat split; congruence.
Qed.

Lemma closure_flags_lookup (w : BW) j c :
  closures w !! j = Some c -> flags <$> closures w !! j = Some (flags c).
Proof. intros ->. reflexivity. Qed.

Lemma closure_flags_lookup_inv (w : BW) j f :
  flags <$> closures w !! j = Some f ->
  exists c, closures w !! j = Some c /\ flags c = f.
Proof.
  destruct (closures w !! j) as [c|]; simpl; [|discriminate].
  intros [= <-]. eauto.
Qed.

(** The invariant only reads what [same] keeps. *)
Lemma bundle_inv_transfer (w w' : BW) :
  same w w' -> inv w -> inv w'.
Proof.
  intros (Hm & Hcur & Hh & Hch & Hfl & Hids) [Hq Hc Hs Hsc].
  assert (forall j c', closures w' !! j = Some c' ->
            exists c, closures w !! j = Some c /\ flags c = flags c') as Hback.
  { intros j c' Hc'. apply closure_flags_lookup_inv. rewrite <- Hfl.
    apply closure_flags_lookup, Hc'. }
  assert (forall j c, closures w !! j = Some c ->
            exists c', closures w' !! j = Some c' /\ flags c' = flags c) as Hfwd.
  { intros j c Hcj. apply closure_flags_lookup_inv. rewrite Hfl.
    apply closure_flags_lookup, Hcj. }
  split.
  - congruence.
  - intros i Hi. rewrite Hcur in Hi. destruct (Hc i Hi) as (c & Hci & Hmc & Hrc).
    destruct (Hfwd i c Hci) as (c' & Hc' & [= E1 E2 E3]).
    exists c'. repeat split; congruence.
  - intros j c' Hc' Hne. rewrite Hcur in Hne.
    destruct (Hback j c' Hc') as (c & Hcj & [= E1 E2 E3]).
    rewrite <- E1. apply (Hs j c Hcj Hne).
  - destruct (sceneDataRef w) as [d|], (sceneDataRef w') as [d'|];
      simpl in Hids; try discriminate.
    + assert (ids d' = ids d) as Hids' by congruence.
      destruct Hsc as (h & Hheap & Hrel & Hal & Hchild & i & c & Hi & Hci & Hp).
      destruct (Hfwd i c Hci) as (c' & Hc' & [= E1 E2 E3]).
      refine (ex_intro _ h _). rewrite Hh, Hch.
      repeat split; try congruence.
      refine (ex_intro _ i (ex_intro _ c' _)). repeat split; congruence.
    + rewrite Hh, Hch. exact Hsc.
Qed.

Lemma closure_flags_alter (f : Closure Data Locals -> _)
    (l : list (Closure Data Locals)) (j k : nat) :
  (forall c, flags (f c) = flags c) ->
  flags <$> alter f j l !! k = flags <$> l !! k.
Proof.
  intros Hf. destruct (decide (j = k)) as [->|Hne].
  - rewrite list_lookup_alter_eq. destruct (l !! k); simpl; [|done].
    rewrite Hf. done.
  - rewrite list_lookup_alter_ne; done.
Qed.


Lemma frames_lifecycle_eq t (l : list (nat * nat)) : forall w : BW,
  same w
    (fold_left (fun w r => run_callback (animate (snd r) t) w)
       l w).
Proof using animate_lifecycle_eq.
  induction l as [|r l IH]; intros w; simpl; [apply lifecycle_eq_refl|].
  eapply lifecycle_eq_trans; [|apply IH].
  apply animate_lifecycle_eq.
Qed.

Lemma animation_frame_keeps_bundle t (w : BW) :
  inv w -> inv (animation_frame FC t w).
Proof using animate_lifecycle_eq.
  apply bundle_inv_transfer. unfold animation_frame.
  eapply lifecycle_eq_trans; [|apply frames_lifecycle_eq].
  unfold lifecycle_eq. done.
Qed.

(** With an empty queue the checkpoint does nothing. *)
Lemma drain_quiescent_bundle (w : BW) :
  microtasks w = [] -> same w (drain FC w).
Proof.
  intros Hq. unfold drain. rewrite Hq. simpl.
  unfold lifecycle_eq. simpl. rewrite Hq. done.
Qed.

Lemma initial_bundle_inv : inv (@initial_world Data Locals).
Proof.
  split; simpl; try done.
  split; [done | constructor].
Qed.

(** The effect body: one more closure, mounted, nothing waiting on it,
    its promise pending (or already fulfilled with [undefined]). *)
Lemma effect_bundle q s (w : BW) :
  let r := frontend_effect q s l0 w in
  fst r = Normal (length (closures w))
  /\ (exists c', closures (snd r) = closures w ++ [c']
                 /\ mounted c' = true /\ reactions c' = 0%nat
                 /\ promise c' <> Fulfilled true)
  /\ microtasks (snd r) = microtasks w
  /\ heap (snd r) = heap w
  /\ children (snd r) = children w
  /\ sceneDataRef (snd r) = sceneDataRef w
  /\ current (snd r) = current w.
Proof.
  unfold frontend_effect, new_closure, bind, gets, modify, ret. simpl.
  destruct (mountRef w); simpl.
  - split; [done|]. split; [|done]. eexists. split; [reflexivity|]. done.
  - unfold fulfil, in_closure, bind, modify, update_closure, modify. simpl.
    rewrite list_lookup_middle by done. simpl.
    rewrite (SceneFacts.alter_app_at _ _ _ _ 0) by lia. simpl.
    rewrite app_nil_r.
    split; [done|]. split; [|done]. eexists. split; [reflexivity|]. done.
Qed.

(** The effect's cleanup: the flag is cleared and the reaction is queued
    or left waiting on the promise. *)
Lemma effect_cleanup_bundle i c (w : BW) :
  closures w !! i = Some c ->
  let w1 := snd (frontend_effect_cleanup i w) in
  heap w1 = heap w /\ children w1 = children w
  /\ sceneDataRef w1 = sceneDataRef w /\ current w1 = current w
  /\ match promise c with
     | Pending =>
         microtasks w1 = microtasks w
         /\ closures w1
            = alter (with_promise Pending (S (reactions c))) i
                (alter (with_mounted false) i (closures w))
     | Fulfilled _ =>
         microtasks w1 = microtasks w ++ [i]
         /\ closures w1 = alter (with_mounted false) i (closures w)
     end.
Proof.
  intros Hc. unfold frontend_effect_cleanup, bind, update_closure, modify,
    promise_then, in_closure. simpl.
  rewrite list_lookup_alter_eq, Hc. simpl.
  destruct (promise c); simpl; done.
Qed.

Lemma released_once_fresh h :
  released_once h ->
  released_once (h ++ map disposed_once_more fresh).
Proof using fresh_undisposed.
  intros H. apply Forall_app. split; [exact H|].
  apply Forall_map. eapply Forall_impl; [exact fresh_undisposed|].
  intros r Hr. simpl. by rewrite Hr.
Qed.

Lemma reaction_releases_bundle i c b (w : BW) :
  closures w !! i = Some c ->
  promise c = Fulfilled b ->
  scene_when b w ->
  let w' := run_callback (frontend_reaction cleanupFn i) w in
  sceneDataRef w' = None
  /\ children w' = []
  /\ released_once (heap w')
  /\ microtasks w' = microtasks w
  /\ current w' = current w
  /\ (closures w' = closures w
      \/ closures w' = alter (with_mounted false) i (closures w)).
Proof using cleanupFn_no_bundle cleanupFn_releases_bundle fresh_undisposed.
  intros Hc Hp Hsc. unfold run_callback, frontend_reaction, in_closure.
  rewrite Hc, Hp. unfold bundle_scene in Hsc.
  destruct b; simpl.
  - destruct (sceneDataRef w) as [d|] eqn:Hd.
    + destruct Hsc as (_ & h & Hheap & Hrel & Hal & Hch).
      destruct (cleanupFn_releases_bundle i c d h w Hc Hd Hheap Hal Hch)
        as (H1 & H2 & H3 & H4 & H5 & H6).
      simpl in *. rewrite H1, H2, H3, H4, H5, H6.
      repeat split; try done; [apply released_once_fresh, Hrel | by right].
    + destruct Hsc as [Hch Hrel].
      destruct (cleanupFn_no_bundle i c w Hc Hd)
        as (H1 & H2 & H3 & H4 & H5 & H6).
      simpl in *. rewrite H1, H2, H3, H4, H5, H6.
      repeat split; try done. by right.
  - destruct (sceneDataRef w) as [d|] eqn:Hd.
    + destruct Hsc as [[=] _].
    + destruct Hsc as [Hch Hrel]. repeat split; try done. by left.
Qed.

(** The cleanup of the current run, on a world of the invariant. *)
Lemma cleanup_current_bundle i (w : BW) :
  inv w -> current w = Some i ->
  let w1 := snd (frontend_effect_cleanup i w) in
  Forall (fun c => mounted c = false) (closures w1)
  /\ heap w1 = heap w /\ children w1 = children w
  /\ sceneDataRef w1 = sceneDataRef w /\ current w1 = current w
  /\ length (closures w1) = length (closures w)
  /\ ((microtasks w1 = [] /\ scene_when false w1)
      \/ (microtasks w1 = [i]
          /\ exists ci b, closures w1 !! i = Some ci
               /\ promise ci = Fulfilled b /\ scene_when b w1)).
Proof.
  intros [Hq Hcur Hstale Hsc] Hi.
  destruct (Hcur i Hi) as (c & Hc & Hm & Hr).
  destruct (effect_cleanup_bundle i c w Hc) as (H1 & H2 & H3 & H4 & H5).
  simpl in *. rewrite H1, H2, H3, H4.
  assert (scene_when (match promise c with
                    | Fulfilled b => b | Pending => false end)
            (snd (frontend_effect_cleanup i w))) as Hscene.
  { unfold bundle_scene. rewrite H1, H2, H3.
    destruct (sceneDataRef w) as [d|]; [|exact Hsc].
    destruct Hsc as (h & Hheap & Hrel & Hal & Hch & i' & c' & Hi' & Hc' & Hp').
    assert (i' = i) as -> by congruence.
    assert (c' = c) as -> by congruence.
    rewrite Hp'. split; [done|]. eauto. }
  assert (Forall (fun c => mounted c = false)
            (alter (with_mounted false) i (closures w))) as Hall.
  { apply Forall_lookup. intros j cj Hj.
    destruct (decide (i = j)) as [<-|Hne].
    - rewrite list_lookup_alter_eq, Hc in Hj. injection Hj as <-. done.
    - rewrite list_lookup_alter_ne in Hj by done.
      apply (Hstale j cj Hj). congruence. }
  destruct (promise c) as [|b] eqn:Hp; destruct H5 as [H5 H6]; rewrite H5, H6.
  - repeat split; try done.
    + apply Forall_alter; [exact Hall|]. intros x _ Hx. exact Hx.
    + rewrite !length_alter. done.
    + left. rewrite Hq. done.
  - repeat split; try done.
    + rewrite length_alter. done.
    + right. rewrite Hq. split; [done|].
      exists (with_mounted false c), b.
      rewrite list_lookup_alter_eq, Hc. done.
Qed.

(** A world with a fresh current run and no live bundle. *)
Lemma bundle_inv_fresh (w : BW) cl c' :
  microtasks w = [] ->
  current w = Some (length cl) ->
  closures w = cl ++ [c'] ->
  Forall (fun c => mounted c = false) cl ->
  mounted c' = true -> reactions c' = 0%nat ->
  sceneDataRef w = None -> children w = [] -> released_once (heap w) ->
  inv w.
Proof.
  intros Hq Hcur Hcl Hall Hm Hr Hsd Hch Hrel. split.
  - exact Hq.
  - intros i Hi. rewrite Hcur in Hi. injection Hi as <-.
    exists c'. rewrite Hcl, list_lookup_middle by done. done.
  - intros j c Hj Hne. rewrite Hcur in Hne. rewrite Hcl in Hj.
    apply lookup_app_Some in Hj as [Hj | [Hge Hj]].
    + apply (proj1 (Forall_lookup _ _) Hall j c Hj).
    + destruct (j - length cl)%nat as [|k] eqn:E; simpl in Hj; [|done].
      exfalso. apply Hne. f_equal. lia.
  - rewrite Hsd. done.
Qed.

(** A world without a current run and without a live bundle. *)
Lemma bundle_inv_idle (w : BW) :
  microtasks w = [] ->
  current w = None ->
  Forall (fun c => mounted c = false) (closures w) ->
  sceneDataRef w = None -> children w = [] -> released_once (heap w) ->
  inv w.
Proof.
  intros Hq Hcur Hall Hsd Hch Hrel. split.
  - exact Hq.
  - intros i Hi. congruence.
  - intros j c Hj _. apply (proj1 (Forall_lookup _ _) Hall j c Hj).
  - rewrite Hsd. done.
Qed.

Lemma bundle_scene_false (w : BW) :
  scene_when false w ->
  sceneDataRef w = None /\ children w = [] /\ released_once (heap w).
Proof.
  unfold bundle_scene. destruct (sceneDataRef w); [intros [[=] _] | done].
Qed.

Lemma commit_keeps_bundle q s (w : BW) : inv w -> inv (commit FC q s w).
Proof using cleanupFn_no_bundle cleanupFn_releases_bundle fresh_undisposed.
  intros Hinv. unfold commit. destruct (current w) as [i|] eqn:Hi.
  - pose proof (cleanup_current_bundle i w Hinv Hi)
      as (Hall & Hh & Hch & Hsd & Hcu & Hlen & Hcase).
    change (run_callback (effect_cleanup FC i) w)
      with (snd (frontend_effect_cleanup i w)).
    set (w1 := snd (frontend_effect_cleanup i w)) in *.
    pose proof (effect_bundle q s w1)
      as (Hr & (c' & Hcl & Hm' & Hr' & Hp') & Hmt & Hh2 & Hch2 & Hsd2 & Hcu2).
    change (effect FC q s w1) with (frontend_effect q s l0 w1).
    destruct (frontend_effect q s l0 w1) as [r w2].
    simpl in Hr, Hcl, Hmt, Hh2, Hch2, Hsd2, Hcu2. subst r.
    unfold drain. simpl.
    destruct Hcase as [[Hm1 Hsc1] | (Hm1 & ci & b & Hci & Hpi & Hsc1)].
    + rewrite Hmt, Hm1. simpl.
      apply bundle_scene_false in Hsc1 as (Hs1 & Hs2 & Hs3).
      apply (bundle_inv_fresh _ (closures w1) c'); simpl; try done; congruence.
    + rewrite Hmt, Hm1. simpl.
      set (w3 := with_microtasks [] (with_current (Some (length (closures w1))) w2)).
      assert (closures w3 !! i = Some ci) as Hci3.
      { simpl. rewrite Hcl. apply lookup_app_l_Some, Hci. }
      assert (scene_when b w3) as Hsc3.
      { unfold bundle_scene in *. simpl. rewrite Hsd2, Hh2, Hch2. exact Hsc1. }
      destruct (reaction_releases_bundle i ci b w3 Hci3 Hpi Hsc3)
        as (R1 & R2 & R3 & R4 & R5 & R6).
      change (reaction FC i) with (frontend_reaction cleanupFn i).
      set (w4 := run_callback (frontend_reaction cleanupFn i) w3) in *.
      simpl in R4, R5, R6.
      destruct R6 as [R6 | R6].
      * apply (bundle_inv_fresh _ (closures w1) c'); try done; congruence.
      * apply (bundle_inv_fresh _ (alter (with_mounted false) i (closures w1)) c');
          try done.
        -- rewrite length_alter. done.
        -- rewrite R6, Hcl. apply alter_app_l.
           apply lookup_lt_Some in Hci. done.
        -- apply Forall_alter; [exact Hall|]. done.
  - pose proof (effect_bundle q s w)
      as (Hr & (c' & Hcl & Hm' & Hr' & Hp') & Hmt & Hh2 & Hch2 & Hsd2 & Hcu2).
    change (effect FC q s w) with (frontend_effect q s l0 w).
    destruct (frontend_effect q s l0 w) as [r w2].
    simpl in Hr, Hcl, Hmt, Hh2, Hch2, Hsd2, Hcu2. subst r.
    destruct Hinv as [Hq Hcur Hstale Hsc].
    unfold drain. simpl. rewrite Hmt, Hq. simpl.
    assert (sceneDataRef w = None) as Hnone.
    { destruct (sceneDataRef w); [|done].
      destruct Hsc as (h & _ & _ & _ & _ & i' & c0 & Hi' & _). congruence. }
    rewrite Hnone in Hsc. destruct Hsc as [Hs2 Hs3].
    apply (bundle_inv_fresh _ (closures w) c'); simpl; try done; try congruence.
    apply Forall_lookup. intros j c Hj. apply (Hstale j c Hj). congruence.
Qed.

Lemma unmount_keeps_bundle (w : BW) : inv w -> inv (unmount FC w).
Proof using cleanupFn_no_bundle cleanupFn_releases_bundle fresh_undisposed.
  intros Hinv. unfold unmount.
  assert (inv (with_mountRef false w)) as Hinv0.
  { apply (bundle_inv_transfer w); [unfold lifecycle_eq; done | exact Hinv]. }
  set (w0 := with_mountRef false w) in *.
  destruct (current w0) as [i|] eqn:Hi.
  - pose proof (cleanup_current_bundle i w0 Hinv0 Hi)
      as (Hall & Hh & Hch & Hsd & Hcu & Hlen & Hcase).
    change (run_callback (effect_cleanup FC i) w0)
      with (snd (frontend_effect_cleanup i w0)).
    set (w1 := snd (frontend_effect_cleanup i w0)) in *.
    unfold drain. simpl.
    destruct Hcase as [[Hm1 Hsc1] | (Hm1 & ci & b & Hci & Hpi & Hsc1)].
    + rewrite Hm1. simpl.
      apply bundle_scene_false in Hsc1 as (Hs1 & Hs2 & Hs3).
      apply bundle_inv_idle; done.
    + rewrite Hm1. simpl.
      set (w3 := with_microtasks [] (with_current None w1)).
      assert (closures w3 !! i = Some ci) as Hci3 by exact Hci.
      assert (scene_when b w3) as Hsc3 by exact Hsc1.
      destruct (reaction_releases_bundle i ci b w3 Hci3 Hpi Hsc3)
        as (R1 & R2 & R3 & R4 & R5 & R6).
      change (reaction FC i) with (frontend_reaction cleanupFn i).
      set (w4 := run_callback (frontend_reaction cleanupFn i) w3) in *.
      simpl in R4, R5, R6.
      apply bundle_inv_idle; try done.
      destruct R6 as [-> | ->]; [exact Hall|].
      apply Forall_alter; [exact Hall|]. done.
  - apply (bundle_inv_transfer w0); [|exact Hinv0].
    destruct Hinv0 as [Hq _ _ _]. simpl in Hq, Hi.
    unfold drain. simpl. rewrite Hq. simpl.
    unfold lifecycle_eq. simpl. rewrite Hi, Hq. done.
Qed.

Lemma fulfil_bundle i c b (w : BW) :
  closures w !! i = Some c ->
  fulfil i b w
  = (Normal tt,
     with_closures (alter (with_promise (Fulfilled b) 0) i (closures w))
       (with_microtasks (microtasks w ++ repeat i (reactions c)) w)).
Proof. intros Hc. unfold fulfil, in_closure. rewrite Hc. reflexivity. Qed.

(** A run whose construction did not take place: its promise is
    fulfilled with [undefined], nothing else changes. *)
Lemma bundle_inv_settled_undefined i c (w w' : BW) :
  inv w ->
  closures w !! i = Some c -> promise c = Pending ->
  microtasks w' = [] -> current w' = current w ->
  heap w' = heap w -> children w' = children w ->
  sceneDataRef w' = sceneDataRef w ->
  closures w' = alter (with_promise (Fulfilled false) 0) i (closures w) ->
  inv w'.
Proof.
  intros [Hq Hcur Hstale Hsc] Hc Hp Hq' Hcu' Hh' Hch' Hsd' Hcl'. split.
  - exact Hq'.
  - intros k Hk. rewrite Hcu' in Hk. destruct (Hcur k Hk) as (ck & Hck & Hm & Hr).
    rewrite Hcl'. destruct (decide (i = k)) as [<-|Hne].
    + rewrite list_lookup_alter_eq, Hc. simpl. eexists. split; [reflexivity|].
      assert (ck = c) as -> by congruence. done.
    + rewrite list_lookup_alter_ne by done. eauto.
  - intros j cj Hj Hne. rewrite Hcu' in Hne. rewrite Hcl' in Hj.
    destruct (decide (i = j)) as [<-|Hij].
    + rewrite list_lookup_alter_eq, Hc in Hj. injection Hj as <-. simpl.
      apply (Hstale i c Hc Hne).
    + rewrite list_lookup_alter_ne in Hj by done. apply (Hstale j cj Hj Hne).
  - rewrite Hsd', Hh', Hch'. destruct (sceneDataRef w) as [d|]; [|exact Hsc].
    destruct Hsc as (h & Hheap & Hrel & Hal & Hchild & k & ck & Hk & Hck & Hpk).
    exists h. repeat split; try done.
    exists k, ck. rewrite Hcu', Hcl'. repeat split; try done.
    rewrite list_lookup_alter_ne; [done|]. intros <-. congruence.
Qed.

(** The [try] block when the run is mounted: the scene is built. *)
Lemma init_try_builds_bundle i c now (w : BW) :
  closures w !! i = Some c -> mounted c = true -> mountRef w = true ->
  exists d w',
    initScene_try no_failure build loop_locals
      i (Normal tt) now w = (Normal true, w')
    /\ ids d = seq (length (heap w)) (length fresh)
    /\ sceneDataRef w' = Some d
    /\ heap w' = heap w ++ fresh
    /\ children w' = children w ++ [length (heap w)]
    /\ microtasks w' = microtasks w
    /\ current w' = current w
    /\ closures w'
       = alter (with_animationFrame (Some (nextHandle w))) i
           (alter (with_locals (loop_locals c now)) i (closures w)).
Proof using build_allocates.
  intros Hc Hm Hr.
  destruct (build_allocates c w) as (d & Hal & Hb).
  exists d. eexists. split; [|split; [exact Hal|]].
  - unfold initScene_try, await_import, in_closure.
    unfold bind at 1. unfold ret at 1. rewrite Hc.
    unfold bind at 1. unfold gets at 1. rewrite Hm, Hr. simpl.
    unfold bind at 1. rewrite Hb.
    unfold bind, modify, update_closure, addResizeListener, bind, call,
      no_failure, requestAnimationFrame, gets, modify, setIsLoaded, modify,
      ret. simpl. reflexivity.
  - simpl. done.
Qed.

(** Either nothing is built and [false] comes back, or the run is
    mounted, the import succeeded and the mount node is there. *)
Lemma init_try_outcome_bundle i c imported now (w : BW) :
  closures w !! i = Some c ->
  (exists wx,
      try_catch (initScene_try no_failure build
                   loop_locals i imported now) on_error w
      = (Normal false, wx)
      /\ closures wx = closures w /\ microtasks wx = microtasks w
      /\ current wx = current w /\ heap wx = heap w
      /\ children wx = children w /\ sceneDataRef wx = sceneDataRef w)
  \/ (mounted c = true /\ imported = Normal tt /\ mountRef w = true).
Proof.
  intros Hc. destruct imported as [[]|e].
  - destruct (mounted c) eqn:Hm, (mountRef w) eqn:Hr;
      try (right; done); left; exists w;
      (split; [|done]);
      unfold try_catch, initScene_try, await_import, in_closure;
      unfold bind at 1; unfold ret at 1; rewrite Hc;
      unfold bind at 1; unfold gets at 1; rewrite Hm, Hr; reflexivity.
  - left. eexists. split; [reflexivity|]. simpl. done.
Qed.

Lemma import_settled_keeps_bundle i imported now (w : BW) :
  inv w -> inv (import_settled FC i imported now w).
Proof using build_allocates.
  intros Hinv. unfold import_settled.
  change (resume FC i imported now)
    with (initScene_resume no_failure build loop_locals
            i imported now).
  unfold run_callback, initScene_resume, in_closure.
  destruct (closures w !! i) as [c|] eqn:Hc; cycle 1.
  { apply (bundle_inv_transfer w); [|exact Hinv].
    apply drain_quiescent_bundle, Hinv. }
  destruct (promise c) eqn:Hp; cycle 1.
  { apply (bundle_inv_transfer w); [|exact Hinv].
    apply drain_quiescent_bundle, Hinv. }
  unfold bind at 1.
  destruct (init_try_outcome_bundle i c imported now w Hc)
    as [(wx & Htry & X1 & X2 & X3 & X4 & X5 & X6) | (Hm & -> & Hr)].
  - rewrite Htry.
    rewrite (fulfil_bundle i c false wx) by (rewrite X1; exact Hc).
    unfold drain. simpl. rewrite X2, (b_quiescent _ _ w Hinv). simpl.
    change (reaction FC) with (frontend_reaction cleanupFn).
    rewrite (SceneFacts.fold_reactions_undefined cleanupFn i
               (with_promise (Fulfilled false) 0 c));
      [| simpl; rewrite list_lookup_alter_eq, X1, Hc; done | done].
    apply (bundle_inv_settled_undefined i c w); simpl; try done.
    rewrite X1. done.
  - destruct Hinv as [Hq Hcur Hstale Hsc].
    assert (current w = Some i) as Hi.
    { destruct (decide (current w = Some i)) as [|Hne]; [done|].
      rewrite (Hstale i c Hc Hne) in Hm. done. }
    assert (reactions c = 0%nat) as Hr0.
    { destruct (Hcur i Hi) as (c0 & Hc0 & _ & Hr0). congruence. }
    assert (sceneDataRef w = None) as Hnone.
    { destruct (sceneDataRef w); [|done].
      destruct Hsc as (h & _ & _ & _ & _ & k & ck & Hk & Hck & Hpk). congruence. }
    rewrite Hnone in Hsc. destruct Hsc as [Hch Hrel].
    destruct (init_try_builds_bundle i c now w Hc Hm Hr)
      as (d & w' & Htry & Hal & B1 & B2 & B3 & B4 & B5 & B6).
    unfold try_catch. rewrite Htry.
    assert (closures w' !! i
            = Some (with_animationFrame (Some (nextHandle w))
                      (with_locals (loop_locals c now) c))) as Hc'.
    { rewrite B6, !list_lookup_alter_eq, Hc. done. }
    rewrite (fulfil_bundle i _ true w' Hc').
    unfold drain. simpl. rewrite B4, Hq, Hr0. simpl.
    split; simpl.
    + done.
    + intros k Hk. rewrite B5, Hi in Hk. injection Hk as <-.
      rewrite list_lookup_alter_eq, Hc'. simpl. eexists. done.
    + intros j cj Hj Hne. rewrite B5, Hi in Hne.
      rewrite B6 in Hj.
      rewrite !list_lookup_alter_ne in Hj by (intros ->; done).
      apply (Hstale j cj Hj). congruence.
    + rewrite B1. exists (heap w). rewrite B2, B3, Hch, B5, Hi.
      repeat split; try done.
      eexists i, _. rewrite list_lookup_alter_eq, Hc'. done.
Qed.

Lemma step_keeps_bundle e (w : BW) : inv w -> inv (step FC w e).
Proof using animate_lifecycle_eq build_allocates cleanupFn_no_bundle cleanupFn_releases_bundle fresh_undisposed.
  destruct e; simpl.
  - apply commit_keeps_bundle.
  - apply unmount_keeps_bundle.
  - apply import_settled_keeps_bundle.
  - apply animation_frame_keeps_bundle.
Qed.

Lemma run_bundle_inv evs : inv (run FC evs).
Proof using animate_lifecycle_eq build_allocates cleanupFn_no_bundle cleanupFn_releases_bundle fresh_undisposed.
  unfold run. generalize initial_bundle_inv.
  generalize (@initial_world Data Locals).
  induction evs as [|e evs IH]; intros w Hw; simpl; [exact Hw|].
  apply IH, step_keeps_bundle, Hw.
Qed.

Lemma unmount_no_current (w : BW) :
  inv w -> current (unmount FC w) = None.
Proof using cleanupFn_no_bundle cleanupFn_releases_bundle fresh_undisposed.
  intros Hinv. unfold unmount.
  assert (inv (with_mountRef false w)) as Hinv0.
  { apply (bundle_inv_transfer w); [unfold lifecycle_eq; done | exact Hinv]. }
  set (w0 := with_mountRef false w) in *.
  destruct (current w0) as [i|] eqn:Hi.
  - pose proof (cleanup_current_bundle i w0 Hinv0 Hi)
      as (Hall & Hh & Hch & Hsd & Hcu & Hlen & Hcase).
    change (run_callback (effect_cleanup FC i) w0)
      with (snd (frontend_effect_cleanup i w0)).
    set (w1 := snd (frontend_effect_cleanup i w0)) in *.
    unfold drain. simpl.
    destruct Hcase as [[Hm1 Hsc1] | (Hm1 & ci & b & Hci & Hpi & Hsc1)];
      rewrite Hm1; simpl; [done|].
    set (w3 := with_microtasks [] (with_current None w1)).
    assert (closures w3 !! i = Some ci) as Hci3 by exact Hci.
    assert (scene_when b w3) as Hsc3 by exact Hsc1.
    destruct (reaction_releases_bundle i ci b w3 Hci3 Hpi Hsc3)
      as (R1 & R2 & R3 & R4 & R5 & R6).
    exact R5.
  - destruct Hinv0 as [Hq _ _ _]. simpl in Hq, Hi.
    unfold drain. simpl. rewrite Hq. done.
Qed.

(** ** An effect run on a live bundle *)

Lemma effect_mounted q s (w : BW) :
  mountRef w = true ->
  exists c', frontend_effect q s l0 w
             = (Normal (length (closures w)),
                with_closures (closures w ++ [c']) w)
    /\ mounted c' = true /\ promise c' = Pending /\ reactions c' = 0%nat.
Proof.
  intros Hr. unfold frontend_effect, new_closure, bind, gets, modify, ret.
  simpl. rewrite Hr. simpl. eexists. split; [reflexivity|]. done.
Qed.

Lemma effect_cleanup_mountRef i (w : BW) :
  mountRef (snd (frontend_effect_cleanup i w)) = mountRef w.
Proof.
  unfold frontend_effect_cleanup, bind, update_closure, modify,
    promise_then, in_closure. simpl.
  destruct (alter (with_mounted false) i (closures w) !! i) as [c|];
    [|done].
  destruct (promise c); done.
Qed.

Lemma reaction_mountRef i (w : BW) :
  mountRef (run_callback (frontend_reaction cleanupFn i) w) = mountRef w.
Proof using cleanupFn_keeps_mountRef.
  unfold run_callback, frontend_reaction, in_closure.
  destruct (closures w !! i) as [c|]; [|done].
  destruct (promise c) as [|[|]];
    [done | apply cleanupFn_keeps_mountRef | done].
Qed.

(** The effect runs again while the component is mounted: what the
    previous run built is released before anything else happens, and
    the new run waits for its import. *)
Lemma commit_releases_bundle q s (w : BW) :
  inv w -> mountRef w = true ->
  sceneDataRef (commit FC q s w) = None
  /\ children (commit FC q s w) = []
  /\ released_once (heap (commit FC q s w))
  /\ mountRef (commit FC q s w) = true
  /\ exists c', closures (commit FC q s w) !! length (closures w) = Some c'
       /\ mounted c' = true /\ promise c' = Pending.
Proof using cleanupFn_keeps_mountRef cleanupFn_no_bundle cleanupFn_releases_bundle fresh_undisposed.
  intros Hinv Hmr. unfold commit. destruct (current w) as [i|] eqn:Hi.
  - pose proof (cleanup_current_bundle i w Hinv Hi)
      as (Hall & Hh & Hch & Hsd & Hcu & Hlen & Hcase).
    pose proof (effect_cleanup_mountRef i w) as Hmr1.
    change (run_callback (effect_cleanup FC i) w)
      with (snd (frontend_effect_cleanup i w)).
    set (w1 := snd (frontend_effect_cleanup i w)) in *.
    rewrite Hmr in Hmr1.
    destruct (effect_mounted q s w1 Hmr1) as (c' & He & Hm' & Hp' & Hr').
    change (effect FC q s w1) with (frontend_effect q s l0 w1).
    rewrite He. unfold drain. cbn [fst snd].
    destruct Hcase as [[Hm1 Hsc1] | (Hm1 & ci & b & Hci & Hpi & Hsc1)].
    + simpl. rewrite Hm1. simpl.
      apply bundle_scene_false in Hsc1 as (Hs1 & Hs2 & Hs3).
      repeat split; try done.
      exists c'. rewrite <- Hlen, list_lookup_middle by done. done.
    + simpl. rewrite Hm1. simpl.
      set (w3 := with_microtasks []
                   (with_current (Some (length (closures w1)))
                      (with_closures (closures w1 ++ [c']) w1))).
      assert (closures w3 !! i = Some ci) as Hci3.
      { simpl. apply lookup_app_l_Some, Hci. }
      assert (scene_when b w3) as Hsc3 by exact Hsc1.
      destruct (reaction_releases_bundle i ci b w3 Hci3 Hpi Hsc3)
        as (R1 & R2 & R3 & R4 & R5 & R6).
      pose proof (reaction_mountRef i w3) as R7.
      change (reaction FC i) with (frontend_reaction cleanupFn i).
      set (w4 := run_callback (frontend_reaction cleanupFn i) w3) in *.
      assert (mountRef w4 = true) as R8 by (rewrite R7; exact Hmr1).
      repeat split; try done.
      exists c'. rewrite <- Hlen.
      apply lookup_lt_Some in Hci.
      destruct R6 as [-> | ->]; simpl.
      * rewrite list_lookup_middle by done. done.
      * rewrite list_lookup_alter_ne by lia.
        rewrite list_lookup_middle by done. done.
  - destruct (effect_mounted q s w Hmr) as (c' & He & Hm' & Hp' & Hr').
    change (effect FC q s w) with (frontend_effect q s l0 w).
    rewrite He. unfold drain. cbn [fst snd].
    destruct Hinv as [Hq Hcur Hstale Hsc].
    simpl. rewrite Hq. simpl.
    assert (sceneDataRef w = None) as Hnone.
    { destruct (sceneDataRef w); [|done].
      destruct Hsc as (h & _ & _ & _ & _ & i' & c0 & Hi' & _). congruence. }
    rewrite Hnone in Hsc. destruct Hsc as [Hs2 Hs3].
    repeat split; try done.
    exists c'. rewrite list_lookup_middle by done. done.
Qed.

(** The import of the current run settles while the component is
    mounted: a whole new bundle is built and attached. *)
Lemma import_builds_bundle i c now (w : BW) :
  inv w -> closures w !! i = Some c ->
  mounted c = true -> promise c = Pending -> mountRef w = true ->
  exists d,
    sceneDataRef (import_settled FC i (Normal tt) now w) = Some d
    /\ ids d = seq (length (heap w)) (length fresh)
    /\ heap (import_settled FC i (Normal tt) now w) = heap w ++ fresh
    /\ children (import_settled FC i (Normal tt) now w) = [length (heap w)].
Proof using build_allocates.
  intros [Hq Hcur Hstale Hsc] Hc Hm Hp Hr.
  assert (current w = Some i) as Hi.
  { destruct (decide (current w = Some i)) as [|Hne]; [done|].
    rewrite (Hstale i c Hc Hne) in Hm. done. }
  assert (reactions c = 0%nat) as Hr0.
  { destruct (Hcur i Hi) as (c0 & Hc0 & _ & Hr0). congruence. }
  assert (sceneDataRef w = None) as Hnone.
  { destruct (sceneDataRef w); [|done].
    destruct Hsc as (h & _ & _ & _ & _ & k & ck & Hk & Hck & Hpk). congruence. }
  rewrite Hnone in Hsc. destruct Hsc as [Hch Hrel].
  destruct (init_try_builds_bundle i c now w Hc Hm Hr)
    as (d & w' & Htry & Hal & B1 & B2 & B3 & B4 & B5 & B6).
  assert (closures w' !! i
          = Some (with_animationFrame (Some (nextHandle w))
                    (with_locals (loop_locals c now) c))) as Hc'.
  { rewrite B6, !list_lookup_alter_eq, Hc. done. }
  enough (exists w2, import_settled FC i (Normal tt) now w = w2
            /\ sceneDataRef w2 = Some d
            /\ heap w2 = heap w ++ fresh
            /\ children w2 = [length (heap w)])
    as (w2 & -> & H1 & H2 & H3).
  { exists d. done. }
  eexists. split.
  - unfold import_settled.
    change (resume FC i (Normal tt) now)
      with (initScene_resume no_failure build loop_locals i (Normal tt) now).
    unfold run_callback, initScene_resume, in_closure. rewrite Hc, Hp.
    unfold bind at 1. unfold try_catch. rewrite Htry.
    rewrite (fulfil_bundle i _ true w' Hc'). cbn [snd].
    unfold drain. simpl. rewrite B4, Hq, Hr0. simpl. reflexivity.
  - simpl. rewrite B1, B2, B3, Hch. done.
Qed.

Lemma rerun_rebuilds evs q s now :
  mountRef (run FC evs) = true ->
  rebuilt ids fresh
    (run FC (evs ++ [Commit q s]))
    (run FC (evs ++ [Commit q s;
                     ImportSettled (length (closures (run FC evs)))
                       (Normal tt) now])).
Proof using animate_lifecycle_eq build_allocates cleanupFn_keeps_mountRef cleanupFn_no_bundle cleanupFn_releases_bundle fresh_undisposed.
  intros Hmr. pose proof (run_bundle_inv evs) as Hinv.
  assert (run FC (evs ++ [Commit q s]) = commit FC q s (run FC evs)) as E1.
  { unfold run. by rewrite fold_left_app. }
  assert (run FC (evs ++ [Commit q s;
                          ImportSettled (length (closures (run FC evs)))
                            (Normal tt) now])
          = import_settled FC (length (closures (run FC evs))) (Normal tt) now
              (commit FC q s (run FC evs))) as E2.
  { unfold run. by rewrite fold_left_app. }
  rewrite E1, E2.
  destruct (commit_releases_bundle q s _ Hinv Hmr)
    as (C1 & C2 & C3 & C4 & c' & C5 & C6 & C7).
  pose proof (commit_keeps_bundle q s _ Hinv) as Hinv1.
  destruct (import_builds_bundle _ c' now _ Hinv1 C5 C6 C7 C4)
    as (d & D1 & D2 & D3 & D4).
  unfold rebuilt. split; [done|]. exists d. done.
Qed.

End AnyBundle.

End BundleFacts.

(* ===================================================================== *)
(** * Further properties: the hooks' effects and their cleanup            *)
(* ===================================================================== *)

Module HookEffectFacts.
Import HookEffects.

(** Without cleanup the hooks are the hooks of [Quality] and [Scroll]. *)
Lemma monitor_run_browser s evs :
  monitor_run s (map MBrowser evs)
  = {| m_signals := fst (Quality.run s evs);
       m_hook := snd (Quality.run s evs); m_listening := true |}.
Proof.
  unfold monitor_run, Quality.run, monitor_mount.
  assert (forall st : Quality.Signals * Quality.Hook,
    fold_left monitor_step (map MBrowser evs)
      {| m_signals := fst st; m_hook := snd st; m_listening := true |}
    = {| m_signals := fst (fold_left Quality.step evs st);
         m_hook := snd (fold_left Quality.step evs st);
         m_listening := true |}) as H.
  { induction evs as [|e evs IH]; intros st; [done|].
    cbn [map fold_left]. rewrite <- IH. f_equal.
    destruct st as [s0 h0].
    destruct e; unfold monitor_step, monitor_browser; cbn [m_listening];
      cbn [m_signals m_hook fst snd];
      destruct (Quality.step _ _); done. }
  apply (H (s, Quality.usePerformanceMonitor s)).
Qed.

Lemma scrolling_inv_step st e :
  scrolling_inv st -> scrolling_inv (scrolling_step st e).
Proof.
  unfold scrolling_inv. intros Hinv.
  destruct st as [[p r n] l q]. cbn [s_hook s_pending Scroll.rafId] in Hinv.
  destruct e as [[|y]| |]; cbn.
  - destruct l; cbn; [|done].
    destruct r as [k|]; cbn; [done|]. subst q. by left.
  - destruct r as [k|]; [|by subst q].
    destruct Hinv as [-> | ->]; cbn; [done | by right].
  - destruct r as [k|]; cbn; [done|]. subst q. by left.
  - destruct r as [k|]; [|done].
    right. destruct Hinv as [-> | ->]; cbn; [|done].
    by rewrite Pos.eqb_refl.
Qed.

Lemma scrolling_inv_fold evs : forall st,
  scrolling_inv st -> scrolling_inv (fold_left scrolling_step evs st).
Proof.
  induction evs as [|e evs IH]; intros st H; [done|].
  apply IH, scrolling_inv_step, H.
Qed.

Lemma scrolling_inv_run evs : scrolling_inv (scrolling_run evs).
Proof. apply scrolling_inv_fold. unfold scrolling_inv. cbn. by left. Qed.

Lemma scrolling_run_browser evs :
  scrolling_run (map SBrowser evs)
  = {| s_hook := Scroll.run evs; s_listening := true;
       s_pending := match Scroll.rafId (Scroll.run evs) with
                    | Some k => [k]
                    | None => []
                    end |}.
Proof.
  unfold scrolling_run, Scroll.run.
  assert (forall h,
    fold_left scrolling_step (map SBrowser evs)
      {| s_hook := h; s_listening := true;
         s_pending := match Scroll.rafId h with
                      | Some k => [k]
                      | None => []
                      end |}
    = {| s_hook := fold_left Scroll.step evs h; s_listening := true;
         s_pending := match Scroll.rafId (fold_left Scroll.step evs h) with
                      | Some k => [k]
                      | None => []
                      end |}) as H.
  { induction evs as [|e evs IH]; intros h; [done|].
    cbn [map fold_left]. rewrite <- IH. f_equal.
    destruct h as [p [k|] n], e as [|y]; reflexivity. }
  apply (H Scroll.useScrollProgress).
Qed.

Lemma scrolling_updateScroll_twice st :
  scrolling_updateScroll (scrolling_updateScroll st) = scrolling_updateScroll st.
Proof. destruct st as [[p [k|] n] l q]; reflexivity. Qed.

Lemma scroll_events_absorbed n st :
  s_listening st = true ->
  fold_left scrolling_step (repeat (SBrowser Scroll.ScrollEvent) n)
    (scrolling_updateScroll st)
  = scrolling_updateScroll st.
Proof.
  intros Hl. induction n as [|n IH]; [done|].
  cbn [repeat fold_left scrolling_step].
  assert (s_listening (scrolling_updateScroll st) = true) as ->.
  { destruct st as [[p [k|] m] l q]; exact Hl. }
  by rewrite scrolling_updateScroll_twice.
Qed.

Lemma scroll_events_fold n st :
  s_listening st = true ->
  fold_left scrolling_step (repeat (SBrowser Scroll.ScrollEvent) (S n)) st
  = scrolling_updateScroll st.
Proof.
  intros Hl. cbn [repeat fold_left scrolling_step]. rewrite Hl.
  by apply scroll_events_absorbed.
Qed.

(** X4. Coalescing. Take the hook after any history, with its effect
    active and no cancelled handle left in the ref. However many scroll
    events then arrive before the next display refresh, the browser
    holds one frame callback (at most one handle was taken); the refresh
    publishes one value, computed from the scroll offset at that moment,
    and clears the ref; and a further refresh without a new scroll event
    publishes nothing. *)
Theorem scroll_events_coalesce (evs : list ScrollingEvent) (n : nat)
    (y y' : Scroll.number) :
  s_listening (scrolling_run evs) = true ->
  ~ frozen (scrolling_run evs) ->
  (exists k,
      s_pending (scrolling_run
                   (evs ++ repeat (SBrowser Scroll.ScrollEvent) (S n))) = [k]
      /\ Scroll.rafId
           (s_hook (scrolling_run
                      (evs ++ repeat (SBrowser Scroll.ScrollEvent) (S n))))
         = Some k)
  /\ (Scroll.nextHandle
        (s_hook (scrolling_run
                   (evs ++ repeat (SBrowser Scroll.ScrollEvent) (S n))))
      <= Pos.succ (Scroll.nextHandle (s_hook (scrolling_run evs))))%positive
  /\ scrolling_run
       (evs ++ repeat (SBrowser Scroll.ScrollEvent) (S n)
            ++ [SBrowser (Scroll.AnimationFrame y)])
     = {| s_hook :=
            {| Scroll.scrollProgress := Scroll.progress y;
               Scroll.rafId := None;
               Scroll.nextHandle :=
                 Scroll.nextHandle
                   (s_hook (scrolling_run
                      (evs ++ repeat (SBrowser Scroll.ScrollEvent) (S n)))) |};
          s_listening := true;
          s_pending := [] |}
  /\ scrolling_run
       (evs ++ repeat (SBrowser Scroll.ScrollEvent) (S n)
            ++ [SBrowser (Scroll.AnimationFrame y);
                SBrowser (Scroll.AnimationFrame y')])
     = scrolling_run
         (evs ++ repeat (SBrowser Scroll.ScrollEvent) (S n)
              ++ [SBrowser (Scroll.AnimationFrame y)]).
Proof.
  intros Hl Hnf. pose proof (scrolling_inv_run evs) as Hinv.
  unfold scrolling_run in *. rewrite !fold_left_app.
  set (st := fold_left scrolling_step evs scrolling_mount) in *.
  rewrite (scroll_events_fold n st Hl).
  unfold scrolling_inv, frozen in *.
  destruct st as [[p r m] l q]. cbn in Hl, Hinv, Hnf. subst l.
  destruct r as [k|].
  - destruct Hinv as [-> | ->]; [|exfalso; apply Hnf; done].
    cbn. split; [by exists k|]. split; [lia|]. done.
  - subst q. cbn. split; [by exists m|]. split; [lia|]. done.
Qed.

Lemma scroll_events_coalesce_witness :
  Scroll.scrollProgress
    (s_hook (scrolling_run
       ([] ++ repeat (SBrowser Scroll.ScrollEvent) 3
           ++ [SBrowser (Scroll.AnimationFrame Scroll.num_800)])))
  = Scroll.progress Scroll.num_800.
Proof.
  refine (f_equal (fun st => Scroll.scrollProgress (s_hook st))
            (proj1 (proj2 (proj2 (scroll_events_coalesce [] 2
               Scroll.num_800 Scroll.num_0 _ _))))).
  - reflexivity.
  - intros [_ H]. discriminate H.
Defined.

Lemma monitor_silent_step st e :
  is_MEffect e = false ->
  m_listening st = false -> Quality.timeoutId (m_hook st) = None ->
  Quality.quality (m_hook (monitor_step st e)) = Quality.quality (m_hook st)
  /\ Quality.timeoutId (m_hook (monitor_step st e)) = None
  /\ m_listening (monitor_step st e) = false.
Proof.
  destruct st as [s [q t] l]. cbn. intros He -> ->.
  destruct e as [[| ms | s']| |]; done.
Qed.

(** After its cleanup a monitor does nothing until the effect runs
    again. *)
Lemma monitor_silent evs : forall st,
  existsb is_MEffect evs = false ->
  m_listening st = false -> Quality.timeoutId (m_hook st) = None ->
  Quality.quality (m_hook (fold_left monitor_step evs st))
  = Quality.quality (m_hook st)
  /\ Quality.timeoutId (m_hook (fold_left monitor_step evs st)) = None
  /\ m_listening (fold_left monitor_step evs st) = false.
Proof.
  induction evs as [|e evs IH]; intros st He Hl Ht; [done|].
  cbn [existsb] in He. apply orb_false_iff in He as [He1 He2].
  destruct (monitor_silent_step st e He1 Hl Ht) as (H1 & H2 & H3).
  cbn [fold_left]. destruct (IH _ He2 H3 H2) as (H4 & H5 & H6).
  repeat split; congruence.
Qed.

Lemma frozen_step st e :
  frozen st ->
  frozen (scrolling_step st e)
  /\ s_hook (scrolling_step st e) = s_hook st.
Proof.
  unfold frozen. destruct st as [[p r n] l q]. cbn.
  intros [Hr ->]. destruct r as [k|]; [|done].
  destruct e as [[|y]| |]; cbn; [destruct l|..]; done.
Qed.

Lemma frozen_fold evs : forall st,
  frozen st ->
  frozen (fold_left scrolling_step evs st)
  /\ s_hook (fold_left scrolling_step evs st) = s_hook st.
Proof.
  induction evs as [|e evs IH]; intros st H; [done|].
  cbn [fold_left]. destruct (frozen_step st e H) as [H1 H2].
  destruct (IH _ H1) as [H3 H4]. split; [done | congruence].
Qed.

Lemma scrolling_silent_step st e :
  is_SEffect e = false ->
  s_listening st = false -> s_pending st = [] ->
  s_hook (scrolling_step st e) = s_hook st
  /\ s_pending (scrolling_step st e) = []
  /\ s_listening (scrolling_step st e) = false.
Proof.
  destruct st as [h l q]. cbn. intros He -> ->.
  destruct e as [[|y]| |]; try done.
  cbn. by destruct (Scroll.rafId h).
Qed.

(** After its cleanup the scroll hook publishes nothing until the effect
    runs again. *)
Lemma scrolling_silent evs : forall st,
  existsb is_SEffect evs = false ->
  s_listening st = false -> s_pending st = [] ->
  s_hook (fold_left scrolling_step evs st) = s_hook st
  /\ s_pending (fold_left scrolling_step evs st) = []
  /\ s_listening (fold_left scrolling_step evs st) = false.
Proof.
  induction evs as [|e evs IH]; intros st He Hl Hp; [done|].
  cbn [existsb] in He. apply orb_false_iff in He as [He1 He2].
  destruct (scrolling_silent_step st e He1 Hl Hp) as (H1 & H2 & H3).
  cbn [fold_left]. destruct (IH _ He2 H3 H2) as (H4 & H5 & H6).
  repeat split; congruence.
Qed.

Lemma cleanup_pending st :
  scrolling_inv st -> s_pending (scrolling_cleanup st) = [].
Proof.
  unfold scrolling_inv, scrolling_cleanup. cbn.
  destruct (Scroll.rafId (s_hook st)) as [k|]; [|done].
  intros [-> | ->]; cbn; [|done]. by rewrite Pos.eqb_refl.
Qed.

(** X26. The cleanup of either hook's effect silences it. From the
    cleanup until React runs the effect again, whatever the browser
    does (resize events, scroll events, time passing, display
    refreshes): the published value does not change, no timer and no
    frame callback is left, and the listener is gone. *)
Theorem cleanup_silences_hooks (s : Quality.Signals)
    (mevs mevs' : list MonitorEvent) (sevs sevs' : list ScrollingEvent) :
  existsb is_MEffect mevs' = false ->
  existsb is_SEffect sevs' = false ->
  (Quality.quality (m_hook (monitor_run s (mevs ++ MCleanup :: mevs')))
   = Quality.quality (m_hook (monitor_run s mevs))
   /\ Quality.timeoutId (m_hook (monitor_run s (mevs ++ MCleanup :: mevs')))
      = None
   /\ m_listening (monitor_run s (mevs ++ MCleanup :: mevs')) = false)
  /\ (Scroll.scrollProgress
        (s_hook (scrolling_run (sevs ++ SCleanup :: sevs')))
      = Scroll.scrollProgress (s_hook (scrolling_run sevs))
      /\ s_pending (scrolling_run (sevs ++ SCleanup :: sevs')) = []
      /\ s_listening (scrolling_run (sevs ++ SCleanup :: sevs')) = false).
Proof.
  intros Hm Hs. split.
  - unfold monitor_run. rewrite fold_left_app. cbn [fold_left].
    set (st := fold_left monitor_step mevs (monitor_mount s)).
    destruct (monitor_silent mevs' (monitor_step st MCleanup) Hm)
      as (H1 & H2 & H3); done.
  - unfold scrolling_run. rewrite fold_left_app. cbn [fold_left].
    pose proof (scrolling_inv_run sevs) as Hinv. unfold scrolling_run in Hinv.
    set (st := fold_left scrolling_step sevs scrolling_mount) in *.
    destruct (scrolling_silent sevs' (scrolling_step st SCleanup) Hs)
      as (H1 & H2 & H3); [done | by apply cleanup_pending |].
    rewrite H1. done.
Qed.

Lemma cleanup_silences_hooks_witness :
  Quality.quality
    (m_hook (monitor_run Settings.desktop
      ([MBrowser Quality.Resize; MBrowser (Quality.Elapse 40)]
       ++ MCleanup
          :: [MBrowser (Quality.SignalsChange Settings.phone);
              MBrowser Quality.Resize; MBrowser (Quality.Elapse 200)])))
  = Quality.high
  /\ Scroll.scrollProgress
       (s_hook (scrolling_run
         ([] ++ SCleanup
             :: [SBrowser Scroll.ScrollEvent;
                 SBrowser (Scroll.AnimationFrame Scroll.num_800)])))
     = Scroll.num_0.
Proof.
  destruct (cleanup_silences_hooks Settings.desktop
    [MBrowser Quality.Resize; MBrowser (Quality.Elapse 40)]
    [MBrowser (Quality.SignalsChange Settings.phone);
     MBrowser Quality.Resize; MBrowser (Quality.Elapse 200)]
    []
    [SBrowser Scroll.ScrollEvent;
     SBrowser (Scroll.AnimationFrame Scroll.num_800)]
    eq_refl eq_refl) as [(H1 & _) (H2 & _)].
  split; [exact H1 | exact H2].
Defined.

(** X27. The scroll hook's cleanup cancels the pending frame but leaves
    its handle in the ref. When the cleanup runs while a frame is
    requested (as it is right after the effect ran), [updateScroll]
    returns early from then on: whatever follows, a new run of the
    effect and any scroll events and display refreshes included, no
    frame is requested and the published progress never changes. *)
Theorem scroll_cleanup_with_frame_requested_freezes
    (evs evs' : list ScrollingEvent) :
  Scroll.rafId (s_hook (scrolling_run evs)) <> None ->
  Scroll.scrollProgress (s_hook (scrolling_run (evs ++ SCleanup :: evs')))
  = Scroll.scrollProgress (s_hook (scrolling_run evs))
  /\ Scroll.rafId (s_hook (scrolling_run (evs ++ SCleanup :: evs')))
     = Scroll.rafId (s_hook (scrolling_run evs))
  /\ s_pending (scrolling_run (evs ++ SCleanup :: evs')) = [].
Proof.
  intros Hr. unfold scrolling_run in *. rewrite fold_left_app.
  cbn [fold_left].
  pose proof (scrolling_inv_run evs) as Hinv. unfold scrolling_run in Hinv.
  set (st := fold_left scrolling_step evs scrolling_mount) in *.
  assert (frozen (scrolling_step st SCleanup)) as Hf.
  { split; [exact Hr | by apply cleanup_pending]. }
  destruct (frozen_fold evs' _ Hf) as [[_ H1] H2].
  rewrite H2. done.
Qed.

Lemma scroll_cleanup_with_frame_requested_freezes_witness :
  Scroll.scrollProgress
    (s_hook (scrolling_run
      ([] ++ SCleanup
          :: [SEffect; SBrowser Scroll.ScrollEvent;
              SBrowser (Scroll.AnimationFrame Scroll.num_800)])))
  = Scroll.num_0.
Proof.
  refine (proj1 (scroll_cleanup_with_frame_requested_freezes []
    [SEffect; SBrowser Scroll.ScrollEvent;
     SBrowser (Scroll.AnimationFrame Scroll.num_800)] _)).
  discriminate.
Defined.

End HookEffectFacts.

(* ===================================================================== *)
(** * Further properties: the bundles of the two frontend scenes          *)
(* ===================================================================== *)

Module SceneBundleFacts.
Import Quality Scene Frames Bundle BundleFacts.
Local Open Scope Q_scope.
Local Open Scope js_scope.

Section FrontendBundles.

Variable Math_sin : Q -> Q.

Abbreviation HW := (World Helix.HelixData Helix.HelixLocals).
Abbreviation FH := (Helix.Frontend Math_sin no_failure).

Lemma helix_build_allocates (c : Closure Helix.HelixData Helix.HelixLocals)
    (w : HW) :
  exists d, helix_ids d = seq (length (heap w)) (length helix_resources)
    /\ Helix.frontend_build no_failure c w
       = (Normal d,
          with_children (children w ++ [length (heap w)])
            (with_heap (heap w ++ helix_resources) w)).
Proof.
  destruct w as [hp ch mr il co rc fr nh rl cl cu sd mt].
  eexists. split; cycle 1.
  - cbv [Helix.frontend_build Helix.build Helix.rungs_loop Helix.segments
      bind call new_resource appendChild gets modify ret no_failure
      with_heap with_children heap children mountRef isLoaded console
      renderCalls frameRequests nextHandle resizeListeners closures current
      sceneDataRef microtasks Nat.ltb Nat.leb Nat.add].
    rewrite !length_app. simpl. rewrite <- !app_assoc. simpl. reflexivity.
  - unfold helix_ids. simpl. repeat f_equal; lia.
Qed.

Lemma helix_ids_allocated n (d : Helix.HelixData) :
  helix_ids d = seq n (length helix_resources) ->
  Helix.renderer d = n /\ Helix.geo1 d = (n + 1)%nat
  /\ Helix.geo2 d = (n + 2)%nat /\ Helix.mat1 d = (n + 3)%nat
  /\ Helix.mat2 d = (n + 4)%nat
  /\ Helix.rungs d
     = [((n + 5)%nat, (n + 6)%nat); ((n + 7)%nat, (n + 8)%nat);
        ((n + 9)%nat, (n + 10)%nat); ((n + 11)%nat, (n + 12)%nat);
        ((n + 13)%nat, (n + 14)%nat); ((n + 15)%nat, (n + 16)%nat)]
  /\ Helix.particlesGeometry d = (n + 17)%nat
  /\ Helix.particlesMaterial d = (n + 18)%nat.
Proof.
  destruct d as [r g1 g2 m1 m2 rs pg pm o]. unfold helix_ids. simpl.
  intros [= -> -> -> -> -> H].
  do 6 (destruct rs as [|[? ?] rs]; simpl in H;
        [apply (f_equal length) in H; simpl in H; lia|];
        injection H as -> -> H).
  destruct rs as [|[? ?] rs]; simpl in H;
    [|apply (f_equal length) in H; simpl in H; rewrite length_app in H;
      simpl in H; lia].
  injection H as -> ->.
  repeat split; try lia. repeat f_equal; lia.
Qed.
(** The cleanup function on the live bundle: everything of it, the rungs
    included, is disposed once and the canvas is detached. *)
Lemma helix_cleanupFn_releases i c d h (w : HW) :
  closures w !! i = Some c ->
  sceneDataRef w = Some d ->
  heap w = h ++ helix_resources ->
  helix_ids d = seq (length h) (length helix_resources) ->
  children w = [length h] ->
  let w' := snd (Helix.frontend_cleanupFn i w) in
  heap w' = h ++ map disposed_once_more helix_resources
  /\ children w' = []
  /\ sceneDataRef w' = None
  /\ closures w' = alter (with_mounted false) i (closures w)
  /\ microtasks w' = microtasks w
  /\ current w' = current w.
Proof.
  intros Hc Hd Hheap Hal Hchild.
  destruct (helix_ids_allocated _ _ Hal)
    as (E0 & E1 & E2 & E3 & E4 & E5 & E6 & E7).
  unfold Helix.frontend_cleanupFn, in_closure. rewrite Hc.
  unfold bind, update_closure, removeResizeListener, modify, gets, dispose,
    contains, removeChild, modify, gets.
  assert (bool_decide (length h ∈ [length h]) = true) as Hin
    by (apply bool_decide_eq_true_2; constructor).
  simpl. destruct (animationFrame c); simpl; rewrite Hd; simpl;
    rewrite E0, E1, E2, E3, E4, E5, E6, E7, Hheap; simpl;
    rewrite Hchild, Hin; simpl; rewrite ?Hin; simpl;
    rewrite (SceneFacts.alter_app_at _ h _ _ 1) by done;
    rewrite (SceneFacts.alter_app_at _ h _ _ 2) by done;
    rewrite (SceneFacts.alter_app_at _ h _ _ 17) by done;
    rewrite (SceneFacts.alter_app_at _ h _ _ 3) by done;
    rewrite (SceneFacts.alter_app_at _ h _ _ 4) by done;
    rewrite (SceneFacts.alter_app_at _ h _ _ 18) by done;
    rewrite (SceneFacts.alter_app_at _ h _ _ 5) by done;
    rewrite (SceneFacts.alter_app_at _ h _ _ 6) by done;
    rewrite (SceneFacts.alter_app_at _ h _ _ 7) by done;
    rewrite (SceneFacts.alter_app_at _ h _ _ 8) by done;
    rewrite (SceneFacts.alter_app_at _ h _ _ 9) by done;
    rewrite (SceneFacts.alter_app_at _ h _ _ 10) by done;
    rewrite (SceneFacts.alter_app_at _ h _ _ 11) by done;
    rewrite (SceneFacts.alter_app_at _ h _ _ 12) by done;
    rewrite (SceneFacts.alter_app_at _ h _ _ 13) by done;
    rewrite (SceneFacts.alter_app_at _ h _ _ 14) by done;
    rewrite (SceneFacts.alter_app_at _ h _ _ 15) by done;
    rewrite (SceneFacts.alter_app_at _ h _ _ 16) by done;
    rewrite (SceneFacts.alter_app_at _ h _ _ 0) by lia;
    repeat (progress (simpl; rewrite ?Hchild, ?Hin));
    rewrite filter_cons_False by (intros H; apply H; done);
    done.
Qed.
Lemma helix_cleanupFn_no_bundle i c (w : HW) :
  closures w !! i = Some c ->
  sceneDataRef w = None ->
  let w' := snd (Helix.frontend_cleanupFn i w) in
  heap w' = heap w
  /\ children w' = children w
  /\ sceneDataRef w' = None
  /\ closures w' = alter (with_mounted false) i (closures w)
  /\ microtasks w' = microtasks w
  /\ current w' = current w.
Proof.
  intros Hc Hd. unfold Helix.frontend_cleanupFn, in_closure. rewrite Hc.
  unfold bind, update_closure, removeResizeListener, modify, gets.
  simpl. destruct (animationFrame c); simpl; rewrite Hd; done.
Qed.

(** A frame of the helix writes nothing the lifecycle looks at. *)
Lemma helix_animate_lifecycle j t (w : HW) :
  lifecycle_eq helix_ids w (snd (Helix.frontend_animate Math_sin j t w)).
Proof.
  unfold Helix.frontend_animate, in_closure.
  destruct (closures w !! j) as [c|] eqn:Hc;
    [|apply lifecycle_eq_refl].
  unfold bind at 1. unfold gets at 1.
  destruct (mounted c), (sceneDataRef w) as [d|] eqn:Hd;
    try apply lifecycle_eq_refl.
  unfold bind, requestAnimationFrame, gets, modify, ret, update_closure,
    bind, render. simpl.
  unfold lifecycle_eq; simpl; rewrite ?Hd; repeat split; try done;
    intros k; rewrite ?closure_flags_alter; done.
Qed.

Lemma helix_run_bundle_inv evs :
  bundle_inv helix_ids helix_resources (run FH evs).
Proof.
  apply (run_bundle_inv helix_ids helix_resources
           (Helix.frontend_build no_failure) Helix.frontend_locals
           (Helix.frontend_animate Math_sin) Helix.frontend_cleanupFn
           Helix.helix_locals_0).
  - apply helix_build_allocates.
  - repeat constructor.
  - apply helix_cleanupFn_releases.
  - apply helix_cleanupFn_no_bundle.
  - apply helix_animate_lifecycle.
Qed.

(** X24. The two scenes of [frontend/src/App.js], when no library call
    fails. After any sequence of effect runs, unmounts, settled imports
    and animation frames: at most one canvas is under the mount node,
    no GPU object has been disposed twice, and the objects not yet
    disposed are exactly those of the bundle in the shared ref (for the
    helix: the renderer, the two tubes and their materials, the six
    rungs and the particles); with no bundle in the ref, nothing is
    attached and everything ever created has been disposed once. *)
Theorem frontend_scenes_one_bundle_at_a_time (evs evs' : list Event) :
  one_bundle_at_a_time ids sphere_resources Sphere.renderer
    (run (Sphere.Frontend Math_sin no_failure) evs)
  /\ one_bundle_at_a_time helix_ids helix_resources Helix.renderer
       (run (Helix.Frontend Math_sin no_failure) evs').
Proof.
  split.
  - destruct (SceneFacts.run_one_bundle Math_sin evs) as [_ _ _ Hsc].
    unfold one_bundle_at_a_time.
    destruct (sceneDataRef (run (Sphere.Frontend Math_sin no_failure) evs))
      as [d|].
    + destruct Hsc as (h & Hheap & Hrel & Hal & Hch & _).
      rewrite Hch, Hheap. split; [simpl; lia|]. split.
      * apply Forall_app. split.
        -- eapply Forall_impl; [exact Hrel|]. simpl. intros r ->. lia.
        -- repeat constructor.
      * exists h. repeat split; try done; [repeat constructor|].
        destruct (SceneFacts.allocated_at_ids _ _ Hal) as [-> _]. done.
    + destruct Hsc as [Hch Hrel]. rewrite Hch.
      split; [simpl; lia|]. split; [|done].
      eapply Forall_impl; [exact Hrel|]. simpl. intros r ->. lia.
  - destruct (helix_run_bundle_inv evs') as [_ _ _ Hsc].
    unfold one_bundle_at_a_time.
    destruct (sceneDataRef (run FH evs')) as [d|].
    + destruct Hsc as (h & Hheap & Hrel & Hal & Hch & _).
      rewrite Hch, Hheap. split; [simpl; lia|]. split.
      * apply Forall_app. split.
        -- eapply Forall_impl; [exact Hrel|]. simpl. intros r ->. lia.
        -- repeat constructor.
      * exists h. repeat split; try done; [repeat constructor|].
        destruct (helix_ids_allocated _ _ Hal) as [-> _]. done.
    + destruct Hsc as [Hch Hrel]. rewrite Hch.
      split; [simpl; lia|]. split; [|done].
      eapply Forall_impl; [exact Hrel|]. simpl. intros r ->. lia.
Qed.

Lemma helix_animate_without_scene i t (w : HW) :
  sceneDataRef w = None ->
  inert w (snd (Helix.frontend_animate Math_sin i t w)).
Proof.
  intros Hs. unfold Helix.frontend_animate, in_closure.
  destruct (closures w !! i) as [c|]; [|apply SceneUnmountFacts.inert_refl].
  unfold bind, gets. simpl. rewrite Hs.
  destruct (mounted c); apply SceneUnmountFacts.inert_refl.
Qed.

Lemma helix_cleanupFn_without_scene i (w : HW) :
  sceneDataRef w = None -> inert w (snd (Helix.frontend_cleanupFn i w)).
Proof.
  intros Hs. destruct (SceneLoadFacts.helix_cleanupFn_spec i w)
    as (w1 & -> & _ & H & _). by apply H.
Qed.

Lemma helix_cleanupFn_mountRef i (w : HW) :
  mountRef (snd (Helix.frontend_cleanupFn i w)) = mountRef w.
Proof.
  destruct (SceneLoadFacts.helix_cleanupFn_spec i w)
    as (w1 & -> & _ & _ & H & _). exact H.
Qed.

(** X25. [frontend/src/App.js], helix, when no library call fails:
    after the unmount the canvas is gone and every GPU object the
    component ever created, the rungs included, has been disposed
    exactly once, and this stays so whatever happens afterwards (late
    imports, animation frames, further effect runs): nothing is
    created, nothing is disposed a second time, nothing is rendered. *)
Theorem frontend_helix_stays_released (evs evs' : list Event) :
  children (run (Helix.Frontend Math_sin no_failure)
              (evs ++ [Unmount] ++ evs')) = []
  /\ released_once (heap (run (Helix.Frontend Math_sin no_failure)
                            (evs ++ [Unmount] ++ evs')))
  /\ heap (run (Helix.Frontend Math_sin no_failure) (evs ++ [Unmount] ++ evs'))
     = heap (run (Helix.Frontend Math_sin no_failure) (evs ++ [Unmount]))
  /\ renderCalls (run (Helix.Frontend Math_sin no_failure)
                    (evs ++ [Unmount] ++ evs'))
     = renderCalls (run (Helix.Frontend Math_sin no_failure)
                      (evs ++ [Unmount]))
  /\ sceneDataRef (run (Helix.Frontend Math_sin no_failure)
                     (evs ++ [Unmount] ++ evs')) = None.
Proof.
  set (w := run FH (evs ++ [Unmount])).
  assert (run FH (evs ++ [Unmount] ++ evs') = fold_left (step FH) evs' w) as ->.
  { subst w. unfold run. by rewrite app_assoc, fold_left_app. }
  assert (w = unmount FH (run FH evs)) as Hw.
  { subst w. unfold run. by rewrite fold_left_app. }
  pose proof (helix_run_bundle_inv (evs ++ [Unmount]))
    as [Hq Hc Hstale Hsc].
  fold w in Hq, Hc, Hstale, Hsc.
  assert (current w = None) as Hcur.
  { rewrite Hw.
    apply (unmount_no_current helix_ids helix_resources
             (Helix.frontend_build no_failure) Helix.frontend_locals
             (Helix.frontend_animate Math_sin) Helix.frontend_cleanupFn
             Helix.helix_locals_0).
    - repeat constructor.
    - apply helix_cleanupFn_releases.
    - apply helix_cleanupFn_no_bundle.
    - apply helix_run_bundle_inv. }
  assert (sceneDataRef w = None) as Hnone.
  { destruct (sceneDataRef w) as [d|]; [|done].
    destruct Hsc as (h & _ & _ & _ & _ & k & ck & Hk & _). congruence. }
  rewrite Hnone in Hsc. destruct Hsc as [Hch Hrel].
  assert (torn_down w) as Htd.
  { split; [|exact Hnone]. rewrite Hw.
    apply (SceneUnmountFacts.unmount_mountRef no_failure
             (Helix.frontend_build no_failure)
             Helix.frontend_locals (Helix.frontend_animate Math_sin)
             Helix.frontend_cleanupFn Helix.helix_locals_0).
    apply helix_cleanupFn_mountRef. }
  destruct (SceneUnmountFacts.run_torn_down no_failure
              (Helix.frontend_build no_failure)
              Helix.frontend_locals (Helix.frontend_animate Math_sin)
              Helix.frontend_cleanupFn Helix.helix_locals_0
              helix_animate_without_scene helix_cleanupFn_without_scene
              evs' w Htd) as (_ & E2 & E3 & E4 & E5).
  change (FrontendComponent no_failure (Helix.frontend_build no_failure)
            Helix.frontend_locals (Helix.frontend_animate Math_sin)
            Helix.frontend_cleanupFn Helix.helix_locals_0)
    with FH in E2, E3, E4, E5.
  rewrite E2, E3, E4, E5. done.
Qed.

Lemma sphere_rerun_rebuilds evs q s now :
  mountRef (run (Sphere.Frontend Math_sin no_failure) evs) = true ->
  rebuilt ids sphere_resources
    (run (Sphere.Frontend Math_sin no_failure) (evs ++ [Commit q s]))
    (run (Sphere.Frontend Math_sin no_failure)
       (evs ++ [Commit q s;
                ImportSettled
                  (length (closures
                     (run (Sphere.Frontend Math_sin no_failure) evs)))
                  (Normal tt) now])).
Proof.
  apply (rerun_rebuilds ids sphere_resources
           (Sphere.build no_failure) Sphere.frontend_locals
           (Sphere.frontend_animate Math_sin) Sphere.frontend_cleanupFn
           Sphere.sphere_locals_0).
  - intros c w. exact (SceneFacts.build_no_failure c w).
  - repeat constructor.
  - intros i c d h w. exact (SceneFacts.cleanupFn_releases i c d h w).
  - intros i c w. exact (SceneFacts.cleanupFn_without_scene i c w).
  - intros j t w. exact (SceneFacts.frontend_animate_same_lifecycle Math_sin j t w).
  - apply SceneUnmountFacts.sphere_cleanupFn_mountRef.
Qed.

Lemma helix_rerun_rebuilds evs q s now :
  mountRef (run FH evs) = true ->
  rebuilt helix_ids helix_resources
    (run FH (evs ++ [Commit q s]))
    (run FH (evs ++ [Commit q s;
                     ImportSettled (length (closures (run FH evs)))
                       (Normal tt) now])).
Proof.
  apply (rerun_rebuilds helix_ids helix_resources
           (Helix.frontend_build no_failure) Helix.frontend_locals
           (Helix.frontend_animate Math_sin) Helix.frontend_cleanupFn
           Helix.helix_locals_0).
  - apply helix_build_allocates.
  - repeat constructor.
  - apply helix_cleanupFn_releases.
  - apply helix_cleanupFn_no_bundle.
  - apply helix_animate_lifecycle.
  - apply helix_cleanupFn_mountRef.
Qed.

(** X28. [frontend/src/App.js], both scenes, when no library call fails
    and the component is mounted. Every new run of the effect (for the
    sphere after each change of the quality or of the scroll progress,
    for the helix after each change of the scroll progress) first
    releases everything: right after it no canvas is attached, no bundle
    is in the shared ref and every GPU object created so far has been
    disposed once. When the import of that run settles, a whole new set
    of objects (7 for the sphere, 19 for the helix) is created and its
    canvas attached. *)
Theorem effect_rerun_rebuilds_the_scene (evs evs' : list Event)
    (q q' : QualityTier) (s s' now now' : Q) :
  mountRef (run (Sphere.Frontend Math_sin no_failure) evs) = true ->
  mountRef (run (Helix.Frontend Math_sin no_failure) evs') = true ->
  rebuilt ids sphere_resources
    (run (Sphere.Frontend Math_sin no_failure) (evs ++ [Commit q s]))
    (run (Sphere.Frontend Math_sin no_failure)
       (evs ++ [Commit q s;
                ImportSettled
                  (length (closures
                     (run (Sphere.Frontend Math_sin no_failure) evs)))
                  (Normal tt) now]))
  /\ rebuilt helix_ids helix_resources
       (run (Helix.Frontend Math_sin no_failure) (evs' ++ [Commit q' s']))
       (run (Helix.Frontend Math_sin no_failure)
          (evs' ++ [Commit q' s';
                    ImportSettled
                      (length (closures
                         (run (Helix.Frontend Math_sin no_failure) evs')))
                      (Normal tt) now'])).
Proof.
  intros H1 H2. split.
  - by apply sphere_rerun_rebuilds.
  - by apply helix_rerun_rebuilds.
Qed.

End FrontendBundles.

Lemma effect_rerun_rebuilds_the_scene_witness :
  rebuilt ids sphere_resources
    (run (Sphere.Frontend sin_0 no_failure) ([] ++ [Commit high 0]))
    (run (Sphere.Frontend sin_0 no_failure)
       ([] ++ [Commit high 0;
               ImportSettled
                 (length (closures (run (Sphere.Frontend sin_0 no_failure) [])))
                 (Normal tt) 0])).
Proof.
  refine (proj1 (effect_rerun_rebuilds_the_scene sin_0 [] [] high high
                   0 0 0 0 _ _)); reflexivity.
Defined.


End SceneBundleFacts.

(* ===================================================================== *)
(** * Opacity against scroll progress                                      *)
(* ===================================================================== *)

Module OpacityFacts.
Import Quality Scene Frames HelixOpacity.
Local Open Scope Q_scope.
Local Open Scope js_scope.

Section FrontendHelix.

Variable Math_sin : Q -> Q.
Variable throws : Site -> option Err.

Abbreviation HM := (M Helix.HelixData Helix.HelixLocals).
Abbreviation FH := (Helix.Frontend Math_sin throws).

(** ** What keeps the loops in step *)

Lemma synced_at_alter (f : HC -> HC) i l j :
  (forall c, l !! i = Some c -> synced c -> synced (f c)) ->
  synced_at l j -> synced_at (alter f i l) j.
Proof.
  intros Hf (c & Hc & Hs). destruct (decide (i = j)) as [->|Hne].
  - exists (f c). rewrite list_lookup_alter_eq, Hc. split; [done|].
    by apply Hf.
  - exists c. by rewrite list_lookup_alter_ne.
Qed.

Lemma loops_synced_tail r L (w : HW) :
  loops_synced (r :: L) w -> loops_synced L w.
Proof.
  intros [H1 H2]. split; [exact H1|]. intros r' Hr. apply H2.
  apply elem_of_app in Hr as [Hr|Hr]; apply elem_of_app;
    [left; by right | by right].
Qed.

(** A step that keeps the synced closures synced and requests frames
    only for synced closures. *)
Lemma loops_synced_step L (w w' : HW) :
  loops_synced L w ->
  (forall d, sceneDataRef w' = Some d -> as_constructed (Helix.objects d)) ->
  (forall j, synced_at (closures w) j -> synced_at (closures w') j) ->
  (forall r, r ∈ frameRequests w' ->
     r ∈ frameRequests w \/ synced_at (closures w') (snd r)) ->
  loops_synced L w'.
Proof.
  intros [H1 H2] Hs Hc Hr. split; [exact Hs|]. intros r Hin.
  apply elem_of_app in Hin as [Hin|Hin].
  - apply Hc, H2, elem_of_app. by left.
  - destruct (Hr r Hin) as [Hold|Hnew]; [|exact Hnew].
    apply Hc, H2, elem_of_app. by right.
Qed.

Lemma keeps_bind L {A B} (m : HM A) (k : A -> HM B) :
  keeps L m -> (forall a, keeps L (k a)) -> keeps L (x <- m ;; k x).
Proof.
  intros Hm Hk w H. unfold bind. pose proof (Hm w H) as H1.
  destruct (m w) as [[a|e] w1]; simpl in *; [|exact H1].
  by apply Hk.
Qed.

Lemma keeps_ret L {A} (a : A) : keeps L (ret a : HM A).
Proof. intros w H. exact H. Qed.

Lemma keeps_throw L {A} e : keeps L (throw e : HM A).
Proof. intros w H. exact H. Qed.

Lemma keeps_gets L {A} (f : HW -> A) : keeps L (gets f).
Proof. intros w H. exact H. Qed.

Lemma keeps_in_closure L {A} i (dflt : A) (k : HC -> HM A) :
  (forall c, keeps L (k c)) -> keeps L (in_closure i dflt k).
Proof.
  intros Hk w H. unfold in_closure.
  destruct (closures w !! i) as [c|]; [by apply Hk | exact H].
Qed.

Lemma keeps_try_catch L {A} (m : HM A) (handler : Err -> HM A) :
  keeps L m -> (forall e, keeps L (handler e)) -> keeps L (try_catch m handler).
Proof.
  intros Hm Hh w H. unfold try_catch. pose proof (Hm w H) as H1.
  destruct (m w) as [[a|e] w1]; simpl in *; [exact H1 | by apply Hh].
Qed.

(** A change of the world that leaves the closures, the frame requests
    and the shared ref as they are. *)
Lemma keeps_modify L (f : HW -> HW) :
  (forall w, closures (f w) = closures w
             /\ frameRequests (f w) = frameRequests w
             /\ sceneDataRef (f w) = sceneDataRef w) ->
  keeps L (modify f).
Proof.
  intros Hf w H. destruct (Hf w) as (E1 & E2 & E3). unfold modify. simpl.
  apply (loops_synced_step L w); [exact H | | |].
  - rewrite E3. apply H.
  - rewrite E1. done.
  - rewrite E2. by left.
Qed.

Lemma keeps_call L s : keeps L (call throws s : HM unit).
Proof. intros w H. unfold call. by destruct (throws s). Qed.

Lemma keeps_new_resource L s k : keeps L (new_resource throws s k : HM nat).
Proof.
  unfold new_resource. apply keeps_bind; [apply keeps_call | intros _].
  apply keeps_bind; [apply keeps_gets | intros id].
  apply keeps_bind; [by apply keeps_modify | intros _]. apply keeps_ret.
Qed.

Lemma keeps_appendChild L r : keeps L (appendChild throws r : HM unit).
Proof.
  unfold appendChild. apply keeps_bind; [apply keeps_call | intros _].
  by apply keeps_modify.
Qed.

Lemma keeps_dispose L id : keeps L (dispose id : HM unit).
Proof. unfold dispose. by apply keeps_modify. Qed.

Lemma keeps_removeChild L r : keeps L (removeChild r : HM unit).
Proof.
  intros w H. unfold removeChild.
  destruct (bool_decide (r ∈ children w)); [|exact H].
  simpl. apply (loops_synced_step L w); try done; [apply H | by left].
Qed.

Lemma keeps_update_closure L i (f : HC -> HC) :
  (forall c, synced c -> synced (f c)) ->
  keeps L (update_closure i f : HM unit).
Proof.
  intros Hf w H. unfold update_closure, modify. simpl.
  apply (loops_synced_step L w); [exact H | apply H | | by left].
  intros j. simpl. apply synced_at_alter. intros c _. apply Hf.
Qed.

Lemma keeps_new_closure L q s l : keeps L (new_closure q s l : HM nat).
Proof.
  intros w H. unfold new_closure, bind, gets, modify, ret. simpl.
  apply (loops_synced_step L w); [exact H | apply H | | by left].
  intros j (c & Hc & Hs). exists c. simpl.
  split; [by apply lookup_app_l_Some | exact Hs].
Qed.

Lemma keeps_cancelAnimationFrame L h :
  keeps L (cancelAnimationFrame h : HM unit).
Proof.
  destruct h as [h|]; [|apply keeps_ret].
  intros w H. unfold cancelAnimationFrame, modify. simpl.
  apply (loops_synced_step L w); [exact H | apply H | done |].
  simpl. intros r Hr. left. by apply list_elem_of_filter in Hr as [_ Hr].
Qed.

Lemma keeps_fulfil L i b : keeps L (fulfil i b : HM unit).
Proof.
  unfold fulfil. apply keeps_in_closure. intros c.
  apply keeps_bind; [by apply keeps_modify | intros _].
  by apply keeps_update_closure.
Qed.

Lemma keeps_promise_then L i : keeps L (promise_then i : HM unit).
Proof.
  unfold promise_then. apply keeps_in_closure. intros c.
  destruct (promise c); [by apply keeps_update_closure | by apply keeps_modify].
Qed.

Lemma keeps_forEach L {A} (l : list A) (f : A -> HM unit) :
  (forall a, keeps L (f a)) -> keeps L (Helix.forEach l f).
Proof.
  intros Hf. induction l as [|a l IH]; simpl; [apply keeps_ret|].
  apply keeps_bind; [apply Hf | intros _; exact IH].
Qed.

(** ** The scene's own functions *)

Lemma keeps_rungs_loop L fuel : forall i acc,
  keeps L (Helix.rungs_loop throws fuel i acc).
Proof.
  induction fuel as [|fuel IH]; intros i acc; simpl; [apply keeps_ret|].
  destruct (i <? Helix.segments)%nat; [|apply keeps_ret].
  repeat (apply keeps_bind;
          [first [apply keeps_call | apply keeps_new_resource] | intros ?]).
  apply IH.
Qed.

Lemma keeps_build L o : keeps L (Helix.build throws o).
Proof.
  unfold Helix.build.
  repeat (apply keeps_bind;
          [first [apply keeps_call | apply keeps_new_resource
                 | apply keeps_appendChild | apply keeps_rungs_loop]
          | intros ?]).
  apply keeps_ret.
Qed.

Lemma yields_bind {A B} (P : B -> Prop) (m : HM A) (k : A -> HM B) :
  (forall a, yields P (k a)) -> yields P (x <- m ;; k x).
Proof.
  intros Hk w b w' E. unfold bind in E.
  destruct (m w) as [[a|e] w1]; [|discriminate E].
  exact (Hk a w1 b w' E).
Qed.

(** The bundle a construction returns holds the opacities it was
    given. *)
Lemma build_objects o :
  yields (fun d => Helix.objects d = o) (Helix.build throws o).
Proof.
  unfold Helix.build. repeat (apply yields_bind; intros ?).
  intros w d w' [= <- _]. reflexivity.
Qed.

Lemma keeps_cleanupFn L i : keeps L (Helix.frontend_cleanupFn i).
Proof.
  unfold Helix.frontend_cleanupFn. apply keeps_in_closure. intros c.
  apply keeps_bind; [by apply keeps_update_closure | intros _].
  apply keeps_bind; [by apply keeps_modify | intros _].
  apply keeps_bind; [apply keeps_cancelAnimationFrame | intros _].
  apply keeps_bind; [apply keeps_gets | intros [d|]]; [|apply keeps_ret].
  repeat (apply keeps_bind; [apply keeps_dispose | intros _]).
  apply keeps_bind.
  { apply keeps_forEach. intros rung.
    apply keeps_bind; [apply keeps_dispose | intros _; apply keeps_dispose]. }
  intros _. apply keeps_bind; [apply keeps_dispose | intros _].
  apply keeps_bind; [apply keeps_gets | intros inside].
  apply keeps_bind;
    [destruct inside; [apply keeps_removeChild | apply keeps_ret] | intros _].
  intros w H. unfold modify. simpl.
  apply (loops_synced_step L w); [exact H | done | done |].
  intros r Hr. left. exact Hr.
Qed.

(** A frame of a loop whose copy is in step: the test for a change of
    the scroll progress fails, the opacities stay. *)
Lemma keeps_animate L i t :
  (exists r, r ∈ L /\ snd r = i) ->
  keeps L (Helix.frontend_animate Math_sin i t).
Proof.
  intros (r & Hr & <-) w H.
  destruct (proj2 H r) as (c & Hc & Hs); [apply elem_of_app; by left|].
  unfold Helix.frontend_animate, in_closure. rewrite Hc.
  unfold bind at 1. unfold gets at 1.
  destruct (mounted c), (sceneDataRef w) as [d|] eqn:Hd; try exact H.
  unfold bind, requestAnimationFrame, gets, modify, ret, update_closure,
    bind, render. simpl.
  unfold synced in Hs. rewrite Hs, SceneFacts.scroll_changed_same.
  apply (loops_synced_step L w); [exact H | | |]; simpl.
  - intros d' [= <-]. simpl. apply (proj1 H d Hd).
  - intros j Hj. apply synced_at_alter; [|by apply synced_at_alter].
    intros c0 Hc0 _. rewrite list_lookup_alter_eq, Hc in Hc0.
    injection Hc0 as <-. reflexivity.
  - intros r' Hr'. apply elem_of_app in Hr' as [Hr'|Hr']; [by left|].
    right. apply list_elem_of_singleton in Hr' as ->. simpl.
    eexists. rewrite !list_lookup_alter_eq, Hc. simpl.
    split; reflexivity.
Qed.

(** The construction: the new bundle holds the opacities of the
    constructors, and the loop starts with its copy in step. *)
Lemma keeps_initScene_try L i imported now :
  keeps L (initScene_try throws (Helix.frontend_build throws)
             Helix.frontend_locals i imported now).
Proof.
  intros w H. unfold initScene_try. unfold bind at 1.
  destruct imported as [[]|e]; simpl; [|exact H].
  unfold in_closure. destruct (closures w !! i) as [c|] eqn:Hc; [|exact H].
  unfold bind at 1. unfold gets at 1.
  destruct (negb (mounted c) || negb (mountRef w)); [exact H|].
  unfold bind at 1. unfold Helix.frontend_build.
  pose proof (keeps_build L Helix.frontend_objects_0 w H) as H1.
  pose proof (SceneRootFacts.helix_build_same_closures throws
                Helix.frontend_objects_0 w) as (Hcl & _).
  pose proof (build_objects Helix.frontend_objects_0 w) as Ho.
  destruct (Helix.build throws Helix.frontend_objects_0 w) as [[d|e] w1];
    simpl in H1, Hcl; [|exact H1].
  specialize (Ho d w1 eq_refl).
  assert (closures w1 !! i = Some c) as Hc1 by (by rewrite Hcl).
  unfold bind, modify, update_closure, addResizeListener, bind, call,
    requestAnimationFrame, gets, modify, setIsLoaded, modify, ret.
  simpl. destruct (throws window_addEventListener); simpl.
  - apply (loops_synced_step L w1); [exact H1 | | | by left]; simpl.
    + intros d' [= <-]. rewrite Ho. done.
    + intros j. apply synced_at_alter. intros c' Hc' _.
      rewrite Hc1 in Hc'. injection Hc' as <-. reflexivity.
  - apply (loops_synced_step L w1); [exact H1 | | |]; simpl.
    + intros d' [= <-]. rewrite Ho. done.
    + intros j Hj. apply synced_at_alter; [done|].
      apply synced_at_alter; [|exact Hj]. intros c' Hc' _.
      rewrite Hc1 in Hc'. injection Hc' as <-. reflexivity.
    + intros r' Hr'. apply elem_of_app in Hr' as [Hr'|Hr']; [by left|].
      right. apply list_elem_of_singleton in Hr' as ->. simpl.
      exists (with_animationFrame (Some (nextHandle w1))
                (with_locals (Helix.frontend_locals c now) c)).
      rewrite !list_lookup_alter_eq, Hc1. done.
Qed.

(** ** The component *)

Lemma keeps_resume L i imported now : keeps L (resume FH i imported now).
Proof.
  change (resume FH i imported now)
    with (initScene_resume throws (Helix.frontend_build throws)
            Helix.frontend_locals i imported now).
  unfold initScene_resume. apply keeps_in_closure. intros c.
  destruct (promise c); [|apply keeps_ret].
  apply keeps_bind; [|intros b; apply keeps_fulfil].
  apply keeps_try_catch; [apply keeps_initScene_try|]. intros e.
  unfold on_error, console_error, setIsLoaded.
  apply keeps_bind; [by apply keeps_modify | intros _].
  apply keeps_bind; [by apply keeps_modify | intros _]. apply keeps_ret.
Qed.

Lemma keeps_effect L q s : keeps L (effect FH q s).
Proof.
  change (effect FH q s)
    with (frontend_effect (Data:=Helix.HelixData) q s Helix.helix_locals_0).
  unfold frontend_effect.
  apply keeps_bind; [apply keeps_new_closure | intros i].
  apply keeps_bind; [apply keeps_gets | intros ref].
  apply keeps_bind; [|intros _; apply keeps_ret].
  destruct (negb ref); [apply keeps_fulfil | apply keeps_ret].
Qed.

Lemma keeps_effect_cleanup L i : keeps L (effect_cleanup FH i).
Proof.
  change (effect_cleanup FH i) with (@frontend_effect_cleanup
    Helix.HelixData Helix.HelixLocals i).
  unfold frontend_effect_cleanup.
  apply keeps_bind; [by apply keeps_update_closure | intros _].
  apply keeps_promise_then.
Qed.

Lemma keeps_reaction L i : keeps L (reaction FH i).
Proof.
  change (reaction FH i) with (frontend_reaction Helix.frontend_cleanupFn i).
  unfold frontend_reaction. apply keeps_in_closure. intros c.
  destruct (promise c) as [|[|]];
    [apply keeps_ret | apply keeps_cleanupFn | apply keeps_ret].
Qed.

Lemma with_current_loops_synced L c (w : HW) :
  loops_synced L w -> loops_synced L (with_current c w).
Proof. intros H. exact H. Qed.

Lemma drain_loops_synced L (w : HW) :
  loops_synced L w -> loops_synced L (drain FH w).
Proof.
  intros H. unfold drain.
  assert (loops_synced L (with_microtasks [] w)) as H0 by exact H.
  revert H0. generalize (with_microtasks [] w).
  induction (microtasks w) as [|i l IH]; intros w0 H0; simpl; [exact H0|].
  apply IH. by apply keeps_reaction.
Qed.

Lemma commit_loops_synced q s (w : HW) :
  loops_synced [] w -> loops_synced [] (commit FH q s w).
Proof.
  intros H. unfold commit.
  assert (loops_synced []
            (match current w with
             | Some i => run_callback (effect_cleanup FH i) w
             | None => w
             end)) as H1.
  { destruct (current w); [by apply keeps_effect_cleanup | exact H]. }
  revert H1. generalize (match current w with
                         | Some i => run_callback (effect_cleanup FH i) w
                         | None => w
                         end). intros w1 H1.
  pose proof (keeps_effect [] q s w1 H1) as H2.
  destruct (effect FH q s w1) as [[i|e] w2]; simpl in H2;
    by apply drain_loops_synced.
Qed.

Lemma unmount_loops_synced (w : HW) :
  loops_synced [] w -> loops_synced [] (unmount FH w).
Proof.
  intros H. unfold unmount. apply drain_loops_synced.
  apply with_current_loops_synced.
  assert (loops_synced [] (with_mountRef false w)) as H0 by exact H.
  revert H0. generalize (with_mountRef false w). intros w1 H1.
  destruct (current w1); [by apply keeps_effect_cleanup | exact H1].
Qed.

Lemma import_settled_loops_synced i imported now (w : HW) :
  loops_synced [] w -> loops_synced [] (import_settled FH i imported now w).
Proof.
  intros H. unfold import_settled. apply drain_loops_synced.
  by apply keeps_resume.
Qed.

(** The display refreshes: every callback the browser serves belongs to
    a loop whose copy is in step, and leaves it so. *)
Lemma animation_frame_loops_synced t (w : HW) :
  loops_synced [] w -> loops_synced [] (animation_frame FH t w).
Proof.
  intros H. unfold animation_frame.
  assert (loops_synced (frameRequests w)
            (with_frameRequests [] (nextHandle w) w)) as H0.
  { destruct H as [H1 H2]. split; [exact H1|]. intros r Hr. simpl in *.
    rewrite app_nil_r in Hr. by apply H2. }
  revert H0. generalize (with_frameRequests [] (nextHandle w) w).
  induction (frameRequests w) as [|r l IH]; intros w0 H0; simpl; [exact H0|].
  apply IH. apply (loops_synced_tail r).
  apply (keeps_animate (r :: l) (snd r) t); [|exact H0].
  exists r. split; [by left | reflexivity].
Qed.

Lemma step_loops_synced e (w : HW) :
  loops_synced [] w -> loops_synced [] (step FH w e).
Proof.
  destruct e; simpl.
  - apply commit_loops_synced.
  - apply unmount_loops_synced.
  - apply import_settled_loops_synced.
  - apply animation_frame_loops_synced.
Qed.

Lemma run_loops_synced evs : loops_synced [] (run FH evs).
Proof.
  unfold run.
  assert (loops_synced []
            (@initial_world Helix.HelixData Helix.HelixLocals)) as H0.
  { split; [intros d [=] | intros r Hr]. simpl in Hr.
    by apply elem_of_nil in Hr. }
  revert H0. generalize (@initial_world Helix.HelixData Helix.HelixLocals).
  induction evs as [|e evs IH]; intros w Hw; simpl; [exact Hw|].
  apply IH, step_loops_synced, Hw.
Qed.

(** C4, as the code has it. In a processed frame of the sphere (both
    files) the overall opacity max(0.2, 1 - 0.8 s) does not increase
    with the scroll progress s, and the edge and particle opacities are
    that value times 0.6 and 0.45. The helix of [frontend/src/App.js]
    never rewrites its opacities: the loop compares the scroll progress
    with its own copy of it, so whatever the scroll progress and
    whatever happens, the materials keep the opacities 0.7, 0.65 and
    0.4 they were created with. The helix of [src/App.js] writes
    0.65 + 0.31 s and 0.62 + 0.33 s in every frame: its strand
    opacities do not decrease with s. *)
Theorem opacity_against_scroll_progress
    (s1 s2 t : Q) (o : Sphere.SphereObjects) (h : Helix.HelixObjects)
    (evs : list Event) :
  s1 <= s2 ->
  let sphere s := Sphere.frame Math_sin s t o in
  let helix s := Helix.root_frame Math_sin s t h in
  Sphere.material_opacity (sphere s2) <= Sphere.material_opacity (sphere s1)
  /\ Sphere.edgesMaterial_opacity (sphere s2)
     <= Sphere.edgesMaterial_opacity (sphere s1)
  /\ Sphere.particlesMaterial_opacity (sphere s2)
     <= Sphere.particlesMaterial_opacity (sphere s1)
  /\ Sphere.material_opacity (sphere s1) == Qmax 0.2 (1 - s1 * 0.8)
  /\ Sphere.edgesMaterial_opacity (sphere s1)
     == Sphere.material_opacity (sphere s1) * 0.6
  /\ Sphere.particlesMaterial_opacity (sphere s1)
     == Sphere.material_opacity (sphere s1) * 0.45
  /\ (forall d, sceneDataRef (run FH evs) = Some d ->
        Helix.mat1_opacity (Helix.objects d) = 0.7
        /\ Helix.mat2_opacity (Helix.objects d) = 0.65
        /\ Helix.particlesMaterial_opacity (Helix.objects d) = 0.4)
  /\ Helix.mat1_opacity (helix s1) == 0.65 + 0.31 * s1
  /\ Helix.mat2_opacity (helix s1) == 0.62 + 0.33 * s1
  /\ Helix.mat1_opacity (helix s1) <= Helix.mat1_opacity (helix s2)
  /\ Helix.mat2_opacity (helix s1) <= Helix.mat2_opacity (helix s2).
Proof.
  intros Hs. simpl.
  pose proof (SceneFacts.sOpacity_non_increasing s1 s2 Hs) as Hmono.
  assert (forall d, sceneDataRef (run FH evs) = Some d ->
            Helix.mat1_opacity (Helix.objects d) = 0.7
            /\ Helix.mat2_opacity (Helix.objects d) = 0.65
            /\ Helix.particlesMaterial_opacity (Helix.objects d) = 0.4) as Hf.
  { intros d Hd.
    destruct (proj1 (run_loops_synced evs) d Hd) as (H1 & H2 & _ & H4).
    done. }
  split; [lra|]. split; [lra|]. split; [lra|]. split; [reflexivity|].
  split; [reflexivity|]. split; [reflexivity|]. split; [exact Hf|].
  split; [reflexivity|]. split; [reflexivity|]. split; lra.
Qed.

End FrontendHelix.

Lemma opacity_against_scroll_progress_witness :
  Sphere.material_opacity
    (Sphere.frame sin_0 (3#4) 0.009 Sphere.sphere_objects_0)
  <= Sphere.material_opacity
       (Sphere.frame sin_0 (1#4) 0.009 Sphere.sphere_objects_0)
  /\ (exists d,
        sceneDataRef (run (Helix.Frontend sin_0 no_failure) helix_scrolled)
        = Some d
        /\ Helix.mat1_opacity (Helix.objects d) = 0.7)
  /\ Helix.mat1_opacity
       (Helix.root_frame sin_0 (1#4) 0.009 Helix.frontend_objects_0)
     <= Helix.mat1_opacity
          (Helix.root_frame sin_0 (3#4) 0.009 Helix.frontend_objects_0).
Proof.
  assert (1#4 <= 3#4) as Hle by (vm_compute; discriminate).
  pose proof (opacity_against_scroll_progress sin_0 no_failure (1#4) (3#4)
                0.009 Sphere.sphere_objects_0 Helix.frontend_objects_0
                helix_scrolled Hle) as H.
  cbv beta zeta in H.
  destruct H as (H1 & _ & _ & _ & _ & _ & H7 & _ & _ & H10 & _).
  split; [exact H1|]. split; [|exact H10].
  assert (exists d,
            sceneDataRef (run (Helix.Frontend sin_0 no_failure) helix_scrolled)
            = Some d) as [d Hd] by (vm_compute; eexists; reflexivity).
  exists d. split; [exact Hd | apply (H7 d Hd)].
Defined.

End OpacityFacts.
